(* ===== verification/_CoqProject ===== *)
-Q . S2P
Prelude.v
Status.v
EventQueue.v
Handles.v
SensorsHal.v
Dispatch.v
PollLoop.v
SensorThreads.v
SensorInit.v
HalModules.v
MultiHal.v
Executions.v
SensorLiveness.v
WriterLiveness.v
HalClose.v
InitThreads.v
ControlThreads.v
CString.v
MacAddr.v
Posix.v
MacStore.v
Power.v
PowerLiveness.v
Thermal.v
Health.v
DeviceProps.v
CameraMetadata.v
SensorServer.v
SensorManager.v
SensorInstances.v
SensorManagerThreads.v
LegacyShims.v
AudioFrames.v
