(* ===== verification/Prelude.v ===== *)
(** * Verification of the native components of the mozart device tree

    The repository is the device tree of the Huawei MediaPad M2 8.0 (mozart)
    for LineageOS.  Most of it is configuration; its own programs are the C and
    C++ files under src/device/huawei/mozart, and this library is about them:
    the sensors multi-HAL above all, then the legacy sensor manager and its
    Binder interface, the power and thermal HALs, the MAC address service, the
    health service, the init library, the Bluetooth name and the smaller shims
    that keep old vendor libraries working.

    ** The parts and their files

    Sensors multi-HAL (sensors/).  The framework calls one HAL, which fans the
    control calls out to several sub-HALs and merges their events.  Each
    sub-HAL has a writer thread that polls it into a ring buffer of its own;
    the framework's thread takes events from the ring buffers.

    - EventQueue.v: SensorEventQueue.cpp, the ring buffer.  Pointers into the
      array are indices, conditions are what an operation says it broadcast.
      [fifo] is the abstract specification; [EventSource] the interface the
      reader is proved against, [ring_source_laws] its implementation.
    - Handles.v: [FullHandle] and the tables between the global handles of the
      framework and the local handles of the sub-HALs (multihal.cpp 55-124).
    - SensorsHal.v: the types of hardware/sensors.h and the calls into a
      sub-HAL.
    - Dispatch.v: the control calls (multihal.cpp 172-316, 394-561).
      [control_spec] is what the framework is promised.
    - PollLoop.v: [sensors_poll_context_t::poll] and the remapping of events
      (multihal.cpp 330-392).
    - SensorThreads.v: [writerTask] and [poll] interleaved (multihal.cpp
      126-170, 234-248), a transition system over the queues, the mutex and the
      condition variables.
    - SensorInit.v: the configuration file, the loading and opening of the
      sub-HALs and the building of the sensor list (multihal.cpp 566-848).
    - MultiHal.v: the parts together.  The table [poll] reads is the one the
      initialisation left, and there is one queue per opened device.
    - Executions.v: executions that never end, and weak and strong fairness.
    - SensorLiveness.v and WriterLiveness.v: the fair executions of the system of
      SensorThreads.v.
    - InitThreads.v: the calls of SensorInit.v again, access by access, from
      several threads at once.
    - HalClose.v: [device__close] beside the threads of SensorThreads.v, which it
      does not stop (multihal.cpp 477-496).
    - HalModules.v: the tables of function pointers through which the framework
      calls, the module descriptors of the sensors, power and thermal HALs and
      the device that [open_sensors] fills in (multihal.cpp 780-823, the ends of
      power.c and thermal.c).
    - ControlThreads.v: [device__activate] and [device__batch] again, access by
      access, from several threads at once.

    Legacy sensor manager (libshims/gui/).  Vendor blobs use the sensor manager
    of an older Android, which is a client of the sensor service over Binder and
    keeps a copy of its list.

    - Status.v: the codes of utils/Errors.h, as a class with its laws.
    - SensorServer.v: ISensorServer.cpp, the proxy that writes a call into a
      parcel and the stub that reads it.  [ISensorServer] is the interface the
      two sides share; parcels and transactions are classes with laws, and
      [Loopback] an instance of them.
    - SensorManager.v: one [SensorManager], over explicit memory (the array of
      the list, its pointers, what free does to them), in a monad whose
      outcomes are done, fatal log and undefined.  [cache] is the abstract
      specification, [represents] the relation between the two.
    - SensorInstances.v: [getInstanceForPackage] and the map of instances; the
      sensor manager over a remote proxy.
    - SensorManagerThreads.v: the connection in its steps, with the death
      notification of another thread between them.
    - LegacyShims.v: libshims/gui/Fence.cpp, GraphicBufferMapper.cpp and
      GraphicBuffer.cpp, libshims/libshim_log.cpp, and the module loader,
      dlopener/dlopen.c.
    - CameraMetadata.v: libshims/gui/CameraMetadata.cpp.

    MAC address service (macaddr/mac_addr_normalization.cpp).  CString.v has
    characters and the C library's text functions, MacAddr.v the parsing and
    printing, Posix.v programs over system calls with the laws of a kernel,
    MacStore.v the program itself, function by function.

    Power HAL (power/power.c): Power.v, the hints, the deadline arithmetic and
    the worker thread, interleaved with any number of callers; PowerLiveness.v,
    the fair executions of this system.

    Thermal HAL (thermal/thermal.c): Thermal.v, the search of the thermal zones
    and the two lists.

    Health service (health/HealthService.cpp): Health.v.  Init library and
    Bluetooth name (libinit/init_huawei_hi3635.cpp, bluetooth/bdroid_buildcfg.h):
    DeviceProps.v.  The inline functions of the audio HAL interface
    (include/hardware/audio.h): AudioFrames.v.

    ** How the code is modelled

    Definitions have the names of the source where they translate a function.
    A C [int] is a [Z], and every operation that could leave its range is
    wrapped ([i32], [i64], [u32], [u64], [u8]).  A C array is a list whose
    accesses ([arr_get], [arr_set]) have no result outside of it; code that
    mutates globals or can have undefined behaviour is in the monad [stM], where
    undefined behaviour, a null dereference or an exception nobody catches is
    [None].  SensorInit.v distinguishes a crash from a thread that blocks for
    ever.  Log messages are left out.

    Code outside of the repository is a parameter: the sub-HALs are functions
    of the call and of a state of their own; header constants, the kernel, the
    property area, parcels and Binder, the sensor service and the metadata
    library are classes, with what their documentation promises as a second class
    of laws.  Each such class has an
    instance, which the witnesses use.

    Concurrency is a step relation (SensorThreads.v) or a step function
    (Power.v) in which one critical section, one unlocked store or one sysfs
    write is one step.  Critical sections can be single steps because the state
    they touch is only accessed under their lock; the scan of [poll] is split
    into one step per queue all the same, because the sub-HALs store events
    meanwhile.  The control calls take no lock, so in
    ControlThreads.v every access of a shared array and every call into a sub-HAL
    is a step, and the initialisation uses three locks, so in InitThreads.v every
    lock, unlock and access of a global is one; a thread that runs alone does what
    Dispatch.v and SensorInit.v say.  Liveness is
    about infinite executions (Executions.v) under a scheduler that is weakly fair
    to the framework's thread and, for the writers, strongly fair: a thread that
    can take the mutex again and again does so some time.

    ** What the theorems show

    - Delivery: whatever the interleaving, [poll] takes of each sub-HAL exactly
      a prefix of what that sub-HAL wrote, in order and remapped; no wakeup is
      lost, the threads do not block each other, and the unlocked
      [device->poll] never writes over a readable event (SensorThreads.v).
      These rest on the ring buffer being a bounded FIFO (EventQueue.v) and on
      the specification of one scan, which goes round robin (PollLoop.v).
    - Liveness: in every fair execution each event a sub-HAL reports is published,
      taken and returned to the framework, and no writer starves, however full
      its queue is and however often [poll] holds the mutex (SensorLiveness.v,
      WriterLiveness.v).
    - Control: for a sub-HAL of API 1.1 or newer every call is one call of the
      owning sub-HAL with its own handle or an error and no call (an injected
      event is passed on as it is); for an older one so is setDelay, flush and
      inject refuse, and batch and activate defer; the invariant of the globals;
      and what a handle that was never assigned does (Dispatch.v, Handles.v).
      Calls from several threads leave the globals consistent, and do not disturb
      each other unless they are about one sensor: then a request can be lost
      (ControlThreads.v).  Through the function pointers that the framework is
      given, each call a sub-HAL's API level allows reaches the sub-HAL of the
      sensor's handle (HalModules.v).
    - Initialisation: it builds the globals the other parts rely on
      ([globals_ok]), and how it fails: among others, a module that does not
      open shifts the devices of the later ones by one (SensorInit.v).  Any number of threads may
      ask for the list once [open] has returned, and each gets what one alone
      would get; while [open] runs, asking can crash (InitThreads.v).
    - Closing: each device is closed once, and its writer thread goes on to poll
      it, or sleeps for ever; [poll] reads the deleted context (HalClose.v).
    - From end to end: normal events carry handles of the list the framework was
      given, and control calls with them are calls of the device the event came
      from (MultiHal.v).
    - Sensor manager: every call is a call of a cache of the service's list,
      with no undefined behaviour; how long a list that was handed out stays
      good; one instance per package, whose memory is its own; and that the
      constructors, which skip the lock, can crash (SensorManager.v,
      SensorInstances.v, SensorManagerThreads.v).
    - Binder interface: a call of the proxy is the call of the service at the
      other end, requests and replies have the types the other side reads, and
      what becomes of errors (SensorServer.v).  Both composed: a client receives
      exactly the remote service's list (SensorInstances.v).
    - MAC addresses: the parser accepts exactly the printed addresses, a
      generated address is accepted, storing is atomic at every moment, and exit
      code 0 means both files are good (MacAddr.v, MacStore.v).
    - Power: deadlines are exact, calls that do not overlap keep the files in
      step, low power mode excludes a boost and the worker ends every boost in
      every fair execution, and the one race that leaves the boosted values behind
      (Power.v, PowerLiveness.v).
    - The lists of the thermal HAL, the unit conversion, the properties.
    - Camera metadata: who owns which buffer, and that an update never reads
      freed data but in one case, when its data starts at the object's own buffer
      or reaches into it from below (CameraMetadata.v).

    ** Fuel and bounds

    A loop that is not structural takes fuel, and a theorem says how much is
    enough: [scan_fuel] for the scan of [poll], the number of interrupted calls
    plus 17 for the MAC address service, the length of the file for
    /proc/stat.  The search for the sensor service makes the source's own 60
    attempts.  Theorems about 32-bit counters have the bound as a premise:
    fewer than INT_MAX sensors, modules and queues, a clock four seconds from the
    end of time; a list of the sensor manager has the bound its allocation has.

    ** What is not modelled

    camera_legacy.c, which is one variable without a use; the headers of libsensor
    under libshims/gui/include (SensorEventQueue.h, BitTube.h,
    ISensorEventConnection.h and what Sensor.h declares), whose classes are
    implemented outside of the repository (the two templates of BitTube.h only add
    the size of an object to a call of them); the structures of function pointers in
    include/hardware/audio.h, which the vendor's HAL fills in; the unused
    singleton symbols of the sensor manager.  Outside of the native code: the list of paths of the zygote
    descriptor whitelist, build files, policies, scripts, resources and
    patches. *)
From stdpp Require Export prelude gmap strings list list_numbers.
From stdpp Require Export ssreflect.
From Stdlib Require Export ZArith Lia.

#[global] Open Scope Z_scope.

Declare Scope mozart_scope.
Delimit Scope mozart_scope with mozart.

Create HintDb mozart.

(** ** Machine integers

    A C [int] or [int64_t] is a [Z] together with its range.  Arithmetic on
    them is written with the wrap-around functions below; the theorems say
    when no wrap-around happens. *)

Definition INT_MIN : Z := -2147483648.
Definition INT_MAX : Z := 2147483647.
Definition INT64_MIN : Z := -9223372036854775808.
Definition INT64_MAX : Z := 9223372036854775807.

Definition wrap_signed (bits z : Z) : Z :=
  (z + 2 ^ (bits - 1)) mod 2 ^ bits - 2 ^ (bits - 1).

Definition i32 (z : Z) : Z := wrap_signed 32 z.
Definition i64 (z : Z) : Z := wrap_signed 64 z.
Definition u8 (z : Z) : Z := z mod 256.
Definition u32 (z : Z) : Z := z mod 4294967296.
Definition u64 (z : Z) : Z := z mod 18446744073709551616.

Definition in_i32 (z : Z) : Prop := INT_MIN <= z <= INT_MAX.
Definition in_i64 (z : Z) : Prop := INT64_MIN <= z <= INT64_MAX.

(** ** C error numbers (errno.h) *)

Definition ENOENT : Z := 2.
Definition EINTR : Z := 4.
Definition EIO : Z := 5.
Definition ENODEV : Z := 19.
Definition EINVAL : Z := 22.
Definition ETIMEDOUT : Z := 110.

(** ** C arrays

    [arr_get] and [arr_set] are the reads and writes of a C array of which
    the whole allocation is the list: an index outside of it is [None]
    (undefined behaviour), never a default. *)

Definition arr_get {A} (l : list A) (i : Z) : option A :=
  if 0 <=? i then l !! Z.to_nat i else None.

Definition arr_set {A} (l : list A) (i : Z) (x : A) : option (list A) :=
  if (0 <=? i) && (i <? Z.of_nat (length l))
  then Some (<[Z.to_nat i := x]> l) else None.

(** Consecutive writes from index [i] on. *)
Fixpoint write_at {A} (l : list A) (i : nat) (xs : list A) : list A :=
  match xs with
  | [] => l
  | x :: xs' => write_at (<[i := x]> l) (S i) xs'
  end.

(** ** State with undefined behaviour

    [stM S A] is a computation on the state [S] that returns an [A], or has
    no defined outcome ([None]): an access outside of an allocation, a null
    dereference, or an exception nothing catches.  The notations are stdpp's
    [x ← m; k] and [m ;; k]. *)

Definition stM (S A : Type) : Type := S -> option (A * S).

#[export] Instance stM_ret {S} : MRet (stM S) := fun A a s => Some (a, s).
#[export] Instance stM_bind {S} : MBind (stM S) :=
  fun A B f m s => match m s with Some (a, s') => f a s' | None => None end.

Definition get_st {S} : stM S S := fun s => Some (s, s).
Definition put_st {S} (s : S) : stM S unit := fun _ => Some (tt, s).
(** The value, or undefined behaviour. *)
Definition defined {S A} (o : option A) : stM S A :=
  fun s => match o with Some a => Some (a, s) | None => None end.

Ltac st_unfold :=
  unfold mbind, stM_bind, mret, stM_ret, get_st, put_st, defined in *.

(** ** Labelled transition systems *)

Section Runs.
Context {St Lbl : Type} (step : St -> Lbl -> St -> Prop).

(** [run s tr s']: the system goes from [s] to [s'] and emits [tr]. *)
Inductive run : St -> list Lbl -> St -> Prop :=
| run_nil s : run s [] s
| run_snoc s tr s1 l s2 : run s tr s1 -> step s1 l s2 -> run s (tr ++ [l]) s2.

(** [reachable init s]: some run from an initial state ends in [s]. *)
Definition reachable (init : St -> Prop) (s : St) : Prop :=
  exists s0 tr, init s0 /\ run s0 tr s.
End Runs.
Arguments run {St Lbl} step _ _ _.
Arguments reachable {St Lbl} step init s.

(** ** Tactics *)

(** Case analysis on the boolean tests of the goal, then of the context, with
    the comparison each stands for. *)
Ltac bool_cases :=
  repeat match goal with
  | |- context [(?a =? ?b)%Z] => destruct (Z.eqb_spec a b)
  | |- context [(?a <? ?b)%Z] => destruct (Z.ltb_spec a b)
  | |- context [(?a <=? ?b)%Z] => destruct (Z.leb_spec a b)
  | H : context [(?a =? ?b)%Z] |- _ => destruct (Z.eqb_spec a b)
  | H : context [(?a <? ?b)%Z] |- _ => destruct (Z.ltb_spec a b)
  | H : context [(?a <=? ?b)%Z] |- _ => destruct (Z.leb_spec a b)
  end.

(** Proves [Forall] over an explicit list, each element by [t]. *)
Tactic Notation "forall_list" tactic3(t) :=
  repeat (apply Forall_cons; split; [t|]); by apply Forall_nil.

(** Unfolds the integer bounds and calls [lia]. *)
Ltac ilia :=
  unfold in_i32, in_i64, INT_MIN, INT_MAX, INT64_MIN, INT64_MAX in *; lia.

(** ** Lemmas: machine integers *)

Lemma i32_id z : in_i32 z -> i32 z = z.
Proof.
  unfold i32, wrap_signed, in_i32, INT_MIN, INT_MAX. intros Hz.
  change (2 ^ (32 - 1)) with 2147483648. change (2 ^ 32) with 4294967296.
  rw Z.mod_small; lia.
Qed.

Lemma i32_range z : in_i32 (i32 z).
Proof.
  unfold i32, wrap_signed, in_i32, INT_MIN, INT_MAX.
  change (2 ^ (32 - 1)) with 2147483648. change (2 ^ 32) with 4294967296.
  pose proof (Z.mod_pos_bound (z + 2147483648) 4294967296). lia.
Qed.

Lemma i64_id z : in_i64 z -> i64 z = z.
Proof.
  unfold i64, wrap_signed, in_i64, INT64_MIN, INT64_MAX. intros Hz.
  change (2 ^ (64 - 1)) with 9223372036854775808.
  change (2 ^ 64) with 18446744073709551616.
  rw Z.mod_small; lia.
Qed.

Lemma i64_range z : in_i64 (i64 z).
Proof.
  unfold i64, wrap_signed, in_i64, INT64_MIN, INT64_MAX.
  change (2 ^ (64 - 1)) with 9223372036854775808.
  change (2 ^ 64) with 18446744073709551616.
  pose proof (Z.mod_pos_bound (z + 9223372036854775808) 18446744073709551616). lia.
Qed.

#[export] Hint Resolve i32_range i64_range : mozart.

(** Removes the wrap-arounds whose argument [lia] can bound. *)
Ltac no_wrap :=
  repeat match goal with
  | |- context [i32 ?z] => rw (i32_id z); [|ilia]
  | |- context [i64 ?z] => rw (i64_id z); [|ilia]
  end.

(** C's remainder of a sum of two indices below the modulus. *)
Lemma rem_add_index a b n :
  0 <= a < n -> 0 <= b <= n ->
  Z.rem (a + b) n = if a + b <? n then a + b else a + b - n.
Proof.
  intros Ha Hb. rw Z.rem_mod_nonneg; [|lia|lia].
  destruct (Z.ltb_spec (a + b) n).
  - by rw Z.mod_small; [|lia].
  - symmetry. apply Z.mod_unique with 1; lia.
Qed.

(** ** Lemmas: arrays *)

Lemma arr_get_Some {A} (l : list A) i x :
  arr_get l i = Some x <-> 0 <= i < Z.of_nat (length l) /\ l !! Z.to_nat i = Some x.
Proof.
  unfold arr_get. destruct (Z.leb_spec 0 i); split.
  - intros Hx. pose proof (lookup_lt_Some _ _ _ Hx). split; [lia|done].
  - by intros [_ ?].
  - done.
  - intros [? _]; lia.
Qed.

Lemma arr_get_is_Some {A} (l : list A) i :
  is_Some (arr_get l i) <-> 0 <= i < Z.of_nat (length l).
Proof.
  split.
  - intros [x Hx]. by apply arr_get_Some in Hx as [? _].
  - intros Hi. destruct (lookup_lt_is_Some_2 l (Z.to_nat i)) as [x Hx]; [lia|].
    exists x. by apply arr_get_Some.
Qed.

Lemma arr_get_None {A} (l : list A) i :
  arr_get l i = None <-> ~ (0 <= i < Z.of_nat (length l)).
Proof. by rw -arr_get_is_Some eq_None_not_Some. Qed.

Lemma arr_set_Some {A} (l l' : list A) i x :
  arr_set l i x = Some l' <->
  0 <= i < Z.of_nat (length l) /\ l' = <[Z.to_nat i := x]> l.
Proof.
  unfold arr_set. destruct (Z.leb_spec 0 i), (Z.ltb_spec i (Z.of_nat (length l)));
    naive_solver lia.
Qed.

Lemma arr_set_eq {A} (l : list A) i x :
  0 <= i < Z.of_nat (length l) -> arr_set l i x = Some (<[Z.to_nat i := x]> l).
Proof. intros Hi. by apply arr_set_Some. Qed.

Lemma arr_set_length {A} (l l' : list A) i x :
  arr_set l i x = Some l' -> length l' = length l.
Proof. intros [_ ->]%arr_set_Some. apply length_insert. Qed.

Lemma length_write_at {A} (l : list A) i xs : length (write_at l i xs) = length l.
Proof.
  revert l i. induction xs as [|x xs IH]; intros l i; simpl; [done|].
  by rw IH length_insert.
Qed.

(** The writes of a region that fits leave everything outside of it alone. *)
Lemma lookup_write_at {A} (l : list A) i xs j :
  (i + length xs <= length l)%nat ->
  write_at l i xs !! j =
    if decide (i <= j < i + length xs)%nat then xs !! (j - i)%nat else l !! j.
Proof.
  revert l i. induction xs as [|x xs IH]; intros l i Hlen; simpl in *.
  - destruct (decide _); [lia|done].
  - rw IH; [|rw length_insert; lia].
    destruct (decide (S i <= j < S i + length xs)%nat),
      (decide (i <= j < i + S (length xs))%nat); try lia.
    + replace (j - i)%nat with (S (j - S i)) by lia. done.
    + assert (j = i) as -> by lia. rw list_lookup_insert_eq; [|lia].
      by rw Nat.sub_diag.
    + rw list_lookup_insert_ne; [done|lia].
Qed.

Lemma write_at_snoc {A} (l : list A) i xs x :
  write_at l i (xs ++ [x]) = <[(i + length xs)%nat := x]> (write_at l i xs).
Proof.
  revert l i. induction xs as [|y xs IH]; intros l i; simpl.
  - by rw Nat.add_0_r.
  - rw IH. f_equal. lia.
Qed.

(** ** Lemmas: transition systems *)

Section RunLemmas.
Context {St Lbl : Type} (step : St -> Lbl -> St -> Prop).

(** The invariant rule, for invariants that relate the state and the trace. *)
Lemma run_invariant (Inv : list Lbl -> St -> Prop) s0 :
  Inv [] s0 ->
  (forall tr s l s', Inv tr s -> step s l s' -> Inv (tr ++ [l]) s') ->
  forall tr s, run step s0 tr s -> Inv tr s.
Proof.
  intros H0 Hstep tr s Hrun. induction Hrun as [|s tr s1 l s2 Hrun IH Hs]; [done|].
  eapply Hstep; [by apply IH|done].
Qed.

Lemma reachable_invariant (init : St -> Prop) (Inv : St -> Prop) :
  (forall s, init s -> Inv s) ->
  (forall s l s', Inv s -> step s l s' -> Inv s') ->
  forall s, reachable step init s -> Inv s.
Proof.
  intros H0 Hstep s (s0 & tr & Hinit & Hrun).
  revert tr s Hrun. apply (run_invariant (fun _ => Inv)); eauto.
Qed.

Lemma run_app s1 tr1 s2 tr2 s3 :
  run step s1 tr1 s2 -> run step s2 tr2 s3 -> run step s1 (tr1 ++ tr2) s3.
Proof.
  intros H1 H2. revert H1. induction H2 as [|s tr sa l sb Hr IH Hs]; intros H1.
  - by rw app_nil_r.
  - rw app_assoc. econstructor; eauto.
Qed.

Lemma run_one s l s' : step s l s' -> run step s [l] s'.
Proof. intros Hs. apply (run_snoc step s [] s l s'); [constructor|done]. Qed.

Lemma run_cons s l s1 tr s2 : step s l s1 -> run step s1 tr s2 -> run step s (l :: tr) s2.
Proof. intros Hs Hr. apply (run_app _ [l] s1); [by apply run_one|done]. Qed.
End RunLemmas.

#[export] Hint Resolve run_one : mozart.

(** ** Lemmas: lists *)

(** Where [f] is defined on the whole list, [omap] keeps the positions. *)
Lemma lookup_omap_total {A B} (f : A -> option B) (l : list A) k :
  (forall x, x ∈ l -> is_Some (f x)) -> omap f l !! k = l !! k ≫= f.
Proof.
  revert k. induction l as [|x l IH]; intros k Hf; [done|].
  destruct (Hf x) as [y Hy]; [by left|]. simpl. rw Hy.
  destruct k as [|k]; simpl; [done|]. apply IH. intros z Hz. apply Hf. by right.
Qed.

Lemma length_omap_total {A B} (f : A -> option B) (l : list A) :
  (forall x, x ∈ l -> is_Some (f x)) -> length (omap f l) = length l.
Proof.
  induction l as [|x l IH]; intros Hf; [done|].
  destruct (Hf x) as [y Hy]; [by left|]. simpl. rw Hy /=. f_equal.
  apply IH. intros z Hz. apply Hf. by right.
Qed.

Lemma lookup_tail {A} (l : list A) k : tail l !! k = l !! S k.
Proof. by destruct l. Qed.

Lemma head_lookup_0 {A} (l : list A) : head l = l !! 0%nat.
Proof. by destruct l. Qed.

Lemma alter_as_insert {A} (f : A -> A) (l : list A) i x :
  l !! i = Some x -> alter f i l = <[i := f x]> l.
Proof.
  intros Hx. apply list_eq. intros j. rw list_lookup_alter list_lookup_insert.
  case_decide as Hj; [subst|].
  - rw Hx decide_True; [done|]. split; [done|]. by eapply lookup_lt_Some.
  - rw decide_False; [done|]. by intros [? _].
Qed.

Lemma write_at_app {A} (l : list A) i xs ys :
  write_at l i (xs ++ ys) = write_at (write_at l i xs) (i + length xs)%nat ys.
Proof.
  revert l i. induction xs as [|x xs IH]; intros l i; simpl.
  - by rw Nat.add_0_r.
  - rw IH. f_equal. lia.
Qed.

(** Overwriting a whole list. *)
Lemma write_at_all {A} (l xs : list A) : length xs = length l -> write_at l 0 xs = xs.
Proof.
  intros Hlen. apply list_eq. intros j. rw lookup_write_at; [|lia].
  destruct (decide _); [by rw Nat.sub_0_r|].
  rw !lookup_ge_None_2; [done|lia..].
Qed.
