(* ===== verification/Status.v ===== *)
(** * Status codes of utils/Errors.h

    The codes are constants of a header outside of the repository, so they are
    the parameters of the class [StatusCodes]; [StatusLaws] is what the shims
    rely on.  [errno_codes] are their values on Android. *)
From S2P Require Import Prelude.

Class StatusCodes := {
  OK : Z;
  NO_MEMORY : Z;
  INVALID_OPERATION : Z;
  BAD_VALUE : Z;
  NAME_NOT_FOUND : Z;
  PERMISSION_DENIED : Z;
}.

(** The header defines [NO_ERROR] as [OK]. *)
Abbreviation NO_ERROR := OK.

(** Success is 0, the errors are negative and distinct. *)
Class StatusLaws `{StatusCodes} : Prop := {
  ok_zero : OK = 0;
  errors_negative :
    Forall (fun e => e < 0) [NO_MEMORY; INVALID_OPERATION; BAD_VALUE; NAME_NOT_FOUND;
                             PERMISSION_DENIED];
  errors_distinct :
    NoDup [NO_MEMORY; INVALID_OPERATION; BAD_VALUE; NAME_NOT_FOUND; PERMISSION_DENIED];
}.

Section Lemmas.
Context `{StatusLaws}.

Lemma status_negative :
  NO_MEMORY < 0 /\ INVALID_OPERATION < 0 /\ BAD_VALUE < 0 /\ NAME_NOT_FOUND < 0 /\
  PERMISSION_DENIED < 0.
Proof.
  pose proof errors_negative as Hneg. rw !Forall_cons in Hneg.
  destruct Hneg as (? & ? & ? & ? & ? & _). by split_and!.
Qed.

Lemma status_ne :
  OK <> NO_MEMORY /\ OK <> INVALID_OPERATION /\ OK <> BAD_VALUE /\ OK <> NAME_NOT_FOUND /\
  OK <> PERMISSION_DENIED.
Proof. rw ok_zero. pose proof status_negative. split_and!; lia. Qed.
End Lemmas.

Definition errno_codes : StatusCodes := {|
  OK := 0; NO_MEMORY := -12; INVALID_OPERATION := -38; BAD_VALUE := -22;
  NAME_NOT_FOUND := -2; PERMISSION_DENIED := -1;
|}.

Lemma errno_laws : @StatusLaws errno_codes.
Proof.
  constructor; simpl; [done| |].
  - forall_list lia.
  - apply (bool_decide_unpack _). vm_compute. reflexivity.
Qed.
