(* ===== verification/EventQueue.v ===== *)
(** * The circular event queue of the sensors multi-HAL

    Model of [class SensorEventQueue] (sensors/SensorEventQueue.{h,cpp}), the
    ring buffer between one sub-HAL's writer thread and the framework's
    [poll()].  The buffer's memory is a list, [mStart] and [mSize] are C
    [int]s, and a pointer into the buffer is its index ([None] is [NULL]).

    [contents] is the abstraction function: the readable records, oldest
    first.  The second half of the file is the abstract bounded FIFO, the
    interface [EventSource] the poll loop is verified against, and the
    theorems that the ring buffer implements both. *)
From S2P Require Import Prelude.

Section Queue.
Context {E : Type}.

(** ** Data *)

Record SensorEventQueue := mkSensorEventQueue {
  mCapacity : Z;
  mStart : Z;        (* start of readable region *)
  mSize : Z;         (* number of readable items *)
  mData : list E;
}.

(** The constructor.  [mem] is the memory [new sensors_event_t[mCapacity]]
    returns, whose contents are unspecified. *)
Definition new_SensorEventQueue (capacity : Z) (mem : list E) : SensorEventQueue :=
  {| mCapacity := capacity; mStart := 0; mSize := 0; mData := mem |}.

(** The destructor: [mData] is deleted and null, so that no index is inside
    of it any more. *)
Definition delete_SensorEventQueue (q : SensorEventQueue) : SensorEventQueue :=
  {| mCapacity := mCapacity q; mStart := mStart q; mSize := mSize q; mData := [] |}.

(** ** Operations *)

(** The length of the region and the [*out] pointer. *)
Definition getWritableRegion (q : SensorEventQueue) (requestedLength : Z) : Z * option Z :=
  if (mSize q =? mCapacity q) || (requestedLength <=? 0) then (0, None)
  else
    let firstWritable := Z.rem (i32 (mStart q + mSize q)) (mCapacity q) in
    let lastWritable := i32 (i32 (firstWritable + requestedLength) - 1) in
    (* Don't go past the end of the data array. *)
    let lastWritable :=
      if mCapacity q - 1 <? lastWritable then mCapacity q - 1 else lastWritable in
    (* Don't go into the readable region. *)
    let lastWritable :=
      if (firstWritable <? mStart q) && (mStart q <=? lastWritable)
      then mStart q - 1 else lastWritable in
    (i32 (i32 (lastWritable - firstWritable) + 1), Some firstWritable).

Definition markAsWritten (q : SensorEventQueue) (count : Z) : SensorEventQueue :=
  {| mCapacity := mCapacity q; mStart := mStart q;
     mSize := i32 (mSize q + count); mData := mData q |}.

Definition getSize (q : SensorEventQueue) : Z := mSize q.

(** The pointer [&mData[mStart]], or [NULL]. *)
Definition peek_ptr (q : SensorEventQueue) : option Z :=
  if mSize q =? 0 then None else Some (mStart q).

(** The record a reader finds through [peek()]'s pointer. *)
Definition peek (q : SensorEventQueue) : option E :=
  p ← peek_ptr q; arr_get (mData q) p.

(** The queue after [dequeue()], and whether [mSpaceAvailableCondition] was
    broadcast. *)
Definition dequeue (q : SensorEventQueue) : bool * SensorEventQueue :=
  if mSize q =? 0 then (false, q)
  else
    (mSize q =? mCapacity q,
     {| mCapacity := mCapacity q;
        mStart := Z.rem (i32 (mStart q + 1)) (mCapacity q);
        mSize := i32 (mSize q - 1);
        mData := mData q |}).

(** [waitForSpace]: [wakes] are the states of the queue at each return of
    [pthread_cond_wait], during which other threads hold the lock.  [None]
    when the caller is still blocked after all of them. *)
Fixpoint waitForSpace_loop (waited : bool) (q : SensorEventQueue)
    (wakes : list SensorEventQueue) : option (bool * SensorEventQueue) :=
  if mSize q =? mCapacity q then
    match wakes with
    | [] => None
    | q' :: wakes' => waitForSpace_loop true q' wakes'
    end
  else Some (waited, q).

Definition waitForSpace (q : SensorEventQueue) (wakes : list SensorEventQueue) :=
  waitForSpace_loop false q wakes.

(** What a [poll()] of the sub-HAL does to the buffer: it writes records from
    the pointer it was given on. *)
Definition fill (q : SensorEventQueue) (first : Z) (evs : list E) : SensorEventQueue :=
  {| mCapacity := mCapacity q; mStart := mStart q; mSize := mSize q;
     mData := write_at (mData q) (Z.to_nat first) evs |}.

(** ** Well-formedness and abstraction *)

(** Twice the capacity fits an [int], so [mStart + mSize] never overflows. *)
Record queue_wf (q : SensorEventQueue) : Prop := mk_queue_wf {
  wf_capacity : 0 < mCapacity q /\ 2 * mCapacity q <= INT_MAX;
  wf_start : 0 <= mStart q < mCapacity q;
  wf_size : 0 <= mSize q <= mCapacity q;
  wf_data : length (mData q) = Z.to_nat (mCapacity q);
}.

(** The array index of the [k]-th readable record. *)
Definition slot (q : SensorEventQueue) (k : Z) : Z :=
  if mStart q + k <? mCapacity q then mStart q + k else mStart q + k - mCapacity q.

(** The readable records, oldest first. *)
Definition contents (q : SensorEventQueue) : list E :=
  omap (fun k => mData q !! Z.to_nat (slot q k)) (seqZ 0 (mSize q)).

(** The array index of the next record to be written. *)
Definition write_pos (q : SensorEventQueue) : Z := slot q (mSize q).
End Queue.
Arguments SensorEventQueue : clear implicits.
Arguments mkSensorEventQueue {E}.

(** ** The abstract bounded FIFO *)

Section Fifo.
Context {E : Type}.

Record fifo := mkFifo { fifo_capacity : nat; fifo_items : list E }.

(** One client operation of the queue, with what the client observes. *)
Inductive queue_obs :=
| ObsFull                      (* getWritableRegion returned an empty region *)
| ObsWrite (evs : list E)      (* these records were written and marked *)
| ObsPeek (r : option E)
| ObsDequeue (r : option E).   (* the record that left the queue *)

Inductive fifo_step : fifo -> queue_obs -> fifo -> Prop :=
| fifo_full c l : length l = c -> fifo_step (mkFifo c l) ObsFull (mkFifo c l)
| fifo_write c l evs :
    evs <> [] -> (length l + length evs <= c)%nat ->
    fifo_step (mkFifo c l) (ObsWrite evs) (mkFifo c (l ++ evs))
| fifo_peek c l : fifo_step (mkFifo c l) (ObsPeek (head l)) (mkFifo c l)
| fifo_dequeue c l : fifo_step (mkFifo c l) (ObsDequeue (head l)) (mkFifo c (tail l)).

Definition fifo_of (q : SensorEventQueue E) : fifo :=
  mkFifo (Z.to_nat (mCapacity q)) (contents q).

(** The client operations the multi-HAL performs on a queue.  [Fill req evs]
    is one round of [writerTask]: the sub-HAL has [evs] to report (at least
    one) and reports as many as the region holds. *)
Inductive queue_op :=
| Fill (requested : Z) (e : E) (evs : list E)
| Peek
| Dequeue.

Definition queue_do (q : SensorEventQueue E) (op : queue_op) :
    queue_obs * SensorEventQueue E :=
  match op with
  | Fill req e evs =>
      match getWritableRegion q req with
      | (_, None) => (ObsFull, q)
      | (n, Some first) =>
          let evs' := take (Z.to_nat n) (e :: evs) in
          (ObsWrite evs', markAsWritten (fill q first evs') (Z.of_nat (length evs')))
      end
  | Peek => (ObsPeek (peek q), q)
  | Dequeue => (ObsDequeue (peek q), snd (dequeue q))
  end.

Fixpoint queue_do_all (q : SensorEventQueue E) (ops : list queue_op) :
    list queue_obs * SensorEventQueue E :=
  match ops with
  | [] => ([], q)
  | op :: ops' =>
      let '(o, q1) := queue_do q op in
      let '(os, q2) := queue_do_all q1 ops' in
      (o :: os, q2)
  end.

(** Requests a caller may make: positive, and small enough for [int]. *)
Definition op_ok (q : SensorEventQueue E) (op : queue_op) : Prop :=
  match op with
  | Fill req _ _ => 0 < req /\ mCapacity q + req <= INT_MAX
  | _ => True
  end.
End Fifo.
Arguments fifo : clear implicits.
Arguments queue_obs : clear implicits.
Arguments queue_op : clear implicits.

(** ** What the poll loop needs of a queue

    The scan of [sensors_poll_context_t::poll] uses only [peek] and
    [dequeue]; its theorems are proved against this interface. *)

Class EventSource (E Q : Type) := {
  src_ok : Q -> Prop;
  src_items : Q -> list E;
  src_peek : Q -> option E;
  src_dequeue : Q -> bool * Q;
}.

Class EventSourceLaws (E Q : Type) `{EventSource E Q} : Prop := {
  src_peek_head q : src_ok q -> src_peek q = head (src_items q);
  src_dequeue_ok q : src_ok q -> src_ok (snd (src_dequeue q));
  src_dequeue_tail q :
    src_ok q -> src_items (snd (src_dequeue q)) = tail (src_items q);
}.

#[export] Instance ring_source (E : Type) : EventSource E (SensorEventQueue E) := {|
  src_ok := queue_wf;
  src_items := contents;
  src_peek := peek;
  src_dequeue := dequeue;
|}.

(** * Theorems *)

Section QueueLemmas.
Context {E : Type}.
Implicit Types (q : SensorEventQueue E).

Lemma slot_range q k :
  queue_wf q -> 0 <= k <= mCapacity q -> 0 <= slot q k < mCapacity q.
Proof. intros [? ? ? ?] ?. unfold slot. destruct (Z.ltb_spec (mStart q + k) (mCapacity q)); lia. Qed.

Lemma slot_inj q j k :
  queue_wf q -> 0 <= j < mCapacity q -> 0 <= k < mCapacity q ->
  slot q j = slot q k -> j = k.
Proof.
  intros [? ? ? ?] ? ?. unfold slot.
  destruct (Z.ltb_spec (mStart q + j) (mCapacity q)),
    (Z.ltb_spec (mStart q + k) (mCapacity q)); lia.
Qed.

Lemma slot_data q k :
  queue_wf q -> 0 <= k <= mCapacity q -> is_Some (mData q !! Z.to_nat (slot q k)).
Proof.
  intros Hwf Hk. pose proof (slot_range q k Hwf Hk). destruct Hwf.
  apply lookup_lt_is_Some_2. lia.
Qed.

Lemma contents_total q x :
  queue_wf q -> x ∈ seqZ 0 (mSize q) -> is_Some (mData q !! Z.to_nat (slot q x)).
Proof.
  intros Hwf Hx%elem_of_seqZ. apply slot_data; [done|]. destruct Hwf; lia.
Qed.

Lemma length_contents q : queue_wf q -> length (contents q) = Z.to_nat (mSize q).
Proof.
  intros Hwf. unfold contents.
  rw length_omap_total; [apply length_seqZ|]. eauto using contents_total.
Qed.

Lemma lookup_contents q (k : nat) :
  queue_wf q -> Z.of_nat k < mSize q ->
  contents q !! k = mData q !! Z.to_nat (slot q (Z.of_nat k)).
Proof.
  intros Hwf Hk. unfold contents.
  rw lookup_omap_total; [|by eauto using contents_total].
  rw lookup_seqZ_lt; [|lia]. done.
Qed.

Lemma contents_nil_iff q : queue_wf q -> contents q = [] <-> mSize q = 0.
Proof.
  intros Hwf. pose proof (length_contents q Hwf) as Hl. destruct Hwf. split; intros He.
  - rw He in Hl. simpl in Hl. lia.
  - apply nil_length_inv. rw Hl He. done.
Qed.

(** The [k]-th slot after the next writable one. *)
Lemma slot_write_pos q k :
  queue_wf q -> 0 <= k -> mSize q + k <= mCapacity q -> write_pos q + k < mCapacity q ->
  slot q (mSize q + k) = write_pos q + k.
Proof.
  intros [? ? ? ?] ? ?. unfold write_pos, slot.
  destruct (Z.ltb_spec (mStart q + mSize q) (mCapacity q)),
    (Z.ltb_spec (mStart q + (mSize q + k)) (mCapacity q)); lia.
Qed.

(** [%] of the code is [slot]. *)
Lemma rem_slot q k :
  queue_wf q -> 0 <= k <= mCapacity q ->
  Z.rem (i32 (mStart q + k)) (mCapacity q) = slot q k.
Proof.
  intros [? ? ? ?] ?. no_wrap. rw rem_add_index; [done|lia|lia].
Qed.
End QueueLemmas.

#[export] Hint Resolve slot_range slot_data contents_total : mozart.

Section QueueTheorems.
Context {E : Type}.
Implicit Types (q : SensorEventQueue E).

Lemma new_queue_wf capacity (mem : list E) :
  0 < capacity -> 2 * capacity <= INT_MAX -> length mem = Z.to_nat capacity ->
  queue_wf (new_SensorEventQueue capacity mem) /\
  contents (new_SensorEventQueue capacity mem) = [].
Proof. intros. split; [|done]. constructor; simpl; lia. Qed.

(** The region, exactly. *)
Lemma getWritableRegion_exact q req :
  queue_wf q -> 0 < req -> mCapacity q + req <= INT_MAX -> mSize q <> mCapacity q ->
  getWritableRegion q req =
    (Z.min req (Z.min (mCapacity q - write_pos q) (mCapacity q - mSize q)),
     Some (write_pos q)).
Proof.
  intros Hwf Hreq Hmax Hfull. unfold getWritableRegion.
  pose proof (slot_range q (mSize q) Hwf) as Hpos.
  destruct (Z.eqb_spec (mSize q) (mCapacity q)); [done|].
  destruct (Z.leb_spec req 0); [lia|]. simpl.
  rw rem_slot; [|done|destruct Hwf; lia]. fold (write_pos q).
  assert (0 <= write_pos q < mCapacity q) as Hw.
  { apply Hpos. destruct Hwf; lia. }
  destruct Hwf as [[? ?] ? ? ?]. no_wrap.
  assert (write_pos q = mStart q + mSize q \/
          write_pos q = mStart q + mSize q - mCapacity q /\ mCapacity q <= mStart q + mSize q)
    as Hcase.
  { unfold write_pos, slot. destruct (Z.ltb_spec (mStart q + mSize q) (mCapacity q)); lia. }
  destruct (Z.ltb_spec (mCapacity q - 1) (write_pos q + req - 1)),
    (Z.ltb_spec (write_pos q) (mStart q)); simpl;
    try destruct (Z.leb_spec (mStart q) (mCapacity q - 1));
    try destruct (Z.leb_spec (mStart q) (write_pos q + req - 1));
    simpl; no_wrap; f_equal; lia.
Qed.

(** Records laid down from the write position on become the newest
    readable records when they are marked. *)
Lemma markAsWritten_contents q (evs : list E) :
  queue_wf q -> mSize q + Z.of_nat (length evs) <= mCapacity q ->
  (forall k, (k < length evs)%nat ->
     mData q !! Z.to_nat (slot q (mSize q + Z.of_nat k)) = evs !! k) ->
  queue_wf (markAsWritten q (Z.of_nat (length evs))) /\
  contents (markAsWritten q (Z.of_nat (length evs))) = contents q ++ evs.
Proof.
  intros Hwf Hfit Hmem. pose proof Hwf as [? ? ? ?].
  assert (queue_wf (markAsWritten q (Z.of_nat (length evs)))) as Hwf'.
  { constructor; simpl; try done. no_wrap. lia. }
  split; [done|]. apply list_eq. intros k.
  assert (mSize (markAsWritten q (Z.of_nat (length evs))) = mSize q + Z.of_nat (length evs))
    as Hsz by (simpl; by no_wrap).
  pose proof (length_contents _ Hwf) as Hl. pose proof (length_contents _ Hwf') as Hl'.
  destruct (decide (Z.of_nat k < mSize q + Z.of_nat (length evs))) as [Hk|Hk].
  - rw lookup_contents; [|done|by rw Hsz]. change (mData (markAsWritten _ _)) with (mData q).
    change (slot (markAsWritten _ _) (Z.of_nat k)) with (slot q (Z.of_nat k)).
    destruct (decide (Z.of_nat k < mSize q)).
    + rw lookup_app_l; [by rw lookup_contents|lia].
    + rw lookup_app_r; [|lia]. rw Hl -Hmem; [|lia]. do 3 f_equal. lia.
  - rw !lookup_ge_None_2; [done|rw length_app; lia|rw Hl' Hsz; lia].
Qed.

(** Writing in the free region changes nothing a reader can see. *)
Lemma fill_contents q first (evs : list E) :
  queue_wf q -> first = write_pos q ->
  write_pos q + Z.of_nat (length evs) <= mCapacity q ->
  mSize q + Z.of_nat (length evs) <= mCapacity q ->
  queue_wf (fill q first evs) /\ contents (fill q first evs) = contents q.
Proof.
  intros Hwf -> Hend Hfit. pose proof Hwf as [? ? ? ?].
  assert (0 <= write_pos q < mCapacity q) as Hw by (apply slot_range; [done|lia]).
  assert (queue_wf (fill q (write_pos q) evs)) as Hwf'.
  { constructor; simpl; try done. by rw length_write_at. }
  split; [done|]. apply list_eq. intros k.
  pose proof (length_contents _ Hwf) as Hl. pose proof (length_contents _ Hwf') as Hl'.
  destruct (decide (Z.of_nat k < mSize q)).
  - rw !lookup_contents; [|done..]. simpl. rw lookup_write_at; [|lia].
    change (slot (fill _ _ _) (Z.of_nat k)) with (slot q (Z.of_nat k)).
    destruct (decide _) as [Hin|]; [|done]. exfalso.
    assert (0 <= slot q (Z.of_nat k) < mCapacity q) by (apply slot_range; [done|lia]).
    set (j := slot q (Z.of_nat k) - write_pos q).
    assert (slot q (mSize q + j) = slot q (Z.of_nat k)) as Hs.
    { rw slot_write_pos; [lia|done|lia|lia|lia]. }
    apply slot_inj in Hs; [lia|done|lia|lia].
  - rw !lookup_ge_None_2; [done|lia|]. rw Hl'. simpl. lia.
Qed.

(** One round of the writer: get the region, let the sub-HAL fill it, mark. *)
Lemma write_contents q (evs : list E) :
  queue_wf q ->
  write_pos q + Z.of_nat (length evs) <= mCapacity q ->
  mSize q + Z.of_nat (length evs) <= mCapacity q ->
  let q' := markAsWritten (fill q (write_pos q) evs) (Z.of_nat (length evs)) in
  queue_wf q' /\ contents q' = contents q ++ evs.
Proof.
  intros Hwf Hend Hfit q'. pose proof Hwf as [? ? ? ?].
  assert (0 <= write_pos q < mCapacity q) as Hw by (apply slot_range; [done|lia]).
  destruct (fill_contents q (write_pos q) evs) as [Hwf' <-]; [done..|].
  apply markAsWritten_contents; [done|done|].
  intros k Hk. simpl. rw lookup_write_at; [|lia].
  change (slot (fill _ _ _)) with (slot q).
  rw slot_write_pos; [|done|lia|lia|lia].
  destruct (decide _); [f_equal; lia|lia].
Qed.

Lemma peek_contents q : queue_wf q -> peek q = head (contents q).
Proof.
  intros Hwf. pose proof Hwf as [? ? ? ?]. rw head_lookup_0. unfold peek, peek_ptr.
  destruct (Z.eqb_spec (mSize q) 0) as [Hz|Hz].
  - by rw (proj2 (contents_nil_iff q Hwf) Hz).
  - rw lookup_contents; [|done|lia]. simpl. unfold arr_get, slot.
    rw Z.add_0_r. bool_cases; [done|lia..].
Qed.

Lemma dequeue_contents q :
  queue_wf q ->
  queue_wf (snd (dequeue q)) /\ contents (snd (dequeue q)) = tail (contents q).
Proof.
  intros Hwf. pose proof Hwf as [? ? ? ?].
  pose proof (contents_nil_iff q Hwf) as Hnil.
  destruct (dequeue q) as [b q'] eqn:Hq. unfold dequeue in Hq. simpl.
  destruct (Z.eqb_spec (mSize q) 0) as [Hz|Hz]; simplify_eq.
  { split; [done|]. by rw (proj2 Hnil Hz). }
  assert (Z.rem (i32 (mStart q + 1)) (mCapacity q) = slot q 1) as Hst
    by (apply rem_slot; [done|lia]).
  match goal with |- queue_wf ?x /\ _ => set (q' := x) end.
  assert (queue_wf q') as Hwf'.
  { constructor; simpl; try done.
    - rw Hst. apply slot_range; [done|lia].
    - no_wrap. lia. }
  assert (mSize q' = mSize q - 1) as Hsz by (simpl; by no_wrap).
  split; [done|]. apply list_eq. intros k. rw lookup_tail.
  pose proof (length_contents _ Hwf). pose proof (length_contents _ Hwf') as Hl'.
  destruct (decide (Z.of_nat k < mSize q - 1)).
  - rw !lookup_contents; [|done|lia|done|lia]. simpl. do 2 f_equal.
    unfold slot at 1. simpl. rw Hst. unfold slot.
    destruct (Z.ltb_spec (mStart q + 1) (mCapacity q)); bool_cases; lia.
  - rw !lookup_ge_None_2; [done|lia|lia].
Qed.

(** A reader never moves the place a writer was given. *)
Lemma dequeue_write_pos q :
  queue_wf q -> write_pos (snd (dequeue q)) = write_pos q.
Proof.
  intros Hwf. pose proof Hwf as [? ? ? ?]. unfold dequeue.
  destruct (Z.eqb_spec (mSize q) 0); [done|].
  unfold write_pos at 1. unfold slot at 1. simpl.
  rw rem_slot; [|done|lia]. no_wrap. unfold write_pos, slot.
  bool_cases; lia.
Qed.
End QueueTheorems.

#[export] Instance ring_source_laws (E : Type) : EventSourceLaws E (SensorEventQueue E).
Proof.
  constructor; intros q Hq; [by apply peek_contents|by apply dequeue_contents..].
Qed.

(** ** Properties *)

Section QueueProperties.
Context {E : Type}.
Implicit Types (q : SensorEventQueue E).

Lemma queue_do_capacity q op : mCapacity (snd (queue_do q op)) = mCapacity q.
Proof.
  destruct op as [req e evs| |]; simpl; [|done|].
  - by destruct (getWritableRegion q req) as [n [first|]].
  - unfold dequeue. by destruct (Z.eqb_spec (mSize q) 0).
Qed.

(** One operation on the ring buffer is one step of the FIFO. *)
Lemma queue_do_refines q op :
  queue_wf q -> op_ok q op ->
  queue_wf (snd (queue_do q op)) /\
  fifo_step (fifo_of q) (fst (queue_do q op)) (fifo_of (snd (queue_do q op))).
Proof.
  intros Hwf Hok. pose proof Hwf as [? ? ? ?].
  pose proof (length_contents q Hwf) as Hl.
  destruct op as [req e evs| |]; simpl in *.
  - destruct (decide (mSize q = mCapacity q)) as [Hfull|Hfull].
    + unfold getWritableRegion. rw (proj2 (Z.eqb_eq _ _) Hfull) /=.
      split; [done|]. apply fifo_full. lia.
    + rw getWritableRegion_exact; [|done|lia|lia|done]. simpl.
      assert (0 <= write_pos q < mCapacity q) by (apply slot_range; [done|lia]).
      set (n := Z.min _ _).
      assert (1 <= n <= mCapacity q - write_pos q /\ n <= mCapacity q - mSize q) as Hn by lia.
      pose proof (length_take (e :: evs) (Z.to_nat n)) as Ht.
      destruct (write_contents q (take (Z.to_nat n) (e :: evs))) as [Hwf' Hc];
        [done|lia|lia|].
      split; [done|]. unfold fifo_of at 2. rw Hc. simpl mCapacity.
      apply fifo_write; [|lia].
      intros He%(f_equal length). rw Ht in He. simpl in He. lia.
  - split; [done|]. rw peek_contents; [|done]. constructor.
  - rw peek_contents; [|done]. destruct (dequeue_contents q Hwf) as [Hwf' Hc].
    split; [done|]. unfold fifo_of at 2. rw Hc.
    assert (mCapacity (snd (dequeue q)) = mCapacity q) as ->
      by apply (queue_do_capacity q Dequeue).
    constructor.
Qed.

End QueueProperties.

(** C20: the region [getWritableRegion] hands out.  Its length is between zero
    and min(capacity, requestedLength); it is empty (and the pointer [NULL])
    exactly when the queue is full or nothing was requested; it lies inside
    the data array; and no index of it is the slot of a readable record. *)
Theorem getWritableRegion_spec {E} (q : SensorEventQueue E) req n p :
  queue_wf q -> mCapacity q + req <= INT_MAX ->
  getWritableRegion q req = (n, p) ->
  0 <= n <= Z.max 0 (Z.min (mCapacity q) req) /\
  (n = 0 <-> mSize q = mCapacity q \/ req <= 0) /\
  match p with
  | None => n = 0
  | Some first =>
      1 <= n /\ 0 <= first /\ first + n <= Z.of_nat (length (mData q)) /\
      forall i k, first <= i < first + n -> 0 <= k < mSize q -> slot q k <> i
  end.
Proof.
  intros Hwf Hmax Hg. pose proof Hwf as [? ? ? ?].
  destruct (decide (mSize q = mCapacity q \/ req <= 0)) as [Hz|Hz].
  - assert (getWritableRegion q req = (0, None)) as Hr.
    { unfold getWritableRegion. destruct Hz as [->|Hz]; [by rw Z.eqb_refl|].
      rw (proj2 (Z.leb_le _ _) Hz). by rw orb_true_r. }
    rw Hr in Hg. simplify_eq. split; [lia|]. split; [tauto|done].
  - rw getWritableRegion_exact in Hg; [|done|lia|lia|lia].
    assert (0 <= write_pos q < mCapacity q) as Hw by (apply slot_range; [done|lia]).
    injection Hg as Hn <-. split; [lia|]. split; [lia|]. split; [lia|]. split; [lia|].
    split; [lia|]. intros i k Hi Hk Heq. set (j := i - write_pos q).
    assert (slot q (mSize q + j) = slot q k) as Hs.
    { rw slot_write_pos; [lia|done|lia|lia|lia]. }
    apply slot_inj in Hs; [lia|done|lia|lia].
Qed.

Lemma getWritableRegion_spec_witness :
  getWritableRegion (mkSensorEventQueue 4 3 2 [10; 11; 12; 13]) 36 = (2, Some 1) /\
  (0 <= 2 <= Z.max 0 (Z.min 4 36)).
Proof.
  split; [reflexivity|].
  apply (getWritableRegion_spec (mkSensorEventQueue 4 3 2 [10; 11; 12; 13]) 36 2 (Some 1));
    [constructor; simpl; ilia|simpl; ilia|reflexivity].
Defined.

(** C5: the ring buffer is a bounded FIFO.  Whatever sequence of writer rounds,
    peeks and dequeues a client performs, the records it observes are those a
    FIFO of the same capacity gives: nothing is lost, duplicated, reordered or
    overwritten, and a round is refused exactly when the FIFO is full. *)
Theorem queue_refines_fifo {E} (q : SensorEventQueue E) (ops : list (queue_op E)) :
  queue_wf q -> Forall (op_ok q) ops ->
  queue_wf (snd (queue_do_all q ops)) /\
  run fifo_step (fifo_of q) (fst (queue_do_all q ops)) (fifo_of (snd (queue_do_all q ops))).
Proof.
  revert q. induction ops as [|op ops IH]; intros q Hwf Hok; simpl.
  { split; [done|constructor]. }
  apply Forall_cons in Hok as [Hop Hops].
  destruct (queue_do_refines q op Hwf Hop) as [Hwf1 Hstep].
  pose proof (queue_do_capacity q op) as Hcap.
  destruct (queue_do q op) as [o q1]. simpl in *.
  destruct (IH q1 Hwf1) as [Hwf2 Hrun].
  { eapply Forall_impl; [done|]. intros [] Hk; simpl in *; [by rw Hcap|done..]. }
  destruct (queue_do_all q1 ops) as [os q2]. simpl in *.
  split; [done|]. by eapply run_cons.
Qed.

Lemma queue_refines_fifo_witness :
  let q := new_SensorEventQueue 3 [0; 0; 0] in
  fst (queue_do_all q [Fill 36 7 [8]; Dequeue; Fill 36 9 [10; 11]; Fill 36 12 []; Fill 36 13 []; Peek])
    = [ObsWrite [7; 8]; ObsDequeue (Some 7); ObsWrite [9]; ObsWrite [12]; ObsFull; ObsPeek (Some 8)] /\
  run fifo_step (mkFifo 3 [])
    [ObsWrite [7; 8]; ObsDequeue (Some 7); ObsWrite [9]; ObsWrite [12]; ObsFull; ObsPeek (Some 8)]
    (mkFifo 3 [8; 9; 12]).
Proof.
  split; [reflexivity|].
  apply (queue_refines_fifo (new_SensorEventQueue 3 [0; 0; 0])
    [Fill 36 7 [8]; Dequeue; Fill 36 9 [10; 11]; Fill 36 12 []; Fill 36 13 []; Peek]).
  - constructor; simpl; ilia.
  - repeat constructor; simpl; ilia.
Defined.

(** [waitForSpace] returns exactly when the queue it looks at (at the call,
    or at some wake-up) has space; it reports waiting exactly when the queue
    was full at the call, and then hands back the first state with space. *)
Theorem waitForSpace_spec {E} (q : SensorEventQueue E) (wakes : list (SensorEventQueue E)) :
  match waitForSpace q wakes with
  | None => Forall (fun q' => mSize q' = mCapacity q') (q :: wakes)
  | Some (waited, q') =>
      mSize q' <> mCapacity q' /\
      (waited = false <-> mSize q <> mCapacity q) /\
      exists before after, q :: wakes = before ++ q' :: after /\
        Forall (fun q0 => mSize q0 = mCapacity q0) before
  end.
Proof.
  unfold waitForSpace.
  enough (forall w, match waitForSpace_loop w q wakes with
    | None => Forall (fun q' => mSize q' = mCapacity q') (q :: wakes)
    | Some (waited, q') =>
        mSize q' <> mCapacity q' /\
        (waited = false <-> w = false /\ mSize q <> mCapacity q) /\
        exists before after, q :: wakes = before ++ q' :: after /\
          Forall (fun q0 => mSize q0 = mCapacity q0) before
    end) as H.
  { specialize (H false). destruct (waitForSpace_loop _ _ _) as [[w q']|]; naive_solver. }
  revert q. induction wakes as [|q1 wakes IH]; intros q w; simpl;
    destruct (Z.eqb_spec (mSize q) (mCapacity q)) as [Hf|Hf].
  - by constructor.
  - split; [done|]. split; [naive_solver|]. by exists [], [].
  - specialize (IH q1 true). destruct (waitForSpace_loop true q1 wakes) as [[w' q']|].
    + destruct IH as (? & Hw & before & after & Heq & Hb).
      split; [done|]. split; [naive_solver|].
      exists (q :: before), after. split; [by rw Heq|]. by constructor.
    + by constructor.
  - split; [done|]. split; [naive_solver|]. by exists [], (q1 :: wakes).
Qed.
