(* ===== verification/Handles.v ===== *)
(** * Global and local sensor handles of the multi-HAL

    Model of [struct FullHandle], the maps [global_to_full] and
    [full_to_global], the counter [next_global_handle] and the four functions
    of sensors/multihal.cpp that read and write them.  A [std::map] is a
    [gmap]; that this is right for [full_to_global] (whose key order is
    [FullHandle::operator<]) is theorem [full_lt_is_key_order]. *)
From S2P Require Import Prelude.

(** ** Data *)

Record FullHandle := mkFull { moduleIndex : Z; localHandle : Z }.

(** [FullHandle::operator<]. *)
Definition full_lt (a b : FullHandle) : bool :=
  if moduleIndex a <? moduleIndex b then true
  else if moduleIndex b <? moduleIndex a then false
  else localHandle a <? localHandle b.

(** [FullHandle::operator==]. *)
Definition full_eqb (a b : FullHandle) : bool :=
  (moduleIndex a =? moduleIndex b) && (localHandle a =? localHandle b).

#[export] Instance full_eq_dec : EqDecision FullHandle.
Proof. solve_decision. Defined.

#[export] Instance full_countable : Countable FullHandle.
Proof.
  refine (inj_countable' (fun f => (moduleIndex f, localHandle f))
    (fun p => mkFull p.1 p.2) _). by intros [].
Defined.

Record HandleTable := mkTable {
  global_to_full : gmap Z FullHandle;
  full_to_global : gmap FullHandle Z;
  next_global_handle : Z;
}.

(** The initial values of the three globals. *)
Definition initial_table : HandleTable := mkTable ∅ ∅ 1.

(** ** Operations *)

Definition assign_global_handle (t : HandleTable) (module_index local_handle : Z) :
    Z * HandleTable :=
  let global_handle := next_global_handle t in
  let full_handle := mkFull module_index local_handle in
  (global_handle,
   mkTable (<[global_handle := full_handle]> (global_to_full t))
           (<[full_handle := global_handle]> (full_to_global t))
           (i32 (next_global_handle t + 1))).

(** Returns the local handle, or -1 if it does not exist. *)
Definition get_local_handle (t : HandleTable) (global_handle : Z) : Z :=
  match global_to_full t !! global_handle with
  | None => -1
  | Some f => localHandle f
  end.

(** Returns the module index, or -1 if the global handle does not exist. *)
Definition get_module_index (t : HandleTable) (global_handle : Z) : Z :=
  match global_to_full t !! global_handle with
  | None => -1
  | Some f => moduleIndex f
  end.

(** Returns the global handle, or -1 if the full handle is unknown. *)
Definition get_global_handle (t : HandleTable) (full_handle : FullHandle) : Z :=
  match full_to_global t !! full_handle with
  | Some global_handle => global_handle
  | None => -1
  end.

(** The handles the initialisation assigns, in its order: the sensors of
    module 0, then those of module 1, and so on. *)
Fixpoint assign_handles (t : HandleTable) (fs : list FullHandle) : list Z * HandleTable :=
  match fs with
  | [] => ([], t)
  | f :: fs' =>
      let '(g, t1) := assign_global_handle t (moduleIndex f) (localHandle f) in
      let '(gs, t2) := assign_handles t1 fs' in
      (g :: gs, t2)
  end.

(** ** Well-formedness *)

Record table_wf (t : HandleTable) : Prop := mk_table_wf {
  tw_next : 1 <= next_global_handle t <= INT_MAX;
  tw_dom g : is_Some (global_to_full t !! g) <-> 1 <= g < next_global_handle t;
  tw_back f g : full_to_global t !! f = Some g -> global_to_full t !! g = Some f;
  tw_known g f : global_to_full t !! g = Some f -> is_Some (full_to_global t !! f);
}.

(** * Theorems *)

Lemma initial_table_wf : table_wf initial_table.
Proof.
  constructor; simpl; [ilia|..].
  - intros g. rw lookup_empty. split; [by intros []|lia].
  - intros f g. by rw lookup_empty.
  - intros g f. by rw lookup_empty.
Qed.

Lemma table_fresh t : table_wf t -> global_to_full t !! next_global_handle t = None.
Proof.
  intros [? Hdom _ _]. apply eq_None_not_Some. rw Hdom. lia.
Qed.

Lemma assign_wf t m l :
  table_wf t -> next_global_handle t < INT_MAX ->
  table_wf (assign_global_handle t m l).2.
Proof.
  intros Hwf Hmax. pose proof (table_fresh t Hwf) as Hfresh.
  destruct Hwf as [Hn Hdom Hback Hknown]. constructor; simpl.
  - no_wrap. ilia.
  - intros g. no_wrap. rw lookup_insert. case_decide; subst.
    + split; [lia|by eauto].
    + rw Hdom. lia.
  - intros f g. rw lookup_insert. case_decide as Hf.
    + intros [= <-]. subst. by rw lookup_insert_eq.
    + intros Hg. rw lookup_insert_ne; [by apply Hback|].
      intros <-. apply Hback in Hg. by rw Hfresh in Hg.
  - intros g f. rw !lookup_insert. repeat case_decide; subst; try by eauto.
    naive_solver.
Qed.

(** In a well-formed table every handle that is not -1 names a sensor. *)
Lemma get_global_handle_pos t f :
  table_wf t -> get_global_handle t f <> -1 ->
  1 <= get_global_handle t f < next_global_handle t /\
  global_to_full t !! get_global_handle t f = Some f.
Proof.
  intros [Hn Hdom Hback _]. unfold get_global_handle.
  destruct (full_to_global t !! f) as [g|] eqn:Hg; [|done]. intros _.
  apply Hback in Hg. split; [|done]. apply Hdom. by rw Hg.
Qed.

Lemma get_global_handle_unknown t f :
  table_wf t -> get_global_handle t f = -1 <-> full_to_global t !! f = None.
Proof.
  intros [Hn Hdom Hback _]. unfold get_global_handle.
  destruct (full_to_global t !! f) as [g|] eqn:Hg; [|done].
  apply Hback in Hg. assert (1 <= g < next_global_handle t) by (apply Hdom; by rw Hg).
  split; [lia|done].
Qed.

#[export] Hint Resolve initial_table_wf assign_wf : mozart.

(** [FullHandle::operator<] is a strict total order whose equivalence
    (neither is less) is [FullHandle::operator==] and equality of both fields:
    what [std::map] requires of its key order for [full_to_global] to hold one
    entry per (module index, local handle). *)
Theorem full_lt_is_key_order (a b c : FullHandle) :
  full_lt a a = false /\
  (full_lt a b = true -> full_lt b c = true -> full_lt a c = true) /\
  (full_lt a b = false /\ full_lt b a = false <-> full_eqb a b = true) /\
  (full_eqb a b = true <-> a = b).
Proof.
  destruct a as [ma la], b as [mb lb], c as [mc lc].
  unfold full_lt, full_eqb; simpl. rw andb_true_iff !Z.eqb_eq.
  repeat split; bool_cases; try done; try lia; naive_solver lia.
Qed.

(** [assign_global_handle] takes the next unused global handle, and
    afterwards the new handle and the sensor's full handle are each other's
    image; nothing else the table answers changes, and the table stays
    well formed (as long as the counter does not reach [INT_MAX]). *)
Theorem assign_global_handle_spec t m l g t' :
  table_wf t -> next_global_handle t < INT_MAX ->
  assign_global_handle t m l = (g, t') ->
  table_wf t' /\
  get_local_handle t g = -1 /\ get_module_index t g = -1 /\
  get_local_handle t' g = l /\ get_module_index t' g = m /\
  get_global_handle t' (mkFull m l) = g /\
  (forall g', g' <> g ->
     get_local_handle t' g' = get_local_handle t g' /\
     get_module_index t' g' = get_module_index t g') /\
  (forall f, f <> mkFull m l -> get_global_handle t' f = get_global_handle t f).
Proof.
  intros Hwf Hmax Ha. pose proof (assign_wf t m l Hwf Hmax) as Hwf'. rw Ha in Hwf'.
  split; [done|]. pose proof (table_fresh t Hwf) as Hfresh.
  unfold assign_global_handle in Ha. injection Ha as <- <-.
  unfold get_local_handle, get_module_index, get_global_handle; simpl.
  rw Hfresh !lookup_insert_eq. repeat split; intros; by rw lookup_insert_ne.
Qed.

Lemma assign_global_handle_spec_witness :
  let t' := snd (assign_global_handle initial_table 2 40) in
  get_local_handle t' 1 = 40 /\ get_global_handle t' (mkFull 2 40) = 1.
Proof.
  destruct (assign_global_handle_spec initial_table 2 40 1
    (snd (assign_global_handle initial_table 2 40))) as (_ & _ & _ & ? & _ & ? & _);
    [apply initial_table_wf|unfold INT_MAX; simpl; lia|reflexivity|].
  split; assumption.
Defined.

(** The two directions agree: a full handle that has a global handle is
    found back through it, so two different sensors never share a global
    handle, and -1 is returned exactly for the unknown ones. *)
Theorem handle_roundtrip t f :
  table_wf t ->
  (get_global_handle t f <> -1 <-> is_Some (full_to_global t !! f)) /\
  (get_global_handle t f <> -1 ->
     get_module_index t (get_global_handle t f) = moduleIndex f /\
     get_local_handle t (get_global_handle t f) = localHandle f /\
     forall f', get_global_handle t f' = get_global_handle t f -> f' = f).
Proof.
  intros Hwf. split.
  { rw get_global_handle_unknown; [|done]. by rw -not_eq_None_Some. }
  intros Hg. destruct (get_global_handle_pos t f Hwf Hg) as [_ Hf].
  unfold get_module_index, get_local_handle. rw Hf. split; [done|]. split; [done|].
  intros f' Heq. rw -Heq in Hg. destruct (get_global_handle_pos t f' Hwf Hg) as [_ Hf'].
  rw Heq in Hf'. congruence.
Qed.

Lemma handle_roundtrip_witness :
  let t := snd (assign_handles initial_table [mkFull 0 7; mkFull 1 7]) in
  get_global_handle t (mkFull 1 7) = 2 /\
  get_module_index t (get_global_handle t (mkFull 1 7)) = 1.
Proof.
  set (t := snd (assign_handles initial_table [mkFull 0 7; mkFull 1 7])).
  assert (table_wf t) as Hwf.
  { apply (assign_wf (snd (assign_global_handle initial_table 0 7)) 1 7);
      [apply assign_wf; [apply initial_table_wf|]|]; unfold INT_MAX; vm_compute; reflexivity. }
  split; [reflexivity|].
  apply (proj2 (handle_roundtrip t (mkFull 1 7) Hwf)). vm_compute. discriminate.
Defined.

(** Assigning a list of full handles in turn. *)
Lemma assign_handles_spec t fs gs t' :
  table_wf t -> next_global_handle t + Z.of_nat (length fs) <= INT_MAX ->
  assign_handles t fs = (gs, t') ->
  table_wf t' /\
  next_global_handle t' = next_global_handle t + Z.of_nat (length fs) /\
  length gs = length fs /\
  (forall k : nat, (k < length fs)%nat -> gs !! k = Some (next_global_handle t + Z.of_nat k)) /\
  (forall g, g < next_global_handle t -> global_to_full t' !! g = global_to_full t !! g) /\
  (forall k f, fs !! k = Some f ->
     global_to_full t' !! (next_global_handle t + Z.of_nat k) = Some f).
Proof.
  revert t gs t'. induction fs as [|f fs IH]; intros t gs t' Hwf Hmax Ha; simpl in Ha.
  { simplify_eq. simpl. split_and!; try done; intros; lia. }
  simpl in Hmax. pose proof (tw_next t Hwf).
  set (t1 := (assign_global_handle t (moduleIndex f) (localHandle f)).2).
  assert (table_wf t1) as Hwf1 by (apply assign_wf; [done|lia]).
  assert (next_global_handle t1 = next_global_handle t + 1) as Hn1 by (simpl; by no_wrap).
  simpl in Ha. fold (assign_global_handle t (moduleIndex f) (localHandle f)) in Ha.
  change (mkTable _ _ _) with t1 in Ha.
  destruct (assign_handles t1 fs) as [gs1 t2] eqn:H1. simplify_eq.
  apply IH in H1 as (Hwf' & Hn & Hlen & Hgs & Hold & Hnew); [|done|lia].
  split; [done|]. split; [rw Hn Hn1; simpl; lia|]. split; [simpl; lia|].
  split; [|split].
  - intros [|k] Hk; simpl; [by rw Z.add_0_r|].
    rw Hgs; [f_equal; lia|simpl in Hk; lia].
  - intros g Hg. rw Hold; [|lia]. simpl. rw lookup_insert_ne; [done|lia].
  - intros [|k] f' Hf; simpl in Hf.
    + simplify_eq. rw Hold; [|lia]. simpl.
      rw Z.add_0_r lookup_insert_eq. by destruct f'.
    + replace (next_global_handle t + Z.of_nat (S k)) with
        (next_global_handle t1 + Z.of_nat k) by lia. by apply Hnew.
Qed.
