(* ===== verification/SensorsHal.v ===== *)
(** * What the repository uses of the Android sensors HAL headers

    [hardware/sensors.h] and [hardware/hardware.h] are not part of the
    repository: their constants are the parameters of the class
    [SensorsHeader], and [SensorsHeaderLaws] says what the multi-HAL relies
    on (API levels are ordered, [switch] labels are distinct).  The structs
    keep the fields the repository reads or writes by name; the rest of a
    struct, which it only copies, is one opaque field. *)
From S2P Require Import Prelude.

Class SensorsHeader := {
  SENSORS_DEVICE_API_VERSION_1_0 : Z;
  SENSORS_DEVICE_API_VERSION_1_1 : Z;
  SENSORS_DEVICE_API_VERSION_1_2 : Z;
  SENSORS_DEVICE_API_VERSION_1_3 : Z;
  SENSORS_DEVICE_API_VERSION_1_4 : Z;
  SENSOR_TYPE_META_DATA : Z;
  SENSOR_TYPE_LIGHT : Z;
  SENSOR_TYPE_TEMPERATURE : Z;
  SENSOR_TYPE_PROXIMITY : Z;
  SENSOR_TYPE_SIGNIFICANT_MOTION : Z;
  SENSOR_TYPE_TILT_DETECTOR : Z;
  SENSOR_TYPE_WAKE_GESTURE : Z;
  SENSOR_TYPE_GLANCE_GESTURE : Z;
  SENSOR_TYPE_PICK_UP_GESTURE : Z;
  SENSOR_TYPE_WRIST_TILT_GESTURE : Z;
  SENSOR_FLAG_WAKE_UP : Z;
  SENSOR_FLAG_ON_CHANGE_MODE : Z;
}.

Class SensorsHeaderLaws `{SensorsHeader} : Prop := {
  api_levels_ordered :
    0 <= SENSORS_DEVICE_API_VERSION_1_0 < SENSORS_DEVICE_API_VERSION_1_1 /\
    SENSORS_DEVICE_API_VERSION_1_1 < SENSORS_DEVICE_API_VERSION_1_2 /\
    SENSORS_DEVICE_API_VERSION_1_2 < SENSORS_DEVICE_API_VERSION_1_3 /\
    SENSORS_DEVICE_API_VERSION_1_3 < SENSORS_DEVICE_API_VERSION_1_4;
  sensor_types_distinct :
    NoDup [SENSOR_TYPE_LIGHT; SENSOR_TYPE_TEMPERATURE; SENSOR_TYPE_PROXIMITY];
}.

(** The values of the Android 9 headers, for the witnesses. *)
Definition android9_sensors_h : SensorsHeader := {|
  SENSORS_DEVICE_API_VERSION_1_0 := 16777217;   (* 0x01000001 *)
  SENSORS_DEVICE_API_VERSION_1_1 := 16842753;   (* 0x01010001 *)
  SENSORS_DEVICE_API_VERSION_1_2 := 16908289;   (* 0x01020001 *)
  SENSORS_DEVICE_API_VERSION_1_3 := 16973825;   (* 0x01030001 *)
  SENSORS_DEVICE_API_VERSION_1_4 := 17039361;   (* 0x01040001 *)
  SENSOR_TYPE_META_DATA := 0;
  SENSOR_TYPE_LIGHT := 5;
  SENSOR_TYPE_TEMPERATURE := 7;
  SENSOR_TYPE_PROXIMITY := 8;
  SENSOR_TYPE_SIGNIFICANT_MOTION := 17;
  SENSOR_TYPE_TILT_DETECTOR := 22;
  SENSOR_TYPE_WAKE_GESTURE := 23;
  SENSOR_TYPE_GLANCE_GESTURE := 24;
  SENSOR_TYPE_PICK_UP_GESTURE := 25;
  SENSOR_TYPE_WRIST_TILT_GESTURE := 26;
  SENSOR_FLAG_WAKE_UP := 1;
  SENSOR_FLAG_ON_CHANGE_MODE := 2;
|}.

Lemma android9_laws : @SensorsHeaderLaws android9_sensors_h.
Proof.
  constructor; simpl; [lia|].
  repeat constructor; set_solver.
Qed.

(** [struct sensor_t]. *)
Record sensor_t := mkSensor {
  s_handle : Z;
  s_type : Z;
  s_flags : Z;
  s_minDelay : Z;
  s_maxDelay : Z;
  s_rest : list Z;
}.

(** [sensors_event_t]; [ev_meta_sensor] is [meta_data.sensor], a word of the
    payload union that is only meaningful for meta-data events. *)
Record sensors_event_t := mkEvent {
  ev_sensor : Z;
  ev_type : Z;
  ev_meta_sensor : Z;
  ev_rest : list Z;
}.

(** [struct hw_device_t] of a sub-HAL: its address and its API version. *)
Record hw_device_t := mkDevice { dev_ptr : Z; dev_version : Z }.

#[export] Instance sensor_t_eq_dec : EqDecision sensor_t.
Proof. solve_decision. Defined.
#[export] Instance sensors_event_t_eq_dec : EqDecision sensors_event_t.
Proof. solve_decision. Defined.
#[export] Instance hw_device_t_eq_dec : EqDecision hw_device_t.
Proof. solve_decision. Defined.

(** A call of a function pointer of a sub-HAL's device.  The first argument
    is the device whose function is called; the device argument it is passed
    is the same one, except for [inject_sensor_data], which passes on the
    pointer its own caller gave it. *)
Inductive sub_call :=
| CallActivate (d : hw_device_t) (handle enabled : Z)
| CallSetDelay (d : hw_device_t) (handle ns : Z)
| CallBatch (d : hw_device_t) (handle flags period_ns timeout : Z)
| CallFlush (d : hw_device_t) (handle : Z)
| CallInject (d : hw_device_t) (dev : Z) (data : sensors_event_t)
| CallClose (d : hw_device_t).

#[export] Instance sub_call_eq_dec : EqDecision sub_call.
Proof. solve_decision. Defined.

(** The device that is called and the sensor handle it is given. *)
Definition call_device (c : sub_call) : hw_device_t :=
  match c with
  | CallActivate d _ _ | CallSetDelay d _ _ | CallBatch d _ _ _ _
  | CallFlush d _ | CallInject d _ _ | CallClose d => d
  end.

(** A sub-HAL that accepts everything and records it, for the witnesses. *)
Definition logging_hal (c : sub_call) (log : list sub_call) : Z * list sub_call :=
  (0, log ++ [c]).
