(* ===== verification/Dispatch.v ===== *)
(** * Control calls of the multi-HAL

    Model of the control half of sensors/multihal.cpp: the lookups from a
    global handle to a sub-HAL device, [sensors_poll_context_t]'s [activate],
    [setDelay], [batch], [flush], [inject_sensor_data] and [close], and the
    [device__*] entry points with their per-sensor deferral of [batch] for
    sub-HALs older than API 1.1.  ([poll] is in PollLoop.v.)

    A call into a sub-HAL is the parameter [sub_hal], a function of the call
    and the sub-HALs' own state [W]; arrays accessed outside of their
    allocation give no result. *)
From S2P Require Import Prelude Handles SensorsHal.

(** ** Data *)

(** [typedef struct batch_data]. *)
Record batch_data := mkBatch {
  empty_ : bool;
  b_handle : Z;
  b_flags : Z;
  b_period_ns : Z;
  b_timeout : Z;
}.

(** [batch_data::update_batch_data]; the last two parameters are [int]s, so
    the caller's [int64_t]s are converted. *)
Definition update_batch_data (b : batch_data) (handle flags period_ns timeout : Z) : batch_data :=
  let period_ns := i32 period_ns in
  let timeout := i32 timeout in
  {| empty_ := false; b_handle := handle; b_flags := flags;
     b_period_ns := period_ns; b_timeout := timeout |}.

Definition set_empty (b : batch_data) (e : bool) : batch_data :=
  {| empty_ := e; b_handle := b_handle b; b_flags := b_flags b;
     b_period_ns := b_period_ns b; b_timeout := b_timeout b |}.

(** The globals the control calls use; a null pointer is [None]. *)
Record hal_globals := mkGlobals {
  g_table : HandleTable;
  global_sensors_list : option (list sensor_t);
  sensors_batch_list : option (list batch_data);
  sensors_enable_state : option (list Z);
}.

(** The part of [sensors_poll_context_t] the control calls use. *)
Record sensors_poll_context_t := mkCtx {
  proxy_device : Z;   (* address of the proxy device *)
  sub_hw_devices : list hw_device_t;
}.

Definition set_batch_list (h : hal_globals) (l : list batch_data) : hal_globals :=
  {| g_table := g_table h; global_sensors_list := global_sensors_list h;
     sensors_batch_list := Some l; sensors_enable_state := sensors_enable_state h |}.

Definition set_enable_state (h : hal_globals) (l : list Z) : hal_globals :=
  {| g_table := g_table h; global_sensors_list := global_sensors_list h;
     sensors_batch_list := sensors_batch_list h; sensors_enable_state := Some l |}.

(** ** Lookups *)

(** Returns the device, or [None] ([NULL]) if the global handle is invalid. *)
Definition get_v0_device_by_handle (ctx : sensors_poll_context_t) (t : HandleTable)
    (global_handle : Z) : option hw_device_t :=
  let sub_index := get_module_index t global_handle in
  if (sub_index <? 0) || (i32 (Z.of_nat (length (sub_hw_devices ctx))) <=? sub_index)
  then None
  else arr_get (sub_hw_devices ctx) sub_index.

Definition get_v1_device_by_handle (ctx : sensors_poll_context_t) (t : HandleTable)
    (global_handle : Z) : option hw_device_t :=
  let sub_index := get_module_index t global_handle in
  if (sub_index <? 0) || (i32 (Z.of_nat (length (sub_hw_devices ctx))) <=? sub_index)
  then None
  else arr_get (sub_hw_devices ctx) sub_index.

(** Returns the device version, or -1 if the handle is invalid. *)
Definition get_device_version_by_handle (ctx : sensors_poll_context_t) (t : HandleTable)
    (handle : Z) : Z :=
  match get_v0_device_by_handle ctx t handle with
  | Some v0 => dev_version v0
  | None => -1
  end.

Definition halIsAPILevelCompliant (ctx : sensors_poll_context_t) (t : HandleTable)
    (handle level : Z) : bool :=
  let version := get_device_version_by_handle ctx t handle in
  negb (version =? -1) && (level <=? version).

Definition apiNumToStr `{SensorsHeader} (version : Z) : string :=
  if version =? SENSORS_DEVICE_API_VERSION_1_0 then "SENSORS_DEVICE_API_VERSION_1_0"
  else if version =? SENSORS_DEVICE_API_VERSION_1_1 then "SENSORS_DEVICE_API_VERSION_1_1"
  else if version =? SENSORS_DEVICE_API_VERSION_1_2 then "SENSORS_DEVICE_API_VERSION_1_2"
  else if version =? SENSORS_DEVICE_API_VERSION_1_3 then "SENSORS_DEVICE_API_VERSION_1_3"
  else if version =? SENSORS_DEVICE_API_VERSION_1_4 then "SENSORS_DEVICE_API_VERSION_1_4"
  else "UNKNOWN".

(** ** Operations *)

Section Operations.
Context `{SensorsHeader} {W : Type} (sub_hal : sub_call -> W -> Z * W).

(** The state is the globals and the sub-HALs' state. *)
Definition M (A : Type) : Type := stM (hal_globals * W) A.

Definition get_globals : M hal_globals := '(h, _) ← get_st; mret h.

Definition put_globals (h : hal_globals) : M unit := '(_, w) ← get_st; put_st (h, w).

Definition call_sub (c : sub_call) : M Z :=
  '(h, w) ← get_st;
  let '(r, w') := sub_hal c w in
  put_st (h, w');; mret r.

Definition activate (ctx : sensors_poll_context_t) (handle enabled : Z) : M Z :=
  h ← get_globals;
  let local_handle := get_local_handle (g_table h) handle in
  match get_v0_device_by_handle ctx (g_table h) handle with
  | Some v0 =>
      if 0 <=? local_handle then call_sub (CallActivate v0 local_handle enabled)
      else mret (- EINVAL)
  | None => mret (- EINVAL)
  end.

Definition setDelay (ctx : sensors_poll_context_t) (handle ns : Z) : M Z :=
  h ← get_globals;
  let local_handle := get_local_handle (g_table h) handle in
  match get_v0_device_by_handle ctx (g_table h) handle with
  | Some v0 =>
      if 0 <=? local_handle then call_sub (CallSetDelay v0 local_handle ns)
      else mret (- EINVAL)
  | None => mret (- EINVAL)
  end.

Definition batch (ctx : sensors_poll_context_t) (handle flags period_ns timeout : Z) : M Z :=
  h ← get_globals;
  let local_handle := get_local_handle (g_table h) handle in
  match get_v1_device_by_handle ctx (g_table h) handle with
  | Some v1 =>
      if 0 <=? local_handle then
        if halIsAPILevelCompliant ctx (g_table h) handle SENSORS_DEVICE_API_VERSION_1_1
        then call_sub (CallBatch v1 local_handle flags period_ns timeout)
        else
          (* Negative values are not allowed *)
          if (period_ns <? 0) || (timeout <? 0) then mret (- EINVAL)
          else
            let sub_index := get_module_index (g_table h) handle in
            sensors ← defined (global_sensors_list h);
            s ← defined (arr_get sensors sub_index);
            let maxDelay := i32 (s_maxDelay s) in
            let minDelay := i32 (s_minDelay s) in
            let period_ns :=
              if period_ns <? minDelay then minDelay
              else if maxDelay <? period_ns then maxDelay
              else period_ns in
            call_sub (CallSetDelay v1 handle period_ns)
      else mret (- EINVAL)
  | None => mret (- EINVAL)
  end.

Definition flush (ctx : sensors_poll_context_t) (handle : Z) : M Z :=
  h ← get_globals;
  let local_handle := get_local_handle (g_table h) handle in
  match get_v1_device_by_handle ctx (g_table h) handle with
  | Some v1 =>
      if 0 <=? local_handle then
        if halIsAPILevelCompliant ctx (g_table h) handle SENSORS_DEVICE_API_VERSION_1_1
        then call_sub (CallFlush v1 local_handle)
        else mret (- EINVAL)
      else mret (- EINVAL)
  | None => mret (- EINVAL)
  end.

Definition inject_sensor_data (ctx : sensors_poll_context_t) (dev : Z)
    (data : sensors_event_t) : M Z :=
  h ← get_globals;
  (* Get handle for the sensor owning the event being injected *)
  let local_handle := get_local_handle (g_table h) (ev_sensor data) in
  match get_v1_device_by_handle ctx (g_table h) (ev_sensor data) with
  | Some v1 =>
      if halIsAPILevelCompliant ctx (g_table h) (ev_sensor data)
           SENSORS_DEVICE_API_VERSION_1_4 && (0 <=? local_handle)
      then call_sub (CallInject v1 dev data)
      else mret (- EINVAL)
  | None => mret (- EINVAL)
  end.

Fixpoint close_devices (devs : list hw_device_t) : M unit :=
  match devs with
  | [] => mret tt
  | dev :: devs' => call_sub (CallClose dev);; close_devices devs'
  end.

Definition close (ctx : sensors_poll_context_t) : M Z :=
  close_devices (sub_hw_devices ctx);; mret 0.

(** ** Entry points *)

(** [dev] may be [NULL]; the context is freed afterwards. *)
Definition device__close (dev : option sensors_poll_context_t) : M Z :=
  match dev with
  | Some ctx => close ctx;; mret 0
  | None => mret 0
  end.

Definition device__activate (ctx : sensors_poll_context_t) (handle enabled : Z) : M Z :=
  activate_retval ← activate ctx handle enabled;
  h ← get_globals;
  if negb (halIsAPILevelCompliant ctx (g_table h) handle SENSORS_DEVICE_API_VERSION_1_1)
  then
    let index := i32 (handle - 1) in
    enable ← defined (sensors_enable_state h);
    enable' ← defined (arr_set enable index enabled);
    put_globals (set_enable_state h enable');;
    if negb (enabled =? 0) then
      bl ← defined (sensors_batch_list h);
      b ← defined (arr_get bl index);
      if negb (empty_ b) then
        delay_retval ← setDelay ctx handle (b_period_ns b);
        h' ← get_globals;
        bl' ← defined (arr_set bl index (set_empty b true));
        put_globals (set_batch_list h' bl');;
        mret (if negb (delay_retval =? 0) || negb (activate_retval =? 0) then 1 else 0)
      else mret activate_retval
    else mret activate_retval
  else mret activate_retval.

Definition device__setDelay (ctx : sensors_poll_context_t) (handle ns : Z) : M Z :=
  setDelay ctx handle ns.

(** The null check of [&sensors_batch_list[index]] in the source is never
    true where the access is defined. *)
Definition device__batch (ctx : sensors_poll_context_t) (handle flags period_ns timeout : Z) :
    M Z :=
  h ← get_globals;
  if halIsAPILevelCompliant ctx (g_table h) handle SENSORS_DEVICE_API_VERSION_1_1
  then batch ctx handle flags period_ns timeout
  else
    let index := i32 (handle - 1) in
    enable ← defined (sensors_enable_state h);
    e ← defined (arr_get enable index);
    if e =? 0 then
      bl ← defined (sensors_batch_list h);
      b ← defined (arr_get bl index);
      bl' ← defined (arr_set bl index (update_batch_data b handle flags period_ns timeout));
      put_globals (set_batch_list h bl');;
      mret 0
    else setDelay ctx handle period_ns.

Definition device__flush (ctx : sensors_poll_context_t) (handle : Z) : M Z :=
  flush ctx handle.

Definition device__inject_sensor_data (ctx : sensors_poll_context_t)
    (data : sensors_event_t) : M Z :=
  inject_sensor_data ctx (proxy_device ctx) data.

(** The control calls of the framework, as data. *)
Inductive control_call :=
| Activate (handle enabled : Z)
| SetDelay (handle ns : Z)
| Batch (handle flags period_ns timeout : Z)
| Flush (handle : Z)
| Inject (data : sensors_event_t).

Definition control (ctx : sensors_poll_context_t) (c : control_call) : M Z :=
  match c with
  | Activate handle enabled => device__activate ctx handle enabled
  | SetDelay handle ns => device__setDelay ctx handle ns
  | Batch handle flags period_ns timeout => device__batch ctx handle flags period_ns timeout
  | Flush handle => device__flush ctx handle
  | Inject data => device__inject_sensor_data ctx data
  end.
End Operations.

(** ** Specification *)

(** The sub-HAL device a global handle belongs to, and its local handle. *)
Definition route (ctx : sensors_poll_context_t) (t : HandleTable) (g : Z) :
    option (hw_device_t * Z) :=
  f ← global_to_full t !! g;
  if (0 <=? moduleIndex f) && (0 <=? localHandle f)
  then d ← sub_hw_devices ctx !! Z.to_nat (moduleIndex f); Some (d, localHandle f)
  else None.

(** What the framework is promised about each control call, for sub-HALs of
    API 1.1 or newer: one call of the owning sub-HAL with its own handle, or
    [-EINVAL] and no call at all. *)
Definition control_spec `{SensorsHeader} {W} (sub_hal : sub_call -> W -> Z * W)
    (ctx : sensors_poll_context_t) (t : HandleTable) (c : control_call) : M (W := W) Z :=
  match c with
  | Activate g enabled =>
      match route ctx t g with
      | Some (d, l) => call_sub sub_hal (CallActivate d l enabled)
      | None => mret (- EINVAL)
      end
  | SetDelay g ns =>
      match route ctx t g with
      | Some (d, l) => call_sub sub_hal (CallSetDelay d l ns)
      | None => mret (- EINVAL)
      end
  | Batch g flags period_ns timeout =>
      match route ctx t g with
      | Some (d, l) => call_sub sub_hal (CallBatch d l flags period_ns timeout)
      | None => mret (- EINVAL)
      end
  | Flush g =>
      match route ctx t g with
      | Some (d, l) => call_sub sub_hal (CallFlush d l)
      | None => mret (- EINVAL)
      end
  | Inject data =>
      match route ctx t (ev_sensor data) with
      | Some (d, _) =>
          if SENSORS_DEVICE_API_VERSION_1_4 <=? dev_version d
          then call_sub sub_hal (CallInject d (proxy_device ctx) data)
          else mret (- EINVAL)
      | None => mret (- EINVAL)
      end
  end.

(** The handle a control call is about. *)
Definition control_handle (c : control_call) : Z :=
  match c with
  | Activate g _ | SetDelay g _ | Batch g _ _ _ | Flush g => g
  | Inject data => ev_sensor data
  end.

(** Handles 1 to [n] are assigned and the per-handle arrays have [n] entries;
    a batch is only pending for a sensor that is not active. *)
Record globals_ok (n : Z) (h : hal_globals) : Prop := mk_globals_ok {
  go_table : table_wf (g_table h);
  go_next : next_global_handle (g_table h) = n + 1;
  go_enable : exists el, sensors_enable_state h = Some el /\ Z.of_nat (length el) = n;
  go_batch : exists bl, sensors_batch_list h = Some bl /\ Z.of_nat (length bl) = n;
  go_pending el bl i e b :
    sensors_enable_state h = Some el -> sensors_batch_list h = Some bl ->
    el !! i = Some e -> bl !! i = Some b -> e <> 0 -> empty_ b = true;
}.

(** * Theorems *)

Section RouteLemmas.
Context `{SensorsHeader} `{!SensorsHeaderLaws}.
Implicit Types (ctx : sensors_poll_context_t) (t : HandleTable).

Lemma v1_device_v0 ctx t g :
  get_v1_device_by_handle ctx t g = get_v0_device_by_handle ctx t g.
Proof. done. Qed.

(** The two lookups of every control call, as one. *)
Lemma route_lookups ctx t g :
  Z.of_nat (length (sub_hw_devices ctx)) <= INT_MAX ->
  route ctx t g =
    match get_v0_device_by_handle ctx t g with
    | Some d =>
        if 0 <=? get_local_handle t g then Some (d, get_local_handle t g) else None
    | None => None
    end.
Proof.
  intros Hlen. unfold route, get_v0_device_by_handle, get_local_handle, get_module_index.
  destruct (global_to_full t !! g) as [[m l]|] eqn:Hf; simpl; [|done].
  rw (i32_id (Z.of_nat (length (sub_hw_devices ctx)))); [|ilia]. unfold arr_get.
  destruct (Z.ltb_spec m 0), (Z.leb_spec 0 m); try lia; simpl; [done|].
  destruct (Z.leb_spec (Z.of_nat (length (sub_hw_devices ctx))) m).
  - rw lookup_ge_None_2; [|lia]. by destruct (0 <=? l).
  - destruct (sub_hw_devices ctx !! Z.to_nat m); by destruct (0 <=? l).
Qed.

Lemma route_Some ctx t g d l :
  Z.of_nat (length (sub_hw_devices ctx)) <= INT_MAX ->
  route ctx t g = Some (d, l) ->
  get_v0_device_by_handle ctx t g = Some d /\ get_local_handle t g = l /\ 0 <= l.
Proof.
  intros Hlen. rw route_lookups; [|done].
  destruct (get_v0_device_by_handle ctx t g) as [d'|]; [|done].
  destruct (Z.leb_spec 0 (get_local_handle t g)); [|done]. intros. by simplify_eq.
Qed.

Lemma compliant_device ctx t g d level :
  0 <= level -> get_v0_device_by_handle ctx t g = Some d ->
  halIsAPILevelCompliant ctx t g level = (level <=? dev_version d).
Proof.
  intros Hl Hd. unfold halIsAPILevelCompliant, get_device_version_by_handle. rw Hd.
  bool_cases; simpl; lia || done.
Qed.

Lemma compliant_unknown ctx t g level :
  get_v0_device_by_handle ctx t g = None -> halIsAPILevelCompliant ctx t g level = false.
Proof.
  intros Hd. unfold halIsAPILevelCompliant, get_device_version_by_handle. by rw Hd.
Qed.

Lemma levels_nonneg :
  0 <= SENSORS_DEVICE_API_VERSION_1_1 /\ 0 <= SENSORS_DEVICE_API_VERSION_1_4.
Proof. pose proof api_levels_ordered. lia. Qed.

(** A handle outside of the table has no device. *)
Lemma unknown_handle t ctx g :
  global_to_full t !! g = None ->
  get_v0_device_by_handle ctx t g = None /\ get_local_handle t g = -1.
Proof.
  intros Hg. unfold get_v0_device_by_handle, get_local_handle, get_module_index.
  by rw Hg.
Qed.
End RouteLemmas.

Section ControlLemmas.
Context `{SensorsHeader} `{!SensorsHeaderLaws} {W : Type}.
Context (sub_hal : sub_call -> W -> Z * W) (ctx : sensors_poll_context_t).
Hypothesis Hdevs : Z.of_nat (length (sub_hw_devices ctx)) <= INT_MAX.
Implicit Types (h : hal_globals) (w : W).

Lemma call_sub_run c h w :
  call_sub sub_hal c (h, w) = Some ((sub_hal c w).1, (h, (sub_hal c w).2)).
Proof. unfold call_sub. st_unfold. by destruct (sub_hal c w). Qed.

Lemma activate_run g enabled h w :
  activate sub_hal ctx g enabled (h, w) =
    match route ctx (g_table h) g with
    | Some (d, l) => call_sub sub_hal (CallActivate d l enabled) (h, w)
    | None => Some (- EINVAL, (h, w))
    end.
Proof.
  rw route_lookups; [|done]. unfold activate, get_globals. st_unfold. simpl.
  destruct (get_v0_device_by_handle _ _ _); [|done]. by destruct (0 <=? _).
Qed.

Lemma setDelay_run g ns h w :
  setDelay sub_hal ctx g ns (h, w) =
    match route ctx (g_table h) g with
    | Some (d, l) => call_sub sub_hal (CallSetDelay d l ns) (h, w)
    | None => Some (- EINVAL, (h, w))
    end.
Proof.
  rw route_lookups; [|done]. unfold setDelay, get_globals. st_unfold. simpl.
  destruct (get_v0_device_by_handle _ _ _); [|done]. by destruct (0 <=? _).
Qed.

(** Whatever [setDelay] does, it has a result and leaves the globals alone. *)
Lemma setDelay_total g ns h w :
  exists r w', setDelay sub_hal ctx g ns (h, w) = Some (r, (h, w')).
Proof.
  rw setDelay_run. destruct (route _ _ _) as [[d l]|]; [|by eauto].
  rw call_sub_run. by eauto.
Qed.

Lemma activate_total g enabled h w :
  exists r w', activate sub_hal ctx g enabled (h, w) = Some (r, (h, w')).
Proof.
  rw activate_run. destruct (route _ _ _) as [[d l]|]; [|by eauto].
  rw call_sub_run. by eauto.
Qed.
End ControlLemmas.

(** [control_spec] holds of every call about a sensor of a new enough sub-HAL. *)
Lemma control_meets_spec `{SensorsHeader} `{!SensorsHeaderLaws} {W}
    (sub_hal : sub_call -> W -> Z * W) ctx c h w d :
  Z.of_nat (length (sub_hw_devices ctx)) <= INT_MAX ->
  get_v0_device_by_handle ctx (g_table h) (control_handle c) = Some d ->
  SENSORS_DEVICE_API_VERSION_1_1 <= dev_version d ->
  control sub_hal ctx c (h, w) = control_spec sub_hal ctx (g_table h) c (h, w).
Proof.
  intros Hlen Hd Hv. destruct levels_nonneg as [H11 H14].
  destruct c as [g en|g ns|g fl p tmo|g|data]; simpl in *.
  - unfold device__activate, get_globals. st_unfold. rw activate_run; [|done].
    rw route_lookups; [|done]. rw Hd.
    destruct (0 <=? get_local_handle (g_table h) g).
    + rw call_sub_run. simpl. rw (compliant_device _ _ _ d); [|done..].
      by rw (proj2 (Z.leb_le _ _) Hv).
    + simpl. rw (compliant_device _ _ _ d); [|done..]. by rw (proj2 (Z.leb_le _ _) Hv).
  - unfold device__setDelay. rw setDelay_run; [|done]. by destruct (route _ _ _) as [[]|].
  - unfold device__batch, get_globals. st_unfold. simpl.
    rw (compliant_device _ _ _ d); [|done..]. rw (proj2 (Z.leb_le _ _) Hv).
    unfold batch, get_globals. st_unfold. simpl. rw v1_device_v0 Hd.
    rw route_lookups; [|done]. rw Hd. destruct (0 <=? _); [|done].
    rw (compliant_device _ _ _ d); [|done..]. by rw (proj2 (Z.leb_le _ _) Hv).
  - unfold device__flush, flush, get_globals. st_unfold. simpl. rw v1_device_v0 Hd.
    rw route_lookups; [|done]. rw Hd. destruct (0 <=? _); [|done].
    rw (compliant_device _ _ _ d); [|done..]. by rw (proj2 (Z.leb_le _ _) Hv).
  - unfold device__inject_sensor_data, inject_sensor_data, get_globals. st_unfold. simpl.
    rw v1_device_v0 Hd. rw route_lookups; [|done]. rw Hd.
    rw (compliant_device _ _ _ d); [|done..].
    destruct (0 <=? get_local_handle _ _); rw ?andb_true_r ?andb_false_r; [|done].
    by destruct (_ <=? dev_version d).
Qed.


(** No sub-HAL of API 1.1 or newer has the handle: its sub-HAL is older, or it
    has none. *)
Definition not_new `{SensorsHeader} ctx t g : Prop :=
  forall d, get_v0_device_by_handle ctx t g = Some d -> dev_version d < SENSORS_DEVICE_API_VERSION_1_1.

Lemma not_new_compliant `{SensorsHeader} `{!SensorsHeaderLaws} ctx t g level :
  not_new ctx t g -> SENSORS_DEVICE_API_VERSION_1_1 <= level ->
  halIsAPILevelCompliant ctx t g level = false.
Proof.
  intros Hold Hlevel. destruct levels_nonneg as [H11 _].
  destruct (get_v0_device_by_handle ctx t g) as [d|] eqn:Hd; [|by apply compliant_unknown].
  rw (compliant_device _ _ _ d); [|lia|done]. apply Z.leb_gt. specialize (Hold d Hd). lia.
Qed.

(** What the calls do for the other handles, where nothing is deferred. *)
Lemma control_old `{SensorsHeader} `{!SensorsHeaderLaws} {W}
    (sub_hal : sub_call -> W -> Z * W) ctx c h w :
  Z.of_nat (length (sub_hw_devices ctx)) <= INT_MAX ->
  not_new ctx (g_table h) (control_handle c) ->
  match c with
  | SetDelay _ _ => control sub_hal ctx c (h, w) = control_spec sub_hal ctx (g_table h) c (h, w)
  | Flush _ | Inject _ => control sub_hal ctx c (h, w) = Some (- EINVAL, (h, w))
  | Batch g _ p _ => forall el e,
      sensors_enable_state h = Some el -> arr_get el (i32 (g - 1)) = Some e -> e <> 0 ->
      control sub_hal ctx c (h, w) = control_spec sub_hal ctx (g_table h) (SetDelay g p) (h, w)
  | Activate g en => forall el el' bl b,
      sensors_enable_state h = Some el -> arr_set el (i32 (g - 1)) en = Some el' ->
      sensors_batch_list h = Some bl -> arr_get bl (i32 (g - 1)) = Some b ->
      en = 0 \/ empty_ b = true ->
      exists r w', control_spec sub_hal ctx (g_table h) c (h, w) = Some (r, (h, w')) /\
        control sub_hal ctx c (h, w) = Some (r, (set_enable_state h el', w'))
  end.
Proof.
  intros Hlen Hold. assert (halIsAPILevelCompliant ctx (g_table h) (control_handle c)
    SENSORS_DEVICE_API_VERSION_1_1 = false) as Hc by (by apply not_new_compliant).
  assert (halIsAPILevelCompliant ctx (g_table h) (control_handle c)
    SENSORS_DEVICE_API_VERSION_1_4 = false) as Hc4.
  { apply not_new_compliant; [done|]. pose proof api_levels_ordered. lia. }
  destruct c as [g en|g ns|g fl p tmo|g|data]; simpl in *.
  - intros el el' bl b Hel Hel' Hbl Hb Hnot.
    unfold device__activate, get_globals, put_globals. st_unfold.
    destruct (activate_total sub_hal ctx Hlen g en h w) as (r & w' & Ha). exists r, w'. split.
    + rw activate_run in Ha; [|done]. by destruct (route _ _ _) as [[d l]|].
    + rw Ha /= Hc Hel Hel' /=. destruct (Z.eqb_spec en 0); [done|].
      rw Hbl Hb. destruct Hnot as [?|Hem]; [done|]. by rw Hem.
  - unfold device__setDelay. rw setDelay_run; [|done]. by destruct (route _ _ _) as [[]|].
  - intros el e Hel He Hne. unfold device__batch, get_globals. st_unfold. simpl.
    rw Hc Hel He. destruct (Z.eqb_spec e 0); [done|]. rw setDelay_run; [|done].
    by destruct (route _ _ _) as [[]|].
  - unfold device__flush, flush, get_globals. st_unfold. simpl.
    destruct (get_v1_device_by_handle _ _ _); [|done]. destruct (0 <=? _); [|done]. by rw Hc.
  - unfold device__inject_sensor_data, inject_sensor_data, get_globals. st_unfold. simpl.
    destruct (get_v1_device_by_handle _ _ _); [|done]. by rw Hc4.
Qed.

(** C8: control calls refine their specification.  For a handle whose sub-HAL
    implements API 1.1 or newer, each of [device__activate], [device__setDelay],
    [device__batch], [device__flush] and [device__inject_sensor_data] is exactly
    the one call of the owning sub-HAL's device that the specification names,
    with that sub-HAL's local handle and the caller's other arguments (an
    injected event is passed on as it is, still with its global handle), or
    [-EINVAL] with no call and no change.  For a handle whose sub-HAL is older,
    or that has no sub-HAL: [device__setDelay] does the same; [device__flush] and
    [device__inject_sensor_data] refuse with no call and no change;
    [device__batch] of an active sensor is the specified [setDelay] with the
    period; and [device__activate] with nothing pending is the specified call,
    and records the state.  What is left are the deferred requests of C26 and
    the handles never assigned of C25. *)
Theorem control_refines_spec `{SensorsHeader} `{!SensorsHeaderLaws} {W}
    (sub_hal : sub_call -> W -> Z * W) ctx c h w :
  Z.of_nat (length (sub_hw_devices ctx)) <= INT_MAX ->
  (forall d, get_v0_device_by_handle ctx (g_table h) (control_handle c) = Some d ->
     SENSORS_DEVICE_API_VERSION_1_1 <= dev_version d ->
     control sub_hal ctx c (h, w) = control_spec sub_hal ctx (g_table h) c (h, w)) /\
  (not_new ctx (g_table h) (control_handle c) ->
   match c with
   | SetDelay _ _ => control sub_hal ctx c (h, w) = control_spec sub_hal ctx (g_table h) c (h, w)
   | Flush _ | Inject _ => control sub_hal ctx c (h, w) = Some (- EINVAL, (h, w))
   | Batch g _ p _ => forall el e,
       sensors_enable_state h = Some el -> arr_get el (i32 (g - 1)) = Some e -> e <> 0 ->
       control sub_hal ctx c (h, w) = control_spec sub_hal ctx (g_table h) (SetDelay g p) (h, w)
   | Activate g en => forall el el' bl b,
       sensors_enable_state h = Some el -> arr_set el (i32 (g - 1)) en = Some el' ->
       sensors_batch_list h = Some bl -> arr_get bl (i32 (g - 1)) = Some b ->
       en = 0 \/ empty_ b = true ->
       exists r w', control_spec sub_hal ctx (g_table h) c (h, w) = Some (r, (h, w')) /\
         control sub_hal ctx c (h, w) = Some (r, (set_enable_state h el', w'))
   end).
Proof.
  intros Hlen. split; [intros d Hd Hv; by apply (control_meets_spec sub_hal ctx c h w d)|].
  by apply control_old.
Qed.

Lemma control_refines_spec_witness :
  let H := android9_sensors_h in
  let d0 := mkDevice 100 16777217 in let d1 := mkDevice 200 17039361 in
  let ctx := mkCtx 1 [d0; d1] in
  let h := mkGlobals (snd (assign_handles initial_table [mkFull 0 5; mkFull 1 9]))
             None None None in
  control logging_hal ctx (Batch 2 3 20000000 7) (h, [])
    = Some (0, (h, [CallBatch d1 9 3 20000000 7])) /\
  control logging_hal ctx (Flush 1) (h, []) = Some (- EINVAL, (h, [])).
Proof.
  intros H d0 d1 ctx h. split.
  - refine (eq_trans (proj1 (@control_refines_spec H android9_laws _ logging_hal ctx
      (Batch 2 3 20000000 7) h [] _) d1 _ _) _);
      [vm_compute; discriminate|vm_compute; reflexivity|vm_compute; discriminate|reflexivity].
  - refine (proj2 (@control_refines_spec H android9_laws _ logging_hal ctx (Flush 1) h [] _) _);
      [vm_compute; discriminate|].
    intros d Hd. vm_compute in Hd. injection Hd as <-. vm_compute. reflexivity.
Defined.

(** C26: the deferral for old sub-HALs.  While a sensor of a sub-HAL older than
    API 1.1 is inactive, [device__batch] reaches no sub-HAL and returns 0, and
    the next activation first activates the sensor and then sets its delay to
    the period last asked for, after which nothing is pending any more.  The
    result is 0 when both calls return 0 and 1 otherwise, and the delay is the
    one asked for exactly when it fits an [int]. *)
Theorem deferred_batch_applied `{SensorsHeader} `{!SensorsHeaderLaws} {W}
    (sub_hal : sub_call -> W -> Z * W) ctx h w n g d l el bl enabled fl p tmo :
  Z.of_nat (length (sub_hw_devices ctx)) <= INT_MAX -> n <= INT_MAX ->
  route ctx (g_table h) g = Some (d, l) ->
  dev_version d < SENSORS_DEVICE_API_VERSION_1_1 ->
  sensors_enable_state h = Some el -> sensors_batch_list h = Some bl ->
  Z.of_nat (length el) = n -> Z.of_nat (length bl) = n -> 1 <= g <= n ->
  arr_get el (g - 1) = Some 0 -> enabled <> 0 ->
  exists h1 h2,
    device__batch sub_hal ctx g fl p tmo (h, w) = Some (0, (h1, w)) /\
    (let '(r1, w1) := sub_hal (CallActivate d l enabled) w in
     let '(r2, w2) := sub_hal (CallSetDelay d l (i32 p)) w1 in
     device__activate sub_hal ctx g enabled (h1, w) =
       Some (if (r2 =? 0) && (r1 =? 0) then 0 else 1, (h2, w2))) /\
    sensors_enable_state h2 = Some (<[Z.to_nat (g - 1) := enabled]> el) /\
    (exists bl2 b, sensors_batch_list h2 = Some bl2 /\ length bl2 = length bl /\
       arr_get bl2 (g - 1) = Some b /\ empty_ b = true) /\
    (i32 p = p <-> in_i32 p).
Proof.
  intros Hlen Hn Hroute Hv Hel Hbl Hlel Hlbl Hg He Hen.
  destruct levels_nonneg as [H11 _].
  destruct (route_Some ctx (g_table h) g d l Hlen Hroute) as (Hd & Hl & Hl0).
  assert (halIsAPILevelCompliant ctx (g_table h) g SENSORS_DEVICE_API_VERSION_1_1 = false)
    as Hcomp by (rw (compliant_device _ _ _ d); [|done..]; by apply Z.leb_gt).
  assert (i32 (g - 1) = g - 1) as Hidx by (apply i32_id; ilia).
  destruct (proj2 (arr_get_is_Some bl (g - 1))) as [b Hb]; [lia|].
  set (b1 := update_batch_data b g fl p tmo).
  set (bl1 := <[Z.to_nat (g - 1) := b1]> bl).
  assert (arr_set bl (g - 1) b1 = Some bl1) as Hset
    by (apply arr_set_Some; split; [lia|done]).
  set (h1 := set_batch_list h bl1).
  assert (length bl1 = length bl) as Hlbl1 by apply length_insert.
  assert (arr_get bl1 (g - 1) = Some b1) as Hb1.
  { apply arr_get_Some. split; [lia|]. apply list_lookup_insert_eq. lia. }
  set (el2 := <[Z.to_nat (g - 1) := enabled]> el).
  assert (arr_set el (g - 1) enabled = Some el2) as Hsete
    by (apply arr_set_Some; split; [lia|done]).
  set (bl2 := <[Z.to_nat (g - 1) := set_empty b1 true]> bl1).
  assert (arr_set bl1 (g - 1) (set_empty b1 true) = Some bl2) as Hset2
    by (apply arr_set_Some; split; [lia|done]).
  set (h2 := set_batch_list (set_enable_state h1 el2) bl2).
  exists h1, h2. split; [|split; [|split; [done|split]]].
  - unfold device__batch, get_globals. st_unfold. simpl. rw Hcomp Hel Hidx He /=.
    by rw Hbl Hb Hset.
  - destruct (sub_hal (CallActivate d l enabled) w) as [r1 w1] eqn:Hr1.
    destruct (sub_hal (CallSetDelay d l (i32 p)) w1) as [r2 w2] eqn:Hr2.
    unfold device__activate, get_globals, put_globals. st_unfold.
    rw activate_run; [|done]. rw Hroute call_sub_run Hr1 /= Hcomp Hel Hidx Hsete /=.
    destruct (Z.eqb_spec enabled 0); [done|]. simpl. rw Hb1 /=.
    rw setDelay_run; [|done]. simpl. rw Hroute call_sub_run Hr2 /= Hset2. simpl.
    do 2 f_equal. by destruct (r2 =? 0), (r1 =? 0).
  - exists bl2, (set_empty b1 true). split; [done|].
    split; [unfold bl2; by rw length_insert|]. split; [|done].
    apply arr_get_Some. unfold bl2. rw length_insert. split; [lia|].
    apply list_lookup_insert_eq. lia.
  - split; [intros <-; apply i32_range|apply i32_id].
Qed.

Lemma deferred_batch_applied_witness :
  let H := android9_sensors_h in
  let d0 := mkDevice 100 16777217 in
  let ctx := mkCtx 1 [d0] in
  let b := mkBatch true 0 0 0 0 in
  let h := mkGlobals (snd (assign_handles initial_table [mkFull 0 5]))
             None (Some [b]) (Some [0]) in
  exists h1 h2,
    device__batch logging_hal ctx 1 0 3000000000 0 (h, []) = Some (0, (h1, [])) /\
    device__activate logging_hal ctx 1 1 (h1, [])
      = Some (0, (h2, [CallActivate d0 5 1; CallSetDelay d0 5 (-1294967296)])).
Proof.
  intros H d0 ctx b h.
  destruct (@deferred_batch_applied H android9_laws _ logging_hal ctx h [] 1 1 d0 5
    [0] [b] 1 0 3000000000 0) as (h1 & h2 & H1 & H2 & _);
    [vm_compute; discriminate|unfold INT_MAX; lia|vm_compute; reflexivity
    |vm_compute; reflexivity|reflexivity|reflexivity|reflexivity|reflexivity|lia
    |reflexivity|discriminate|].
  exists h1, h2. split; [exact H1|exact H2].
Defined.

Section Safety.
Context `{SensorsHeader} `{!SensorsHeaderLaws} {W : Type}.
Context (sub_hal : sub_call -> W -> Z * W) (ctx : sensors_poll_context_t) (n : Z).
Hypothesis Hdevs : Z.of_nat (length (sub_hw_devices ctx)) <= INT_MAX.
Implicit Types (h : hal_globals) (w : W).

(** Recording a request for a sensor that is not active. *)
Lemma globals_ok_record h el bl i b :
  globals_ok n h -> sensors_enable_state h = Some el -> sensors_batch_list h = Some bl ->
  el !! i = Some 0 -> globals_ok n (set_batch_list h (<[i := b]> bl)).
Proof.
  intros [? ? [el0 [Hel ?]] [bl0 [Hbl ?]] Hp] Hel' Hbl' Hi. simplify_eq.
  constructor; simpl; [done|done|by eauto|..].
  - eexists. split; [done|]. rw length_insert. lia.
  - intros el1 bl1 j e b1 ? ? He Hb Hne. simplify_eq.
    destruct (decide (i = j)) as [->|Hij]; [by simplify_eq|].
    rw list_lookup_insert_ne in Hb; [|done]. by eapply Hp.
Qed.

(** Marking a sensor active or inactive while nothing is pending for it, or
    inactive. *)
Lemma globals_ok_enable h el bl i en :
  globals_ok n h -> sensors_enable_state h = Some el -> sensors_batch_list h = Some bl ->
  (en = 0 \/ exists b, bl !! i = Some b /\ empty_ b = true) ->
  globals_ok n (set_enable_state h (<[i := en]> el)).
Proof.
  intros [? ? [el0 [Hel ?]] [bl0 [Hbl ?]] Hp] Hel' Hbl' Hi. simplify_eq.
  constructor; simpl; [done|done|..].
  - eexists. split; [done|]. rw length_insert. lia.
  - by eauto.
  - intros el1 bl1 j e b1 ? ? He Hb Hne. simplify_eq.
    destruct (decide (i = j)) as [->|Hij].
    + apply list_lookup_insert_Some in He as [(_ & -> & _)|[? _]]; [|done].
      destruct Hi as [?|(b & ? & ?)]; [done|by simplify_eq].
    + rw list_lookup_insert_ne in He; [|done]. by eapply Hp.
Qed.

(** Activating a sensor and consuming its pending request. *)
Lemma globals_ok_consume h el bl i en b :
  globals_ok n h -> sensors_enable_state h = Some el -> sensors_batch_list h = Some bl ->
  globals_ok n (set_batch_list (set_enable_state h (<[i := en]> el))
                  (<[i := set_empty b true]> bl)).
Proof.
  intros [? ? [el0 [Hel ?]] [bl0 [Hbl ?]] Hp] Hel' Hbl'. simplify_eq.
  constructor; simpl; [done|done|..].
  - eexists. split; [done|]. rw length_insert. lia.
  - eexists. split; [done|]. rw length_insert. lia.
  - intros el1 bl1 j e b1 ? ? He Hb Hne. simplify_eq.
    destruct (decide (i = j)) as [->|Hij].
    + apply list_lookup_insert_Some in Hb as [(_ & <- & _)|[? _]]; done.
    + rw list_lookup_insert_ne in He; [|done]. rw list_lookup_insert_ne in Hb; [|done].
      by eapply Hp.
Qed.

Lemma device__activate_safe h w g en :
  n <= INT_MAX -> globals_ok n h -> 1 <= g <= n ->
  exists r h' w', device__activate sub_hal ctx g en (h, w) = Some (r, (h', w')) /\
    globals_ok n h' /\ g_table h' = g_table h.
Proof.
  intros Hn Hok Hg. pose proof Hok as [? ? [el [Hel Hle]] [bl [Hbl Hlb]] Hp].
  destruct (activate_total sub_hal ctx Hdevs g en h w) as (r & w1 & Ha).
  unfold device__activate, get_globals, put_globals. st_unfold. rw Ha /=.
  destruct (halIsAPILevelCompliant _ _ _ _); simpl; [by eauto 10|]. rw Hel.
  assert (i32 (g - 1) = g - 1) as -> by (apply i32_id; ilia).
  assert (arr_set el (g - 1) en = Some (<[Z.to_nat (g - 1) := en]> el)) as ->
    by (apply arr_set_Some; split; [lia|done]).
  destruct (proj2 (arr_get_is_Some bl (g - 1))) as [b Hb]; [lia|]. simpl.
  pose proof (proj1 (arr_get_Some _ _ _) Hb) as [_ Hb'].
  destruct (Z.eqb_spec en 0) as [->|Hen]; simpl.
  { eexists _, _, _. split; [done|]. split; [|done]. by eapply globals_ok_enable; [..|left]. }
  rw Hbl Hb. destruct (empty_ b) eqn:Hem; simpl.
  { eexists _, _, _. split; [done|]. split; [|done].
    by eapply globals_ok_enable; [..|right; eexists]. }
  set (h1 := set_enable_state h _).
  destruct (setDelay_total sub_hal ctx Hdevs g (b_period_ns b) h1 w1) as (r2 & w2 & ->).
  assert (arr_set bl (g - 1) (set_empty b true) =
    Some (<[Z.to_nat (g - 1) := set_empty b true]> bl)) as ->
    by (apply arr_set_Some; split; [lia|done]).
  eexists _, _, _. split; [done|]. split; [|done]. by apply globals_ok_consume.
Qed.

Lemma device__batch_safe h w g fl p tmo :
  n <= INT_MAX -> globals_ok n h -> 1 <= g <= n ->
  exists r h' w', device__batch sub_hal ctx g fl p tmo (h, w) = Some (r, (h', w')) /\
    globals_ok n h' /\ g_table h' = g_table h.
Proof.
  intros Hn Hok Hg. pose proof Hok as [? ? [el [Hel Hle]] [bl [Hbl Hlb]] Hp].
  unfold device__batch, get_globals, put_globals. st_unfold. simpl.
  destruct (halIsAPILevelCompliant _ _ _ _) eqn:Hc.
  { unfold batch, get_globals. st_unfold. simpl. rw v1_device_v0.
    destruct (get_v0_device_by_handle _ _ _); [|by eauto 10].
    destruct (0 <=? _); [|by eauto 10]. rw Hc call_sub_run. by eauto 10. }
  rw Hel. assert (i32 (g - 1) = g - 1) as -> by (apply i32_id; ilia).
  destruct (proj2 (arr_get_is_Some el (g - 1))) as [e He]; [lia|]. rw He.
  destruct (Z.eqb_spec e 0) as [->|Hne].
  - destruct (proj2 (arr_get_is_Some bl (g - 1))) as [b Hb]; [lia|]. rw Hbl Hb.
    assert (arr_set bl (g - 1) (update_batch_data b g fl p tmo) =
      Some (<[Z.to_nat (g - 1) := update_batch_data b g fl p tmo]> bl)) as ->
      by (apply arr_set_Some; split; [lia|done]).
    eexists _, _, _. split; [done|]. split; [|done].
    eapply globals_ok_record; [done..|]. by apply arr_get_Some in He as [_ ?].
  - destruct (setDelay_total sub_hal ctx Hdevs g p h w) as (r2 & w2 & ->). by eauto 10.
Qed.

Lemma flush_total g h w :
  exists r w', flush sub_hal ctx g (h, w) = Some (r, (h, w')).
Proof.
  unfold flush, get_globals. st_unfold. simpl.
  destruct (get_v1_device_by_handle _ _ _); [|by eauto].
  destruct (0 <=? _); [|by eauto].
  destruct (halIsAPILevelCompliant _ _ _ _); [|by eauto]. rw call_sub_run. by eauto.
Qed.

Lemma inject_total dev data h w :
  exists r w', inject_sensor_data sub_hal ctx dev data (h, w) = Some (r, (h, w')).
Proof.
  unfold inject_sensor_data, get_globals. st_unfold. simpl.
  destruct (get_v1_device_by_handle _ _ _); [|by eauto].
  destruct (_ && _); [|by eauto]. rw call_sub_run. by eauto.
Qed.
End Safety.

(** For a handle that was never assigned, [device__activate] and
    [device__batch] index their arrays out of bounds (undefined behaviour), where
    the other calls reject the handle. *)
Lemma control_unassigned `{SensorsHeader} `{!SensorsHeaderLaws} {W}
    (sub_hal : sub_call -> W -> Z * W) ctx n c h w :
  Z.of_nat (length (sub_hw_devices ctx)) <= INT_MAX -> n <= INT_MAX ->
  globals_ok n h -> in_i32 (control_handle c) -> ~ (1 <= control_handle c <= n) ->
  match c with
  | Activate _ _ | Batch _ _ _ _ => control sub_hal ctx c (h, w) = None
  | _ => control sub_hal ctx c (h, w) = Some (- EINVAL, (h, w))
  end.
Proof.
  intros Hdevs Hn [Hwf Hnext [el [Hel Hle]] [bl [Hbl Hlb]] _] Hg Hout.
  remember (control_handle c) as g eqn:Hcg.
  assert (global_to_full (g_table h) !! g = None) as Hnone.
  { apply eq_None_not_Some. rw (tw_dom _ Hwf). lia. }
  destruct (unknown_handle (g_table h) ctx g Hnone) as [Hdev Hloc].
  assert (route ctx (g_table h) g = None) as Hr by (rw route_lookups; [by rw Hdev|done]).
  assert (i32 (g - 1) < 0 \/ n <= i32 (g - 1)) as Hidx.
  { destruct (decide (g = INT_MIN)) as [->|Hmin].
    - right. by change (i32 (INT_MIN - 1)) with INT_MAX.
    - rw i32_id; [lia|]. ilia. }
  destruct c as [g' en|g' ns|g' fl p tmo|g'|data]; simpl in *; subst g.
  - unfold device__activate, get_globals. st_unfold. rw activate_run; [|done].
    rw Hr /= compliant_unknown; [|done]. simpl. rw Hel.
    destruct (arr_set el (i32 (g' - 1)) en) eqn:Hs; [|done].
    apply arr_set_Some in Hs as [? _]. lia.
  - unfold device__setDelay. rw setDelay_run; [|done]. by rw Hr.
  - unfold device__batch, get_globals. st_unfold. simpl. rw compliant_unknown; [|done].
    rw Hel. rw (proj2 (arr_get_None el (i32 (g' - 1)))); [done|lia].
  - unfold device__flush, flush, get_globals. st_unfold. simpl. by rw v1_device_v0 Hdev.
  - unfold device__inject_sensor_data, inject_sensor_data, get_globals. st_unfold. simpl.
    by rw v1_device_v0 Hdev.
Qed.

(** C25: on a consistent state, a control call about a handle that was assigned
    has a defined result and keeps the handle table and the state consistent,
    whatever the sub-HALs answer: no array is accessed outside of its bounds and
    no batch stays pending for an active sensor.  About any other handle,
    [device__setDelay], [device__flush] and [device__inject_sensor_data] refuse
    with no call and no change, and [device__activate] and [device__batch] always
    access their arrays out of bounds. *)
Theorem control_preserves_globals `{SensorsHeader} `{!SensorsHeaderLaws} {W}
    (sub_hal : sub_call -> W -> Z * W) ctx n c h w :
  Z.of_nat (length (sub_hw_devices ctx)) <= INT_MAX -> n <= INT_MAX ->
  globals_ok n h -> in_i32 (control_handle c) ->
  (1 <= control_handle c <= n ->
   exists r h' w', control sub_hal ctx c (h, w) = Some (r, (h', w')) /\
     globals_ok n h' /\ g_table h' = g_table h) /\
  (~ (1 <= control_handle c <= n) ->
   match c with
   | Activate _ _ | Batch _ _ _ _ => control sub_hal ctx c (h, w) = None
   | _ => control sub_hal ctx c (h, w) = Some (- EINVAL, (h, w))
   end).
Proof.
  intros Hdevs Hn Hok Hint. split; [|by apply control_unassigned with (n := n)].
  intros Hc. destruct c as [g en|g ns|g fl p tmo|g|data]; simpl in *.
  - by apply device__activate_safe.
  - destruct (setDelay_total sub_hal ctx Hdevs g ns h w) as (r & w' & ?). by eauto 10.
  - by apply device__batch_safe.
  - destruct (flush_total sub_hal ctx g h w) as (r & w' & ?). by eauto 10.
  - destruct (inject_total sub_hal ctx (proxy_device ctx) data h w) as (r & w' & ?).
    by eauto 10.
Qed.

Lemma control_preserves_globals_witness :
  let H := android9_sensors_h in
  let ctx := mkCtx 1 [mkDevice 100 16777217] in
  let h := mkGlobals (snd (assign_handles initial_table [mkFull 0 5]))
             None (Some [mkBatch true 0 0 0 0]) (Some [0]) in
  (exists r h' w', control logging_hal ctx (Activate 1 1) (h, []) = Some (r, (h', w')) /\
    globals_ok 1 h' /\ g_table h' = g_table h) /\
  control logging_hal ctx (Batch 2 0 0 0) (h, []) = None.
Proof.
  intros H ctx h.
  assert (globals_ok 1 h) as Hok.
  { constructor.
    + apply (assign_wf initial_table 0 5); [apply initial_table_wf|reflexivity].
    + reflexivity.
    + by exists [0].
    + by exists [mkBatch true 0 0 0 0].
    + intros el bl i e b [= <-] [= <-] He _ Hne.
      destruct i as [|i]; [by injection He as <-|done]. }
  split.
  - apply (@control_preserves_globals H android9_laws _ logging_hal ctx 1 (Activate 1 1) h []);
      [vm_compute; discriminate|vm_compute; discriminate|exact Hok|vm_compute; split; discriminate
      |simpl; lia].
  - apply (@control_preserves_globals H android9_laws _ logging_hal ctx 1 (Batch 2 0 0 0) h []);
      [vm_compute; discriminate|vm_compute; discriminate|exact Hok|vm_compute; split; discriminate
      |simpl; lia].
Defined.

(** Closing the multi-HAL closes every sub-HAL device once, in the order
    they were opened, and reports success whatever they answer. *)
Theorem device_close_closes_all {W} (sub_hal : sub_call -> W -> Z * W) ctx h w :
  device__close sub_hal (Some ctx) (h, w) =
    Some (0, (h, foldl (fun w d => (sub_hal (CallClose d) w).2) w (sub_hw_devices ctx))).
Proof.
  unfold device__close, close.
  enough (forall devs w, close_devices sub_hal devs (h, w) =
    Some (tt, (h, foldl (fun w d => (sub_hal (CallClose d) w).2) w devs))) as Hd.
  { st_unfold. by rw Hd. }
  intros devs. induction devs as [|d devs IH]; intros w0; simpl; [done|].
  st_unfold. rw call_sub_run. apply IH.
Qed.
