(* ===== verification/PollLoop.v ===== *)
(** * The multi-HAL's poll()

    Model of [sensors_poll_context_t::copy_event_remap_handle] and of
    [sensors_poll_context_t::poll] (sensors/multihal.cpp): the round-robin
    scan of the sub-HALs' queues into the caller's buffer, and the outer loop
    that sleeps when a scan delivers nothing.

    The scan is written against the interface [EventSource] of EventQueue.v;
    SensorThreads.v runs it on the real ring buffers next to the writer
    threads. *)
From S2P Require Import Prelude EventQueue Handles SensorsHal.

Definition set_sensor (e : sensors_event_t) (v : Z) : sensors_event_t :=
  {| ev_sensor := v; ev_type := ev_type e; ev_meta_sensor := ev_meta_sensor e;
     ev_rest := ev_rest e |}.

Definition set_meta_sensor (e : sensors_event_t) (v : Z) : sensors_event_t :=
  {| ev_sensor := ev_sensor e; ev_type := ev_type e; ev_meta_sensor := v;
     ev_rest := ev_rest e |}.

(** The event stored in [*dest]. *)
Definition copy_event_remap_handle `{SensorsHeader} (t : HandleTable)
    (src : sensors_event_t) (sub_index : Z) : sensors_event_t :=
  let dest := src in   (* memcpy *)
  if ev_type dest =? SENSOR_TYPE_META_DATA then
    set_meta_sensor dest (get_global_handle t (mkFull sub_index (ev_meta_sensor dest)))
  else
    set_sensor dest (get_global_handle t (mkFull sub_index (ev_sensor dest))).

(** ** The scan *)

(** What one iteration did: it found the queue of module [i] empty, or took
    the event [e] from it (and [bcast]: the queue had been full). *)
Inductive scan_obs :=
| ScanEmpty (i : Z)
| ScanTake (i : Z) (e : sensors_event_t) (bcast : bool).

Section Scan.
Context `{SensorsHeader} {Q : Type} `{EventSource sensors_event_t Q}.
Variable (t : HandleTable).

(** The locals of [poll] and the members it uses. *)
Record scan_state := mkScan {
  sc_queues : list Q;
  sc_next : Z;                      (* nextReadIndex *)
  sc_empties : Z;
  sc_read : Z;                      (* eventsRead *)
  sc_data : list sensors_event_t;   (* the caller's buffer *)
}.

(** The condition of the inner [while]. *)
Definition scan_guard (queueCount maxReads : Z) (s : scan_state) : bool :=
  (sc_empties s <? queueCount) && (sc_read s <? maxReads).

(** The body of the inner [while]; [vector::at] throws when out of range. *)
Definition scan_step (queueCount : Z) (s : scan_state) : option (scan_obs * scan_state) :=
  queue ← arr_get (sc_queues s) (sc_next s);
  match src_peek queue with
  | None =>
      Some (ScanEmpty (sc_next s),
        {| sc_queues := sc_queues s;
           sc_next := Z.rem (i32 (sc_next s + 1)) queueCount;
           sc_empties := i32 (sc_empties s + 1);
           sc_read := sc_read s;
           sc_data := sc_data s |})
  | Some event =>
      let copied := copy_event_remap_handle t event (sc_next s) in
      data ← arr_set (sc_data s) (sc_read s) copied;
      let '(bcast, queue') := src_dequeue queue in
      queues ← arr_set (sc_queues s) (sc_next s) queue';
      Some (ScanTake (sc_next s) event bcast,
        {| sc_queues := queues;
           sc_next := Z.rem (i32 (sc_next s + 1)) queueCount;
           sc_empties := 0;
           sc_read := if ev_sensor copied =? -1 then sc_read s else i32 (sc_read s + 1);
           sc_data := data |})
  end.

(** The inner [while]; [None] when the fuel runs out or an access is out of
    range. *)
Fixpoint scan_loop (fuel : nat) (queueCount maxReads : Z) (s : scan_state) :
    option (list scan_obs * scan_state) :=
  if scan_guard queueCount maxReads s then
    match fuel with
    | O => None
    | S fuel' =>
        '(o, s1) ← scan_step queueCount s;
        '(os, s2) ← scan_loop fuel' queueCount maxReads s1;
        Some (o :: os, s2)
    end
  else Some ([], s).

Inductive poll_outcome :=
| PollReturns (eventsRead : Z) (s : scan_state)
| PollBlocked (s : scan_state).   (* still in pthread_cond_wait *)

(** The outer [while].  [wakes] are the queues as the writer threads left
    them at each return of [pthread_cond_wait]. *)
Fixpoint poll_loop (fuel : nat) (queueCount maxReads : Z) (s : scan_state)
    (wakes : list (list Q)) : option (list scan_obs * poll_outcome) :=
  '(os, s1) ← scan_loop fuel queueCount maxReads s;
  if sc_read s1 =? 0 then
    match wakes with
    | [] => Some (os, PollBlocked s1)
    | queues :: wakes' =>
        '(os', r) ← poll_loop fuel queueCount maxReads
          {| sc_queues := queues; sc_next := sc_next s1; sc_empties := 0;
             sc_read := sc_read s1; sc_data := sc_data s1 |} wakes';
        Some (os ++ os', r)
    end
  else Some (os, PollReturns (sc_read s1) s1).

Definition poll (fuel : nat) (queues : list Q) (nextReadIndex : Z)
    (data : list sensors_event_t) (maxReads : Z) (wakes : list (list Q)) :
    option (list scan_obs * poll_outcome) :=
  let queueCount := i32 (Z.of_nat (length queues)) in
  poll_loop fuel queueCount maxReads
    {| sc_queues := queues; sc_next := nextReadIndex; sc_empties := 0;
       sc_read := 0; sc_data := data |} wakes.

(** One iteration, as a transition. *)
Definition scan_rel (queueCount maxReads : Z) (s : scan_state) (o : scan_obs)
    (s' : scan_state) : Prop :=
  scan_guard queueCount maxReads s = true /\ scan_step queueCount s = Some (o, s').

(** ** What the log of a scan says *)

Definition obs_index (o : scan_obs) : Z :=
  match o with ScanEmpty i | ScanTake i _ _ => i end.

(** The events taken from queue [i], oldest first. *)
Definition taken (i : Z) (log : list scan_obs) : list sensors_event_t :=
  omap (fun o => match o with
    | ScanTake j e _ => if j =? i then Some e else None
    | ScanEmpty _ => None end) log.

(** The events handed to the caller: the taken ones with their handle
    replaced, less those whose [sensor] became -1. *)
Definition delivered (log : list scan_obs) : list sensors_event_t :=
  omap (fun o => match o with
    | ScanTake j e _ =>
        let e' := copy_event_remap_handle t e j in
        if ev_sensor e' =? -1 then None else Some e'
    | ScanEmpty _ => None end) log.

(** ** Invariant *)

Record scan_ok (queueCount maxReads : Z) (s : scan_state) : Prop := mk_scan_ok {
  so_count : queueCount = Z.of_nat (length (sc_queues s)) /\ 0 < queueCount < INT_MAX;
  so_queues : Forall src_ok (sc_queues s);
  so_next : 0 <= sc_next s < queueCount;
  so_empties : 0 <= sc_empties s <= queueCount;
  so_data : maxReads <= Z.of_nat (length (sc_data s)) <= INT_MAX;
  so_read : 0 <= sc_read s <= Z.max 0 maxReads;
  so_window j q :
    1 <= j <= sc_empties s ->
    sc_queues s !! Z.to_nat ((sc_next s - j) mod queueCount) = Some q -> src_items q = [];
}.

(** All readable events of all queues, counted. *)
Definition pending (queues : list Q) : nat :=
  sum_list (length ∘ src_items <$> queues).

(** Iterations that are enough to finish a scan. *)
Definition scan_fuel (queueCount : Z) (s : scan_state) : nat :=
  (pending (sc_queues s) * S (Z.to_nat queueCount)
   + (Z.to_nat queueCount - Z.to_nat (sc_empties s)))%nat.
End Scan.
Arguments scan_state : clear implicits.
Arguments mkScan {Q}.
Arguments poll_outcome : clear implicits.

(** * Theorems *)

Section ScanLemmas.
Context `{SensorsHeader} {Q : Type} `{EventSourceLaws sensors_event_t Q}.
Implicit Types (t : HandleTable) (s : scan_state Q).

Lemma taken_app i l1 l2 : taken i (l1 ++ l2) = taken i l1 ++ taken i l2.
Proof. apply omap_app. Qed.

Lemma delivered_app t l1 l2 : delivered t (l1 ++ l2) = delivered t l1 ++ delivered t l2.
Proof. apply omap_app. Qed.

(** The index after [next]. *)
Lemma next_index next n :
  0 <= next < n -> n < INT_MAX -> Z.rem (i32 (next + 1)) n = (next + 1) mod n.
Proof. intros Hn Hmax. no_wrap. apply Z.rem_mod_nonneg; lia. Qed.

Lemma pending_insert (qs : list Q) i q q' :
  qs !! i = Some q -> src_items q' = tail (src_items q) -> src_items q <> [] ->
  pending qs = S (pending (<[i := q']> qs)).
Proof.
  intros Hq Hq' Hne. unfold pending. revert i Hq.
  induction qs as [|q0 qs IH]; intros [|i] Hq; simplify_eq/=.
  - rw Hq'. destruct (src_items q); simpl; [done|lia].
  - erewrite IH; [|done]. unfold compose. simpl. lia.
Qed.

(** An iteration on an ok state is defined; its two cases. *)
Lemma scan_step_cases t n maxReads s :
  scan_ok n maxReads s -> scan_guard n maxReads s = true ->
  exists q, sc_queues s !! Z.to_nat (sc_next s) = Some q /\ src_ok q /\
  ((src_items q = [] /\
    scan_step t n s = Some (ScanEmpty (sc_next s),
      mkScan (sc_queues s) ((sc_next s + 1) mod n) (sc_empties s + 1) (sc_read s) (sc_data s))) \/
   (exists e rest, src_items q = e :: rest /\
    let e' := copy_event_remap_handle t e (sc_next s) in
    scan_step t n s = Some (ScanTake (sc_next s) e (src_dequeue q).1,
      mkScan (<[Z.to_nat (sc_next s) := (src_dequeue q).2]> (sc_queues s))
        ((sc_next s + 1) mod n) 0
        (if ev_sensor e' =? -1 then sc_read s else sc_read s + 1)
        (<[Z.to_nat (sc_read s) := e']> (sc_data s))))).
Proof.
  intros [[Hc ?] Hqs Hn He Hd Hr Hw] Hg.
  apply andb_true_iff in Hg as [Hg1%Z.ltb_lt Hg2%Z.ltb_lt].
  destruct (lookup_lt_is_Some_2 (sc_queues s) (Z.to_nat (sc_next s))) as [q Hq]; [lia|].
  exists q. split; [done|].
  assert (src_ok q) as Hok by (eapply Forall_lookup_1; done). split; [done|].
  assert (arr_get (sc_queues s) (sc_next s) = Some q) as Hget
    by (apply arr_get_Some; split; [lia|done]).
  unfold scan_step. rw Hget /= src_peek_head; [|done].
  rw next_index; [|lia|lia].
  destruct (src_items q) as [|e rest] eqn:Hitems; simpl.
  - left. split; [done|]. by rw i32_id; [|ilia].
  - right. exists e, rest. split; [done|].
    rw arr_set_eq; [|lia]. simpl.
    destruct (src_dequeue q) as [b q'] eqn:Hdq. simpl.
    rw arr_set_eq; [|lia]. simpl.
    do 3 f_equal. destruct (_ =? -1); [done|]. apply i32_id. ilia.
Qed.
End ScanLemmas.

(** ** Membership in what a log takes and delivers *)

Section Delivered.
Context `{SensorsHeader} (t : HandleTable).

Lemma elem_of_taken i log e :
  e ∈ taken i log <-> exists b, ScanTake i e b ∈ log.
Proof.
  unfold taken. rw list_elem_of_omap. split.
  - intros ([j|j e' b] & Hin & Ho); [done|]. case_match eqn:Hj; [|done].
    apply Z.eqb_eq in Hj as ->. injection Ho as ->. by exists b.
  - intros [b Hin]. exists (ScanTake i e b). split; [done|]. by rw Z.eqb_refl.
Qed.

Lemma elem_of_delivered log d :
  d ∈ delivered t log <->
  exists i e b, ScanTake i e b ∈ log /\ d = copy_event_remap_handle t e i /\ ev_sensor d <> -1.
Proof.
  unfold delivered. rw list_elem_of_omap. split.
  - intros ([j|j e b] & Hin & Ho); [done|]. simpl in Ho. case_match eqn:Hs; [done|].
    injection Ho as <-. apply Z.eqb_neq in Hs. by exists j, e, b.
  - intros (i & e & b & Hin & -> & Hs). exists (ScanTake i e b). split; [done|].
    by rw (proj2 (Z.eqb_neq _ _) Hs).
Qed.
End Delivered.

Section ScanInvariant.
Context `{SensorsHeader} {Q : Type} `{EventSourceLaws sensors_event_t Q}.
Variables (t : HandleTable) (n maxReads : Z).
Implicit Types (s : scan_state Q).

Lemma window_shift next j : 0 < n -> ((next + 1) mod n - j) mod n = (next - (j - 1)) mod n.
Proof. intros. rw Zminus_mod_idemp_l. f_equal. lia. Qed.

(** The indices of [n] consecutive positions are all the indices. *)
Lemma window_covers next i :
  0 < n -> 0 <= next < n -> 0 <= i < n -> exists j, 1 <= j <= n /\ (next - j) mod n = i.
Proof.
  intros Hn Hnext Hi. destruct (decide (i < next)).
  - exists (next - i). split; [lia|]. replace (next - (next - i)) with i by lia.
    by apply Z.mod_small.
  - exists (next - i + n). split; [lia|].
    replace (next - (next - i + n)) with (i + (-1) * n) by lia.
    rw Z_mod_plus_full. by apply Z.mod_small.
Qed.

Lemma scan_step_ok s o s' :
  scan_ok n maxReads s -> scan_rel t n maxReads s o s' ->
  scan_ok n maxReads s' /\ (scan_fuel n s' < scan_fuel n s)%nat.
Proof.
  intros Hok [Hg Hs].
  destruct (scan_step_cases t n maxReads s Hok Hg) as (q & Hq & Hqok & Hcase).
  pose proof Hok as [[Hc ?] Hqs Hn He Hd Hr Hw].
  apply andb_true_iff in Hg as [Hg1%Z.ltb_lt Hg2%Z.ltb_lt].
  assert (0 <= (sc_next s + 1) mod n < n) as Hnext by (apply Z.mod_pos_bound; lia).
  destruct Hcase as [[Hnil Hstep]|(e & rest & Hitems & Hstep)];
    rw Hstep in Hs; injection Hs as <- <-.
  - split; [|unfold scan_fuel; simpl; lia].
    constructor; simpl; [done|done|done|lia|done|done|].
    intros j q' Hj. rw window_shift; [|lia]. intros Hq'.
    destruct (decide (j = 1)) as [->|].
    + rw Z.sub_0_r Z.mod_small in Hq'; [|lia]. by rw Hq in Hq'; injection Hq' as <-.
    + apply (Hw (j - 1) q'); [lia|done].
  - assert (src_items (src_dequeue q).2 = tail (src_items q)) as Htl
      by by apply src_dequeue_tail.
    assert (src_items q <> []) as Hne by by rw Hitems.
    pose proof (pending_insert _ _ _ _ Hq Htl Hne) as Hp.
    split; [|unfold scan_fuel; simpl; lia].
    constructor; simpl.
    + by rw length_insert.
    + apply Forall_insert; [done|]. by apply src_dequeue_ok.
    + done.
    + lia.
    + by rw length_insert.
    + destruct (_ =? -1); lia.
    + intros j ? ?. lia.
Qed.

Lemma scan_loop_run fuel s :
  scan_ok n maxReads s -> (scan_fuel n s <= fuel)%nat ->
  exists log s', scan_loop t fuel n maxReads s = Some (log, s') /\
    run (scan_rel t n maxReads) s log s' /\
    scan_guard n maxReads s' = false /\ scan_ok n maxReads s'.
Proof.
  revert s. induction fuel as [|fuel IH]; intros s Hok Hfuel; simpl;
    destruct (scan_guard n maxReads s) eqn:Hg.
  - exfalso. pose proof Hok as [_ _ _ He _ _ _].
    apply andb_true_iff in Hg as [Hg1%Z.ltb_lt _]. unfold scan_fuel in Hfuel. lia.
  - exists [], s. by split_and!; [|constructor|..].
  - assert (exists o s1, scan_step t n s = Some (o, s1)) as (o & s1 & Hs).
    { destruct (scan_step_cases t n maxReads s Hok Hg) as (q & _ & _ & [[_ ->]|(? & ? & _ & ->)]);
        eauto. }
    destruct (scan_step_ok s o s1 Hok) as [Hok1 Hlt]; [by split|].
    destruct (IH s1 Hok1) as (log & s' & Heq & Hrun & Hg' & Hok'); [lia|]. rw Hs /= Heq /=.
    exists (o :: log), s'. split; [done|]. split; [|done].
    eapply run_cons; [by split|done].
  - exists [], s. by split_and!; [|constructor|..].
Qed.

(** What has happened since the scan began in [s0]. *)
Record scan_inv (s0 : scan_state Q) (log : list scan_obs) (s : scan_state Q) : Prop := {
  si_ok : scan_ok n maxReads s;
  si_length : length (sc_queues s) = length (sc_queues s0);
  si_fifo (i : nat) q0 q :
    sc_queues s0 !! i = Some q0 -> sc_queues s !! i = Some q ->
    src_items q0 = taken (Z.of_nat i) log ++ src_items q;
  si_read : sc_read s = sc_read s0 + Z.of_nat (length (delivered t log));
  si_data : length (sc_data s) = length (sc_data s0) /\
    take (Z.to_nat (sc_read s)) (sc_data s) =
    take (Z.to_nat (sc_read s0)) (sc_data s0) ++ delivered t log;
  si_next : sc_next s = (sc_next s0 + Z.of_nat (length log)) mod n;
  si_order (j : nat) o :
    log !! j = Some o -> obs_index o = (sc_next s0 + Z.of_nat j) mod n;
  si_empties : sc_empties s <= sc_empties s0 + Z.of_nat (length log);
  si_empty (i : nat) q0 :
    ScanEmpty (Z.of_nat i) ∈ log -> sc_queues s0 !! i = Some q0 ->
    src_items q0 <> [] -> taken (Z.of_nat i) log <> [];
}.

Lemma scan_inv_init s0 : scan_ok n maxReads s0 -> scan_inv s0 [] s0.
Proof.
  intros Hok. constructor; simpl; try done; try lia.
  - intros i q0 q ? ?. by simplify_eq.
  - split; [done|]. by rw app_nil_r.
  - rw Z.add_0_r Z.mod_small; [done|]. by apply (so_next _ _ _ Hok).
  - intros i q0 Hin. by apply elem_of_nil in Hin.
Qed.

Lemma take_insert_snoc {A} (l : list A) k x :
  (k < length l)%nat -> take (S k) (<[k := x]> l) = take k l ++ [x].
Proof.
  intros Hk. erewrite take_S_r; [|by apply list_lookup_insert_eq].
  by rw take_insert_ge.
Qed.

Lemma delivered_le_log log : (length (delivered t log) <= length log)%nat.
Proof.
  induction log as [|[i|i e b] log IH]; simpl; [done|lia|].
  unfold delivered in *. simpl. destruct (_ =? -1); simpl; lia.
Qed.

(** The observations stay in round-robin order. *)
Lemma order_snoc next log o :
  (forall (j : nat) o', log !! j = Some o' -> obs_index o' = (next + Z.of_nat j) mod n) ->
  obs_index o = (next + Z.of_nat (length log)) mod n ->
  forall (j : nat) o', (log ++ [o]) !! j = Some o' -> obs_index o' = (next + Z.of_nat j) mod n.
Proof.
  intros Hord Ho j o' [Hj|[Hj1 Hj2]]%lookup_app_Some; [by apply Hord|].
  destruct (j - length log)%nat as [|k] eqn:Hk; [|done]. injection Hj2 as <-.
  rw Ho. do 2 f_equal. lia.
Qed.

(** An event is stored behind the events read, and counts when it is kept. *)
Lemma store_event (data : list sensors_event_t) r (dropped : bool) e' :
  0 <= r < Z.of_nat (length data) ->
  take (Z.to_nat (if dropped then r else r + 1)) (<[Z.to_nat r := e']> data) =
    take (Z.to_nat r) data ++ (if dropped then [] else [e']).
Proof.
  intros Hr. destruct dropped.
  - rw take_insert_ge; [|lia]. by rw app_nil_r.
  - replace (Z.to_nat (r + 1)) with (S (Z.to_nat r)) by lia. rw take_insert_snoc; [done|lia].
Qed.

Lemma scan_inv_step s0 log s o s' :
  scan_inv s0 log s -> scan_rel t n maxReads s o s' -> scan_inv s0 (log ++ [o]) s'.
Proof.
  intros Hinv Hrel. pose proof Hrel as [Hg Hs].
  destruct Hinv as [Hok Hlen Hfifo Hread [Hdl Hdata] Hnext Hord Hemp Hempty].
  destruct (scan_step_ok s o s' Hok Hrel) as [Hok' _].
  destruct (scan_step_cases t n maxReads s Hok Hg) as (q & Hq & Hqok & Hcase).
  pose proof Hok as [[Hc ?] Hqs Hn He Hd Hr Hw].
  apply andb_true_iff in Hg as [Hg1%Z.ltb_lt Hg2%Z.ltb_lt].
  assert ((sc_next s + 1) mod n = (sc_next s0 + Z.of_nat (length (log ++ [o]))) mod n)
    as Hnext'.
  { rw Hnext Zplus_mod_idemp_l length_app /=. f_equal. lia. }
  pose proof (order_snoc (sc_next s0) log o Hord) as Hord'. rw -Hnext in Hord'.
  destruct Hcase as [[Hnil Hstep]|(e & rest & Hitems & Hstep)];
    rw Hstep in Hs; injection Hs as <- <-.
  - constructor; rw ?delivered_app; simpl; try done.
    + intros i q0 q1 ? ?. rw taken_app. simpl. rw app_nil_r. by apply Hfifo.
    + by rw app_nil_r.
    + by rw app_nil_r.
    + by apply Hord'.
    + rw length_app /=. lia.
    + intros i q0 [Hin|Hin%list_elem_of_singleton]%elem_of_app Hq0 Hne Hnil';
        rw taken_app /= app_nil_r in Hnil'.
      * by eapply (Hempty i).
      * injection Hin as Hin. rw -Hin Nat2Z.id in Hq.
        pose proof (Hfifo i q0 q Hq0 Hq) as Hf. by rw Hnil' Hnil in Hf.
  - set (e' := copy_event_remap_handle t e (sc_next s)) in *.
    assert (delivered t [ScanTake (sc_next s) e (src_dequeue q).1] =
      if ev_sensor e' =? -1 then [] else [e']) as Hdel
      by (simpl; fold e'; by destruct (_ =? -1)).
    constructor; rw ?delivered_app ?Hdel; simpl; try done.
    + by rw length_insert.
    + intros i q0 q1 Hq0 Hq1. rw taken_app. simpl.
      destruct (Z.eqb_spec (sc_next s) (Z.of_nat i)) as [Hi|Hi].
      * rw Hi Nat2Z.id in Hq1, Hq. rw list_lookup_insert_eq in Hq1; [|lia].
        injection Hq1 as <-. rw src_dequeue_tail; [|done]. rw -app_assoc (Hfifo i q0 q Hq0 Hq) Hitems.
        done.
      * rw app_nil_r. rw list_lookup_insert_ne in Hq1; [|lia]. by apply Hfifo.
    + rw length_app. destruct (_ =? -1); simpl; lia.
    + rw length_insert. split; [done|]. rw store_event; [|lia]. by rw Hdata app_assoc.
    + by apply Hord'.
    + rw length_app /=. lia.
    + intros i q0 [Hin|Hin%list_elem_of_singleton]%elem_of_app Hq0 Hne; [|done].
      rw taken_app. intros [Hnil' _]%app_nil. by eapply (Hempty i).
Qed.

Lemma scan_inv_run s0 log s :
  scan_ok n maxReads s0 -> run (scan_rel t n maxReads) s0 log s -> scan_inv s0 log s.
Proof.
  intros Hok. revert log s. apply (run_invariant _ (scan_inv s0)).
  - by apply scan_inv_init.
  - intros. by eapply scan_inv_step.
Qed.
End ScanInvariant.

Section ScanEnd.
Context `{SensorsHeader} {Q : Type} `{EventSourceLaws sensors_event_t Q}.
Implicit Types (t : HandleTable) (s : scan_state Q).

(** A scan that stops short of the caller's limit leaves nothing behind. *)
Lemma scan_end_empty n maxReads s :
  scan_ok n maxReads s -> scan_guard n maxReads s = false -> sc_read s < maxReads ->
  Forall (fun q => src_items q = []) (sc_queues s).
Proof.
  intros [[Hc ?] Hqs Hn He Hd Hr Hw] Hg Hlt. unfold scan_guard in Hg.
  rw (proj2 (Z.ltb_lt _ _) Hlt) andb_true_r in Hg. apply Z.ltb_ge in Hg.
  apply Forall_lookup. intros i q Hq. pose proof (lookup_lt_Some _ _ _ Hq).
  destruct (window_covers n (sc_next s) (Z.of_nat i)) as (j & Hj & Hji); [lia..|].
  apply (Hw j q); [lia|]. by rw Hji Nat2Z.id.
Qed.

(** Every index occurs among the first [n] iterations. *)
Lemma scan_visits t n maxReads s0 log s (i : nat) :
  scan_inv t n maxReads s0 log s -> 0 <= sc_next s0 < n ->
  n <= Z.of_nat (length log) -> Z.of_nat i < n ->
  exists o, o ∈ log /\ obs_index o = Z.of_nat i.
Proof.
  intros Hinv Hnext Hlen Hi.
  destruct (window_covers n (sc_next s0) (Z.of_nat i)) as (j & Hj & Hji); [lia..|].
  destruct (lookup_lt_is_Some_2 log (Z.to_nat (n - j))) as [o Ho]; [lia|].
  exists o. split; [by eapply list_elem_of_lookup_2|].
  rw (si_order _ _ _ _ _ _ Hinv _ _ Ho) -Hji Z2Nat.id; [|lia].
  replace (sc_next s0 + (n - j)) with (sc_next s0 - j + 1 * n) by lia.
  apply Z_mod_plus_full.
Qed.

Lemma taken_elem i e b log : ScanTake i e b ∈ log -> taken i log <> [].
Proof.
  intros Hin. assert (e ∈ taken i log) as He.
  { apply list_elem_of_omap. exists (ScanTake i e b). split; [done|]. by rw Z.eqb_refl. }
  intros Hnil. rw Hnil in He. by apply elem_of_nil in He.
Qed.
End ScanEnd.

Section ScanResult.
Context `{SensorsHeader} {Q : Type} `{EventSourceLaws sensors_event_t Q}.
Implicit Types (t : HandleTable) (s : scan_state Q).

(** A scan finishes, and its log explains what it did. *)
Lemma scan_loop_spec t n maxReads s fuel :
  scan_ok n maxReads s -> sc_read s = 0 -> 0 < maxReads -> (scan_fuel n s <= fuel)%nat ->
  exists log s', scan_loop t fuel n maxReads s = Some (log, s') /\
    scan_ok n maxReads s' /\ scan_inv t n maxReads s log s' /\
    scan_guard n maxReads s' = false /\
    sc_read s' = Z.of_nat (length (delivered t log)) /\
    take (Z.to_nat (sc_read s')) (sc_data s') = delivered t log /\
    sc_read s' <= maxReads /\
    (sc_read s' < maxReads -> Forall (fun q => src_items q = []) (sc_queues s')).
Proof.
  intros Hok Hr0 Hmax Hfuel.
  destruct (scan_loop_run t n maxReads fuel s Hok Hfuel) as (log & s' & Hl & Hrun & Hg & Hok').
  pose proof (scan_inv_run t n maxReads s log s' Hok Hrun) as Hinv.
  exists log, s'. do 4 (split; [done|]).
  destruct Hinv as [_ _ _ Hread [_ Hdata] _ _ _ _].
  rw Hr0 /= in Hread, Hdata. split; [lia|]. split; [done|].
  split; [pose proof (so_read _ _ _ Hok'); lia|].
  by apply (scan_end_empty n maxReads).
Qed.

(** When the buffer has room for one event of each sub-HAL, the scan takes the
    oldest event of every queue that holds one. *)
Lemma scan_fair t n maxReads s log s' (i : nat) q :
  scan_inv t n maxReads s log s' -> scan_guard n maxReads s' = false ->
  scan_ok n maxReads s -> sc_read s = 0 -> sc_empties s = 0 -> n <= maxReads ->
  sc_queues s !! i = Some q -> src_items q <> [] ->
  head (taken (Z.of_nat i) log) = head (src_items q).
Proof.
  intros Hinv Hg Hok Hr0 He0 Hmax Hq Hne.
  pose proof (lookup_lt_Some _ _ _ Hq). pose proof (so_count _ _ _ Hok) as [Hc ?].
  assert (n <= Z.of_nat (length log)) as Hlen.
  { pose proof (si_empties _ _ _ _ _ _ Hinv). pose proof (si_read _ _ _ _ _ _ Hinv).
    pose proof (delivered_le_log t log). unfold scan_guard in Hg.
    apply andb_false_iff in Hg as [?%Z.ltb_ge|?%Z.ltb_ge]; lia. }
  destruct (lookup_lt_is_Some_2 (sc_queues s') i) as [q' Hq'].
  { by rw (si_length _ _ _ _ _ _ Hinv). }
  rw (si_fifo _ _ _ _ _ _ Hinv i q q' Hq Hq').
  enough (taken (Z.of_nat i) log <> []) by by destruct (taken (Z.of_nat i) log).
  destruct (scan_visits t n maxReads s log s' i Hinv) as (o & Ho & Hi);
    [by apply (so_next _ _ _ Hok)|done|lia|].
  destruct o as [j|j e b]; simpl in Hi; subst.
  - by eapply (si_empty _ _ _ _ _ _ Hinv).
  - by eapply taken_elem.
Qed.
End ScanResult.

(** C7: the inner loop of [poll].  On any queues it terminates within
    [scan_fuel] iterations.  It goes round robin: iteration j looks at the queue
    j places after the one the last scan ended on, whether the queues before
    gave an event or not, and the next scan goes on from there; so, when the
    caller's buffer has room for one event of each sub-HAL, every queue that
    held events has at least its oldest taken, however full the others are.
    Each queue then holds what it held before less the events taken from it,
    oldest first (nothing is lost, duplicated or reordered); the first
    [eventsRead] entries of the caller's buffer are the taken events with their
    handles replaced, less the dropped ones, in the order they were taken, and
    there are at most [maxReads] of them; and unless [maxReads] was reached all
    queues are empty. *)
Theorem poll_scan_spec `{SensorsHeader} {Q} `{EventSourceLaws sensors_event_t Q}
    (t : HandleTable) n maxReads (s : scan_state Q) fuel :
  scan_ok n maxReads s -> sc_read s = 0 -> 0 < maxReads ->
  (scan_fuel n s <= fuel)%nat ->
  exists log s', scan_loop t fuel n maxReads s = Some (log, s') /\
    scan_ok n maxReads s' /\
    (forall (j : nat) o, log !! j = Some o -> obs_index o = (sc_next s + Z.of_nat j) mod n) /\
    sc_next s' = (sc_next s + Z.of_nat (length log)) mod n /\
    (sc_empties s = 0 -> n <= maxReads -> forall (i : nat) q,
       sc_queues s !! i = Some q -> src_items q <> [] ->
       head (taken (Z.of_nat i) log) = head (src_items q)) /\
    (forall (i : nat) q q',
       sc_queues s !! i = Some q -> sc_queues s' !! i = Some q' ->
       src_items q = taken (Z.of_nat i) log ++ src_items q') /\
    sc_read s' = Z.of_nat (length (delivered t log)) /\
    take (Z.to_nat (sc_read s')) (sc_data s') = delivered t log /\
    sc_read s' <= maxReads /\
    (sc_read s' < maxReads -> Forall (fun q => src_items q = []) (sc_queues s')).
Proof.
  intros Hok Hr0 Hmax Hfuel.
  destruct (scan_loop_spec t n maxReads s fuel Hok Hr0 Hmax Hfuel)
    as (log & s' & Hl & Hok' & Hinv & Hg & Hrest).
  exists log, s'. split; [done|]. split; [done|].
  split; [by apply (si_order _ _ _ _ _ _ Hinv)|].
  split; [by apply (si_next _ _ _ _ _ _ Hinv)|].
  split; [intros; by eapply scan_fair|].
  split; [by apply (si_fifo _ _ _ _ _ _ Hinv)|done].
Qed.

(** Two queues of capacity 2, for the witnesses: one full, one with one event. *)
Definition sample_event (sensor : Z) (payload : Z) : sensors_event_t :=
  mkEvent sensor 5 0 [payload].
Definition sample_queue (evs : list sensors_event_t) : SensorEventQueue sensors_event_t :=
  markAsWritten
    (fill (new_SensorEventQueue 2 (replicate 2 (sample_event 0 0))) 0 evs)
    (Z.of_nat (length evs)).
Definition sample_scan : scan_state (SensorEventQueue sensors_event_t) :=
  mkScan [sample_queue [sample_event 7 1; sample_event 7 2]; sample_queue [sample_event 9 3]]
    1 0 0 (replicate 4 (sample_event 0 0)).
Definition sample_table : HandleTable :=
  snd (assign_handles initial_table [mkFull 0 7; mkFull 1 9]).

Lemma sample_queue_wf evs : (length evs <= 2)%nat -> queue_wf (sample_queue evs).
Proof.
  intros Hl. assert (queue_wf (new_SensorEventQueue 2 (replicate 2 (sample_event 0 0)))) as Hwf
    by (apply new_queue_wf; [lia|ilia|done]).
  apply (write_contents _ evs Hwf); unfold write_pos, slot; simpl; lia.
Qed.

Lemma sample_scan_ok : scan_ok 2 4 sample_scan.
Proof.
  constructor; simpl; try ilia.
  repeat constructor; apply sample_queue_wf; simpl; lia.
Qed.

Lemma poll_scan_spec_witness :
  let H := android9_sensors_h in
  exists log s', scan_loop sample_table 20 2 4 sample_scan = Some (log, s') /\
    scan_ok 2 4 s' /\
    head (taken (Z.of_nat 0) log) = Some (sample_event 7 1) /\
    delivered sample_table log = [sample_event 2 3; sample_event 1 1; sample_event 1 2] /\
    take (Z.to_nat (sc_read s')) (sc_data s') = delivered sample_table log.
Proof.
  intros H.
  destruct (@poll_scan_spec H _ _ (ring_source_laws _) sample_table 2 4 sample_scan 20)
    as (log & s' & Hl & Hok & _ & _ & Hfair & _ & _ & Hd & _);
    [apply sample_scan_ok|reflexivity|lia|vm_compute; lia|].
  exists log, s'. split; [exact Hl|]. split; [exact Hok|]. split; [|split; [|exact Hd]].
  - apply (Hfair eq_refl ltac:(lia) 0%nat
      (sample_queue [sample_event 7 1; sample_event 7 2])); [reflexivity|vm_compute; discriminate].
  - vm_compute in Hl. injection Hl as <- <-. reflexivity.
Defined.

Section PollOuter.
Context `{SensorsHeader} {Q : Type} `{EventSourceLaws sensors_event_t Q}.
Implicit Types (s : scan_state Q).

(** The queues another thread may leave behind while [poll] sleeps. *)
Definition wake_ok (n : Z) (fuel : nat) (queues : list Q) : Prop :=
  Z.of_nat (length queues) = n /\ Forall src_ok queues /\
  (pending queues * S (Z.to_nat n) + Z.to_nat n <= fuel)%nat.

Lemma poll_loop_spec t n maxReads fuel (wakes : list (list Q)) s :
  scan_ok n maxReads s -> sc_read s = 0 -> 0 < maxReads ->
  (scan_fuel n s <= fuel)%nat -> Forall (wake_ok n fuel) wakes ->
  exists log r, poll_loop t fuel n maxReads s wakes = Some (log, r) /\
    match r with
    | PollReturns k s' =>
        1 <= k <= maxReads /\ k = Z.of_nat (length (delivered t log)) /\
        take (Z.to_nat k) (sc_data s') = delivered t log /\ scan_ok n maxReads s'
    | PollBlocked s' =>
        delivered t log = [] /\ scan_ok n maxReads s' /\
        Forall (fun q => src_items q = []) (sc_queues s')
    end.
Proof.
  revert s. induction wakes as [|qs wakes IH]; intros s Hok Hr0 Hmax Hfuel Hw; simpl;
    destruct (scan_loop_spec t n maxReads s fuel Hok Hr0 Hmax Hfuel)
      as (log & s' & Hl & Hok' & _ & _ & Hread & Hdata & Hle & Hempty); rw Hl /=;
    destruct (Z.eqb_spec (sc_read s') 0) as [Hz|Hz].
  - exists log, (PollBlocked s'). split; [done|]. split; [|split; [done|apply Hempty; lia]].
    apply nil_length_inv. lia.
  - exists log, (PollReturns (sc_read s') s'). split; [done|].
    pose proof (so_read _ _ _ Hok'). split; [lia|]. done.
  - apply Forall_cons in Hw as [(Hlq & Hqs & Hf) Hw].
    set (s1 := mkScan qs (sc_next s') 0 (sc_read s') (sc_data s')).
    assert (scan_ok n maxReads s1) as Hok1.
    { destruct Hok' as [[? ?] ? ? ? ? ? ?]. constructor; simpl; try done; try lia. }
    assert (scan_fuel n s1 <= fuel)%nat as Hf1 by (unfold scan_fuel; simpl; lia).
    destruct (IH s1 Hok1 Hz Hmax Hf1 Hw) as (log2 & r & -> & Hr).
    exists (log ++ log2), r. split; [done|]. rw delivered_app.
    assert (delivered t log = []) as -> by (apply nil_length_inv; lia). done.
  - exists log, (PollReturns (sc_read s') s'). split; [done|].
    pose proof (so_read _ _ _ Hok'). split; [lia|]. done.
Qed.
End PollOuter.

(** C23: [poll] as a whole, whatever the writers put into the queues while it
    sleeps.  It never returns an empty batch: when it returns, it returns the
    number of events it delivered, between 1 and the caller's limit, and the
    buffer starts with exactly those events; and it is only still asleep when
    every queue it last saw is empty and every event it took was dropped. *)
Theorem poll_spec `{SensorsHeader} {Q} `{EventSourceLaws sensors_event_t Q}
    (t : HandleTable) fuel (queues : list Q) nextReadIndex data maxReads wakes :
  let n := Z.of_nat (length queues) in
  0 < n < INT_MAX -> 0 <= nextReadIndex < n ->
  0 < maxReads <= Z.of_nat (length data) -> Z.of_nat (length data) <= INT_MAX ->
  Forall (wake_ok n fuel) (queues :: wakes) ->
  exists log r, poll t fuel queues nextReadIndex data maxReads wakes = Some (log, r) /\
    match r with
    | PollReturns k s' =>
        1 <= k <= maxReads /\ k = Z.of_nat (length (delivered t log)) /\
        take (Z.to_nat k) (sc_data s') = delivered t log /\ scan_ok n maxReads s'
    | PollBlocked s' =>
        delivered t log = [] /\ scan_ok n maxReads s' /\
        Forall (fun q => src_items q = []) (sc_queues s')
    end.
Proof.
  intros n Hn Hnext Hmax Hlen [(_ & Hqs & Hf) Hw]%Forall_cons.
  unfold poll. rw i32_id; [|ilia]. fold n. apply poll_loop_spec; try done; try lia.
  - constructor; simpl; try done; lia.
  - unfold scan_fuel; simpl. lia.
Qed.

Lemma poll_spec_witness :
  let H := android9_sensors_h in
  let q0 := sample_queue [sample_event 7 1; sample_event 7 2] in
  let q1 := sample_queue [] in
  let bad := sample_queue [sample_event 88 5] in
  exists log r,
    poll sample_table 20 [bad; q1] 1 (replicate 1 (sample_event 0 0)) 1 [[q1; q1]; [q0; q1]]
      = Some (log, r) /\
    delivered sample_table log = [sample_event 1 1].
Proof.
  intros H q0 q1 bad.
  destruct (@poll_spec H _ _ (ring_source_laws _) sample_table 20 [bad; q1] 1
    (replicate 1 (sample_event 0 0)) 1 [[q1; q1]; [q0; q1]]) as (log & r & Hl & _).
  - simpl. ilia.
  - simpl. lia.
  - simpl. lia.
  - simpl. ilia.
  - repeat constructor; try (vm_compute; lia); try (apply sample_queue_wf; simpl; lia).
  - exists log, r. split; [exact Hl|]. vm_compute in Hl. injection Hl as <- _. reflexivity.
Defined.

(** C24: what one iteration of the scan does with the event it finds at the head
    of a queue.  The event leaves its queue, the scan goes on to the next one,
    and what the caller's buffer already holds stays.  A normal event of a
    known sensor is stored next with its sensor replaced by the global handle,
    every other field intact, and counted; one of an unknown sensor is not
    counted (its copy, with sensor -1, is left for the next event to
    overwrite).  A meta-data event keeps its sensor field and has the nested
    handle replaced instead; it is counted even when the nested handle is
    unknown, which then reads -1, unless its sensor field is -1 itself. *)
Theorem event_remap_spec `{SensorsHeader} {Q} `{EventSourceLaws sensors_event_t Q}
    (t : HandleTable) n maxReads (s : scan_state Q) q e rest :
  table_wf t -> scan_ok n maxReads s -> scan_guard n maxReads s = true ->
  sc_queues s !! Z.to_nat (sc_next s) = Some q -> src_items q = e :: rest ->
  exists b s' stored, scan_step t n s = Some (ScanTake (sc_next s) e b, s') /\
    sc_next s' = (sc_next s + 1) mod n /\ sc_empties s' = 0 /\
    (exists q', sc_queues s' = <[Z.to_nat (sc_next s) := q']> (sc_queues s) /\ src_items q' = rest) /\
    sc_data s' = <[Z.to_nat (sc_read s) := stored]> (sc_data s) /\
    take (Z.to_nat (sc_read s)) (sc_data s') = take (Z.to_nat (sc_read s)) (sc_data s) /\
    (ev_type e <> SENSOR_TYPE_META_DATA ->
       match full_to_global t !! mkFull (sc_next s) (ev_sensor e) with
       | Some g => stored = set_sensor e g /\ sc_read s' = sc_read s + 1
       | None => stored = set_sensor e (-1) /\ sc_read s' = sc_read s
       end) /\
    (ev_type e = SENSOR_TYPE_META_DATA ->
       stored = set_meta_sensor e
         (default (-1) (full_to_global t !! mkFull (sc_next s) (ev_meta_sensor e))) /\
       sc_read s' = if ev_sensor e =? -1 then sc_read s else sc_read s + 1).
Proof.
  intros Hwf Hok Hg Hq Hitems.
  destruct (scan_step_cases t n maxReads s Hok Hg) as (q0 & Hq0 & Hqok & Hcase).
  rw Hq in Hq0. injection Hq0 as <-.
  destruct Hcase as [[Hnil _]|(e0 & rest0 & Hitems0 & Hstep)]; [congruence|].
  rw Hitems in Hitems0. injection Hitems0 as <- <-. do 3 eexists. split; [exact Hstep|]. simpl.
  split; [done|]. split; [done|]. split; [|split; [done|split; [|split]]].
  - exists (src_dequeue q).2. split; [done|].
    by rw src_dequeue_tail; [|done]; rw Hitems.
  - by rw take_insert_ge.
  - intros Ht. unfold copy_event_remap_handle. rw (proj2 (Z.eqb_neq _ _) Ht) /=.
    pose proof (get_global_handle_unknown t (mkFull (sc_next s) (ev_sensor e)) Hwf) as Hunk.
    unfold get_global_handle in *.
    destruct (full_to_global t !! _) as [g|] eqn:Hgl; [|done].
    destruct (Z.eqb_spec g (-1)) as [Hg1|]; [|done]. by apply Hunk in Hg1.
  - intros Ht. unfold copy_event_remap_handle. rw Ht Z.eqb_refl /=. by split.
Qed.

Definition meta_scan : scan_state (SensorEventQueue sensors_event_t) :=
  mkScan [sample_queue [mkEvent 0 0 77 [1]]; sample_queue []]
    0 0 0 (replicate 4 (sample_event 0 0)).

Lemma event_remap_spec_witness :
  let H := android9_sensors_h in
  exists b s', scan_step sample_table 2 meta_scan = Some (ScanTake 0 (mkEvent 0 0 77 [1]) b, s') /\
    sc_read s' = 1 /\ head (sc_data s') = Some (mkEvent 0 0 (-1) [1]).
Proof.
  intros H.
  destruct (@event_remap_spec H _ _ (ring_source_laws _) sample_table 2 4 meta_scan
    (sample_queue [mkEvent 0 0 77 [1]]) (mkEvent 0 0 77 [1]) [])
    as (b & s' & stored & Hstep & _ & _ & _ & Hdata & _ & _ & Hmeta).
  - apply (assign_wf (snd (assign_global_handle initial_table 0 7)) 1 9);
      [apply assign_wf; [apply initial_table_wf|]|]; vm_compute; reflexivity.
  - constructor; simpl; try ilia. repeat constructor; apply sample_queue_wf; simpl; lia.
  - reflexivity.
  - reflexivity.
  - reflexivity.
  - destruct (Hmeta eq_refl) as [-> Hread]. exists b, s'. split; [exact Hstep|].
    rw Hread Hdata. by split.
Defined.
