(* ===== verification/SensorThreads.v ===== *)
(** * The writer threads and poll() of the multi-HAL, interleaved

    Model of [writerTask] (one thread per sub-HAL, started by
    [sensors_poll_context_t::addSubHwDevice]) and of the framework's thread in
    [sensors_poll_context_t::poll], as a labelled transition system over the
    shared queues, [queue_mutex], [waiting_for_data] and the two kinds of
    condition variable.

    A critical section of [writerTask] is one step, enabled while the mutex is
    free.  The critical section of [poll] is one step per iteration of its
    scan, because sub-HALs write into the queues' memory meanwhile: each event
    a sub-HAL's [poll] stores is a step of its own, taken without the mutex.
    [pthread_cond_wait] may wake up spuriously.

    What is assumed of the parties outside of the repository is in the steps'
    premises: a sub-HAL's [poll] writes at most [bufferSize] events, from the
    pointer it was given on, and returns how many it wrote, or a value that is
    not positive; the framework calls [poll] from one thread with a buffer of
    at least [maxReads > 0] events. *)
From S2P Require Import Prelude EventQueue Handles SensorsHal PollLoop.

Definition SENSOR_EVENT_QUEUE_CAPACITY : Z := 36.

Abbreviation queue := (SensorEventQueue sensors_event_t).

(** ** States *)

(** Where a [writerTask] is. *)
Inductive writer_pc :=
| WLock                                 (* about to lock [queue_mutex] *)
| WSleep                                (* in [waitForSpace]'s cond_wait *)
| WPoll (buffer : option Z) (bufferSize : Z) (evs : list sensors_event_t)
                                        (* in [device->poll]; [evs] stored so far *)
| WMark (evs : list sensors_event_t).   (* [poll] returned [length evs] > 0 *)

(** Where the framework's thread is, with the locals of [poll]. *)
Inductive reader_pc :=
| RIdle
| RScan (maxReads empties eventsRead : Z) (data : list sensors_event_t)
| RSleep (maxReads eventsRead : Z) (data : list sensors_event_t)
                                        (* in cond_wait on [data_available_cond] *)
| RWoken (maxReads eventsRead : Z) (data : list sensors_event_t).

(** [queue_mutex]; [open_sensors] leaves it locked until the sensor list has
    been built. *)
Inductive mutex_state := MFree | MInit | MReader.

Record system := mkSystem {
  sys_queues : list queue;
  sys_writers : list writer_pc;
  sys_next : Z;              (* nextReadIndex *)
  sys_reader : reader_pc;
  sys_waiting : bool;        (* waiting_for_data *)
  sys_mutex : mutex_state;
}.

Inductive label :=
| LTau
| LWrote (i : nat) (evs : list sensors_event_t)   (* module i's events are readable *)
| LTook (o : scan_obs)                            (* one iteration of the scan *)
| LReturn (evs : list sensors_event_t).           (* poll() returned these *)

(** [pthread_cond_broadcast] on a queue's [mSpaceAvailableCondition]. *)
Definition wake_writer (pc : writer_pc) : writer_pc :=
  match pc with WSleep => WLock | _ => pc end.

(** [pthread_cond_broadcast] on [data_available_cond]. *)
Definition wake_reader (pc : reader_pc) : reader_pc :=
  match pc with RSleep m r d => RWoken m r d | _ => pc end.

(** The writers after an iteration of the scan. *)
Definition after_scan (o : scan_obs) (ws : list writer_pc) : list writer_pc :=
  match o with
  | ScanTake i _ true => alter wake_writer (Z.to_nat i) ws
  | _ => ws
  end.

(** [addSubHwDevice] for each opened device: a queue and a writer thread. *)
Definition addSubHwDevice (s : system) (mem : list sensors_event_t) : system :=
  {| sys_queues := sys_queues s ++ [new_SensorEventQueue SENSOR_EVENT_QUEUE_CAPACITY mem];
     sys_writers := sys_writers s ++ [WLock];
     sys_next := sys_next s; sys_reader := sys_reader s;
     sys_waiting := sys_waiting s; sys_mutex := sys_mutex s |}.

(** The state [open_sensors] leaves: [mems] is the memory of each queue. *)
Definition opened_system (mems : list (list sensors_event_t)) : system :=
  foldl addSubHwDevice (mkSystem [] [] 0 RIdle false MInit) mems.

(** ** Steps *)

Section Steps.
Context `{SensorsHeader} (t : HandleTable).

Definition set_queue (s : system) (i : nat) (q : queue) (pc : writer_pc) : system :=
  {| sys_queues := <[i := q]> (sys_queues s); sys_writers := <[i := pc]> (sys_writers s);
     sys_next := sys_next s; sys_reader := sys_reader s;
     sys_waiting := sys_waiting s; sys_mutex := sys_mutex s |}.

Definition set_writer (s : system) (i : nat) (pc : writer_pc) : system :=
  {| sys_queues := sys_queues s; sys_writers := <[i := pc]> (sys_writers s);
     sys_next := sys_next s; sys_reader := sys_reader s;
     sys_waiting := sys_waiting s; sys_mutex := sys_mutex s |}.

Definition set_reader (s : system) (pc : reader_pc) (waiting : bool) (m : mutex_state) : system :=
  {| sys_queues := sys_queues s; sys_writers := sys_writers s;
     sys_next := sys_next s; sys_reader := pc;
     sys_waiting := waiting; sys_mutex := m |}.

Definition queueCount (s : system) : Z := i32 (Z.of_nat (length (sys_queues s))).

(** [writerTask], one iteration of its [while (1)]. *)
Inductive writer_step (i : nat) : system -> label -> system -> Prop :=
| w_wait s q :
    sys_queues s !! i = Some q -> sys_writers s !! i = Some WLock -> sys_mutex s = MFree ->
    mSize q = mCapacity q ->
    writer_step i s LTau (set_writer s i WSleep)
| w_spurious s :
    sys_writers s !! i = Some WSleep ->
    writer_step i s LTau (set_writer s i WLock)
| w_region s q bufferSize buffer :
    sys_queues s !! i = Some q -> sys_writers s !! i = Some WLock -> sys_mutex s = MFree ->
    mSize q <> mCapacity q ->
    getWritableRegion q SENSOR_EVENT_QUEUE_CAPACITY = (bufferSize, buffer) ->
    writer_step i s LTau (set_writer s i (WPoll buffer bufferSize []))
| w_store s q buffer bufferSize evs e data :
    sys_queues s !! i = Some q -> sys_writers s !! i = Some (WPoll (Some buffer) bufferSize evs) ->
    Z.of_nat (length evs) < bufferSize ->
    arr_set (mData q) (buffer + Z.of_nat (length evs)) e = Some data ->
    writer_step i s LTau
      (set_queue s i (mkSensorEventQueue (mCapacity q) (mStart q) (mSize q) data)
         (WPoll (Some buffer) bufferSize (evs ++ [e])))
| w_poll_nothing s buffer bufferSize evs :
    (* eventsPolled <= 0: continue *)
    sys_writers s !! i = Some (WPoll buffer bufferSize evs) ->
    writer_step i s LTau (set_writer s i WLock)
| w_poll_events s buffer bufferSize evs :
    sys_writers s !! i = Some (WPoll buffer bufferSize evs) -> evs <> [] ->
    writer_step i s LTau (set_writer s i (WMark evs))
| w_mark s q evs :
    sys_queues s !! i = Some q -> sys_writers s !! i = Some (WMark evs) -> sys_mutex s = MFree ->
    writer_step i s (LWrote i evs)
      (let s' := set_queue s i (markAsWritten q (Z.of_nat (length evs))) WLock in
       if sys_waiting s then set_reader s' (wake_reader (sys_reader s')) (sys_waiting s') MFree
       else s').

(** [sensors_poll_context_t::poll]. *)
Inductive reader_step : system -> label -> system -> Prop :=
| r_call s maxReads data :
    sys_reader s = RIdle -> sys_mutex s = MFree ->
    0 < maxReads <= Z.of_nat (length data) -> Z.of_nat (length data) <= INT_MAX ->
    reader_step s LTau (set_reader s (RScan maxReads 0 0 data) (sys_waiting s) MReader)
| r_scan s maxReads empties eventsRead data o s1 :
    sys_reader s = RScan maxReads empties eventsRead data ->
    scan_rel t (queueCount s) maxReads
      (mkScan (sys_queues s) (sys_next s) empties eventsRead data) o s1 ->
    reader_step s (LTook o)
      {| sys_queues := sc_queues s1; sys_writers := after_scan o (sys_writers s);
         sys_next := sc_next s1;
         sys_reader := RScan maxReads (sc_empties s1) (sc_read s1) (sc_data s1);
         sys_waiting := sys_waiting s; sys_mutex := sys_mutex s |}
| r_sleep s maxReads empties eventsRead data :
    sys_reader s = RScan maxReads empties eventsRead data ->
    scan_guard (queueCount s) maxReads
      (mkScan (sys_queues s) (sys_next s) empties eventsRead data) = false ->
    eventsRead = 0 ->
    reader_step s LTau (set_reader s (RSleep maxReads eventsRead data) true MFree)
| r_spurious s maxReads eventsRead data :
    sys_reader s = RSleep maxReads eventsRead data ->
    reader_step s LTau
      (set_reader s (RWoken maxReads eventsRead data) (sys_waiting s) (sys_mutex s))
| r_wake s maxReads eventsRead data :
    sys_reader s = RWoken maxReads eventsRead data -> sys_mutex s = MFree ->
    reader_step s LTau (set_reader s (RScan maxReads 0 eventsRead data) false MReader)
| r_return s maxReads empties eventsRead data :
    sys_reader s = RScan maxReads empties eventsRead data ->
    scan_guard (queueCount s) maxReads
      (mkScan (sys_queues s) (sys_next s) empties eventsRead data) = false ->
    eventsRead <> 0 ->
    reader_step s (LReturn (take (Z.to_nat eventsRead) data))
      (set_reader s RIdle (sys_waiting s) MFree).

Inductive sys_step : system -> label -> system -> Prop :=
| step_init s :
    (* lazy_init_sensors_list unlocks queue_mutex *)
    sys_mutex s = MInit ->
    sys_step s LTau (set_reader s (sys_reader s) (sys_waiting s) MFree)
| step_writer i s l s' : writer_step i s l s' -> sys_step s l s'
| step_reader s l s' : reader_step s l s' -> sys_step s l s'.
End Steps.

(** ** Observations on traces *)

(** The events module [i]'s sub-HAL reported, in order. *)
Definition wrote (i : nat) (tr : list label) : list sensors_event_t :=
  flat_map (fun l => match l with
    | LWrote j evs => if decide (j = i) then evs else []
    | _ => [] end) tr.

(** The iterations of all scans, in order. *)
Definition scans (tr : list label) : list scan_obs :=
  flat_map (fun l => match l with LTook o => [o] | _ => [] end) tr.

(** The events the framework received, in order. *)
Definition received (tr : list label) : list sensors_event_t :=
  flat_map (fun l => match l with LReturn evs => evs | _ => [] end) tr.

(** What the call in progress has put into the caller's buffer. *)
Definition in_progress (r : reader_pc) : list sensors_event_t :=
  match r with
  | RScan _ _ eventsRead data => take (Z.to_nat eventsRead) data
  | _ => []
  end.

(** ** Invariant *)

(** [evs] lie in [q]'s memory right after its readable records, and a region
    of [len] records there is free and contiguous. *)
Record region_ok (q : queue) (len : Z) (evs : list sensors_event_t) : Prop := mk_region_ok {
  ro_end : write_pos q + len <= mCapacity q;
  ro_free : mSize q + len <= mCapacity q;
  ro_length : Z.of_nat (length evs) <= len;
  ro_data (k : nat) :
    (k < length evs)%nat -> mData q !! Z.to_nat (write_pos q + Z.of_nat k) = evs !! k;
}.

Definition writer_ok (q : queue) (pc : writer_pc) : Prop :=
  match pc with
  | WLock => True
  | WSleep => mSize q = mCapacity q
  | WPoll buffer bufferSize evs =>
      buffer = Some (write_pos q) /\ 1 <= bufferSize /\ region_ok q bufferSize evs
  | WMark evs => evs <> [] /\ region_ok q (Z.of_nat (length evs)) evs
  end.

Definition reader_ok (s : system) : Prop :=
  match sys_reader s with
  | RIdle => sys_mutex s <> MReader
  | RScan maxReads empties eventsRead data =>
      sys_mutex s = MReader /\ 0 < maxReads /\
      scan_ok (Z.of_nat (length (sys_queues s))) maxReads
        (mkScan (sys_queues s) (sys_next s) empties eventsRead data)
  | RSleep maxReads eventsRead data =>
      sys_mutex s <> MReader /\ sys_waiting s = true /\ eventsRead = 0 /\
      0 < maxReads <= Z.of_nat (length data) /\ Z.of_nat (length data) <= INT_MAX /\
      Forall (fun q => contents q = []) (sys_queues s)
  | RWoken maxReads eventsRead data =>
      sys_mutex s <> MReader /\ eventsRead = 0 /\
      0 < maxReads <= Z.of_nat (length data) /\ Z.of_nat (length data) <= INT_MAX
  end.

Record system_ok (s : system) : Prop := mk_system_ok {
  sy_count : 0 < Z.of_nat (length (sys_queues s)) < INT_MAX;
  sy_queues : Forall queue_wf (sys_queues s);
  sy_capacity : Forall (fun q => mCapacity q = SENSOR_EVENT_QUEUE_CAPACITY) (sys_queues s);
  sy_writers : Forall2 writer_ok (sys_queues s) (sys_writers s);
  sy_next : 0 <= sys_next s < Z.of_nat (length (sys_queues s));
  sy_reader : reader_ok s;
}.

(** * Theorems *)

Lemma wake_writer_lock pc : wake_writer pc = pc \/ (pc = WSleep /\ wake_writer pc = WLock).
Proof. destruct pc; auto. Qed.

(** ** One queue and its writer *)

Section QueueWriter.
Implicit Types (q : queue) (evs : list sensors_event_t).

Lemma write_pos_range q : queue_wf q -> 0 <= write_pos q < mCapacity q.
Proof. intros Hwf. apply slot_range; [done|]. destruct Hwf; lia. Qed.

Lemma region_ok_dequeue q len evs :
  queue_wf q -> region_ok q len evs -> region_ok (dequeue q).2 len evs.
Proof.
  intros Hwf [He Hf Hl Hd]. pose proof Hwf as [? ? ? ?].
  pose proof (dequeue_write_pos q Hwf) as Hw.
  assert (mData (dequeue q).2 = mData q /\ mCapacity (dequeue q).2 = mCapacity q /\
          mSize (dequeue q).2 <= mSize q) as (Hdata & Hcap & Hsz).
  { unfold dequeue. destruct (Z.eqb_spec (mSize q) 0); simpl.
    - split; [done|]. split; [done|lia].
    - split; [done|]. split; [done|]. no_wrap. lia. }
  constructor; rw ?Hw ?Hcap ?Hdata; [done|lia|done|done].
Qed.

Lemma writer_ok_dequeue q pc :
  queue_wf q -> writer_ok q pc ->
  writer_ok (dequeue q).2 (if (dequeue q).1 then wake_writer pc else pc).
Proof.
  intros Hwf Hok. pose proof (region_ok_dequeue q) as Hreg.
  destruct pc as [| |b n evs|evs]; simpl in Hok.
  - by destruct (dequeue q).1.
  - unfold dequeue. pose proof Hwf as [[? ?] ? ? ?].
    destruct (Z.eqb_spec (mSize q) 0); [lia|]. simpl. by rw Hok Z.eqb_refl.
  - destruct Hok as (-> & ? & ?).
    assert (writer_ok (dequeue q).2 (WPoll (Some (write_pos q)) n evs)); [|by destruct (dequeue q).1].
    simpl. rw dequeue_write_pos; [|done]. auto.
  - destruct Hok as (? & ?).
    assert (writer_ok (dequeue q).2 (WMark evs)); [|by destruct (dequeue q).1].
    simpl. auto.
Qed.

(** A sub-HAL storing its next event. *)
Lemma store_ok q len evs e data :
  queue_wf q -> region_ok q len evs -> Z.of_nat (length evs) < len ->
  arr_set (mData q) (write_pos q + Z.of_nat (length evs)) e = Some data ->
  let q' := mkSensorEventQueue (mCapacity q) (mStart q) (mSize q) data in
  queue_wf q' /\ contents q' = contents q /\ region_ok q' len (evs ++ [e]).
Proof.
  intros Hwf [He Hf Hl Hd] Hlt [Hr ->]%arr_set_Some q'. pose proof Hwf as [? ? ? ?].
  pose proof (write_pos_range q Hwf) as Hw.
  set (p := Z.to_nat (write_pos q + Z.of_nat (length evs))) in *.
  assert (queue_wf q') as Hwf' by (constructor; simpl; try done; by rw length_insert).
  split; [done|]. split.
  - apply list_eq. intros k.
    pose proof (length_contents _ Hwf). pose proof (length_contents _ Hwf') as Hl'.
    destruct (decide (Z.of_nat k < mSize q)).
    + rw !lookup_contents; [|done..]. simpl. rw list_lookup_insert_ne; [done|].
      intros Heq.
      assert (slot q (Z.of_nat k) = slot q (mSize q + Z.of_nat (length evs))) as Hs.
      { rw slot_write_pos; [|done|lia..].
        assert (0 <= slot q (Z.of_nat k) < mCapacity q) by (apply slot_range; [done|lia]).
        change (slot q' (Z.of_nat k)) with (slot q (Z.of_nat k)) in Heq. lia. }
      apply slot_inj in Hs; [lia|done|lia|lia].
    + rw !lookup_ge_None_2; [done|lia|]. rw Hl'. simpl. lia.
  - constructor; simpl; try done.
    + rw length_app /=. lia.
    + intros k Hk. rw length_app /= in Hk. change (write_pos q') with (write_pos q).
      destruct (decide (k = length evs)) as [->|Hne].
      * rw list_lookup_insert_eq; [|lia]. by rw list_lookup_middle.
      * rw list_lookup_insert_ne; [|lia]. rw lookup_app_l; [|lia]. apply Hd. lia.
Qed.

(** The writer marking what the sub-HAL stored. *)
Lemma mark_ok q evs :
  queue_wf q -> region_ok q (Z.of_nat (length evs)) evs ->
  queue_wf (markAsWritten q (Z.of_nat (length evs))) /\
  contents (markAsWritten q (Z.of_nat (length evs))) = contents q ++ evs.
Proof.
  intros Hwf [He Hf Hl Hd]. apply markAsWritten_contents; [done|done|].
  intros k Hk. pose proof (write_pos_range q Hwf).
  rw slot_write_pos; [by apply Hd|done|lia..].
Qed.

(** The region a writer asks for. *)
Lemma region_ok_new q n p :
  queue_wf q -> mCapacity q = SENSOR_EVENT_QUEUE_CAPACITY -> mSize q <> mCapacity q ->
  getWritableRegion q SENSOR_EVENT_QUEUE_CAPACITY = (n, p) ->
  writer_ok q (WPoll p n []).
Proof.
  intros Hwf Hcap Hfull Hg. unfold SENSOR_EVENT_QUEUE_CAPACITY in *.
  rw getWritableRegion_exact in Hg; [|done|lia|ilia|done]. injection Hg as <- <-.
  pose proof (write_pos_range q Hwf). destruct Hwf. simpl.
  split; [done|]. split; [lia|]. constructor; [lia|lia|simpl; lia|]. intros k Hk.
  simpl in Hk. lia.
Qed.
End QueueWriter.

#[export] Hint Resolve write_pos_range region_ok_dequeue writer_ok_dequeue : mozart.

(** ** Preservation of the invariant *)

Section Preservation.
Context `{SensorsHeader} (t : HandleTable).
Implicit Types (s : system).

Lemma queueCount_id s : system_ok s -> queueCount s = Z.of_nat (length (sys_queues s)).
Proof. intros [Hc _ _ _ _ _]. apply i32_id. ilia. Qed.

(** [scan_ok] only looks at what is readable. *)
Lemma scan_ok_queues n m (qs qs' : list queue) next emp r d :
  scan_ok n m (mkScan qs next emp r d) ->
  length qs' = length qs -> Forall queue_wf qs' ->
  (forall i q q', qs !! i = Some q -> qs' !! i = Some q' -> contents q' = contents q) ->
  scan_ok n m (mkScan qs' next emp r d).
Proof.
  intros [? ? ? ? ? ? Hw] Hlen Hwf Hsame. constructor; simpl in *; try done.
  - by rw Hlen.
  - intros j q' Hj Hq'.
    destruct (lookup_lt_is_Some_2 qs (Z.to_nat ((next - j) mod n))) as [q Hq].
    { rw -Hlen. by eapply lookup_lt_Some. }
    rw (Hsame _ _ _ Hq Hq'). by apply (Hw j).
Qed.

(** Replacing a queue by one with the same readable records. *)
Lemma set_queue_same s i q q' pc :
  system_ok s -> sys_queues s !! i = Some q -> queue_wf q' ->
  mCapacity q' = mCapacity q -> contents q' = contents q -> writer_ok q' pc ->
  system_ok (set_queue s i q' pc).
Proof.
  intros [Hc Hq Hcap Hw Hn Hr] Hi Hwf' Hcap' Hsame Hpc.
  assert (Forall queue_wf (<[i := q']> (sys_queues s))) as Hall by by apply Forall_insert.
  assert (forall j q1 q2, sys_queues s !! j = Some q1 -> <[i := q']> (sys_queues s) !! j = Some q2 ->
    contents q2 = contents q1) as Hsame'.
  { intros j q1 q2 H1 H2. destruct (decide (i = j)) as [->|].
    - rw list_lookup_insert_eq in H2; [|by eapply lookup_lt_Some]. by simplify_eq.
    - rw list_lookup_insert_ne in H2; [|done]. by simplify_eq. }
  constructor; simpl; rw ?length_insert; try done.
  - apply Forall_insert; [done|]. rw Hcap'. by eapply (Forall_lookup_1 _ _ _ _ Hcap).
  - by apply Forall2_insert.
  - unfold reader_ok in *. simpl in *. rw length_insert.
    destruct (sys_reader s) as [|m e r d|m r d|m r d]; try done.
    + destruct Hr as (? & ? & ?). split; [done|]. split; [done|].
      eapply scan_ok_queues; [done|by rw length_insert|done|done].
    + destruct Hr as (? & ? & ? & ? & ? & Hnil). do 5 (split; [done|]).
      apply Forall_insert; [done|]. rw Hsame. by eapply (Forall_lookup_1 _ _ _ _ Hnil).
Qed.

Lemma set_writer_ok s i q pc :
  system_ok s -> sys_queues s !! i = Some q -> writer_ok q pc -> system_ok (set_writer s i pc).
Proof.
  intros Hok Hi Hpc.
  assert (set_writer s i pc = set_queue s i q pc) as ->.
  { unfold set_queue. by rw list_insert_id. }
  apply (set_queue_same s i q); try done. by eapply (Forall_lookup_1 _ _ _ _ (sy_queues _ Hok)).
Qed.

Lemma writer_lookup s i q pc :
  system_ok s -> sys_queues s !! i = Some q -> sys_writers s !! i = Some pc ->
  queue_wf q /\ mCapacity q = SENSOR_EVENT_QUEUE_CAPACITY /\ writer_ok q pc.
Proof.
  intros [? Hq Hcap Hw ? ?] Hi Hpc. split; [by eapply (Forall_lookup_1 _ _ _ _ Hq)|].
  split; [by eapply (Forall_lookup_1 _ _ _ _ Hcap)|].
  by eapply (Forall2_lookup_lr _ _ _ _ _ _ Hw).
Qed.

Lemma writer_has_queue s i pc :
  system_ok s -> sys_writers s !! i = Some pc -> exists q, sys_queues s !! i = Some q.
Proof.
  intros Hok Hpc. apply lookup_lt_is_Some_2.
  rw (Forall2_length _ _ _ (sy_writers _ Hok)). by eapply lookup_lt_Some.
Qed.

(** Marking appends, and wakes the reader if it sleeps. *)
Lemma mark_step_ok s i q evs :
  system_ok s -> sys_queues s !! i = Some q -> sys_writers s !! i = Some (WMark evs) ->
  sys_mutex s = MFree ->
  let s' := set_queue s i (markAsWritten q (Z.of_nat (length evs))) WLock in
  system_ok (if sys_waiting s
             then set_reader s' (wake_reader (sys_reader s')) (sys_waiting s') MFree else s').
Proof.
  intros Hok Hi Hpc Hm s'. destruct (writer_lookup s i q _ Hok Hi Hpc) as (Hwf & Hcap & _ & Hreg).
  destruct (mark_ok q evs Hwf Hreg) as [Hwf' _].
  destruct Hok as [Hc Hq Hcaps Hw Hn Hr].
  assert (Forall queue_wf (<[i := markAsWritten q (Z.of_nat (length evs))]> (sys_queues s)))
    by by apply Forall_insert.
  assert (Forall (fun q => mCapacity q = SENSOR_EVENT_QUEUE_CAPACITY)
    (<[i := markAsWritten q (Z.of_nat (length evs))]> (sys_queues s))) by by apply Forall_insert.
  assert (Forall2 writer_ok (<[i := markAsWritten q (Z.of_nat (length evs))]> (sys_queues s))
    (<[i := WLock]> (sys_writers s))) by by apply Forall2_insert.
  unfold reader_ok in Hr.
  destruct (sys_reader s) as [|m e r d|m r d|m r d] eqn:Hrd;
    [|destruct Hr; congruence|destruct Hr as (? & Hwt & ? & ? & ? & _)|destruct Hr as (? & ? & ? & ?)];
    try rw Hwt; try destruct (sys_waiting s) eqn:Hwt;
    constructor; unfold reader_ok; simpl; rw ?length_insert ?Hrd /=; try done;
    by rw Hm.
Qed.

Lemma writer_step_ok i s l s' : system_ok s -> writer_step i s l s' -> system_ok s'.
Proof.
  intros Hok Hs. destruct Hs as [s q Hi Hpc Hm Hfull|s Hpc|s q n p Hi Hpc Hm Hfull Hg
    |s q b n evs e data Hi Hpc Hlt Hset|s b n evs Hpc|s b n evs Hpc Hne|s q evs Hi Hpc Hm].
  - by eapply set_writer_ok.
  - destruct (writer_has_queue s i _ Hok Hpc) as [q Hi]. by eapply set_writer_ok.
  - destruct (writer_lookup s i q _ Hok Hi Hpc) as (? & ? & _).
    eapply set_writer_ok; [done|done|]. by apply region_ok_new.
  - destruct (writer_lookup s i q _ Hok Hi Hpc) as (Hwf & ? & [= ->] & ? & Hreg).
    destruct (store_ok q n evs e data Hwf Hreg Hlt Hset) as (? & ? & ?).
    by eapply set_queue_same.
  - destruct (writer_has_queue s i _ Hok Hpc) as [q Hi]. by eapply set_writer_ok.
  - destruct (writer_has_queue s i _ Hok Hpc) as [q Hi].
    destruct (writer_lookup s i q _ Hok Hi Hpc) as (? & ? & _ & ? & Hreg).
    eapply set_writer_ok; [done|done|]. split; [done|].
    destruct Hreg. constructor; [lia|lia|done|done].
  - by apply mark_step_ok.
Qed.

(** The scan dequeues, and wakes the writer of a queue that was full. *)
Lemma after_scan_ok s m e r d o (s1 : scan_state queue) :
  system_ok s -> sys_reader s = RScan m e r d ->
  scan_rel t (queueCount s) m (mkScan (sys_queues s) (sys_next s) e r d) o s1 ->
  Forall2 writer_ok (sc_queues s1) (after_scan o (sys_writers s)) /\
  Forall (fun q => mCapacity q = SENSOR_EVENT_QUEUE_CAPACITY) (sc_queues s1).
Proof.
  intros Hok Hrd [Hg Hs]. pose proof (queueCount_id s Hok) as Hc.
  pose proof (sy_reader _ Hok) as Hr. unfold reader_ok in Hr. rw Hrd -Hc in Hr.
  destruct Hr as (_ & _ & Hscan).
  destruct (scan_step_cases t _ m _ Hscan Hg) as (q & Hq & Hwf & Hcase). simpl in *.
  destruct Hcase as [[_ Hstep]|(ev & rest & _ & Hstep)];
    rw Hstep in Hs; injection Hs as <- <-; simpl.
  { split; [apply (sy_writers _ Hok)|apply (sy_capacity _ Hok)]. }
  pose proof (sy_next _ Hok) as Hn.
  destruct (Forall2_lookup_l _ _ _ _ _ (sy_writers _ Hok) Hq) as (pc & Hpc & Hw).
  pose proof (writer_ok_dequeue q pc Hwf Hw) as Hw'.
  assert (Forall2 writer_ok (<[Z.to_nat (sys_next s) := (dequeue q).2]> (sys_queues s))
    (<[Z.to_nat (sys_next s) := if (dequeue q).1 then wake_writer pc else pc]> (sys_writers s)))
    as Hall by (apply Forall2_insert; [apply (sy_writers _ Hok)|done]).
  split.
  - destruct (dequeue q).1.
    + by rw (alter_as_insert _ _ _ pc).
    + by rw (list_insert_id (sys_writers s)) in Hall.
  - apply Forall_insert; [apply (sy_capacity _ Hok)|].
    pose proof (Forall_lookup_1 _ _ _ _ (sy_capacity _ Hok) Hq) as Hcap.
    unfold dequeue. by destruct (mSize q =? 0).
Qed.
End Preservation.

Section Invariant.
Context `{SensorsHeader} (t : HandleTable).
Implicit Types (s : system).

(** Steps that only move the reader. *)
Lemma set_reader_ok s pc w m :
  system_ok s -> reader_ok (set_reader s pc w m) -> system_ok (set_reader s pc w m).
Proof. intros [? ? ? ? ? ?] Hr. by constructor. Qed.

Lemma reader_step_ok s l s' : system_ok s -> reader_step t s l s' -> system_ok s'.
Proof.
  intros Hok Hs. pose proof (sy_reader _ Hok) as Hr. unfold reader_ok in Hr.
  pose proof (queueCount_id s Hok) as Hcount.
  destruct Hs as [s m d Hrd Hm ? ?|s m e r d o s1 Hrd Hrel|s m e r d Hrd Hg ->
    |s m r d Hrd|s m r d Hrd Hm|s m e r d Hrd Hg Hne]; rw Hrd in Hr.
  - apply set_reader_ok; [done|]. split; [done|]. split; [simpl; lia|].
    destruct Hok. constructor; simpl; try done; lia.
  - destruct (after_scan_ok t s m e r d o s1 Hok Hrd Hrel) as [Hws Hcaps].
    rw Hcount in Hrel. destruct Hr as (Hm & Hpos & Hscan).
    destruct (scan_step_ok t _ m _ o s1 Hscan Hrel) as [Hok1 _].
    pose proof (so_count _ _ _ Hok1) as [Hlen ?].
    constructor; unfold reader_ok; simpl; rw -?Hlen; try done.
    + apply (so_queues _ _ _ Hok1).
    + apply (so_next _ _ _ Hok1).
    + split; [done|]. split; [done|]. by destruct s1.
  - destruct Hr as (Hm & Hpos & Hscan). rw Hcount in Hg.
    pose proof (so_data _ _ _ Hscan) as Hd. simpl in Hd.
    apply set_reader_ok; [done|]. do 3 (split; [done|]). split; [lia|]. split; [lia|].
    apply (scan_end_empty _ _ _ Hscan Hg). done.
  - destruct Hr as (? & Hw & ? & ? & ? & _). apply set_reader_ok; [done|].
    split; [done|]. done.
  - destruct Hr as (? & -> & ? & ?). apply set_reader_ok; [done|]. split; [done|].
    split; [simpl; lia|]. destruct Hok. constructor; simpl; try done; lia.
  - by apply set_reader_ok.
Qed.

Lemma sys_step_ok s l s' : system_ok s -> sys_step t s l s' -> system_ok s'.
Proof.
  intros Hok Hstep. destruct Hstep as [s0 Hm|s0 i l0 s1 Hs|s0 l0 s1 Hs].
  - apply set_reader_ok; [done|]. pose proof (sy_reader _ Hok) as Hr.
    unfold reader_ok in *. simpl. rw Hm in Hr. destruct (sys_reader s0); naive_solver.
  - by eapply writer_step_ok.
  - by eapply reader_step_ok.
Qed.

Lemma opened_system_shape mems :
  let s := opened_system mems in
  sys_queues s = new_SensorEventQueue SENSOR_EVENT_QUEUE_CAPACITY <$> mems /\
  sys_writers s = replicate (length mems) WLock /\
  sys_next s = 0 /\ sys_reader s = RIdle /\ sys_waiting s = false /\ sys_mutex s = MInit.
Proof.
  intros s. subst s. unfold opened_system.
  induction mems as [|m mems IH] using rev_ind; [done|].
  rw foldl_app /=. destruct IH as (-> & -> & -> & -> & -> & ->).
  rw fmap_app length_app /=. repeat split. by rw replicate_add.
Qed.

(** The memory of each queue has room for [SENSOR_EVENT_QUEUE_CAPACITY] events. *)
Definition mems_ok (mems : list (list sensors_event_t)) : Prop :=
  0 < Z.of_nat (length mems) < INT_MAX /\
  Forall (fun m => length m = Z.to_nat SENSOR_EVENT_QUEUE_CAPACITY) mems.

Lemma opened_system_ok mems : mems_ok mems -> system_ok (opened_system mems).
Proof.
  intros [Hn Hm]. destruct (opened_system_shape mems) as (Hq & Hw & Hx & Hr & Hwt & Hmx).
  constructor; unfold reader_ok; rw ?Hq ?Hw ?Hx ?Hr ?Hmx ?length_fmap; try done; try lia.
  - apply Forall_fmap. eapply Forall_impl; [done|]. intros m Hlen.
    apply new_queue_wf; [done|done|done].
  - apply Forall_fmap. eapply Forall_impl; [done|]. done.
  - apply Forall2_same_length_lookup. rw length_fmap length_replicate. split; [done|].
    intros i q pc _ [-> _]%lookup_replicate. done.
Qed.

Lemma reachable_ok mems s tr :
  mems_ok mems -> run (sys_step t) (opened_system mems) tr s -> system_ok s.
Proof.
  intros Hm. revert tr s. apply (run_invariant _ (fun _ => system_ok)).
  - by apply opened_system_ok.
  - intros. by eapply sys_step_ok.
Qed.

(** ** The trace and the state *)

Record trace_ok (tr : list label) (s : system) : Prop := {
  tr_ok : system_ok s;
  tr_fifo (i : nat) q :
    sys_queues s !! i = Some q ->
    wrote i tr = taken (Z.of_nat i) (scans tr) ++ contents q;
  tr_received : received tr ++ in_progress (sys_reader s) = delivered t (scans tr);
}.

Lemma wrote_app i l1 l2 : wrote i (l1 ++ l2) = wrote i l1 ++ wrote i l2.
Proof. apply flat_map_app. Qed.
Lemma scans_app l1 l2 : scans (l1 ++ l2) = scans l1 ++ scans l2.
Proof. apply flat_map_app. Qed.
Lemma received_app l1 l2 : received (l1 ++ l2) = received l1 ++ received l2.
Proof. apply flat_map_app. Qed.

(** Steps that move no event. *)
Lemma trace_ok_tau tr s s' :
  trace_ok tr s -> system_ok s' ->
  (forall i q', sys_queues s' !! i = Some q' ->
     exists q, sys_queues s !! i = Some q /\ contents q' = contents q) ->
  in_progress (sys_reader s') = in_progress (sys_reader s) ->
  trace_ok (tr ++ [LTau]) s'.
Proof.
  intros [_ Hf Hr] Hok Hq Hp. constructor; [done|..].
  - intros i q' Hi. destruct (Hq i q' Hi) as (q & Hi' & ->).
    rw wrote_app scans_app /= !app_nil_r. by apply Hf.
  - rw received_app scans_app /= !app_nil_r. by rw Hp.
Qed.

Lemma trace_ok_writer tr s i l s' :
  trace_ok tr s -> writer_step i s l s' -> trace_ok (tr ++ [l]) s'.
Proof.
  intros Htr Hs. pose proof (tr_ok _ _ Htr) as Hok.
  pose proof (writer_step_ok i s l s' Hok Hs) as Hok'.
  destruct Hs as [s q Hi Hpc Hm Hfull|s Hpc|s q n p Hi Hpc Hm Hfull Hg
    |s q b n evs e data Hi Hpc Hlt Hset|s b n evs Hpc|s b n evs Hpc Hne|s q evs Hi Hpc Hm];
    try (apply trace_ok_tau with s; [done|done|by eauto|done]; fail).
  - destruct (writer_lookup s i q _ Hok Hi Hpc) as (Hwf & ? & [= ->] & ? & Hreg).
    destruct (store_ok q n evs e data Hwf Hreg Hlt Hset) as (? & Hsame & ?).
    apply trace_ok_tau with s; [done|done| |done]. simpl. intros j q' Hj.
    destruct (decide (i = j)) as [->|].
    + rw list_lookup_insert_eq in Hj; [|by eapply lookup_lt_Some].
      injection Hj as <-. by eauto.
    + rw list_lookup_insert_ne in Hj; [|done]. by eauto.
  - destruct (writer_lookup s i q _ Hok Hi Hpc) as (Hwf & _ & _ & Hreg).
    destruct (mark_ok q evs Hwf Hreg) as [_ Happ]. destruct Htr as [_ Hf Hr].
    constructor; [done|..].
    + intros j q' Hj.
      assert (<[i := markAsWritten q (Z.of_nat (length evs))]> (sys_queues s) !! j = Some q')
        as Hj' by by destruct (sys_waiting s).
      rw wrote_app scans_app /= !app_nil_r. destruct (decide (i = j)) as [->|].
      * rw list_lookup_insert_eq in Hj'; [|by eapply lookup_lt_Some].
        injection Hj' as <-. rw Happ app_assoc. by rw (Hf j q Hi).
      * rw list_lookup_insert_ne in Hj'; [|done]. rw app_nil_r. by apply Hf.
    + rw received_app scans_app /= !app_nil_r -Hr. f_equal.
      destruct (sys_waiting s); [|done]. simpl. by destruct (sys_reader s).
Qed.

Lemma trace_ok_reader tr s l s' :
  trace_ok tr s -> reader_step t s l s' -> trace_ok (tr ++ [l]) s'.
Proof.
  intros Htr Hs. pose proof (tr_ok _ _ Htr) as Hok.
  pose proof (reader_step_ok s l s' Hok Hs) as Hok'.
  pose proof (sy_reader _ Hok) as Hrok. unfold reader_ok in Hrok.
  pose proof (queueCount_id s Hok) as Hcount.
  destruct Hs as [s m d Hrd Hm ? ?|s m e r d o s1 Hrd Hrel|s m e r d Hrd Hg ->
    |s m r d Hrd|s m r d Hrd Hm|s m e r d Hrd Hg Hne]; rw Hrd in Hrok;
    try (apply trace_ok_tau with s; [done|done|by eauto|]; simpl; rw Hrd /=; try done;
         destruct Hrok as (? & -> & ?); done).
  - destruct Hrok as (_ & _ & Hscan). rw Hcount in Hrel.
    pose proof (scan_inv_run t _ m _ [o] s1 Hscan (run_one _ _ _ _ Hrel)) as Hinv.
    destruct Htr as [_ Hf Hr]. constructor; [done|..]; simpl.
    + intros i q' Hi. rw wrote_app scans_app /= app_nil_r taken_app.
      destruct (lookup_lt_is_Some_2 (sys_queues s) i) as [q Hq].
      { rw -(si_length _ _ _ _ _ _ Hinv). by eapply lookup_lt_Some. }
      rw (Hf i q Hq) -app_assoc. f_equal. by apply (si_fifo _ _ _ _ _ _ Hinv i q q').
    + rw received_app scans_app /= app_nil_r delivered_app -Hr Hrd -app_assoc. f_equal.
      apply (si_data _ _ _ _ _ _ Hinv).
  - destruct Htr as [_ Hf Hr]. rw Hrd in Hr. constructor; [done|..]; simpl.
    + intros i q Hi. rw wrote_app scans_app /= !app_nil_r. by apply Hf.
    + rw received_app scans_app /= !app_nil_r. done.
Qed.

Lemma run_trace_ok mems tr s :
  mems_ok mems -> run (sys_step t) (opened_system mems) tr s -> trace_ok tr s.
Proof.
  intros Hm. revert tr s. apply (run_invariant _ trace_ok).
  - destruct (opened_system_shape mems) as (Hq & _ & _ & Hr & _).
    constructor; [by apply opened_system_ok|..].
    + intros i q Hi. rw Hq list_lookup_fmap in Hi.
      destruct (mems !! i) as [m|]; [|done]. by injection Hi as <-.
    + by rw Hr.
  - intros tr s l s' Htr Hs. pose proof (sys_step_ok s l s' (tr_ok _ _ Htr) Hs) as Hok'.
    destruct Hs as [s0 Hm0|s0 i l0 s1 Hs|s0 l0 s1 Hs].
    + by apply trace_ok_tau with s0; eauto.
    + by eapply trace_ok_writer.
    + by eapply trace_ok_reader.
Qed.

(** A queue per sub-HAL, throughout. *)
Lemma run_queue_count mems tr s :
  mems_ok mems -> run (sys_step t) (opened_system mems) tr s ->
  length (sys_queues s) = length mems.
Proof.
  intros Hm Hrun.
  enough (system_ok s /\ length (sys_queues s) = length mems) as [_ Hlen] by done.
  revert tr s Hrun.
  apply (run_invariant _ (fun _ s => system_ok s /\ length (sys_queues s) = length mems)).
  { split; [by apply opened_system_ok|].
    destruct (opened_system_shape mems) as (-> & _). by rw length_fmap. }
  intros tr s l s' [Hok Hlen] Hs. split; [by eapply sys_step_ok|]. rw -Hlen.
  destruct Hs as [s _|s i l s' Hs|s l s' Hs]; [done|..].
  - destruct Hs; simpl; rw ?length_insert; try done.
    by case_match; simpl; rw ?length_insert.
  - destruct Hs as [| s m e r d o s1 Hrd [Hg Hs] | | | |]; try done.
    pose proof (sy_reader _ Hok) as Hrok. unfold reader_ok in Hrok. rw Hrd in Hrok.
    destruct Hrok as (_ & _ & Hscan). rw (queueCount_id s Hok) in Hg Hs.
    destruct (scan_step_cases t _ _ _ Hscan Hg)
      as (q & _ & _ & [[_ Hstep]|(e' & rest & _ & Hstep)]); rw Hstep in Hs;
      injection Hs as <- <-; simpl; by rw ?length_insert.
Qed.
End Invariant.

(** ** An executable scheduler *)

(** One move of one thread; the sub-HALs' and the framework's choices are the
    arguments. *)
Inductive action :=
| DoInit
| DoLock (i : nat)                       (* lock, then wait or get a region *)
| DoSpuriousWriter (i : nat)
| DoStore (i : nat) (e : sensors_event_t)
| DoPollReturn (i : nat) (positive : bool)
| DoMark (i : nat)
| DoCall (maxReads : Z) (data : list sensors_event_t)
| DoScan                                 (* one turn of poll's loops *)
| DoSpuriousReader
| DoWake.

Definition do_action `{SensorsHeader} (t : HandleTable) (s : system) (a : action) :
    option (label * system) :=
  match a with
  | DoInit =>
      match sys_mutex s with
      | MInit => Some (LTau, set_reader s (sys_reader s) (sys_waiting s) MFree)
      | _ => None
      end
  | DoLock i =>
      q ← sys_queues s !! i; pc ← sys_writers s !! i;
      match pc, sys_mutex s with
      | WLock, MFree =>
          if mSize q =? mCapacity q then Some (LTau, set_writer s i WSleep)
          else
            let '(n, p) := getWritableRegion q SENSOR_EVENT_QUEUE_CAPACITY in
            Some (LTau, set_writer s i (WPoll p n []))
      | _, _ => None
      end
  | DoSpuriousWriter i =>
      match sys_writers s !! i with
      | Some WSleep => Some (LTau, set_writer s i WLock)
      | _ => None
      end
  | DoStore i e =>
      q ← sys_queues s !! i; pc ← sys_writers s !! i;
      match pc with
      | WPoll (Some buffer) n evs =>
          if Z.of_nat (length evs) <? n then
            data ← arr_set (mData q) (buffer + Z.of_nat (length evs)) e;
            Some (LTau, set_queue s i (mkSensorEventQueue (mCapacity q) (mStart q) (mSize q) data)
                          (WPoll (Some buffer) n (evs ++ [e])))
          else None
      | _ => None
      end
  | DoPollReturn i positive =>
      match sys_writers s !! i with
      | Some (WPoll b n evs) =>
          match positive, evs with
          | false, _ => Some (LTau, set_writer s i WLock)
          | true, [] => None
          | true, _ => Some (LTau, set_writer s i (WMark evs))
          end
      | _ => None
      end
  | DoMark i =>
      q ← sys_queues s !! i; pc ← sys_writers s !! i;
      match pc, sys_mutex s with
      | WMark evs, MFree =>
          let s' := set_queue s i (markAsWritten q (Z.of_nat (length evs))) WLock in
          Some (LWrote i evs,
            if sys_waiting s
            then set_reader s' (wake_reader (sys_reader s')) (sys_waiting s') MFree else s')
      | _, _ => None
      end
  | DoCall m d =>
      match sys_reader s, sys_mutex s with
      | RIdle, MFree =>
          if (0 <? m) && (m <=? Z.of_nat (length d)) && (Z.of_nat (length d) <=? INT_MAX)
          then Some (LTau, set_reader s (RScan m 0 0 d) (sys_waiting s) MReader) else None
      | _, _ => None
      end
  | DoScan =>
      match sys_reader s with
      | RScan m e r d =>
          let sc := mkScan (sys_queues s) (sys_next s) e r d in
          if scan_guard (queueCount s) m sc then
            '(o, s1) ← scan_step t (queueCount s) sc;
            Some (LTook o,
              {| sys_queues := sc_queues s1; sys_writers := after_scan o (sys_writers s);
                 sys_next := sc_next s1;
                 sys_reader := RScan m (sc_empties s1) (sc_read s1) (sc_data s1);
                 sys_waiting := sys_waiting s; sys_mutex := sys_mutex s |})
          else if r =? 0 then Some (LTau, set_reader s (RSleep m r d) true MFree)
          else Some (LReturn (take (Z.to_nat r) d), set_reader s RIdle (sys_waiting s) MFree)
      | _ => None
      end
  | DoSpuriousReader =>
      match sys_reader s with
      | RSleep m r d => Some (LTau, set_reader s (RWoken m r d) (sys_waiting s) (sys_mutex s))
      | _ => None
      end
  | DoWake =>
      match sys_reader s, sys_mutex s with
      | RWoken m r d, MFree => Some (LTau, set_reader s (RScan m 0 r d) false MReader)
      | _, _ => None
      end
  end.

Fixpoint do_actions `{SensorsHeader} (t : HandleTable) (s : system) (acts : list action) :
    option (list label * system) :=
  match acts with
  | [] => Some ([], s)
  | a :: acts' =>
      '(l, s1) ← do_action t s a;
      '(tr, s2) ← do_actions t s1 acts';
      Some (l :: tr, s2)
  end.

Ltac step_cases :=
  repeat match goal with
  | H : context [mbind _ ?o] |- _ => destruct o eqn:?; simpl in H
  | H : context [match ?x with _ => _ end] |- _ => destruct x eqn:?; simpl in H
  end; simplify_eq.

Section Scheduler.
Context `{SensorsHeader} (t : HandleTable).
Implicit Types (s : system).

Lemma mark_sound s i q evs s' :
  sys_queues s !! i = Some q -> sys_writers s !! i = Some (WMark evs) -> sys_mutex s = MFree ->
  s' = (let s1 := set_queue s i (markAsWritten q (Z.of_nat (length evs))) WLock in
        if sys_waiting s then set_reader s1 (wake_reader (sys_reader s1)) (sys_waiting s1) MFree
        else s1) ->
  sys_step t s (LWrote i evs) s'.
Proof. intros ? ? ? ->. by eapply step_writer, w_mark. Qed.

Lemma do_action_sound s a l s' : do_action t s a = Some (l, s') -> sys_step t s l s'.
Proof.
  intros Ha. destruct a; simpl in Ha; step_cases;
    repeat match goal with
    | Hb : (_ && _) = true |- _ => apply andb_true_iff in Hb as [Hb ?]
    | Hb : (_ =? _) = true |- _ => apply Z.eqb_eq in Hb
    | Hb : (_ =? _) = false |- _ => apply Z.eqb_neq in Hb
    | Hb : (_ <? _) = true |- _ => apply Z.ltb_lt in Hb
    | Hb : (_ <=? _) = true |- _ => apply Z.leb_le in Hb
    end;
    first [by apply step_init
          |by eapply step_writer; econstructor; eauto
          |by eapply step_reader; econstructor; eauto; lia
          |idtac].
  all: try by eapply step_reader, r_scan; [done|split; done].
  (* DoMark, with and without a waiting reader *)
  all: eapply mark_sound; [eassumption..|].
  all: simpl; match goal with Hb : sys_waiting _ = _ |- _ => by rw !Hb end.
Qed.

Lemma do_actions_sound s acts tr s' :
  do_actions t s acts = Some (tr, s') -> run (sys_step t) s tr s'.
Proof.
  revert s tr. induction acts as [|a acts IH]; intros s tr Ha; simpl in Ha.
  { simplify_eq. constructor. }
  destruct (do_action t s a) as [[l s1]|] eqn:H1; [|done]. simpl in Ha.
  destruct (do_actions t s1 acts) as [[tr1 s2]|] eqn:H2; [|done]. simplify_eq/=.
  eapply run_cons; [by eapply do_action_sound|by apply IH].
Qed.
End Scheduler.

(** ** Properties *)

(** C1: end-to-end delivery.  Under every interleaving of the writer threads
    and [poll], the events a sub-HAL reported are, in order, those [poll] took
    from its queue followed by those still readable in it; and the events the
    framework received, with those the call in progress has put into its
    buffer, are exactly the taken ones with their handles replaced, less the
    dropped ones.  Nothing is lost, duplicated, reordered or torn. *)
Theorem events_delivered_in_order `{SensorsHeader} (t : HandleTable) mems tr s :
  mems_ok mems -> run (sys_step t) (opened_system mems) tr s ->
  (forall (i : nat) q, sys_queues s !! i = Some q ->
     wrote i tr = taken (Z.of_nat i) (scans tr) ++ contents q) /\
  received tr ++ in_progress (sys_reader s) = delivered t (scans tr).
Proof.
  intros Hm Hrun. by destruct (run_trace_ok t mems tr s Hm Hrun) as [_ Hf Hr].
Qed.

(** Two sub-HALs; the second reports two events, the first none. *)
Definition sample_mems : list (list sensors_event_t) :=
  replicate 2 (replicate 36 (sample_event 0 0)).
Definition sample_run : list action :=
  [DoInit; DoLock 1; DoCall 4 (replicate 4 (sample_event 0 0)); DoScan; DoStore 1 (sample_event 9 3);
   DoScan; DoScan; DoStore 1 (sample_event 8 4); DoPollReturn 1 true; DoMark 1; DoLock 0; DoWake;
   DoScan; DoScan; DoScan; DoScan; DoScan; DoScan; DoScan].

Lemma events_delivered_in_order_witness :
  let H := android9_sensors_h in
  exists tr s,
    do_actions sample_table (opened_system sample_mems) sample_run = Some (tr, s) /\
    wrote 1 tr = [sample_event 9 3; sample_event 8 4] /\
    received tr ++ in_progress (sys_reader s) = [sample_event 2 3] /\
    received tr ++ in_progress (sys_reader s) = delivered sample_table (scans tr).
Proof.
  intros H.
  destruct (do_actions sample_table (opened_system sample_mems) sample_run)
    as [[tr s]|] eqn:Hrun; [|vm_compute in Hrun; discriminate].
  exists tr, s. split; [reflexivity|].
  pose proof (@events_delivered_in_order H sample_table sample_mems tr s) as Hd.
  assert (received tr ++ in_progress (sys_reader s) = delivered sample_table (scans tr)) as Hr.
  { apply Hd.
    - split; [vm_compute; split; reflexivity|]. repeat constructor.
    - eapply do_actions_sound. exact Hrun. }
  vm_compute in Hrun. injection Hrun as <- <-.
  split; [reflexivity|]. split; [reflexivity|exact Hr].
Defined.

(** C6: no wake-up is lost.  In every reachable state, [poll] sleeps only with
    [waiting_for_data] set and every queue empty, and a writer sleeps only on
    a full queue; so the two never wait for each other.  And the step that
    makes new events readable leaves no sleeping reader behind. *)
Theorem no_lost_wakeup `{SensorsHeader} (t : HandleTable) mems tr s :
  mems_ok mems -> run (sys_step t) (opened_system mems) tr s ->
  (forall m r d, sys_reader s = RSleep m r d ->
     sys_waiting s = true /\ Forall (fun q => contents q = []) (sys_queues s) /\
     Forall (fun pc => pc <> WSleep) (sys_writers s)) /\
  (forall (i : nat) q, sys_queues s !! i = Some q -> sys_writers s !! i = Some WSleep ->
     Z.of_nat (length (contents q)) = SENSOR_EVENT_QUEUE_CAPACITY) /\
  (forall i evs s', sys_step t s (LWrote i evs) s' ->
     forall m r d, sys_reader s' <> RSleep m r d).
Proof.
  intros Hm Hrun. pose proof (reachable_ok t mems s tr Hm Hrun) as Hok.
  assert (forall (i : nat) q, sys_queues s !! i = Some q -> sys_writers s !! i = Some WSleep ->
     Z.of_nat (length (contents q)) = SENSOR_EVENT_QUEUE_CAPACITY) as Hfull.
  { intros i q Hq Hpc. destruct (writer_lookup s i q _ Hok Hq Hpc) as (Hwf & Hcap & Hsz).
    simpl in Hsz. rw length_contents; [|done]. rw Hsz Hcap. done. }
  pose proof (sy_reader _ Hok) as Hr. unfold reader_ok in Hr.
  split; [|split; [done|]].
  - intros m r d Hrd. rw Hrd in Hr. destruct Hr as (_ & Hw & _ & _ & _ & Hnil).
    split; [done|]. split; [done|]. apply Forall_lookup. intros i pc Hpc ->.
    destruct (writer_has_queue s i _ Hok Hpc) as [q Hq].
    pose proof (Hfull i q Hq Hpc) as Hlen.
    by rw (Forall_lookup_1 _ _ _ _ Hnil Hq) in Hlen.
  - intros i evs s' Hs m r d Hrd.
    inversion Hs as [|? j ? ? Hw|? ? ? Hw]; subst; inversion Hw; subst; simpl in *.
    destruct (sys_waiting s) eqn:Hwt; simpl in *.
    + by destruct (sys_reader s).
    + rw Hrd in Hr. destruct Hr as (_ & Hw' & _). congruence.
Qed.

Lemma no_lost_wakeup_witness :
  let H := android9_sensors_h in
  exists tr s,
    do_actions sample_table (opened_system sample_mems) (take 7 sample_run) = Some (tr, s) /\
    sys_waiting s = true /\ Forall (fun pc => pc <> WSleep) (sys_writers s).
Proof.
  intros H.
  destruct (do_actions sample_table (opened_system sample_mems) (take 7 sample_run))
    as [[tr s]|] eqn:Hrun; [|vm_compute in Hrun; discriminate].
  exists tr, s. split; [reflexivity|].
  destruct (proj1 (@no_lost_wakeup H sample_table sample_mems tr s
    ltac:(split; [vm_compute; split; reflexivity|repeat constructor])
    (do_actions_sound _ _ _ _ _ Hrun)) 4 0 (replicate 4 (sample_event 0 0))) as (Hw & _ & Hs).
  - vm_compute in Hrun. injection Hrun as _ <-. vm_compute. reflexivity.
  - split; assumption.
Defined.

(** C21: the unlocked [device->poll] is safe.  In every reachable state, the
    region a sub-HAL may be writing lies inside its queue's array and contains
    no slot of a readable record, however much [poll] has dequeued since the
    region was handed out; and what was stored so far is still there. *)
Theorem poll_region_disjoint `{SensorsHeader} (t : HandleTable) mems tr s (i : nat) q buffer n evs :
  mems_ok mems -> run (sys_step t) (opened_system mems) tr s ->
  sys_queues s !! i = Some q -> sys_writers s !! i = Some (WPoll buffer n evs) ->
  exists first, buffer = Some first /\ 1 <= n /\
    0 <= first /\ first + n <= Z.of_nat (length (mData q)) /\
    (forall a k, first <= a < first + n -> 0 <= k < getSize q -> slot q k <> a) /\
    (forall k, (k < length evs)%nat -> arr_get (mData q) (first + Z.of_nat k) = evs !! k).
Proof.
  intros Hm Hrun Hq Hpc. pose proof (reachable_ok t mems s tr Hm Hrun) as Hok.
  destruct (writer_lookup s i q _ Hok Hq Hpc) as (Hwf & Hcap & -> & Hn & Hreg).
  destruct Hreg as [He Hf Hl Hd]. pose proof (write_pos_range q Hwf) as Hw.
  pose proof Hwf as [? ? ? ?]. unfold getSize.
  exists (write_pos q). split_and!; [done|done|lia|lia|..].
  - intros a k Ha Hk Heq.
    assert (slot q (mSize q + (a - write_pos q)) = slot q k) as Hs
      by (rw slot_write_pos; [lia|done|lia..]).
    apply slot_inj in Hs; [lia|done|lia|lia].
  - intros k Hk. rw -(Hd k Hk). unfold arr_get.
    by rw (proj2 (Z.leb_le 0 (write_pos q + Z.of_nat k))); [|lia].
Qed.

Lemma poll_region_disjoint_witness :
  let H := android9_sensors_h in
  exists tr s q,
    do_actions sample_table (opened_system sample_mems) (take 5 sample_run) = Some (tr, s) /\
    sys_queues s !! 1%nat = Some q /\ arr_get (mData q) 0 = Some (sample_event 9 3).
Proof.
  intros H.
  destruct (do_actions sample_table (opened_system sample_mems) (take 5 sample_run))
    as [[tr s]|] eqn:Hrun; [|vm_compute in Hrun; discriminate].
  destruct (sys_queues s !! 1%nat) as [q|] eqn:Hq;
    [|vm_compute in Hrun; injection Hrun as _ <-; discriminate].
  exists tr, s, q. split; [reflexivity|]. split; [exact Hq|].
  assert (sys_writers s !! 1%nat = Some (WPoll (Some 0) 36 [sample_event 9 3])) as Hpc
    by (vm_compute in Hrun; injection Hrun as _ <-; reflexivity).
  destruct (@poll_region_disjoint H sample_table sample_mems tr s 1%nat q (Some 0) 36
    [sample_event 9 3] ltac:(split; [vm_compute; split; reflexivity|repeat constructor])
    (do_actions_sound _ _ _ _ _ Hrun) Hq Hpc) as (first & [= <-] & _ & _ & _ & _ & Hd).
  apply (Hd 0%nat). simpl. lia.
Defined.

(** No internal deadlock.  In every reachable state in which the list of
    sensors has been built, some thread is not blocked on the queues'
    synchronisation: a sub-HAL is being polled, or the framework is not inside
    [poll], or a thread that is not asleep can take its next step. *)
Theorem no_internal_deadlock `{SensorsHeader} (t : HandleTable) mems tr s :
  mems_ok mems -> run (sys_step t) (opened_system mems) tr s -> sys_mutex s <> MInit ->
  (exists i b n evs, sys_writers s !! i = Some (WPoll b n evs)) \/
  sys_reader s = RIdle \/
  (exists i pc l s', sys_writers s !! i = Some pc /\ pc <> WSleep /\ writer_step i s l s') \/
  ((forall m r d, sys_reader s <> RSleep m r d) /\ exists l s', reader_step t s l s').
Proof.
  intros Hm Hrun Hmx. pose proof (reachable_ok t mems s tr Hm Hrun) as Hok.
  pose proof (sy_reader _ Hok) as Hr. unfold reader_ok in Hr.
  pose proof (queueCount_id s Hok) as Hc.
  destruct (sys_writers s !! 0%nat) as [pc|] eqn:Hpc; cycle 1.
  { apply lookup_ge_None in Hpc. rw -(Forall2_length _ _ _ (sy_writers _ Hok)) in Hpc.
    pose proof (sy_count _ Hok). lia. }
  destruct (writer_has_queue s 0 _ Hok Hpc) as [q Hq].
  destruct (writer_lookup s 0 q _ Hok Hq Hpc) as (Hwf & Hcap & Hpcok).
  destruct (sys_reader s) as [|m e r d|m r d|m r d] eqn:Hrd; [by auto|..].
  - (* scanning: the reader moves *)
    do 3 right. split; [done|]. destruct Hr as (_ & _ & Hscan). rw -Hc in Hscan.
    destruct (scan_guard (queueCount s) m (mkScan (sys_queues s) (sys_next s) e r d)) eqn:Hg.
    + destruct (scan_step_cases t _ m _ Hscan Hg) as (q0 & _ & _ & [[_ Hs]|(? & ? & _ & Hs)]);
        eexists _, _; eapply r_scan; done.
    + destruct (decide (r = 0)); eexists _, _; [by eapply r_sleep|by eapply r_return].
  - (* asleep: all queues are empty, so no writer is *)
    destruct Hr as (Hmr & _ & _ & _ & _ & Hnil).
    assert (sys_mutex s = MFree) as Hfree by by destruct (sys_mutex s).
    destruct pc as [| |b n evs|evs].
    + right; right; left. destruct (decide (mSize q = mCapacity q)) as [Hf|Hf].
      * eexists _, _, _, _. split; [done|]. split; [done|]. by eapply w_wait.
      * destruct (getWritableRegion q SENSOR_EVENT_QUEUE_CAPACITY) as [n p] eqn:Hg.
        eexists _, _, _, _. split; [done|]. split; [done|]. by eapply w_region.
    + exfalso. simpl in Hpcok. pose proof (Forall_lookup_1 _ _ _ _ Hnil Hq) as Hz.
      apply contents_nil_iff in Hz; [|done]. destruct Hwf. lia.
    + left. by eauto.
    + right; right; left. eexists _, _, _, _. split; [done|]. split; [done|]. by eapply w_mark.
  - (* woken: the mutex is free *)
    do 3 right. split; [done|]. destruct Hr as (Hmr & _).
    assert (sys_mutex s = MFree) as Hfree by by destruct (sys_mutex s).
    eexists _, _. by eapply r_wake.
Qed.

Lemma no_internal_deadlock_witness :
  let H := android9_sensors_h in
  exists tr s,
    do_actions sample_table (opened_system sample_mems) [DoInit] = Some (tr, s) /\
    ((exists i b n evs, sys_writers s !! i = Some (WPoll b n evs)) \/
     sys_reader s = RIdle \/
     (exists i pc l s', sys_writers s !! i = Some pc /\ pc <> WSleep /\ writer_step i s l s') \/
     ((forall m r d, sys_reader s <> RSleep m r d) /\ exists l s', reader_step sample_table s l s')).
Proof.
  intros H.
  destruct (do_actions sample_table (opened_system sample_mems) [DoInit])
    as [[tr s]|] eqn:Hrun; [|vm_compute in Hrun; discriminate].
  exists tr, s. split; [reflexivity|].
  apply (@no_internal_deadlock H sample_table sample_mems tr s
    ltac:(split; [vm_compute; split; reflexivity|repeat constructor])
    (do_actions_sound _ _ _ _ _ Hrun)).
  vm_compute in Hrun. injection Hrun as _ <-. discriminate.
Defined.
