(* ===== verification/SensorInit.v ===== *)
(** * Loading the sub-HALs and building the sensor list

    Model of the initialisation half of sensors/multihal.cpp: [get_so_paths],
    [lazy_init_modules], [fix_sensor_flags], [lazy_init_sensors_list],
    [module__get_sensors_list] and [open_sensors], over the globals they share.

    Code outside of the repository is a parameter: the configuration files,
    the dynamic loader, and each sub-HAL module's [open] and
    [get_sensors_list] (functions of the sub-HALs' own state [W]).  What
    [new[]] leaves in memory is a parameter too. *)
From S2P Require Import Prelude Handles SensorsHal Dispatch.

(** ** Outcomes *)

(** [Crash]: undefined behaviour or an exception nothing catches.
    [Deadlock]: the thread locks a mutex that is never released. *)
Inductive outcome (A : Type) :=
| Done (a : A)
| Crash
| Deadlock.
Arguments Done {A}.
Arguments Crash {A}.
Arguments Deadlock {A}.

Definition initM (S A : Type) : Type := S -> outcome (A * S).

#[export] Instance initM_ret {S} : MRet (initM S) := fun A a s => Done (a, s).
#[export] Instance initM_bind {S} : MBind (initM S) :=
  fun A B f m s => match m s with
    | Done (a, s') => f a s' | Crash => Crash | Deadlock => Deadlock end.

Definition get_init {S} : initM S S := fun s => Done (s, s).
Definition put_init {S} (s : S) : initM S unit := fun _ => Done (tt, s).
Definition or_crash {S A} (o : option A) : initM S A :=
  fun s => match o with Some a => Done (a, s) | None => Crash end.

Definition deadlock {S A} : initM S A := fun _ => Deadlock.

(** ** Strings *)

(** [starts_with]; a null pointer is [None].  [strncmp] compares at most the
    first [prefix_size] characters. *)
Definition starts_with (s prefix : option string) : bool :=
  match s, prefix with
  | Some s, Some prefix =>
      let s_size := String.length s in
      let prefix_size := String.length prefix in
      (prefix_size <=? s_size)%nat &&
      bool_decide (String.substring 0 prefix_size s = String.substring 0 prefix_size prefix)
  | _, _ => false
  end.

(** ** The configuration file *)

Definition MULTI_HAL_CONFIG_FILE_PATH : string := "/vendor/etc/sensors/_hals.conf".
Definition DEPRECATED_MULTI_HAL_CONFIG_FILE_PATH : string := "/system/etc/sensors/_hals.conf".

Definition newline : Ascii.ascii := Ascii.ascii_of_nat 10.

(** [std::getline] until it fails: what follows the last newline is a line of
    its own when it is not empty. *)
Fixpoint getlines_acc (line : string) (text : string) : list string :=
  match text with
  | EmptyString => match line with EmptyString => [] | _ => [line] end
  | String c text' =>
      if decide (c = newline) then line :: getlines_acc "" text'
      else getlines_acc (line +:+ String c "") text'
  end.

Definition getlines (text : string) : list string := getlines_acc "" text.

(** [read_file path] is the contents, or [None] when it cannot be opened.
    With no file, [stream] is the default-constructed stream, which is not in
    a failed state: the test [!stream] does not fire, and the [strcmp] after it
    is given the null [path] (no result). *)
Definition get_so_paths (read_file : string -> option string) : option (list string) :=
  match read_file MULTI_HAL_CONFIG_FILE_PATH with
  | Some text => Some (getlines text)
  | None =>
      match read_file DEPRECATED_MULTI_HAL_CONFIG_FILE_PATH with
      | Some text => Some (getlines text)
      | None => None
      end
  end.

(** ** Sensor flags *)

Definition set_flags (s : sensor_t) (flags : Z) : sensor_t :=
  {| s_handle := s_handle s; s_type := s_type s; s_flags := flags;
     s_minDelay := s_minDelay s; s_maxDelay := s_maxDelay s; s_rest := s_rest s |}.

Definition set_handle (s : sensor_t) (handle : Z) : sensor_t :=
  {| s_handle := handle; s_type := s_type s; s_flags := s_flags s;
     s_minDelay := s_minDelay s; s_maxDelay := s_maxDelay s; s_rest := s_rest s |}.

Definition fix_sensor_flags `{SensorsHeader} (version : Z) (sensor : sensor_t) : sensor_t :=
  if version <? SENSORS_DEVICE_API_VERSION_1_3 then
    if s_type sensor =? SENSOR_TYPE_PROXIMITY then
      let sensor := set_flags sensor (Z.lor (s_flags sensor) SENSOR_FLAG_ON_CHANGE_MODE) in
      set_flags sensor (Z.lor (s_flags sensor) SENSOR_FLAG_WAKE_UP)
    else if s_type sensor =? SENSOR_TYPE_TEMPERATURE then
      set_flags sensor (Z.lor (s_flags sensor) SENSOR_FLAG_ON_CHANGE_MODE)
    else if s_type sensor =? SENSOR_TYPE_LIGHT then
      set_flags sensor (Z.lor (s_flags sensor) SENSOR_FLAG_ON_CHANGE_MODE)
    else sensor
  else sensor.

(** ** Globals *)

(** What the dynamic loader answers for one path. *)
Inductive dl_result :=
| DlOpenFailed            (* dlopen returned NULL *)
| DlSymError              (* dlerror() after dlsym *)
| DlSymNull               (* dlsym returned NULL *)
| DlModule (m : Z).       (* the module's address *)

(** The globals of the initialisation; a null pointer is [None]. *)
Record init_state (W : Type) := mkInit {
  sub_hw_modules : option (list Z);
  sub_hw_versions : option (gmap Z Z);
  in_globals : hal_globals;
  global_sensors_count : Z;
  queue_mutex : bool;          (* locked *)
  in_world : W;
}.
Arguments mkInit {W}.
Arguments sub_hw_modules {W}.
Arguments sub_hw_versions {W}.
Arguments in_globals {W}.
Arguments global_sensors_count {W}.
Arguments queue_mutex {W}.
Arguments in_world {W}.

(** The state when the library is loaded. *)
Definition loaded_state {W} (w : W) : init_state W :=
  mkInit None None (mkGlobals initial_table None None None) (-1) false w.

Section Init.
Context `{SensorsHeader} {W : Type}.
Variable read_file : string -> option string.
Variable load_library : string -> dl_result.
Variable get_sensors_list : Z -> W -> list sensor_t * W.
Variable open_module : Z -> W -> (Z * hw_device_t) * W.
Variable junk_sensor : nat -> sensor_t.
Variable junk_batch : nat -> batch_data.
Variable proxy : Z.

Abbreviation I := (initM (init_state W)).

Definition with_modules (s : init_state W) (l : list Z) : init_state W :=
  mkInit (Some l) (sub_hw_versions s) (in_globals s) (global_sensors_count s)
    (queue_mutex s) (in_world s).
Definition with_versions (s : init_state W) (v : option (gmap Z Z)) : init_state W :=
  mkInit (sub_hw_modules s) v (in_globals s) (global_sensors_count s)
    (queue_mutex s) (in_world s).
Definition with_globals (s : init_state W) (g : hal_globals) : init_state W :=
  mkInit (sub_hw_modules s) (sub_hw_versions s) g (global_sensors_count s)
    (queue_mutex s) (in_world s).
Definition with_count (s : init_state W) (n : Z) : init_state W :=
  mkInit (sub_hw_modules s) (sub_hw_versions s) (in_globals s) n
    (queue_mutex s) (in_world s).
Definition with_mutex (s : init_state W) (b : bool) : init_state W :=
  mkInit (sub_hw_modules s) (sub_hw_versions s) (in_globals s) (global_sensors_count s)
    b (in_world s).
Definition with_world (s : init_state W) (w : W) : init_state W :=
  mkInit (sub_hw_modules s) (sub_hw_versions s) (in_globals s) (global_sensors_count s)
    (queue_mutex s) w.

(** ** lazy_init_modules *)

(** The modules of the paths that load, in the order of the file. *)
Fixpoint load_modules (so_paths : list string) : list Z :=
  match so_paths with
  | [] => []
  | path :: so_paths' =>
      match load_library path with
      | DlModule m => m :: load_modules so_paths'
      | DlOpenFailed | DlSymError | DlSymNull => load_modules so_paths'
      end
  end.

Definition lazy_init_modules : I unit :=
  s ← get_init;
  match sub_hw_modules s with
  | Some _ => mret tt
  | None =>
      so_paths ← or_crash (get_so_paths read_file);
      put_init (with_modules s (load_modules so_paths))
  end.

(** ** lazy_init_sensors_list *)

Definition call_get_sensors_list (m : Z) : I (list sensor_t) :=
  s ← get_init;
  let '(l, w) := get_sensors_list m (in_world s) in
  put_init (with_world s w);; mret l.

(** The first loop: count all the sensors. *)
Fixpoint count_sensors (modules : list Z) : I unit :=
  match modules with
  | [] => mret tt
  | m :: modules' =>
      l ← call_get_sensors_list m;
      s ← get_init;
      put_init (with_count s (i32 (global_sensors_count s + Z.of_nat (length l))));;
      count_sensors modules'
  end.

(** The inner loop over one module's sensors; the result is
    [mutable_sensor_index] and [mutable_sensor_list]. *)
Fixpoint copy_sensors (m module_index : Z) (locals : list sensor_t)
    (mutable_sensor_index : Z) (mutable_sensor_list : list sensor_t) :
    I (Z * list sensor_t) :=
  match locals with
  | [] => mret (mutable_sensor_index, mutable_sensor_list)
  | local_sensor :: locals' =>
      s ← get_init;
      let local_handle := s_handle local_sensor in
      (* memcpy *)
      list1 ← or_crash (arr_set mutable_sensor_list mutable_sensor_index local_sensor);
      let '(global_handle, t') :=
        assign_global_handle (g_table (in_globals s)) module_index local_handle in
      put_init (with_globals s
        {| g_table := t'; global_sensors_list := global_sensors_list (in_globals s);
           sensors_batch_list := sensors_batch_list (in_globals s);
           sensors_enable_state := sensors_enable_state (in_globals s) |});;
      (* sub_hw_versions->at: throws when absent *)
      versions ← or_crash (sub_hw_versions s);
      version ← or_crash (versions !! m);
      list2 ← or_crash (arr_set list1 mutable_sensor_index
        (fix_sensor_flags version (set_handle local_sensor global_handle)));
      copy_sensors m module_index locals' (i32 (mutable_sensor_index + 1)) list2
  end.

(** The second loop over the modules. *)
Fixpoint copy_modules (modules : list Z) (module_index mutable_sensor_index : Z)
    (mutable_sensor_list : list sensor_t) : I (list sensor_t) :=
  match modules with
  | [] => mret mutable_sensor_list
  | m :: modules' =>
      locals ← call_get_sensors_list m;
      '(index', list') ← copy_sensors m module_index locals
        mutable_sensor_index mutable_sensor_list;
      copy_modules modules' (i32 (module_index + 1)) index' list'
  end.

Definition lazy_init_sensors_list : I unit :=
  s0 ← get_init;
  match global_sensors_list (in_globals s0) with
  | Some _ => mret tt   (* already initialized *)
  | None =>
      lazy_init_modules;;
      s1 ← get_init;
      put_init (with_count s1 0);;
      modules ← or_crash (sub_hw_modules s1);
      count_sensors modules;;
      s2 ← get_init;
      let n := Z.to_nat (global_sensors_count s2) in
      put_init (with_globals s2
        {| g_table := g_table (in_globals s2);
           global_sensors_list := global_sensors_list (in_globals s2);
           sensors_batch_list := Some ((fun i => set_empty (junk_batch i) true) <$> seq 0 n);
           sensors_enable_state := Some (replicate n 0) |});;
      mutable_sensor_list ← copy_modules modules 0 0 (junk_sensor <$> seq 0 n);
      s3 ← get_init;
      put_init (with_mutex (with_versions (with_globals s3
        {| g_table := g_table (in_globals s3);
           global_sensors_list := Some mutable_sensor_list;
           sensors_batch_list := sensors_batch_list (in_globals s3);
           sensors_enable_state := sensors_enable_state (in_globals s3) |}) None) false)
  end.

(** The count and the list; the loop that logs the sensors' types dereferences
    the list, which is never null here. *)
Definition module__get_sensors_list : I (Z * option (list sensor_t)) :=
  lazy_init_sensors_list;;
  s ← get_init;
  mret (global_sensors_count s, global_sensors_list (in_globals s)).

(** [int] from [unsigned int]. *)
Definition module__set_operation_mode (mode : Z) : Z := i32 mode.

(** ** open_sensors *)

Definition call_open (m : Z) : I (Z * hw_device_t) :=
  s ← get_init;
  let '(r, w) := open_module m (in_world s) in
  put_init (with_world s w);; mret r.

(** Open() the subhal modules; the result is [dev->sub_hw_devices].
    [insert] keeps the entry a key already has. *)
Fixpoint open_modules (modules : list Z) (devices : list hw_device_t) :
    I (list hw_device_t) :=
  match modules with
  | [] => mret devices
  | m :: modules' =>
      '(sub_open_result, sub_hw_device) ← call_open m;
      if sub_open_result =? 0 then
        s ← get_init;
        versions ← or_crash (sub_hw_versions s);
        put_init (with_versions s (Some
          (match versions !! m with
           | Some _ => versions
           | None => <[m := dev_version sub_hw_device]> versions
           end)));;
        open_modules modules' (devices ++ [sub_hw_device])
      else open_modules modules' devices
  end.

(** The queue mutex stays locked when this returns. *)
Definition open_sensors : I sensors_poll_context_t :=
  lazy_init_modules;;
  s ← get_init;
  if queue_mutex s then deadlock
  else
    put_init (with_versions (with_mutex s true) (Some ∅));;
    modules ← or_crash (sub_hw_modules s);
    devices ← open_modules modules [];
    mret {| proxy_device := proxy; sub_hw_devices := devices |}.
End Init.

(** ** Specification *)

Section Spec.
Context `{SensorsHeader}.
Variables (sensors : Z -> list sensor_t) (version : Z -> Z).

(** Every sensor, with the index and the address of its module. *)
Fixpoint all_sensors (module_index : Z) (modules : list Z) : list (Z * Z * sensor_t) :=
  match modules with
  | [] => []
  | m :: modules' =>
      ((fun sn => (module_index, m, sn)) <$> sensors m)
        ++ all_sensors (module_index + 1) modules'
  end.

Fixpoint sensor_total (modules : list Z) : Z :=
  match modules with
  | [] => 0
  | m :: modules' => Z.of_nat (length (sensors m)) + sensor_total modules'
  end.

Definition sensor_full (x : Z * Z * sensor_t) : FullHandle :=
  mkFull x.1.1 (s_handle x.2).

(** The list entry of a sensor whose global handle is [g]. *)
Definition sensor_entry (g : Z) (x : Z * Z * sensor_t) : sensor_t :=
  fix_sensor_flags (version x.1.2) (set_handle x.2 g).

Definition sensor_entries (next : Z) (xs : list (Z * Z * sensor_t)) : list sensor_t :=
  imap (fun k x => sensor_entry (next + Z.of_nat k) x) xs.

(** The devices of the modules that open, in order, and the version each
    module's device reports; [opens] gives each module's result of [open]. *)
Definition opened_devices (opens : Z -> Z * hw_device_t) (modules : list Z) :
    list hw_device_t :=
  omap (fun m => let '(r, d) := opens m in if r =? 0 then Some d else None) modules.

Definition opened_version (opens : Z -> Z * hw_device_t) (m : Z) : Z :=
  dev_version (opens m).2.
End Spec.

(** * Theorems *)

Ltac init_unfold :=
  unfold mbind, initM_bind, mret, initM_ret, get_init, put_init, or_crash, deadlock,
    with_modules, with_versions, with_globals, with_count, with_mutex, with_world in *.

(** [starts_with] is the prefix test. *)
Lemma starts_with_spec s prefix :
  starts_with (Some s) (Some prefix) = true <-> exists rest, s = prefix +:+ rest.
Proof.
  unfold starts_with. rw andb_true_iff bool_decide_eq_true Nat.leb_le.
  revert s. induction prefix as [|c prefix IH]; intros s; simpl.
  - split; [by exists s|]. intros _. split; [lia|]. by destruct s.
  - destruct s as [|d s]; simpl.
    + split; [lia|]. by intros [rest Hs].
    + split.
      * intros [Hlen [= -> Hs]]. destruct (proj1 (IH s)) as [rest ->]; [split; [lia|done]|].
        by exists rest.
      * intros [rest [= -> ->]]. destruct (proj2 (IH (prefix +:+ rest))) as [Hlen Hs]; [by exists rest|].
        split; [lia|]. by rw Hs.
Qed.

Lemma assign_handles_app t fs gs :
  assign_handles t (fs ++ gs) =
    ((assign_handles t fs).1 ++ (assign_handles (assign_handles t fs).2 gs).1,
     (assign_handles (assign_handles t fs).2 gs).2).
Proof.
  revert t. induction fs as [|f fs IH]; intros t; simpl.
  - by destruct (assign_handles t gs).
  - rw IH. by destruct (assign_handles _ fs).
Qed.

Section InitLemmas.
Context `{SensorsHeader} {W : Type}.
Variable get_sensors_list : Z -> W -> list sensor_t * W.
Variables (sensors : Z -> list sensor_t) (version : Z -> Z).
Hypothesis Hsensors : forall m w, (get_sensors_list m w).1 = sensors m.

Lemma length_all_sensors i ms :
  Z.of_nat (length (all_sensors sensors i ms)) = sensor_total sensors ms.
Proof.
  revert i. induction ms as [|m ms IH]; intros i; simpl; [done|].
  rw length_app length_fmap -(IH (i + 1)). lia.
Qed.

Lemma sensor_entries_app next xs ys :
  sensor_entries version next (xs ++ ys) =
    sensor_entries version next xs ++ sensor_entries version (next + Z.of_nat (length xs)) ys.
Proof.
  unfold sensor_entries. rw imap_app. f_equal. apply imap_ext. intros k x _. simpl.
  f_equal. lia.
Qed.

Lemma next_assign t fs :
  table_wf t -> next_global_handle t + Z.of_nat (length fs) <= INT_MAX ->
  table_wf (assign_handles t fs).2 /\
  next_global_handle (assign_handles t fs).2 = next_global_handle t + Z.of_nat (length fs).
Proof.
  intros Hwf Hmax. destruct (assign_handles t fs) as [gs t'] eqn:Ha.
  by destruct (assign_handles_spec t fs gs t' Hwf Hmax Ha) as (? & ? & _).
Qed.

(** Copying one module's sensors. *)
Lemma copy_sensors_run m mi locals idx lst ms vs t gl bl el c mx (w : W) :
  (locals <> [] -> vs !! m = Some (version m)) -> table_wf t ->
  next_global_handle t + Z.of_nat (length locals) <= INT_MAX ->
  0 <= idx -> idx + Z.of_nat (length locals) <= Z.of_nat (length lst) <= INT_MAX ->
  let xs := (fun sn => (mi, m, sn)) <$> locals in
  copy_sensors m mi locals idx lst (mkInit ms (Some vs) (mkGlobals t gl bl el) c mx w) =
    Done ((idx + Z.of_nat (length locals),
           write_at lst (Z.to_nat idx) (sensor_entries version (next_global_handle t) xs)),
          mkInit ms (Some vs)
            (mkGlobals (assign_handles t (sensor_full <$> xs)).2 gl bl el) c mx w).
Proof.
  revert idx lst t. induction locals as [|sn locals IH];
    intros idx lst t Hv Hwf Hmax Hidx Hlen xs; simpl.
  { init_unfold. by rw Z.add_0_r. }
  simpl in *. pose proof (tw_next t Hwf). init_unfold. simpl.
  specialize (Hv ltac:(done)). assert (locals <> [] -> vs !! m = Some (version m)) as Hv' by done.
  rw arr_set_eq; [|lia]. simpl. rw Hv arr_set_eq; [|rw length_insert; lia].
  rw (i32_id (idx + 1)); [|ilia].
  rw list_insert_insert_eq. fold (assign_global_handle t mi (s_handle sn)).
  set (t1 := (assign_global_handle t mi (s_handle sn)).2).
  assert (next_global_handle t1 = next_global_handle t + 1) as Hn1 by (simpl; by no_wrap).
  change (mkTable _ _ _) with t1.
  rw (IH (idx + 1) _ t1 Hv'); [|by apply assign_wf; [|lia]|lia|lia|rw length_insert; lia].
  f_equal. f_equal.
  - f_equal; [lia|]. unfold sensor_entries. simpl.
    replace (Z.to_nat (idx + 1)) with (S (Z.to_nat idx)) by lia.
    f_equal; [f_equal; unfold sensor_entry; simpl; by rw Z.add_0_r|].
    apply imap_ext. intros k x _. unfold sensor_entry, compose.
    no_wrap. do 2 f_equal. lia.
  - by destruct (assign_handles t1 _).
Qed.

(** Copying all modules' sensors. *)
Lemma copy_modules_run modules mi idx lst ms vs t gl bl el c mx (w : W) :
  (forall m, m ∈ modules -> sensors m <> [] -> vs !! m = Some (version m)) -> table_wf t ->
  let xs := all_sensors sensors mi modules in
  next_global_handle t + Z.of_nat (length xs) <= INT_MAX ->
  0 <= idx -> idx + Z.of_nat (length xs) <= Z.of_nat (length lst) <= INT_MAX ->
  0 <= mi -> mi + Z.of_nat (length modules) <= INT_MAX ->
  exists w',
  copy_modules get_sensors_list modules mi idx lst
    (mkInit ms (Some vs) (mkGlobals t gl bl el) c mx w) =
    Done (write_at lst (Z.to_nat idx) (sensor_entries version (next_global_handle t) xs),
          mkInit ms (Some vs)
            (mkGlobals (assign_handles t (sensor_full <$> xs)).2 gl bl el) c mx w').
Proof.
  revert mi idx lst t w. induction modules as [|m modules IH];
    intros mi idx lst t w Hvs Hwf xs Hmax Hidx Hlen Hmi Hmis; simpl.
  { exists w. by init_unfold. }
  unfold call_get_sensors_list. init_unfold. simpl in *.
  pose proof (Hsensors m w) as Hs. destruct (get_sensors_list m w) as [l w1]. simpl in Hs. subst l.
  subst xs. rw length_app length_fmap in Hmax, Hlen.
  rw copy_sensors_run; [|by intros Hne; apply Hvs; [left|]|done|lia|done|lia].
  rw (i32_id (mi + 1)); [|ilia].
  set (fs := sensor_full <$> ((fun sn => (mi, m, sn)) <$> sensors m)).
  assert (length fs = length (sensors m)) as Hfs by (unfold fs; by rw !length_fmap).
  destruct (next_assign t fs Hwf) as [Hwf1 Hn1]; [lia|].
  destruct (IH (mi + 1) (idx + Z.of_nat (length (sensors m)))
    (write_at lst (Z.to_nat idx) (sensor_entries version (next_global_handle t)
      ((fun sn => (mi, m, sn)) <$> sensors m)))
    (assign_handles t fs).2 w1) as (w' & ->);
    [by intros m0 Hm0; apply Hvs; right|done|lia|lia|rw length_write_at; lia|lia|lia|].
  exists w'. f_equal. f_equal.
  - rw sensor_entries_app write_at_app length_fmap. unfold sensor_entries at 3.
    rw length_imap length_fmap Hn1 Hfs. f_equal. lia.
  - rw fmap_app assign_handles_app. done.
Qed.

Lemma sensor_total_nonneg ms : 0 <= sensor_total sensors ms.
Proof. rw -(length_all_sensors 0). lia. Qed.

Lemma count_sensors_run modules ms vs g c mx (w : W) :
  0 <= c -> c + sensor_total sensors modules <= INT_MAX ->
  exists w', count_sensors get_sensors_list modules (mkInit ms vs g c mx w) =
    Done (tt, mkInit ms vs g (c + sensor_total sensors modules) mx w').
Proof.
  revert c w. induction modules as [|m modules IH]; intros c w Hc Hmax; simpl in *.
  { exists w. init_unfold. by rw Z.add_0_r. }
  unfold call_get_sensors_list. init_unfold. simpl in *.
  pose proof (Hsensors m w) as Hs. destruct (get_sensors_list m w) as [l w1].
  simpl in Hs. subst l. simpl. pose proof (sensor_total_nonneg modules).
  rw i32_id; [|ilia]. rw Z.add_assoc. apply IH; lia.
Qed.

(** A module with sensors but no recorded version: [unordered_map::at] throws
    (or the map pointer is null). *)
Lemma copy_sensors_missing m mi sn locals idx lst (s : init_state W) :
  sub_hw_versions s ≫= (fun vs => vs !! m) = None ->
  copy_sensors m mi (sn :: locals) idx lst s = Crash.
Proof.
  intros Hv. simpl. init_unfold. destruct (arr_set lst idx sn); [|done]. simpl.
  destruct (sub_hw_versions s) as [vs|]; [|done]. simpl in Hv. by rw Hv.
Qed.

Lemma copy_sensors_versions m mi locals idx lst (s s' : init_state W) r :
  copy_sensors m mi locals idx lst s = Done (r, s') -> sub_hw_versions s' = sub_hw_versions s.
Proof.
  revert idx lst s. induction locals as [|sn locals IH]; intros idx lst s; simpl; init_unfold.
  { by intros [= _ <-]. }
  destruct (arr_set lst idx sn); [|done]. simpl.
  destruct (sub_hw_versions s) as [vs|] eqn:Hvs; [|done].
  destruct (vs !! m); [|done]. destruct (arr_set _ _ _); [|done].
  intros Hd. apply IH in Hd. simpl in Hd. by rw Hd.
Qed.

Lemma copy_sensors_no_deadlock m mi locals idx lst (s : init_state W) :
  copy_sensors m mi locals idx lst s <> Deadlock.
Proof.
  revert idx lst s. induction locals as [|sn locals IH]; intros idx lst s; simpl; init_unfold; [done|].
  destruct (arr_set lst idx sn); [|done]. simpl.
  destruct (sub_hw_versions s) as [vs|]; [|done].
  destruct (vs !! m); [|done]. destruct (arr_set _ _ _); [|done]. apply IH.
Qed.

Lemma copy_modules_missing m modules mi idx lst (s : init_state W) :
  m ∈ modules -> sensors m <> [] -> sub_hw_versions s ≫= (fun vs => vs !! m) = None ->
  copy_modules get_sensors_list modules mi idx lst s = Crash.
Proof.
  intros Hm Hne. revert mi idx lst s. induction modules as [|h modules IH];
    intros mi idx lst s Hv; [by apply elem_of_nil in Hm|].
  simpl. unfold call_get_sensors_list. init_unfold. simpl.
  pose proof (Hsensors h (in_world s)) as Hs.
  destruct (get_sensors_list h (in_world s)) as [l w1]. simpl in Hs. subst l. cbn.
  destruct (decide (m = h)) as [<-|Hmh].
  - destruct (sensors m) as [|sn locals]; [done|].
    by rw copy_sensors_missing.
  - apply elem_of_cons in Hm as [?|Hm]; [done|].
    destruct (copy_sensors h mi (sensors h) idx lst _) as [[[idx' l'] s']| |] eqn:Hc; [|done|].
    + apply (IH Hm). by rw (copy_sensors_versions _ _ _ _ _ _ _ _ Hc).
    + by apply copy_sensors_no_deadlock in Hc.
Qed.
End InitLemmas.

(** Opening the modules: the devices are those of the modules that open, and
    exactly these have a version. *)
Section OpenLemmas.
Context `{SensorsHeader} {W : Type}.
Variable open_module : Z -> W -> (Z * hw_device_t) * W.
Variable opens : Z -> Z * hw_device_t.
Hypothesis Hopens : forall m w, (open_module m w).1 = opens m.

Lemma open_modules_run modules devs ms vs g c mx (w : W) :
  (forall m v, vs !! m = Some v -> v = opened_version opens m) ->
  exists vs' w',
  open_modules open_module modules devs (mkInit ms (Some vs) g c mx w) =
    Done (devs ++ opened_devices opens modules, mkInit ms (Some vs') g c mx w') /\
  (forall m v, vs' !! m = Some v <->
     v = opened_version opens m /\
     (is_Some (vs !! m) \/ m ∈ modules /\ (opens m).1 = 0)).
Proof.
  revert devs vs w. induction modules as [|m modules IH]; intros devs vs w Hvs; simpl.
  { exists vs, w. init_unfold. rw app_nil_r. split; [done|]. intros m v. split.
    - intros Hm. split; [by apply Hvs|by left; eexists].
    - intros [-> [[v0 Hv]|[Hm _]]]; [by rw -(Hvs m v0 Hv)|by apply elem_of_nil in Hm]. }
  unfold call_open. init_unfold. simpl.
  pose proof (Hopens m w) as Ho. destruct (open_module m w) as [[r d] w1].
  simpl in Ho. unfold opened_devices. simpl. rw -Ho. simpl.
  assert (opened_version opens m = dev_version d) as Hver by (unfold opened_version; by rw -Ho).
  destruct (Z.eqb_spec r 0) as [Hr|Hr]; simpl.
  - set (vs1 := match vs !! m with Some _ => vs | None => <[m:=dev_version d]> vs end).
    assert (forall m' v, vs1 !! m' = Some v <-> vs !! m' = Some v \/ m' = m /\ v = dev_version d) as H1.
    { intros m' v. unfold vs1. destruct (vs !! m) as [v0|] eqn:Hm.
      - split; [by left|]. intros [?|[-> ->]]; [done|]. by rw Hm -Hver -(Hvs _ v0 Hm).
      - rw lookup_insert_Some. split; [naive_solver|].
        intros [Hv|[-> ->]]; [|by left]. right. split; [|done]. by intros ->; rw Hm in Hv. }
    destruct (IH (devs ++ [d]) vs1 w1) as (vs' & w' & -> & Hvs').
    { intros m' v [Hv|[-> ->]]%H1; [by apply Hvs|done]. }
    exists vs', w'. rw -app_assoc. split; [done|].
    intros m' v. rw Hvs'. split; (intros [-> Hm']; split; [done|]).
    + destruct Hm' as [[v0 [Hv|[-> _]]%H1]|[Hm' Hz]].
      * by left; eexists.
      * right. split; [by left|by rw -Ho].
      * right. split; [by right|done].
    + destruct Hm' as [[v0 Hv]|[Hm' Hz]].
      * left. exists v0. apply H1. by left.
      * apply elem_of_cons in Hm' as [->|Hm']; [|by right].
        left. exists (dev_version d). apply H1. by right.
  - destruct (IH devs vs w1 Hvs) as (vs' & w' & -> & Hvs'). exists vs', w'. split; [done|].
    intros m' v. rw Hvs'. split; (intros [-> Hm']; split; [done|]).
    + destruct Hm' as [?|[? ?]]; [by left|]. right. split; [by right|done].
    + destruct Hm' as [?|[[->|?]%elem_of_cons Hz]]; [by left|by rw -Ho in Hz|by right].
Qed.
End OpenLemmas.

Lemma lookup_all_sensors (sensors : Z -> list sensor_t) i ms k mi m sn :
  all_sensors sensors i ms !! k = Some (mi, m, sn) ->
  i <= mi /\ ms !! Z.to_nat (mi - i) = Some m /\ sn ∈ sensors m.
Proof.
  revert i k. induction ms as [|m0 ms IH]; intros i k Hk; [done|]. simpl in Hk.
  apply lookup_app_Some in Hk as [Hk|[_ Hk]].
  - rw list_lookup_fmap in Hk. destruct (sensors m0 !! k) as [sn0|] eqn:Hs; [|done].
    simpl in Hk. injection Hk as <- <- <-. rw Z.sub_diag.
    split_and!; [lia|done|by eapply list_elem_of_lookup_2].
  - apply IH in Hk as (? & Hm & ?). split_and!; [lia| |done].
    replace (Z.to_nat (mi - i)) with (S (Z.to_nat (mi - (i + 1)))) by lia. done.
Qed.

Lemma s_handle_entry `{SensorsHeader} version g (x : Z * Z * sensor_t) :
  s_handle (sensor_entry version g x) = g.
Proof. unfold sensor_entry, fix_sensor_flags. by repeat case_match. Qed.

Lemma lookup_sensor_entries `{SensorsHeader} version next xs k :
  sensor_entries version next xs !! k =
    sensor_entry version (next + Z.of_nat k) <$> xs !! k.
Proof. unfold sensor_entries. by rw list_lookup_imap. Qed.

Lemma opened_devices_cons opens m ms :
  opened_devices opens (m :: ms) =
    (if (opens m).1 =? 0 then [(opens m).2] else []) ++ opened_devices opens ms.
Proof.
  unfold opened_devices. simpl. destruct (opens m) as [r d]. simpl. by destruct (r =? 0).
Qed.

(** When every module opens, the devices are parallel to the modules. *)
Lemma opened_devices_all opens ms :
  (forall m, m ∈ ms -> (opens m).1 = 0) ->
  opened_devices opens ms = (fun m => (opens m).2) <$> ms.
Proof.
  induction ms as [|m ms IH]; intros Hall; [done|].
  rw opened_devices_cons (Hall m); [|by left]. simpl. f_equal.
  apply IH. intros m' Hm'. apply Hall. by right.
Qed.

(** ** The initialisation, run to its end *)

Section InitTheorems.
Context `{SensorsHeader} {W : Type}.
Variable read_file : string -> option string.
Variable load_library : string -> dl_result.
Variable get_sensors_list : Z -> W -> list sensor_t * W.
Variable open_module : Z -> W -> (Z * hw_device_t) * W.
Variable junk_sensor : nat -> sensor_t.
Variable junk_batch : nat -> batch_data.
Variable proxy : Z.
Variables (sensors : Z -> list sensor_t) (opens : Z -> Z * hw_device_t).

(** A sub-HAL always reports the same sensors, and its [open] does not depend
    on the others (sensors.h: the list is static; each module stands alone). *)
Definition static_modules : Prop :=
  (forall m w, (get_sensors_list m w).1 = sensors m) /\
  (forall m w, (open_module m w).1 = opens m).

Definition open_call (s : init_state W) : outcome (sensors_poll_context_t * init_state W) :=
  open_sensors read_file load_library open_module proxy s.
Definition list_call (s : init_state W) : outcome (Z * option (list sensor_t) * init_state W) :=
  module__get_sensors_list read_file load_library get_sensors_list junk_sensor junk_batch s.

(** A module with sensors that has no recorded version when the list is built. *)
Lemma list_call_missing ms vs m c mx (w : W) :
  static_modules -> m ∈ ms -> sensors m <> [] -> vs ≫= (fun vs => vs !! m) = None ->
  sensor_total sensors ms <= INT_MAX ->
  list_call (mkInit (Some ms) vs (mkGlobals initial_table None None None) c mx w) = Crash.
Proof.
  intros Hst Hm Hne Hvs Htotal.
  unfold list_call, module__get_sensors_list, lazy_init_sensors_list, lazy_init_modules.
  init_unfold. simpl.
  destruct (count_sensors_run get_sensors_list sensors (proj1 Hst) ms (Some ms) vs
    (mkGlobals initial_table None None None) 0 mx w) as (w2 & ->); [done|lia|].
  simpl. by rw (copy_modules_missing get_sensors_list sensors (proj1 Hst) m).
Qed.

(** What the initialisation leaves for the modules [ms]. *)
Definition initialised_globals (ms : list Z) : hal_globals :=
  let xs := all_sensors sensors 0 ms in
  {| g_table := (assign_handles initial_table (sensor_full <$> xs)).2;
     global_sensors_list := Some (sensor_entries (opened_version opens) 1 xs);
     sensors_batch_list :=
       Some ((fun i => set_empty (junk_batch i) true) <$> seq 0 (length xs));
     sensors_enable_state := Some (replicate (length xs) 0) |}.

(** After a first [open]: the modules and their versions are known, and the
    queue mutex is held. *)
Lemma open_call_run paths (w : W) :
  static_modules -> get_so_paths read_file = Some paths ->
  let ms := load_modules load_library paths in
  exists vs w',
  open_call (loaded_state w) =
    Done (mkCtx proxy (opened_devices opens ms),
          mkInit (Some ms) (Some vs) (mkGlobals initial_table None None None) (-1) true w') /\
  (forall m v, vs !! m = Some v <->
     v = opened_version opens m /\ m ∈ ms /\ (opens m).1 = 0).
Proof.
  intros [_ Hopens] Hpaths ms.
  unfold open_call, open_sensors, lazy_init_modules, loaded_state. init_unfold. simpl.
  rw Hpaths. simpl. fold ms.
  destruct (open_modules_run open_module opens Hopens ms [] (Some ms) ∅
    (mkGlobals initial_table None None None) (-1) true w) as (vs & w' & -> & Hvs); [done|].
  exists vs, w'. split; [done|]. intros m v. rw Hvs lookup_empty.
  split; intros [-> Hm]; (split; [done|]); [|by right].
  destruct Hm as [[? ?]|?]; done.
Qed.

Lemma list_call_run ms vs c (w : W) :
  static_modules ->
  (forall m, m ∈ ms -> sensors m <> [] -> vs !! m = Some (opened_version opens m)) ->
  sensor_total sensors ms < INT_MAX -> Z.of_nat (length ms) <= INT_MAX ->
  exists w',
  list_call (mkInit (Some ms) (Some vs) (mkGlobals initial_table None None None) c true w) =
    Done ((sensor_total sensors ms, global_sensors_list (initialised_globals ms)),
          mkInit (Some ms) None (initialised_globals ms) (sensor_total sensors ms) false w').
Proof.
  intros [Hsensors _] Hvs Htotal Hms.
  pose proof (sensor_total_nonneg sensors ms).
  pose proof (length_all_sensors sensors 0 ms) as Hlen.
  unfold list_call, module__get_sensors_list, lazy_init_sensors_list, lazy_init_modules.
  init_unfold. simpl.
  destruct (count_sensors_run get_sensors_list sensors Hsensors ms (Some ms) (Some vs)
    (mkGlobals initial_table None None None) 0 true w) as (w1 & ->); [done|lia|].
  simpl. rw Z.add_0_l -Hlen Nat2Z.id.
  destruct (copy_modules_run get_sensors_list sensors (opened_version opens) Hsensors ms 0 0
    (junk_sensor <$> seq 0 (length (all_sensors sensors 0 ms))) (Some ms) vs initial_table None
    (Some ((fun i => set_empty (junk_batch i) true) <$> seq 0 (length (all_sensors sensors 0 ms))))
    (Some (replicate (length (all_sensors sensors 0 ms)) 0))
    (Z.of_nat (length (all_sensors sensors 0 ms))) true w1) as (w2 & ->);
    [done|apply initial_table_wf|simpl; lia|lia|rw length_fmap length_seq; ilia|lia|lia|].
  exists w2. rw write_at_all; [done|].
  unfold sensor_entries. by rw length_imap length_fmap length_seq.
Qed.

(** The globals the initialisation leaves satisfy the invariant of the control
    calls. *)
Lemma initialised_globals_ok ms :
  sensor_total sensors ms < INT_MAX ->
  globals_ok (sensor_total sensors ms) (initialised_globals ms).
Proof.
  intros Htotal. pose proof (length_all_sensors sensors 0 ms) as Hlen.
  destruct (next_assign initial_table (sensor_full <$> all_sensors sensors 0 ms))
    as [Hwf Hn]; [apply initial_table_wf|rw length_fmap; simpl; lia|].
  rw length_fmap /= in Hn. constructor; simpl.
  - done.
  - lia.
  - eexists. split; [done|]. by rw length_replicate.
  - eexists. split; [done|]. by rw length_fmap length_seq.
  - intros el bl i e b [= <-] [= <-] He _ Hne.
    by apply lookup_replicate in He as [-> _].
Qed.

(** The entry of the list, and the full handle, of each sensor. *)
Lemma initialised_sensor ms k mi m sn :
  sensor_total sensors ms < INT_MAX ->
  all_sensors sensors 0 ms !! k = Some (mi, m, sn) ->
  global_to_full (g_table (initialised_globals ms)) !! (Z.of_nat k + 1) =
    Some (mkFull mi (s_handle sn)) /\
  sensor_entries (opened_version opens) 1 (all_sensors sensors 0 ms) !! k =
    Some (fix_sensor_flags (dev_version (opens m).2) (set_handle sn (Z.of_nat k + 1))).
Proof.
  intros Htotal Hk. pose proof (length_all_sensors sensors 0 ms) as Hlen. split.
  - unfold initialised_globals. simpl.
    destruct (assign_handles initial_table (sensor_full <$> all_sensors sensors 0 ms))
      as [gs t'] eqn:Ha.
    apply assign_handles_spec in Ha as (_ & _ & _ & _ & _ & Hnew);
      [|apply initial_table_wf|rw length_fmap; simpl; lia].
    rw Z.add_comm. apply (Hnew k). by rw list_lookup_fmap Hk.
  - rw lookup_sensor_entries Hk /=. unfold sensor_entry, opened_version. simpl.
    by rw Z.add_comm.
Qed.

(** The handle of a listed sensor leads to its module's device. *)
Lemma listed_sensor_route ms k mi m sn :
  (forall m, m ∈ ms -> (opens m).1 = 0) -> sensor_total sensors ms < INT_MAX ->
  all_sensors sensors 0 ms !! k = Some (mi, m, sn) -> 0 <= s_handle sn ->
  ms !! Z.to_nat mi = Some m /\
  route (mkCtx proxy (opened_devices opens ms)) (g_table (initialised_globals ms))
    (Z.of_nat k + 1) = Some ((opens m).2, s_handle sn).
Proof.
  intros Hall Htotal Hk Hh. destruct (initialised_sensor ms k mi m sn Htotal Hk) as [Hf _].
  apply lookup_all_sensors in Hk as (Hmi & Hm & _). rw Z.sub_0_r in Hm. split; [done|].
  unfold route. rw Hf /= (opened_devices_all opens ms Hall).
  destruct (Z.leb_spec 0 mi); [|lia]. destruct (Z.leb_spec 0 (s_handle sn)); [|lia].
  simpl. by rw list_lookup_fmap Hm.
Qed.

(** C9: opening the HAL and then asking for its sensors, with a configuration
    whose modules all open, returns the number of all sub-HAL sensors and a
    list whose k-th entry is the k-th sensor in module order, with handle k+1
    and the flags its sub-HAL's version calls for; the handle of each entry is
    routed to the device of the module the sensor came from, with the sensor's
    own handle; the globals satisfy the invariant the control calls rely on,
    and the queue mutex, held since the open, is released. *)
Theorem init_builds_list paths (w : W) :
  static_modules -> get_so_paths read_file = Some paths ->
  let ms := load_modules load_library paths in
  (forall m, m ∈ ms -> (opens m).1 = 0) ->
  sensor_total sensors ms < INT_MAX -> Z.of_nat (length ms) <= INT_MAX ->
  exists ctx s1 lst s2,
  open_call (loaded_state w) = Done (ctx, s1) /\
  list_call s1 = Done ((sensor_total sensors ms, Some lst), s2) /\
  queue_mutex s1 = true /\ queue_mutex s2 = false /\
  globals_ok (sensor_total sensors ms) (in_globals s2) /\
  Z.of_nat (length lst) = sensor_total sensors ms /\
  (forall k mi m sn, all_sensors sensors 0 ms !! k = Some (mi, m, sn) ->
     lst !! k =
       Some (fix_sensor_flags (dev_version (opens m).2) (set_handle sn (Z.of_nat k + 1))) /\
     (0 <= s_handle sn ->
      route ctx (g_table (in_globals s2)) (Z.of_nat k + 1) =
        Some ((opens m).2, s_handle sn))).
Proof.
  intros Hst Hpaths ms Hall Htotal Hms.
  destruct (open_call_run paths w Hst Hpaths) as (vs & w1 & Hopen & Hvs).
  fold ms in Hopen, Hvs.
  destruct (list_call_run ms vs (-1) w1 Hst) as (w2 & Hlist); [|done|done|].
  { intros m Hm _. apply Hvs. split_and!; [done|done|by apply Hall]. }
  do 4 eexists. split; [exact Hopen|]. split; [exact Hlist|].
  split_and!; [done|done|by apply initialised_globals_ok|..].
  { unfold sensor_entries. by rw length_imap length_all_sensors. }
  intros k mi m sn Hk. split; [by apply (initialised_sensor ms k mi m sn)|].
  intros Hh. by apply (listed_sensor_route ms k mi m sn).
Qed.

(** Whatever opens, a listed sensor's handle leads to the device at its module's
    place among the devices. *)
Lemma listed_sensor_place ms k mi m sn :
  sensor_total sensors ms < INT_MAX ->
  all_sensors sensors 0 ms !! k = Some (mi, m, sn) -> 0 <= s_handle sn ->
  route (mkCtx proxy (opened_devices opens ms)) (g_table (initialised_globals ms))
    (Z.of_nat k + 1) =
    (fun d => (d, s_handle sn)) <$> opened_devices opens ms !! Z.to_nat mi.
Proof.
  intros Htotal Hk Hh. destruct (initialised_sensor ms k mi m sn Htotal Hk) as [Hf _].
  apply lookup_all_sensors in Hk as (Hmi & _).
  unfold route. rw Hf /=.
  destruct (Z.leb_spec 0 mi); [|lia]. destruct (Z.leb_spec 0 (s_handle sn)); [|lia].
  simpl. by destruct (opened_devices opens ms !! Z.to_nat mi).
Qed.

Lemma opened_devices_app ms1 ms2 :
  opened_devices opens (ms1 ++ ms2) = opened_devices opens ms1 ++ opened_devices opens ms2.
Proof. apply omap_app. Qed.

(** C29: a module that fails to open.  Its device is missing from the devices,
    so they are no longer parallel to the modules.  When a module that failed
    has sensors, asking for the list has no defined outcome ([unordered_map::at]
    throws).  Otherwise the initialisation succeeds and lists the sensors of all
    the others, with [m0] the first module that failed: the handles of the
    modules before it are routed to their own devices; those of a module after
    it to the device at its place among the later devices, one too far: when it
    was the only failure, to the device of the next module, with the local
    handle of its own, and for the last module to no device. *)
Theorem failed_open_misroutes paths front m0 back (w : W) :
  static_modules -> get_so_paths read_file = Some paths ->
  let ms := load_modules load_library paths in
  ms = front ++ m0 :: back ->
  (forall m, m ∈ front -> (opens m).1 = 0) -> (opens m0).1 <> 0 ->
  sensor_total sensors ms < INT_MAX -> Z.of_nat (length ms) <= INT_MAX ->
  exists ctx s1, open_call (loaded_state w) = Done (ctx, s1) /\
  (forall m, m ∈ ms -> (opens m).1 <> 0 -> sensors m <> [] -> list_call s1 = Crash) /\
  ((forall m, m ∈ ms -> sensors m <> [] -> (opens m).1 = 0) ->
   exists lst s2,
     list_call s1 = Done ((sensor_total sensors ms, Some lst), s2) /\
     forall k mi m sn,
       all_sensors sensors 0 ms !! k = Some (mi, m, sn) -> 0 <= s_handle sn ->
       is_Some (lst !! k) /\
       let routed := route ctx (g_table (in_globals s2)) (Z.of_nat k + 1) in
       let n := Z.of_nat (length front) in
       (mi < n -> routed = Some ((opens m).2, s_handle sn)) /\
       (n <= mi -> n < mi /\
          routed = (fun d => (d, s_handle sn)) <$> opened_devices opens back !! Z.to_nat (mi - n)) /\
       (forall j : nat, mi = n + 1 + Z.of_nat j -> (forall m', m' ∈ back -> (opens m').1 = 0) ->
          back !! j = Some m /\
          routed = (fun m' => ((opens m').2, s_handle sn)) <$> back !! S j)).
Proof.
  intros Hst Hpaths ms Hms Hfront Hf Htotal Hlenms.
  destruct (open_call_run paths w Hst Hpaths) as (vs & w1 & Hopen & Hvs). fold ms in Hopen, Hvs.
  do 2 eexists. split; [exact Hopen|]. split.
  - intros m Hm Hfm Hne. apply (list_call_missing ms _ m); [done|done|done| |lia].
    simpl. destruct (vs !! m) as [v|] eqn:Hv; [|done]. by apply Hvs in Hv as (_ & _ & ?).
  - intros Hopened.
    destruct (list_call_run ms vs (-1) w1 Hst) as (w2 & Hlist); [|done|done|].
    { intros m Hm Hne. apply Hvs. split_and!; [done|done|by apply Hopened]. }
    do 2 eexists. split; [exact Hlist|]. intros k mi m sn Hk Hh.
    destruct (initialised_sensor ms k mi m sn Htotal Hk) as [_ Hl].
    split; [by eexists|]. cbn zeta. cbn [in_globals].
    rw (listed_sensor_place ms k mi m sn Htotal Hk Hh).
    destruct (lookup_all_sensors _ _ _ _ _ _ _ Hk) as (Hmi & Hm & Hsn). rw Z.sub_0_r in Hm.
    assert (opened_devices opens ms =
      ((fun m => (opens m).2) <$> front) ++ opened_devices opens back) as Hdevs.
    { rw Hms opened_devices_app (opened_devices_all opens front Hfront) opened_devices_cons.
      by destruct (Z.eqb_spec (opens m0).1 0). }
    rw Hms in Hm. rw Hdevs.
    assert (Z.of_nat (length front) <= mi -> Z.of_nat (length front) < mi) as Hafter.
    { intros Hge. destruct (Z.eq_dec mi (Z.of_nat (length front))) as [->|]; [|lia].
      rw Nat2Z.id list_lookup_middle in Hm; [|done]. injection Hm as <-.
      exfalso. apply Hf, Hopened; [rw Hms; set_solver|]. intros Hnil. rw Hnil in Hsn.
      by apply elem_of_nil in Hsn. }
    assert (Z.of_nat (length front) <= mi -> forall back' : list hw_device_t,
      (((fun m => (opens m).2) <$> front) ++ back') !! Z.to_nat mi =
        back' !! Z.to_nat (mi - Z.of_nat (length front))) as Hskip.
    { intros Hge back'. rw lookup_app_r; [|rw length_fmap; lia]. rw length_fmap.
      f_equal. lia. }
    split; [|split].
    + intros Hlt. rw lookup_app_l; [|rw length_fmap; lia]. rw list_lookup_fmap.
      rw lookup_app_l in Hm; [|lia]. by rw Hm.
    + intros Hge. split; [by apply Hafter|]. by rw Hskip.
    + intros j -> Hback. rw lookup_app_r in Hm; [|lia].
      replace (Z.to_nat _ - length front)%nat with (S j) in Hm by lia. split; [done|].
      rw Hskip; [|lia]. rw (opened_devices_all opens back Hback) list_lookup_fmap.
      replace (Z.to_nat _) with (S j) by lia. by destruct (back !! S j).
Qed.

(** C28: the calls the initialisation cannot take.  Without a configuration
    file both entry points pass a null pointer to [strcmp]; asking for the
    sensors before any [open] dereferences the null version map as soon as a
    module has a sensor; and an [open] after the initialisation is complete
    leaves the queue mutex held for good, since the list is not built again
    and only building it releases the mutex: the next [open] blocks forever. *)
Theorem init_order_required paths s (w : W) :
  static_modules -> get_so_paths read_file = Some paths ->
  let ms := load_modules load_library paths in
  sensor_total sensors ms <= INT_MAX ->
  (forall rf, get_so_paths rf = None ->
     open_sensors rf load_library open_module proxy (loaded_state w) = Crash /\
     module__get_sensors_list rf load_library get_sensors_list junk_sensor junk_batch
       (loaded_state w) = Crash) /\
  ((exists m, m ∈ ms /\ sensors m <> []) -> list_call (loaded_state w) = Crash) /\
  (is_Some (global_sensors_list (in_globals s)) -> is_Some (sub_hw_modules s) ->
   queue_mutex s = false ->
   exists ctx s1 r, open_call s = Done (ctx, s1) /\ list_call s1 = Done (r, s1) /\
     open_call s1 = Deadlock).
Proof.
  intros Hst Hpaths ms Htotal. split_and!.
  - intros rf Hrf. unfold open_sensors, module__get_sensors_list, lazy_init_sensors_list,
      lazy_init_modules, loaded_state. init_unfold. simpl. by rw Hrf.
  - intros (m & Hm & Hne).
    unfold list_call, module__get_sensors_list, lazy_init_sensors_list, lazy_init_modules,
      loaded_state.
    init_unfold. simpl. rw Hpaths. simpl. fold ms.
    destruct (count_sensors_run get_sensors_list sensors (proj1 Hst) ms (Some ms) None
      (mkGlobals initial_table None None None) 0 false w) as (w2 & ->); [done|lia|].
    simpl. by rw (copy_modules_missing get_sensors_list sensors (proj1 Hst) m).
  - intros [lst Hlst] [l Hl] Hmx. destruct s as [sm sv [t gl bl el] c mx w0]. simpl in *. subst.
    unfold open_call, list_call, open_sensors, module__get_sensors_list, lazy_init_sensors_list,
      lazy_init_modules. init_unfold. simpl.
    destruct (open_modules_run open_module opens (proj2 Hst) l [] (Some l) ∅
      (mkGlobals t (Some lst) bl el) c true w0) as (vs & w1 & -> & _); [done|].
    do 3 eexists. split; [done|]. by simpl.
Qed.
End InitTheorems.

(** ** Witnesses *)

Definition two_paths (path : string) : option string :=
  if decide (path = MULTI_HAL_CONFIG_FILE_PATH)
  then Some ("/a.so" +:+ String newline "/b.so") else None.

Definition two_libraries (path : string) : dl_result :=
  if decide (path = "/a.so"%string) then DlModule 1
  else if decide (path = "/b.so"%string) then DlModule 2 else DlOpenFailed.

Definition one_sensor : sensor_t := mkSensor 7 8 0 10 0 [].

Definition sensors_of (with_a : bool) (m : Z) : list sensor_t :=
  if m =? 2 then [one_sensor] else if with_a then [one_sensor] else [].

Definition opens_of (result_a : Z) (m : Z) : Z * hw_device_t :=
  if m =? 2 then (0, mkDevice 20 16777216) else (result_a, mkDevice 10 16777216).

Definition list_of with_a (m : Z) (w : unit) : list sensor_t * unit := (sensors_of with_a m, w).
Definition open_of result_a (m : Z) (w : unit) : (Z * hw_device_t) * unit :=
  (opens_of result_a m, w).

Lemma init_builds_list_witness :
  sensor_total (sensors_of true) [1; 2] < INT_MAX /\
  exists ctx s1 lst s2,
  open_call two_paths two_libraries (open_of 0) 5 (loaded_state tt) = Done (ctx, s1) /\
  @list_call android9_sensors_h unit two_paths two_libraries (list_of true) (fun _ => one_sensor)
    (fun _ => mkBatch false 0 0 0 0) s1 = Done ((2, Some lst), s2) /\
  lst = [mkSensor 1 8 3 10 0 []; mkSensor 2 8 3 10 0 []] /\
  route ctx (g_table (in_globals s2)) 2 = Some (mkDevice 20 16777216, 7).
Proof.
  split; [reflexivity|].
  destruct (@init_builds_list android9_sensors_h unit two_paths two_libraries (list_of true)
    (open_of 0) (fun _ => one_sensor) (fun _ => mkBatch false 0 0 0 0) 5 (sensors_of true)
    (opens_of 0) ["/a.so"; "/b.so"]%string tt)
    as (ctx & s1 & lst & s2 & Hopen & Hlist & _ & _ & _ & Hlen & Hk).
  - split; intros; reflexivity.
  - reflexivity.
  - intros m Hm. apply elem_of_cons in Hm as [->|Hm]; [reflexivity|].
    apply list_elem_of_singleton in Hm as ->. reflexivity.
  - reflexivity.
  - vm_compute. discriminate.
  - exists ctx, s1, lst, s2. split; [exact Hopen|]. split; [exact Hlist|]. split.
    + destruct (Hk 0%nat 0 1 one_sensor eq_refl) as [H0 _].
      destruct (Hk 1%nat 1 2 one_sensor eq_refl) as [H1 _].
      destruct lst as [|x0 [|x1 [|x2 lst]]]; [discriminate..| |].
      2: { exfalso. change (sensor_total _ _) with 2 in Hlen. simpl in Hlen. lia. }
      injection H0 as ->. injection H1 as ->. reflexivity.
    + apply (Hk 1%nat 1 2 one_sensor eq_refl). vm_compute. discriminate.
Defined.

(** Three modules, of which the first fails to open and has no sensor. *)
Definition three_paths (path : string) : option string :=
  if decide (path = MULTI_HAL_CONFIG_FILE_PATH)
  then Some ("/a.so" +:+ String newline ("/b.so" +:+ String newline "/c.so")) else None.

Definition three_libraries (path : string) : dl_result :=
  if decide (path = "/c.so"%string) then DlModule 3 else two_libraries path.

Definition sensors_of_3 (m : Z) : list sensor_t := if m =? 1 then [] else [one_sensor].
Definition opens_of_3 (m : Z) : Z * hw_device_t :=
  (if m =? 1 then 1 else 0, mkDevice (10 * m) 16777216).

Lemma failed_open_misroutes_witness :
  exists ctx s1 lst s2,
  open_call three_paths three_libraries (fun m (w : unit) => (opens_of_3 m, w)) 5 (loaded_state tt) =
    Done (ctx, s1) /\
  @list_call android9_sensors_h unit three_paths three_libraries
    (fun m (w : unit) => (sensors_of_3 m, w))
    (fun _ => one_sensor) (fun _ => mkBatch false 0 0 0 0) s1 = Done ((2, Some lst), s2) /\
  route ctx (g_table (in_globals s2)) 1 = Some (mkDevice 30 16777216, 7) /\
  route ctx (g_table (in_globals s2)) 2 = None.
Proof.
  destruct (@failed_open_misroutes android9_sensors_h unit three_paths three_libraries
    (fun m (w : unit) => (sensors_of_3 m, w)) (fun m (w : unit) => (opens_of_3 m, w))
    (fun _ => one_sensor) (fun _ => mkBatch false 0 0 0 0) 5 sensors_of_3
    opens_of_3 ["/a.so"; "/b.so"; "/c.so"]%string [] 1 [2; 3] tt)
    as (ctx & s1 & Hopen & _ & Hrest).
  - split; intros; reflexivity.
  - reflexivity.
  - reflexivity.
  - intros m Hm. by apply elem_of_nil in Hm.
  - discriminate.
  - reflexivity.
  - vm_compute. discriminate.
  - destruct Hrest as (lst & s2 & Hlist & Hroute).
    { intros m Hm Hne. change (m ∈ [1; 2; 3]) in Hm.
      repeat (apply elem_of_cons in Hm as [->|Hm]; [by try destruct (Hne eq_refl)|]).
      by apply elem_of_nil in Hm. }
    exists ctx, s1, lst, s2. split; [exact Hopen|]. split; [exact Hlist|].
    destruct (Hroute 0%nat 1 2 one_sensor eq_refl ltac:(simpl; lia)) as (_ & _ & _ & Hb).
    destruct (Hroute 1%nat 2 3 one_sensor eq_refl ltac:(simpl; lia)) as (_ & _ & _ & Hc).
    assert (forall m', m' ∈ [2; 3] -> (opens_of_3 m').1 = 0) as Hopens.
    { intros m Hm. repeat (apply elem_of_cons in Hm as [->|Hm]; [reflexivity|]).
      by apply elem_of_nil in Hm. }
    split; [exact (proj2 (Hb 0%nat eq_refl Hopens))|exact (proj2 (Hc 1%nat eq_refl Hopens))].
Defined.

Lemma init_order_required_witness :
  @list_call android9_sensors_h unit two_paths two_libraries (list_of true)
    (fun _ => one_sensor) (fun _ => mkBatch false 0 0 0 0) (loaded_state tt) = Crash /\
  exists ctx s1 r,
  let s := mkInit (Some [1; 2]) None
    (mkGlobals initial_table (Some [one_sensor]) None None) 1 false tt in
  open_call two_paths two_libraries (open_of 0) 5 s = Done (ctx, s1) /\
  @list_call android9_sensors_h unit two_paths two_libraries (list_of true)
    (fun _ => one_sensor) (fun _ => mkBatch false 0 0 0 0) s1 = Done (r, s1) /\
  open_call two_paths two_libraries (open_of 0) 5 s1 = Deadlock.
Proof.
  destruct (@init_order_required android9_sensors_h unit two_paths two_libraries (list_of true)
    (open_of 0) (fun _ => one_sensor) (fun _ => mkBatch false 0 0 0 0) 5 (sensors_of true)
    (opens_of 0) ["/a.so"; "/b.so"]%string
    (mkInit (Some [1; 2]) None (mkGlobals initial_table (Some [one_sensor]) None None) 1 false tt)
    tt) as (_ & Hbefore & Hreopen).
  - split; intros; reflexivity.
  - reflexivity.
  - vm_compute. discriminate.
  - split.
    + apply Hbefore. exists 2. split; [|discriminate].
      right. apply list_elem_of_singleton. reflexivity.
    + apply Hreopen; [by eexists|by eexists|reflexivity].
Defined.
