(* ===== verification/HalModules.v ===== *)
(** * The HALs' entry points

    A HAL is reached through a table of function pointers: the module
    descriptor [HAL_MODULE_INFO_SYM] of sensors/multihal.cpp, power/power.c and
    thermal/thermal.c, and for the sensors the device that [open_sensors] fills
    in.  A function pointer is the name of a function of the source; calling one
    runs the function's model, and calling one at another type is undefined.

    The numbers and names of hardware/hardware.h and the HALs' headers are the
    parameters of the class [HardwareHeader]. *)
From S2P Require Import Prelude Handles SensorsHal Dispatch SensorInit.

Class HardwareHeader := {
  HARDWARE_MODULE_TAG : Z;
  HARDWARE_DEVICE_TAG : Z;
  HARDWARE_HAL_API_VERSION : Z;
  SENSORS_HARDWARE_MODULE_ID : string;
  POWER_HARDWARE_MODULE_ID : string;
  POWER_MODULE_API_VERSION_0_2 : Z;
  THERMAL_HARDWARE_MODULE_ID : string;
  THERMAL_HARDWARE_MODULE_API_VERSION_0_1 : Z;
}.

(** The functions that the tables point to. *)
Inductive function :=
| F_open_sensors
| F_module__get_sensors_list
| F_module__set_operation_mode
| F_device__close
| F_device__activate
| F_device__setDelay
| F_device__poll
| F_device__batch
| F_device__flush
| F_device__inject_sensor_data
| F_power_init
| F_power_set_interactive
| F_power_hint
| F_get_temperatures
| F_get_cpu_usages
| F_get_cooling_devices.

#[export] Instance function_eq_dec : EqDecision function.
Proof. solve_decision. Defined.

(** [struct hw_module_t]; [version_major] and [version_minor] are its older
    names for the two versions.  [methods->open] is [None] when it is null. *)
Record hw_module_t := mkModule {
  m_tag : Z;
  module_api_version : Z;
  hal_api_version : Z;
  m_id : string;
  m_name : string;
  m_author : string;
  methods_open : option function;
}.

(** ** The descriptors *)

Record sensors_module_t := mkSensorsModule {
  sensors_common : hw_module_t;
  get_sensors_list : option function;
  set_operation_mode : option function;
}.

Record power_module := mkPowerModule {
  power_common : hw_module_t;
  power_init_ptr : option function;
  setInteractive : option function;
  powerHint : option function;
}.

Record thermal_module_t := mkThermalModule {
  thermal_common : hw_module_t;
  getTemperatures : option function;
  getCpuUsages : option function;
  getCoolingDevices : option function;
}.

Section Descriptors.
Context `{HardwareHeader}.

Definition sensors_module_methods : option function := Some F_open_sensors.

Definition sensors_HAL_MODULE_INFO_SYM : sensors_module_t := {|
  sensors_common := {|
    m_tag := HARDWARE_MODULE_TAG; module_api_version := 1; hal_api_version := 1;
    m_id := SENSORS_HARDWARE_MODULE_ID; m_name := "MultiHal Sensor Module";
    m_author := "Google, Inc"; methods_open := sensors_module_methods |};
  get_sensors_list := Some F_module__get_sensors_list;
  set_operation_mode := Some F_module__set_operation_mode |}.

Definition get_multi_hal_module_info : sensors_module_t := sensors_HAL_MODULE_INFO_SYM.

Definition power_module_methods : option function := None.

Definition power_HAL_MODULE_INFO_SYM : power_module := {|
  power_common := {|
    m_tag := HARDWARE_MODULE_TAG; module_api_version := POWER_MODULE_API_VERSION_0_2;
    hal_api_version := HARDWARE_HAL_API_VERSION; m_id := POWER_HARDWARE_MODULE_ID;
    m_name := "HiSilicon hi3635 Power HAL"; m_author := "The LineageOS Project";
    methods_open := power_module_methods |};
  power_init_ptr := Some F_power_init;
  setInteractive := Some F_power_set_interactive;
  powerHint := Some F_power_hint |}.

Definition thermal_module_methods : option function := None.

Definition thermal_HAL_MODULE_INFO_SYM : thermal_module_t := {|
  thermal_common := {|
    m_tag := HARDWARE_MODULE_TAG;
    module_api_version := THERMAL_HARDWARE_MODULE_API_VERSION_0_1;
    hal_api_version := HARDWARE_HAL_API_VERSION; m_id := THERMAL_HARDWARE_MODULE_ID;
    m_name := "HiSilicon hi3635 Thermal HAL"; m_author := "The LineageOS Project";
    methods_open := thermal_module_methods |};
  getTemperatures := Some F_get_temperatures;
  getCpuUsages := Some F_get_cpu_usages;
  getCoolingDevices := Some F_get_cooling_devices |}.
End Descriptors.

(** ** The sensors device *)

(** [struct sensors_poll_device_1]. *)
Record sensors_poll_device_1 := mkDevice1 {
  d_tag : Z;
  d_version : Z;
  d_module : Z;           (* the address of the module *)
  p_close : option function;
  p_activate : option function;
  p_setDelay : option function;
  p_poll : option function;
  p_batch : option function;
  p_flush : option function;
  p_inject_sensor_data : option function;
}.

(** What [open_sensors] makes of its zeroed [proxy_device]. *)
Definition open_sensors_device `{HardwareHeader} `{SensorsHeader} (hw_module : Z) :
    sensors_poll_device_1 := {|
  d_tag := HARDWARE_DEVICE_TAG;
  d_version := SENSORS_DEVICE_API_VERSION_1_4;
  d_module := hw_module;
  p_close := Some F_device__close;
  p_activate := Some F_device__activate;
  p_setDelay := Some F_device__setDelay;
  p_poll := Some F_device__poll;
  p_batch := Some F_device__batch;
  p_flush := Some F_device__flush;
  p_inject_sensor_data := Some F_device__inject_sensor_data |}.

Section FrameworkCalls.
Context `{SensorsHeader} {W : Type} (sub_hal : sub_call -> W -> Z * W).

(** The pointer the framework calls for each control call. *)
Definition slot (dev : sensors_poll_device_1) (c : control_call) : option function :=
  match c with
  | Activate _ _ => p_activate dev
  | SetDelay _ _ => p_setDelay dev
  | Batch _ _ _ _ => p_batch dev
  | Flush _ => p_flush dev
  | Inject _ => p_inject_sensor_data dev
  end.

(** Calling a function with the arguments of a control call. *)
Definition call_function (f : function) (ctx : sensors_poll_context_t) (c : control_call) :
    M (W := W) Z :=
  match f, c with
  | F_device__activate, Activate handle enabled => device__activate sub_hal ctx handle enabled
  | F_device__setDelay, SetDelay handle ns => device__setDelay sub_hal ctx handle ns
  | F_device__batch, Batch handle flags period_ns timeout =>
      device__batch sub_hal ctx handle flags period_ns timeout
  | F_device__flush, Flush handle => device__flush sub_hal ctx handle
  | F_device__inject_sensor_data, Inject data => device__inject_sensor_data sub_hal ctx data
  | _, _ => defined None
  end.

(** A control call through the device; a null pointer has no defined outcome. *)
Definition framework_call (dev : sensors_poll_device_1) (ctx : sensors_poll_context_t)
    (c : control_call) : M (W := W) Z :=
  f ← defined (slot dev c);
  call_function f ctx c.

(** The sub-HAL's call for a control call about a sensor with that local handle. *)
Definition sub_call_of (c : control_call) (d : hw_device_t) (l proxy : Z) : sub_call :=
  match c with
  | Activate _ enabled => CallActivate d l enabled
  | SetDelay _ ns => CallSetDelay d l ns
  | Batch _ flags period_ns timeout => CallBatch d l flags period_ns timeout
  | Flush _ => CallFlush d l
  | Inject data => CallInject d proxy data
  end.

(** The API level a sub-HAL needs for it. *)
Definition call_level (c : control_call) : Z :=
  match c with
  | Inject _ => SENSORS_DEVICE_API_VERSION_1_4
  | _ => SENSORS_DEVICE_API_VERSION_1_1
  end.
End FrameworkCalls.

(** * Theorems *)

Section Calls.
Context `{HardwareHeader} `{SensorsHeader} `{!SensorsHeaderLaws} {W : Type}.
Context (sub_hal : sub_call -> W -> Z * W).

(** Every pointer of the device is that of its own call. *)
Lemma framework_call_control hw_module ctx c :
  framework_call sub_hal (open_sensors_device hw_module) ctx c = control sub_hal ctx c.
Proof. by destruct c. Qed.

(** The sub-HAL's call, or a refusal when the local handle is no handle. *)
Definition forwarded ctx c d l (st : hal_globals * W) : option (Z * (hal_globals * W)) :=
  if 0 <=? l then call_sub sub_hal (sub_call_of c d l (proxy_device ctx)) st
  else Some (- EINVAL, st).

Lemma device_call ctx c h w d :
  Z.of_nat (length (sub_hw_devices ctx)) <= INT_MAX ->
  get_v0_device_by_handle ctx (g_table h) (control_handle c) = Some d ->
  let sent := forwarded ctx c d (get_local_handle (g_table h) (control_handle c)) (h, w) in
  (call_level c <= dev_version d -> control sub_hal ctx c (h, w) = sent) /\
  (dev_version d < call_level c ->
   match c with
   | SetDelay _ _ => control sub_hal ctx c (h, w) = sent
   | Flush _ | Inject _ => control sub_hal ctx c (h, w) = Some (- EINVAL, (h, w))
   | Activate _ _ | Batch _ _ _ _ => True
   end).
Proof.
  intros Hlen Hd sent. pose proof api_levels_ordered.
  pose proof (route_lookups ctx (g_table h) (control_handle c) Hlen) as Hr. rw Hd in Hr.
  assert (match c with Inject _ => False | _ => True end \/ call_level c <= dev_version d ->
    control_spec sub_hal ctx (g_table h) c (h, w) = sent) as Hspec.
  { intros Hc. subst sent. unfold forwarded. destruct c; simpl in *; rw Hr;
      destruct (0 <=? _); try done.
    destruct Hc as [?|Hc]; [done|]. by rw (proj2 (Z.leb_le _ _) Hc). }
  split; intros Hv.
  - rw (control_meets_spec sub_hal ctx c h w d); [|done|done|]; [by apply Hspec; right|].
    destruct c; simpl in Hv; lia.
  - destruct (Z.lt_ge_cases (dev_version d) SENSORS_DEVICE_API_VERSION_1_1) as [Hold|Hnew].
    + assert (not_new ctx (g_table h) (control_handle c)) as Hnn
        by (intros d' Hd'; rw Hd in Hd'; by simplify_eq).
      pose proof (control_old sub_hal ctx c h w Hlen Hnn) as Hc.
      destruct c; try done. rw Hc. apply Hspec. by left.
    + destruct c; try done; try (simpl in Hv; lia).
      rw (control_meets_spec sub_hal ctx _ h w d); [|done..]. simpl in *. rw Hr.
      destruct (0 <=? _); [|done]. by rw (proj2 (Z.leb_gt _ _) Hv).
Qed.

(** What a listed handle leads to, after the initialisation. *)
Lemma listed_device junk_batch proxy sensors opens ms k mi m sn :
  (forall m, m ∈ ms -> (opens m).1 = 0) -> sensor_total sensors ms < INT_MAX ->
  Z.of_nat (length ms) <= INT_MAX ->
  all_sensors sensors 0 ms !! k = Some (mi, m, sn) ->
  let ctx := mkCtx proxy (opened_devices opens ms) in
  let t := g_table (initialised_globals junk_batch sensors opens ms) in
  get_v0_device_by_handle ctx t (Z.of_nat k + 1) = Some (opens m).2 /\
  get_local_handle t (Z.of_nat k + 1) = s_handle sn.
Proof.
  intros Hall Htotal Hms Hk ctx t.
  destruct (initialised_sensor junk_batch sensors opens ms k mi m sn Htotal Hk) as [Hf _].
  fold t in Hf. apply lookup_all_sensors in Hk as (Hmi & Hm & _). rw Z.sub_0_r in Hm.
  pose proof (lookup_lt_Some _ _ _ Hm).
  unfold get_v0_device_by_handle, get_local_handle, get_module_index. rw Hf. simpl. split; [|done].
  rw (opened_devices_all opens ms Hall) length_fmap i32_id; [|ilia].
  destruct (Z.ltb_spec mi 0), (Z.leb_spec (Z.of_nat (length ms)) mi); try lia. simpl.
  apply arr_get_Some. split; [by rw length_fmap|]. by rw list_lookup_fmap Hm.
Qed.
End Calls.

(** C11: the framework's calls, from the descriptor to the sub-HALs.  After the
    multi-HAL's module has been opened and asked for its sensors, with modules
    that all open, every entry of the list belongs to a sensor of a sub-HAL.  A
    control call the framework makes with that entry's handle, through the
    opened device's function pointers, is the corresponding call of that sub-HAL
    with the sub-HAL's own handle and the other arguments unchanged (an injected
    event is passed on as it is), or [-EINVAL] when the sub-HAL's own handle is
    negative: always for setDelay, and for the other calls when the sub-HAL has
    the API level they need.  An older sub-HAL is not asked to flush or inject,
    which return [-EINVAL]; its activate and batch are those of C8 and C26.  The
    device reports an API level that lets the framework make all the calls. *)
Theorem framework_calls_reach_sub_hals `{HardwareHeader} `{SensorsHeader} `{!SensorsHeaderLaws}
    {W W' : Type} read_file load_library gsl open_module junk_sensor junk_batch proxy
    sensors opens paths (w : W) (sub_hal : sub_call -> W' -> Z * W') hw_module :
  static_modules gsl open_module sensors opens ->
  get_so_paths read_file = Some paths ->
  let ms := load_modules load_library paths in
  (forall m, m ∈ ms -> (opens m).1 = 0) ->
  sensor_total sensors ms < INT_MAX -> Z.of_nat (length ms) <= INT_MAX ->
  let dev := open_sensors_device hw_module in
  (forall c, call_level c <= d_version dev) /\
  exists ctx s1 lst s2,
  open_call read_file load_library open_module proxy (loaded_state w) = Done (ctx, s1) /\
  list_call read_file load_library gsl junk_sensor junk_batch s1 =
    Done ((sensor_total sensors ms, Some lst), s2) /\
  forall k entry, lst !! k = Some entry ->
  exists mi m sn, all_sensors sensors 0 ms !! k = Some (mi, m, sn) /\
  forall c w', control_handle c = s_handle entry ->
    let st := (in_globals s2, w') in
    let sent :=
      if 0 <=? s_handle sn
      then call_sub sub_hal (sub_call_of c (opens m).2 (s_handle sn) proxy) st
      else Some (- EINVAL, st) in
    (call_level c <= dev_version (opens m).2 -> framework_call sub_hal dev ctx c st = sent) /\
    (dev_version (opens m).2 < call_level c ->
     match c with
     | SetDelay _ _ => framework_call sub_hal dev ctx c st = sent
     | Flush _ | Inject _ => framework_call sub_hal dev ctx c st = Some (- EINVAL, st)
     | Activate _ _ | Batch _ _ _ _ => True
     end).
Proof.
  intros Hst Hpaths ms Hall Htotal Hms dev. split.
  { intros c. pose proof api_levels_ordered. destruct c; simpl; lia. }
  destruct (open_call_run read_file load_library gsl open_module proxy sensors opens
    paths w Hst Hpaths) as (vs & w1 & Hopen & Hvs).
  destruct (list_call_run read_file load_library gsl open_module junk_sensor junk_batch
    sensors opens ms vs (-1) w1 Hst) as (w2 & Hlist); [|done|done|].
  { intros m Hm _. apply Hvs. split_and!; [done|done|by apply Hall]. }
  do 4 eexists. split; [exact Hopen|]. split; [exact Hlist|]. intros k entry Hk.
  rw lookup_sensor_entries in Hk.
  destruct (all_sensors sensors 0 ms !! k) as [[[mi m] sn]|] eqn:Hs; [|done].
  injection Hk as <-. exists mi, m, sn. split; [done|]. intros c w' Hc.
  rw s_handle_entry Z.add_comm in Hc.
  destruct (listed_device junk_batch proxy sensors opens ms k mi m sn Hall Htotal Hms Hs)
    as [Hd Hl]. rw -Hc in Hd Hl.
  cbn zeta. cbn [in_globals]. rw framework_call_control.
  pose proof (device_call sub_hal (mkCtx proxy (opened_devices opens ms)) c
    (initialised_globals junk_batch sensors opens ms) w' (opens m).2) as Hcall.
  cbn zeta in Hcall. rw Hl in Hcall. apply Hcall; [|exact Hd].
  simpl. by rw (opened_devices_all opens _ Hall) length_fmap.
Qed.

(** Two modules with one sensor each: a request for handle 2 reaches the second
    module's device as a request for its sensor 7. *)
Definition hardware_h : HardwareHeader := {|
  HARDWARE_MODULE_TAG := 1213678676;            (* 'HWMT' *)
  HARDWARE_DEVICE_TAG := 1213682772;            (* 'HWDT' *)
  HARDWARE_HAL_API_VERSION := 256;
  SENSORS_HARDWARE_MODULE_ID := "sensors";
  POWER_HARDWARE_MODULE_ID := "power";
  POWER_MODULE_API_VERSION_0_2 := 2;
  THERMAL_HARDWARE_MODULE_ID := "thermal";
  THERMAL_HARDWARE_MODULE_API_VERSION_0_1 := 1;
|}.

Definition new_opens (m : Z) : Z * hw_device_t := (0, mkDevice (10 * m) 17039361).
Definition new_open (m : Z) (w : unit) : (Z * hw_device_t) * unit := (new_opens m, w).

Lemma framework_calls_reach_sub_hals_witness :
  let H1 := hardware_h in let H := android9_sensors_h in
  exists ctx s1 lst s2,
  open_call two_paths two_libraries new_open 5 (loaded_state tt) = Done (ctx, s1) /\
  list_call two_paths two_libraries (list_of true) (fun _ => one_sensor)
    (fun _ => mkBatch false 0 0 0 0) s1 = Done ((2, Some lst), s2) /\
  framework_call logging_hal (open_sensors_device 1) ctx (Batch 2 0 20000000 7)
      (in_globals s2, []) =
    Some (0, (in_globals s2, [CallBatch (mkDevice 20 17039361) 7 0 20000000 7])).
Proof.
  intros H1 H.
  destruct (@framework_calls_reach_sub_hals H1 H android9_laws unit (list sub_call) two_paths
    two_libraries (list_of true) new_open (fun _ => one_sensor)
    (fun _ => mkBatch false 0 0 0 0) 5 (sensors_of true) new_opens ["/a.so"; "/b.so"]%string tt
    logging_hal 1)
    as (_ & ctx & s1 & lst & s2 & Hopen & Hlist & Hk).
  - split; intros; reflexivity.
  - reflexivity.
  - intros m _. reflexivity.
  - reflexivity.
  - vm_compute. discriminate.
  - assert (lst !! 1%nat = Some (mkSensor 2 8 0 10 0 [])) as Hentry.
    { vm_compute in Hopen. injection Hopen as _ <-.
      vm_compute in Hlist. injection Hlist as <- _. reflexivity. }
    destruct (Hk _ _ Hentry) as (mi & m & sn & Hs & Hcall).
    vm_compute in Hs. injection Hs as <- <- <-.
    exists ctx, s1, lst, s2. split; [exact Hopen|]. split; [exact Hlist|].
    refine (eq_trans (proj1 (Hcall (Batch 2 0 20000000 7) [] eq_refl) _) _);
      [vm_compute; discriminate|reflexivity].
Defined.
