(* ===== verification/Executions.v ===== *)
(** * Infinite executions and weak fairness

    A run (Prelude.v) is finite.  Liveness is about executions that go on for
    ever: a state and a label for each moment, where a moment without a label
    is one in which nothing happens.  So a system that comes to rest has
    executions too.

    A thread is described by when it is ready and which steps are its moves.
    The scheduler is weakly fair to it when it never stays ready for ever
    without moving.  The rule [fair_leads_to] turns fairness into progress, and
    [measure_leads_to] repeats progress until a measure is used up. *)
From S2P Require Import Prelude.

Section Executions.
Context {St Lbl : Type} (step : St -> Lbl -> St -> Prop).

Record execution (s0 : St) (st : nat -> St) (lb : nat -> option Lbl) : Prop := mk_execution {
  ex_init : st 0%nat = s0;
  ex_step n :
    match lb n with
    | Some l => step (st n) l (st (S n))
    | None => st (S n) = st n
    end;
}.

(** The labels before moment [n]. *)
Definition trace_to (lb : nat -> option Lbl) (n : nat) : list Lbl := omap lb (seq 0 n).

(** The labels from moment [n] on, before moment [n + k]. *)
Definition trace_from (lb : nat -> option Lbl) (n k : nat) : list Lbl := omap lb (seq n k).

Definition weakly_fair (st : nat -> St) (lb : nat -> option Lbl)
    (ready : St -> Prop) (moves : St -> Lbl -> St -> Prop) : Prop :=
  forall n, exists m, (n <= m)%nat /\
    (~ ready (st m) \/ exists l, lb m = Some l /\ moves (st m) l (st (S m))).

(** Strong fairness: a thread that is ready again and again until it moves,
    moves. *)
Definition strongly_fair (st : nat -> St) (lb : nat -> option Lbl)
    (ready : St -> Prop) (moves : St -> Lbl -> St -> Prop) : Prop :=
  let moved j := exists l, lb j = Some l /\ moves (st j) l (st (S j)) in
  forall n,
    (forall k, (n <= k)%nat ->
       exists m, (k <= m)%nat /\ (ready (st m) \/ exists j, (n <= j < m)%nat /\ moved j)) ->
    exists m, (n <= m)%nat /\ moved m.
End Executions.

(** * Theorems *)

Section ExecutionLemmas.
Context {St Lbl : Type} (step : St -> Lbl -> St -> Prop).
Context (s0 : St) (st : nat -> St) (lb : nat -> option Lbl).

Lemma trace_to_S n : trace_to lb (S n) = trace_to lb n ++ option_list (lb n).
Proof.
  unfold trace_to. rw seq_S omap_app /=. by destruct (lb n).
Qed.

Lemma trace_split n m :
  (n <= m)%nat -> trace_to lb m = trace_to lb n ++ trace_from lb n (m - n).
Proof.
  intros Hle. unfold trace_to, trace_from. rw -omap_app -seq_app. do 2 f_equal. lia.
Qed.

Hypothesis Hex : execution step s0 st lb.

Lemma execution_run n : run step s0 (trace_to lb n) (st n).
Proof.
  induction n as [|n IH].
  - rw (ex_init _ _ _ _ Hex). constructor.
  - rw trace_to_S. pose proof (ex_step _ _ _ _ Hex n) as Hs.
    destruct (lb n) as [l|]; simpl.
    + by apply run_snoc with (st n).
    + rw app_nil_r. by rw Hs.
Qed.

(** What holds until a ready thread moves, leads to what its move achieves. *)
Lemma fair_leads_to ready moves (P Q : nat -> Prop) n :
  weakly_fair st lb ready moves ->
  (forall k, P k -> ready (st k)) ->
  (forall k, P k -> P (S k) \/ Q (S k)) ->
  (forall k l, P k -> lb k = Some l -> moves (st k) l (st (S k)) -> Q (S k)) ->
  P n -> exists m, (n <= m)%nat /\ Q m.
Proof.
  intros Hfair Hready Hkeep Hmove HP. destruct (Hfair n) as (m & Hm & Hev).
  remember (m - n)%nat as d eqn:Hd. revert n HP Hm Hd. induction d as [|d IH]; intros n HP Hm Hd.
  - replace m with n in Hev by lia. exists (S n). split; [lia|].
    destruct Hev as [Hno|(l & Hl & Hmv)]; [by destruct Hno; apply Hready|by eapply Hmove].
  - destruct (Hkeep n HP) as [HP'|HQ]; [|exists (S n); split; [lia|done]].
    destruct (IH (S n) HP') as (m' & ? & ?); [lia..|]. exists m'. split; [lia|done].
Qed.

(** What nobody but the thread can end, holds until the thread moves. *)
Lemma until_move (P moved : nat -> Prop) n :
  (forall k, P k -> P (S k) \/ moved k) -> P n ->
  forall k, (n <= k)%nat -> P k \/ exists j, (n <= j < k)%nat /\ moved j.
Proof.
  intros Hstep Hn k Hk. induction Hk as [|k Hk [IH|(j & ? & ?)]]; [by left| |].
  - destruct (Hstep k IH) as [?|?]; [by left|right]. exists k. split; [lia|done].
  - right. exists j. split; [lia|done].
Qed.

(** What holds until a strongly fair thread moves, leads to what its move
    achieves, when it lets the thread be ready again and again. *)
Lemma strong_leads_to ready moves (P Q : nat -> Prop) n :
  strongly_fair st lb ready moves ->
  (forall k, P k -> exists m, (k <= m)%nat /\ (P m -> ready (st m))) ->
  (forall k, P k -> P (S k) \/ exists l, lb k = Some l /\ moves (st k) l (st (S k))) ->
  (forall k l, P k -> lb k = Some l -> moves (st k) l (st (S k)) -> Q (S k)) ->
  P n -> exists m, (n <= m)%nat /\ Q m.
Proof.
  intros Hfair Hready Hkeep Hmove HP.
  set (moved := fun j => exists l, lb j = Some l /\ moves (st j) l (st (S j))).
  destruct (Hfair n) as (m & Hm & Hmv).
  { intros k Hk. destruct (until_move P moved n Hkeep HP k Hk) as [HPk|?];
      [|exists k; split; [lia|by right]].
    destruct (Hready k HPk) as (m & Hm & Hr). exists m. split; [done|].
    destruct (until_move P moved n Hkeep HP m) as [HPm|?]; [lia|left; by apply Hr|by right]. }
  (* the first move at or after [n] *)
  remember (m - n)%nat as d eqn:Hd. revert n HP Hm Hd. induction d as [|d IH]; intros n HP Hm Hd.
  - replace m with n in Hmv by lia. destruct Hmv as (l & Hl & Hmv).
    exists (S n). split; [lia|]. by eapply Hmove.
  - destruct (Hkeep n HP) as [HP'|(l & Hl & Hmv')].
    + destruct (IH (S n) HP') as (m' & ? & ?); [lia..|]. exists m'. split; [lia|done].
    + exists (S n). split; [lia|]. by eapply Hmove.
Qed.
End ExecutionLemmas.

(** Progress that uses up a measure reaches the goal. *)
Lemma measure_leads_to (P : nat -> nat -> Prop) (Q : nat -> Prop) :
  (forall w n, P w n ->
     exists m, (n <= m)%nat /\ (Q m \/ exists w', (w' < w)%nat /\ P w' m)) ->
  forall w n, P w n -> exists m, (n <= m)%nat /\ Q m.
Proof.
  intros Hstep w. induction w as [w IH] using lt_wf_ind. intros n HP.
  destruct (Hstep w n HP) as (m & Hm & [HQ|(w' & Hw & HP')]); [by exists m|].
  destruct (IH w' Hw m HP') as (m' & ? & ?). exists m'. split; [lia|done].
Qed.

(** ** Executions that come to rest *)

Lemma trace_to_ext {Lbl} (lb lb' : nat -> option Lbl) n :
  (forall k, (k < n)%nat -> lb' k = lb k) -> trace_to lb' n = trace_to lb n.
Proof.
  induction n as [|n IH]; intros Heq; [done|]. rw !trace_to_S Heq; [|lia].
  rw IH; [done|]. intros k Hk. apply Heq. lia.
Qed.

Section AtRest.
Context {St Lbl : Type} (step : St -> Lbl -> St -> Prop) (s0 : St).

(** At rest in [s] since moment [k], after the labels [tr]. *)
Definition at_rest (st : nat -> St) (lb : nat -> option Lbl) (k : nat) (tr : list Lbl) (s : St) : Prop :=
  forall n, (k <= n)%nat -> st n = s /\ lb n = None /\ trace_to lb n = tr.

Lemma at_rest_intro st lb k tr s :
  trace_to lb k = tr -> (forall n, (k <= n)%nat -> st n = s /\ lb n = None) ->
  at_rest st lb k tr s.
Proof.
  intros Htr Hrest n Hn. destruct (Hrest n Hn) as [-> ->]. do 2 (split; [done|]).
  induction Hn as [|n Hn IH]; [done|]. rw trace_to_S IH. destruct (Hrest n Hn) as [_ ->].
  by rw app_nil_r.
Qed.

Lemma extend_execution st lb k tr s l s' :
  execution step s0 st lb -> at_rest st lb k tr s -> step s l s' ->
  exists st' lb', execution step s0 st' lb' /\ at_rest st' lb' (S k) (tr ++ [l]) s' /\
    forall n, (n <= k)%nat -> st' n = st n.
Proof.
  intros Hex Hrest Hs.
  set (st' := fun n => if (n <=? k)%nat then st n else s').
  set (lb' := fun n => if (n =? k)%nat then Some l else lb n).
  assert (forall n, (n <= k)%nat -> st' n = st n) as Hst
    by (intros n Hn; unfold st'; by rw (proj2 (Nat.leb_le _ _) Hn)).
  assert (forall n, (k < n)%nat -> st' n = s') as Hst2
    by (intros n Hn; unfold st'; by rw (proj2 (Nat.leb_gt _ _) Hn)).
  assert (forall n, n <> k -> lb' n = lb n) as Hlb
    by (intros n Hn; unfold lb'; by rw (proj2 (Nat.eqb_neq _ _) Hn)).
  assert (lb' k = Some l) as Hlbk by (unfold lb'; by rw Nat.eqb_refl).
  destruct (Hrest k (le_n _)) as (Hsk & _ & Htr).
  exists st', lb'. split; [|split; [|done]].
  - constructor; [rw Hst; [apply Hex|lia]|]. intros n. destruct (lt_eq_lt_dec n k) as [[Hn| ->]|Hn].
    + rw Hlb; [|lia]. rw !Hst; [|lia..]. apply Hex.
    + rw Hlbk Hst; [|lia]. rw Hst2; [|lia]. by rw Hsk.
    + rw Hlb; [|lia]. rw !Hst2; [|lia..]. by destruct (Hrest n) as (_ & -> & _); [lia|].
  - apply at_rest_intro.
    + rw trace_to_S Hlbk (trace_to_ext lb); [by rw Htr|]. intros j Hj. apply Hlb. lia.
    + intros n Hn. rw Hst2; [|lia]. rw Hlb; [|lia].
      by destruct (Hrest n) as (_ & -> & _); [lia|].
Qed.

Lemma run_comes_to_rest tr s :
  run step s0 tr s ->
  exists st lb, execution step s0 st lb /\ at_rest st lb (length tr) tr s.
Proof.
  revert tr s. apply (run_invariant step (fun tr s => exists st lb,
    execution step s0 st lb /\ at_rest st lb (length tr) tr s)).
  - exists (fun _ => s0), (fun _ => None). split; [by constructor|]. by apply at_rest_intro.
  - intros tr s l s' (st & lb & Hex & Hrest) Hs.
    destruct (extend_execution st lb _ _ _ _ _ Hex Hrest Hs) as (st' & lb' & Hex' & Hrest' & _).
    exists st', lb'. by rw length_app /= Nat.add_1_r.
Qed.

(** Every finite run, seen at one of its moments, is an execution that comes to
    rest. *)
Lemma run_execution tr1 s1 tr2 s2 :
  run step s0 tr1 s1 -> run step s1 tr2 s2 ->
  exists st lb, execution step s0 st lb /\ st (length tr1) = s1 /\
    at_rest st lb (length (tr1 ++ tr2)) (tr1 ++ tr2) s2.
Proof.
  intros H1 H2. revert tr2 s2 H2. apply (run_invariant step (fun tr2 s2 => exists st lb,
    execution step s0 st lb /\ st (length tr1) = s1 /\
    at_rest st lb (length (tr1 ++ tr2)) (tr1 ++ tr2) s2)).
  - destruct (run_comes_to_rest tr1 s1 H1) as (st & lb & Hex & Hrest). exists st, lb.
    rw app_nil_r. split; [done|]. split; [|done]. by apply (Hrest _ (le_n _)).
  - intros tr2 s l s2 (st & lb & Hex & Hst & Hrest) Hs.
    destruct (extend_execution st lb _ _ _ _ _ Hex Hrest Hs) as (st' & lb' & Hex' & Hrest' & Hsame).
    exists st', lb'. rw app_assoc length_app /= Nat.add_1_r. split; [done|]. split; [|done].
    rw Hsame; [done|]. rw length_app. lia.
Qed.

(** At rest the scheduler is fair to a thread that is not ready. *)
Lemma rest_weakly_fair st lb k tr s ready moves :
  at_rest st lb k tr s -> ~ ready s -> weakly_fair st lb ready moves.
Proof.
  intros Hrest Hno n. exists (Nat.max n k). split; [lia|left].
  by destruct (Hrest (Nat.max n k)) as (-> & _); [lia|].
Qed.

Lemma rest_strongly_fair st lb k tr s ready moves :
  at_rest st lb k tr s -> ~ ready s -> strongly_fair st lb ready moves.
Proof.
  intros Hrest Hno n Hready. destruct (Hready (Nat.max n k)) as (m & Hm & [Hr|(j & Hj & Hmv)]); [lia| |].
  - destruct (Hrest m) as (Hs & _); [lia|]. by rw Hs in Hr.
  - exists j. split; [lia|done].
Qed.
End AtRest.
