(* ===== verification/SensorLiveness.v ===== *)
(** * Liveness of the multi-HAL's event path

    The executions of SensorThreads.v that never end, under a scheduler that
    is weakly fair to the framework's thread: as long as that thread can go on,
    it does so some time, and the framework calls [poll] again after each
    return.  Nothing is assumed of the writer threads, and no wakeup out of thin
    air is ever needed: the thread is not ready while it sleeps in
    [pthread_cond_wait], and a spurious wakeup is not one of its moves.

    Progress has two phases.  An event that is readable is taken, after turns
    that [waiting_turns] counts; then the call of [poll] that took it returns,
    after turns that [scan_fuel] counts, whatever the writers do meanwhile. *)
From S2P Require Import Prelude EventQueue Handles SensorsHal PollLoop SensorThreads Executions.

Section Liveness.
Context `{SensorsHeader} (t : HandleTable).

(** The framework's thread can make a step of its own. *)
Definition reader_ready (s : system) : Prop :=
  match sys_reader s with
  | RSleep _ _ _ => False
  | _ => sys_mutex s <> MInit
  end.

Definition asleep (r : reader_pc) : bool :=
  match r with RSleep _ _ _ => true | _ => false end.

(** Its steps, less the spurious wakeups. *)
Definition reader_moves (s : system) (l : label) (s' : system) : Prop :=
  asleep (sys_reader s) = false /\ reader_step t s l s'.

(** Turns of the scan until it visits queue [i]. *)
Definition turns_to (n next : Z) (i : nat) : nat := Z.to_nat ((Z.of_nat i - next) mod n).

(** Moves of the thread until its next turn of the scan, while there is an
    event to take. *)
Definition moves_to_scan (s : system) : nat :=
  match sys_reader s with
  | RScan m e r d =>
      if scan_guard (Z.of_nat (length (sys_queues s))) m (mkScan (sys_queues s) (sys_next s) e r d)
      then 0%nat else 2%nat
  | _ => 1%nat
  end.

(** Moves that are enough until queue [i] has had [k + 1] more events taken. *)
Definition waiting_turns (s : system) (i k : nat) : nat :=
  (3 * (k * length (sys_queues s)
        + turns_to (Z.of_nat (length (sys_queues s))) (sys_next s) i)
   + moves_to_scan s)%nat.

(** Moves that are enough until the call in progress ends. *)
Definition call_turns (s : system) : nat :=
  match sys_reader s with
  | RScan m e r d =>
      S (scan_fuel (Z.of_nat (length (sys_queues s))) (mkScan (sys_queues s) (sys_next s) e r d))
  | _ => 0%nat
  end.
End Liveness.

(** * Theorems *)

(** ** What the other threads leave alone *)

Section Outside.
Context `{SensorsHeader} (t : HandleTable).

Record outside (s : system) (l : label) (s' : system) : Prop := {
  os_next : sys_next s' = sys_next s;
  os_count : length (sys_queues s') = length (sys_queues s);
  os_scans : scans [l] = [];
  os_reader : sys_reader s' = sys_reader s;
  os_contents : sys_mutex s <> MFree -> contents <$> sys_queues s' = contents <$> sys_queues s;
}.

Lemma insert_contents (qs : list queue) i q q' :
  qs !! i = Some q -> contents q' = contents q -> contents <$> <[i := q']> qs = contents <$> qs.
Proof.
  intros Hi Hc. rw list_fmap_insert Hc. apply list_insert_id. by rw list_lookup_fmap Hi.
Qed.

Lemma writer_outside i s l s' :
  system_ok s -> asleep (sys_reader s) = false -> writer_step i s l s' -> outside s l s'.
Proof.
  intros Hok Hr Hs. destruct Hs as [s q Hi Hpc Hm Hfull|s Hpc|s q n p Hi Hpc Hm Hfull Hg
    |s q b n evs e data Hi Hpc Hlt Hset|s b n evs Hpc|s b n evs Hpc Hne|s q evs Hi Hpc Hm];
    try (by constructor).
  - destruct (writer_lookup s i q _ Hok Hi Hpc) as (Hwf & _ & [= ->] & _ & Hreg).
    destruct (store_ok q n evs e data Hwf Hreg Hlt Hset) as (_ & Hsame & _).
    constructor; simpl; try done; [by rw length_insert|]. intros _. by eapply insert_contents.
  - assert (wake_reader (sys_reader s) = sys_reader s) as Hwake by by destruct (sys_reader s).
    destruct (sys_waiting s); constructor; simpl; rw ?length_insert; done.
Qed.

(** A step is a move of the framework's thread, or leaves it alone. *)
Lemma step_cases s l s' :
  system_ok s -> reader_ready s -> sys_step t s l s' ->
  reader_moves t s l s' \/ outside s l s'.
Proof.
  intros Hok Hready Hs.
  assert (asleep (sys_reader s) = false) as Hr
    by (unfold reader_ready in Hready; by destruct (sys_reader s)).
  destruct Hs as [s Hm|s i l s' Hs|s l s' Hs]; [|right; by eapply writer_outside|by left].
  unfold reader_ready in Hready. by destruct (sys_reader s).
Qed.

(** Before the sensor list is built, nothing can be written. *)
Lemma nothing_written_before_init mems tr s :
  run (sys_step t) (opened_system mems) tr s -> sys_mutex s = MInit ->
  sys_reader s = RIdle /\ forall i, wrote i tr = [].
Proof.
  revert tr s.
  apply (run_invariant _ (fun tr s => sys_mutex s = MInit ->
    sys_reader s = RIdle /\ forall i, wrote i tr = [])).
  { intros _. by destruct (opened_system_shape mems) as (_ & _ & _ & -> & _). }
  intros tr s l s' IH Hs Hm'.
  destruct Hs as [s Hm|s i l s' Hs|s l s' Hs]; [done|..].
  - destruct Hs; simpl in *; try (destruct (IH Hm') as [Hr Hw]; split; [done|];
      intros j; rw wrote_app Hw /=; done).
    case_match; simpl in *; congruence.
  - destruct Hs; simpl in *; try done; destruct (IH Hm') as [Hr _]; congruence.
Qed.
End Outside.

(** ** One turn of the scan *)

Section Turn.
Context `{SensorsHeader} (t : HandleTable).

Lemma turns_to_bound n next i : 0 < n -> (turns_to n next i < Z.to_nat n)%nat.
Proof. intros Hn. unfold turns_to. pose proof (Z.mod_pos_bound (Z.of_nat i - next) n). lia. Qed.

Lemma turns_to_next n next (i : nat) :
  0 <= next < n -> Z.of_nat i < n -> Z.of_nat i <> next ->
  S (turns_to n ((next + 1) mod n) i) = turns_to n next i.
Proof.
  intros Hn Hi Hne. unfold turns_to. rw Zminus_mod_idemp_r.
  set (d := Z.of_nat i - next). replace (Z.of_nat i - (next + 1)) with (d - 1) by lia.
  pose proof (Z.mod_pos_bound d n). assert (d mod n <> 0) as Hd.
  { intros Hd. apply Z.mod_divide in Hd as [z Hz]; [|lia].
    assert (z = 0) as -> by nia. lia. }
  rw -(Zminus_mod_idemp_l d 1 n) Z.mod_small; lia.
Qed.

(** A turn brings the scan closer to queue [i], or takes its next event. *)
Lemma scan_progress n m (s s' : scan_state queue) o (i : nat) q :
  scan_ok n m s -> scan_rel t n m s o s' -> sc_queues s !! i = Some q -> contents q <> [] ->
  (taken (Z.of_nat i) [o] = [] /\
   S (turns_to n (sc_next s') i) = turns_to n (sc_next s) i) \/
  (length (taken (Z.of_nat i) [o]) = 1%nat /\
   (turns_to n (sc_next s') i < Z.to_nat n)%nat).
Proof.
  intros Hok [Hg Hs] Hq Hne. pose proof Hok as [[Hc ?] _ Hn _ _ _ _].
  pose proof (lookup_lt_Some _ _ _ Hq) as Hlt.
  destruct (scan_step_cases t n m s Hok Hg)
    as (q' & Hq' & _ & [[Hnil Hstep]|(e & rest & _ & Hstep)]);
    rw Hstep in Hs; injection Hs as <- <-; unfold taken; simpl.
  - left. split; [done|]. apply turns_to_next; [done|lia|]. intros Heq.
    rw -Heq Nat2Z.id Hq in Hq'. injection Hq' as <-. done.
  - destruct (Z.eqb_spec (sc_next s) (Z.of_nat i)) as [Heq|Hneq].
    + right. split; [done|]. apply turns_to_bound. lia.
    + left. split; [done|]. apply turns_to_next; [done|lia|done].
Qed.
End Turn.

(** A scan that starts has its first turn. *)
Lemma guard_at_start (qs : list queue) m next d :
  0 < Z.of_nat (length qs) -> 0 < m ->
  scan_guard (Z.of_nat (length qs)) m (mkScan qs next 0 0 d) = true.
Proof. intros Hn Hm. apply andb_true_iff. split; by apply Z.ltb_lt. Qed.

(** A move of the framework's thread, while queue [i] has an event: it takes the
    event, or shortens the wait. *)
Lemma move_progress `{SensorsHeader} (t : HandleTable) s l s' (i : nat) q k :
  system_ok s -> reader_moves t s l s' -> sys_queues s !! i = Some q -> contents q <> [] ->
  (taken (Z.of_nat i) (scans [l]) = [] /\ (waiting_turns s' i k < waiting_turns s i k)%nat) \/
  (length (taken (Z.of_nat i) (scans [l])) = 1%nat /\
   (waiting_turns s' i k < waiting_turns s i (S k))%nat).
Proof.
  intros Hok [Hr Hs] Hq Hne. pose proof (queueCount_id s Hok) as Hcount.
  pose proof (sy_reader _ Hok) as Hrok. pose proof (sy_count _ Hok) as [Hpos _].
  unfold reader_ok in Hrok.
  destruct Hs as [s m d Hrd Hm [Hmax _] ?|s m e r d o s1 Hrd Hrel|s m e r d Hrd Hg ->
    |s m r d Hrd|s m r d Hrd Hm|s m e r d Hrd Hg Hnz]; rw Hrd in Hrok, Hr; [| | |done|..];
    unfold waiting_turns, moves_to_scan; cbn [set_reader sys_reader sys_queues sys_next]; rw Hrd.
  - left. split; [done|]. rw guard_at_start; [lia|done..].
  - rw Hcount in Hrel. destruct Hrok as (_ & _ & Hscan). pose proof Hrel as [Hg _]. rw Hg.
    pose proof (scan_progress t _ _ _ s1 o i q Hscan Hrel Hq Hne) as Hprog. simpl in Hprog.
    pose proof (so_count _ _ _ (proj1 (scan_step_ok t _ _ _ o s1 Hscan Hrel))) as [Hlen _].
    apply Nat2Z.inj in Hlen. rw -Hlen.
    destruct Hprog as [[Ht Hd]|[Ht Hd]]; [left|right]; (split; [done|]); destruct (scan_guard _ m (mkScan (sc_queues s1) _ _ _ _)); lia.
  - rw Hcount in Hg. destruct Hrok as (_ & ? & Hscan). destruct Hne.
    refine (Forall_lookup_1 _ _ _ _ (scan_end_empty _ _ _ Hscan Hg _) Hq). simpl. lia.
  - left. split; [done|]. destruct Hrok as (_ & -> & [? _] & _).
    rw guard_at_start; [lia|done..].
  - left. split; [done|]. rw Hcount in Hg. rw Hg. lia.
Qed.

(** ** A fair execution *)

Section FairExecution.
Context `{SensorsHeader} (t : HandleTable).
Variables (mems : list (list sensors_event_t)) (st : nat -> system) (lb : nat -> option label).
Hypothesis Hmems : mems_ok mems.
Hypothesis Hex : execution (sys_step t) (opened_system mems) st lb.
Hypothesis Hfair : weakly_fair st lb reader_ready (reader_moves t).

Let tr (n : nat) : list label := trace_to lb n.

(** How many events have been taken from queue [i] before moment [n]. *)
Definition took (i n : nat) : nat := length (taken (Z.of_nat i) (scans (trace_to lb n))).

Lemma at_moment n : trace_ok t (tr n) (st n).
Proof. apply (run_trace_ok t mems); [done|]. by apply execution_run. Qed.

Lemma queues_at n : length (sys_queues (st n)) = length mems.
Proof. apply (run_queue_count t mems (tr n)); [done|]. by apply execution_run. Qed.

Lemma tr_step n l : lb n = Some l -> tr (S n) = tr n ++ [l].
Proof. intros Hl. unfold tr. by rw trace_to_S Hl. Qed.

Lemma took_step i n l :
  lb n = Some l -> took i (S n) = (took i n + length (taken (Z.of_nat i) (scans [l])))%nat.
Proof.
  intros Hl. unfold took. fold (tr (S n)) (tr n).
  by rw (tr_step n l Hl) scans_app taken_app length_app.
Qed.

(** The rule of progress: what the other threads leave alone, leads to what a
    move of the framework's thread achieves. *)
Lemma reader_leads_to (P Q : nat -> Prop) n :
  (forall k, P k -> reader_ready (st k)) ->
  (forall k l, P k -> lb k = Some l -> outside (st k) l (st (S k)) -> P (S k)) ->
  (forall k, P k -> lb k = None -> st (S k) = st k -> P (S k)) ->
  (forall k l, P k -> lb k = Some l -> reader_moves t (st k) l (st (S k)) -> Q (S k)) ->
  P n -> exists m, (n <= m)%nat /\ Q m.
Proof.
  intros Hready Hout Hrest Hmove. apply (fair_leads_to st lb reader_ready (reader_moves t));
    [done|done| |done].
  intros k HP. pose proof (ex_step _ _ _ _ Hex k) as Hs. destruct (lb k) as [l|] eqn:Hl; [|by left; apply Hrest].
  destruct (step_cases t _ l _ (tr_ok _ _ _ (at_moment k)) (Hready k HP) Hs) as [Hmv|?].
  - right. by eapply Hmove.
  - left. by eapply Hout.
Qed.

(** Event number [k] of sub-HAL [i] has been written and not been taken yet,
    and [w] moves of the framework's thread are enough to take it. *)
Definition waits (i k w n : nat) : Prop :=
  (took i n <= k < length (wrote i (tr n)))%nat /\ waiting_turns (st n) i (k - took i n) = w.

Lemma waiting_queue i k w n :
  (i < length mems)%nat -> waits i k w n ->
  exists q, sys_queues (st n) !! i = Some q /\ contents q <> [].
Proof.
  intros Hi [Hk _]. pose proof (at_moment n) as [_ Hfifo _].
  destruct (lookup_lt_is_Some_2 (sys_queues (st n)) i) as [q Hq]; [by rw queues_at|].
  exists q. split; [done|]. intros Hnil. rw (Hfifo i q Hq) Hnil app_nil_r in Hk.
  unfold took in Hk. fold (tr n) in Hk. lia.
Qed.

Lemma waiting_ready i k w n :
  (i < length mems)%nat -> waits i k w n -> reader_ready (st n).
Proof.
  intros Hi Hw. destruct (waiting_queue i k w n Hi Hw) as (q & Hq & Hne).
  pose proof (sy_reader _ (tr_ok _ _ _ (at_moment n))) as Hr. unfold reader_ok in Hr.
  assert (sys_mutex (st n) <> MInit) as Hm.
  { intros Hm. destruct (nothing_written_before_init t mems (tr n) (st n)) as [_ Hnil];
      [by apply execution_run|done|]. destruct Hw as [Hk _]. rw Hnil /= in Hk. lia. }
  unfold reader_ready. destruct (sys_reader (st n)); try done.
  destruct Hr as (_ & _ & _ & _ & _ & Hall). by apply Hne, (Forall_lookup_1 _ _ _ _ Hall Hq).
Qed.

(** Another thread's step does not lengthen the wait. *)
Lemma waits_outside i k w n l :
  waits i k w n -> lb n = Some l -> outside (st n) l (st (S n)) -> waits i k w (S n).
Proof.
  intros [Hk Hw] Hl [Hnext Hcount Hscans Hread _].
  assert (took i (S n) = took i n) as Htook by (rw (took_step i n l Hl) Hscans /=; lia).
  split.
  - rw Htook (tr_step n l Hl) wrote_app length_app. lia.
  - rw Htook -Hw. unfold waiting_turns, moves_to_scan, scan_guard.
    by rw Hnext Hcount Hread.
Qed.

(** A move of the framework's thread takes the event or shortens the wait. *)
Lemma waits_move i k w n l :
  (i < length mems)%nat -> waits i k w n -> lb n = Some l -> reader_moves t (st n) l (st (S n)) ->
  (k < took i (S n))%nat \/ exists w', (w' < w)%nat /\ waits i k w' (S n).
Proof.
  intros Hi Hwait Hl Hmv. destruct (waiting_queue i k w n Hi Hwait) as (q & Hq & Hne).
  pose proof (tr_ok _ _ _ (at_moment n)) as Hok. destruct Hwait as [Hk <-].
  pose proof (took_step i n l Hl) as Htook.
  assert (k < length (wrote i (tr (S n))))%nat as Hlt
    by (rw (tr_step n l Hl) wrote_app length_app; lia).
  destruct (move_progress t _ l _ i q (k - took i n) Hok Hmv Hq Hne) as [[Ht Hd]|[Ht _]];
    rw Ht /= in Htook.
  - right. eexists. split; [exact Hd|]. split; [lia|]. f_equal. lia.
  - destruct (decide (k < took i (S n))%nat) as [?|Hn]; [by left|right].
    destruct (move_progress t _ l _ i q (k - took i (S n)) Hok Hmv Hq Hne) as [[Ht' _]|[_ Hd]];
      [by rw Ht' in Ht|].
    replace (S (k - took i (S n))) with (k - took i n)%nat in Hd by lia.
    eexists. split; [exact Hd|]. split; [lia|done].
Qed.

(** Every event that has been written is taken. *)
Lemma written_is_taken i k n :
  (i < length mems)%nat -> (k < length (wrote i (tr n)))%nat ->
  exists m, (n <= m)%nat /\ (k < took i m)%nat.
Proof.
  intros Hi Hk. destruct (decide (k < took i n)%nat) as [?|Hn]; [by exists n|].
  apply (measure_leads_to (fun w n => waits i k w n) _) with (waiting_turns (st n) i (k - took i n));
    [|split; [lia|done]].
  intros w n' Hw. eapply (reader_leads_to (waits i k w)); [..|exact Hw].
  - intros m. by apply waiting_ready.
  - intros m l Hm Hl. by apply waits_outside.
  - intros m [Hk' Hw'] Hl Hs. unfold waits, took, tr in *.
    rw Hs trace_to_S Hl /= app_nil_r. done.
  - intros m l Hm Hl. by apply waits_move.
Qed.

(** ** The end of a call *)

Definition in_call (s : system) : bool :=
  match sys_reader s with RScan _ _ _ _ => true | _ => false end.

Definition calling (c n : nat) : Prop := in_call (st n) = true /\ call_turns (st n) = c.

Lemma pending_contents (qs qs' : list queue) :
  contents <$> qs' = contents <$> qs -> pending qs' = pending qs.
Proof.
  intros Heq. unfold pending.
  by rw (list_fmap_compose src_items length qs) (list_fmap_compose src_items length qs') /= Heq.
Qed.

Lemma calling_outside c n l :
  calling c n -> outside (st n) l (st (S n)) -> calling c (S n).
Proof.
  intros [Hcall Hc] [_ Hcount _ Hread Hcont].
  pose proof (sy_reader _ (tr_ok _ _ _ (at_moment n))) as Hrok. unfold reader_ok in Hrok.
  unfold calling, in_call, call_turns in *. rw Hread Hcount.
  destruct (sys_reader (st n)) as [|m e r d| |]; try done. split; [done|].
  destruct Hrok as (Hm & _). unfold scan_fuel in *. simpl in *.
  rw (pending_contents (sys_queues (st n))); [done|]. apply Hcont. by rw Hm.
Qed.

Lemma calling_move c n l :
  calling c n -> reader_moves t (st n) l (st (S n)) ->
  in_call (st (S n)) = false \/ exists c', (c' < c)%nat /\ calling c' (S n).
Proof.
  intros [Hcall Hc] [_ Hs]. pose proof (tr_ok _ _ _ (at_moment n)) as Hok.
  pose proof (queueCount_id _ Hok) as Hcount.
  pose proof (sy_reader _ Hok) as Hrok. unfold reader_ok in Hrok.
  unfold calling, in_call, call_turns in *.
  inversion Hs as [s m d Hrd|s m e r d o s1 Hrd Hrel|s m e r d Hrd|s m r d Hrd|s m r d Hrd
    |s m e r d Hrd]; subst; rw Hrd in Hcall, Hrok; try done; try (by left); rw Hrd.
  right. rw Hcount in Hrel. destruct Hrok as (_ & _ & Hscan).
  destruct (scan_step_ok t _ _ _ o s1 Hscan Hrel) as [Hscan' Hlt].
  pose proof (so_count _ _ _ Hscan') as [Hlen _]. simpl. rw -Hlen.
  eexists. split; [|by split]. destruct s1; simpl in *. lia.
Qed.

(** Every call of [poll] comes to its end, or to sleep. *)
Lemma call_ends n : exists m, (n <= m)%nat /\ in_call (st m) = false.
Proof.
  destruct (in_call (st n)) eqn:Hcall; [|by exists n].
  apply (measure_leads_to calling _) with (call_turns (st n)); [|done].
  intros c n' Hc. eapply (reader_leads_to (calling c)); [..|exact Hc].
  - intros m [Hm _]. pose proof (sy_reader _ (tr_ok _ _ _ (at_moment m))) as Hrok.
    unfold reader_ok, reader_ready, in_call in *. destruct (sys_reader (st m)); try done.
    by destruct Hrok as (-> & _).
  - intros m l Hm _. by apply calling_outside.
  - intros m Hm _ Hs. unfold calling. by rw Hs.
  - intros m l Hm _. by apply calling_move.
Qed.

(** Only sub-HALs that have a queue write. *)
Lemma wrote_has_queue i n e : e ∈ wrote i (tr n) -> (i < length mems)%nat.
Proof.
  intros He. destruct (decide (i < length mems)%nat) as [?|Hi]; [done|]. exfalso. revert He.
  induction n as [|n IH]; [by intros ?%elem_of_nil|].
  pose proof (ex_step _ _ _ _ Hex n) as Hs. destruct (lb n) as [l|] eqn:Hl.
  - rw (tr_step n l Hl) wrote_app elem_of_app. intros [?|He]; [by apply IH|].
    destruct l as [|j evs| |]; simpl in He; try by apply elem_of_nil in He.
    destruct (decide (j = i)) as [->|]; [|by apply elem_of_nil in He].
    inversion Hs as [|j s l s' Hw|s l s' Hr]; subst; [|inversion Hr].
    inversion Hw as [| | | | | |s q evs' Hq]; subst.
    apply lookup_lt_Some in Hq. rw queues_at in Hq. lia.
  - unfold tr. rw trace_to_S Hl /= app_nil_r. apply IH.
Qed.
(** Every event that has been written is taken, and the call that took it
    returns. *)
Lemma written_is_delivered n i k e :
  wrote i (tr n) !! k = Some e ->
  exists m, (n <= m)%nat /\
    taken (Z.of_nat i) (scans (tr m)) !! k = Some e /\
    received (tr m) = delivered t (scans (tr m)) /\
    let e' := copy_event_remap_handle t e (Z.of_nat i) in
    (ev_sensor e' <> -1 -> e' ∈ received (tr m)).
Proof.
  intros He.
  pose proof (wrote_has_queue i n e) as Hi.
  specialize (Hi (list_elem_of_lookup_2 _ _ _ He)).
  destruct (written_is_taken i k n Hi) as (m1 & Hm1 & Hk);
    [by eapply lookup_lt_Some|].
  destruct (call_ends m1) as (m & Hm & Hcall).
  exists m. split; [lia|].
  assert (taken (Z.of_nat i) (scans (tr m)) !! k = Some e) as Htaken.
  { pose proof (at_moment m) as [_ Hfifo _].
    destruct (lookup_lt_is_Some_2 (sys_queues (st m)) i) as [q Hq];
      [by rw (queues_at m)|].
    assert (wrote i (tr m) !! k = Some e) as Hw
      by (unfold tr; rw (trace_split lb n m) ?wrote_app; [by apply lookup_app_l_Some|lia]).
    rw (Hfifo i q Hq) lookup_app_l in Hw; [done|].
    unfold took in Hk. unfold tr. rw (trace_split lb m1 m Hm) scans_app taken_app length_app. lia. }
  split; [done|].
  assert (received (tr m) = delivered t (scans (tr m))) as Hrec.
  { pose proof (at_moment m) as [_ _ <-].
    assert (in_progress (sys_reader (st m)) = []) as -> by
      (unfold in_call in Hcall; by destruct (sys_reader (st m))).
    by rw app_nil_r. }
  split; [done|]. intros e' He'. rw Hrec. apply elem_of_delivered.
  apply list_elem_of_lookup_2, elem_of_taken in Htaken as [b Hb].
  by exists (Z.of_nat i), e, b.
Qed.
End FairExecution.

(** ** Property *)

(** C3: every event is delivered.  In every infinite execution that is weakly
    fair to the framework's thread, whatever the sub-HALs and their writer
    threads do, each event a sub-HAL has reported is some time taken by [poll],
    in its place in that sub-HAL's order, and the call that took it returns: from
    then on the framework has all events taken so far, so it has this one under
    its global handle, unless its sensor is unknown. *)
Theorem every_event_delivered `{SensorsHeader} (t : HandleTable) mems st lb :
  mems_ok mems -> execution (sys_step t) (opened_system mems) st lb ->
  weakly_fair st lb reader_ready (reader_moves t) ->
  forall n (i k : nat) e, wrote i (trace_to lb n) !! k = Some e ->
  exists m, (n <= m)%nat /\
    taken (Z.of_nat i) (scans (trace_to lb m)) !! k = Some e /\
    received (trace_to lb m) = delivered t (scans (trace_to lb m)) /\
    let e' := copy_event_remap_handle t e (Z.of_nat i) in
    (ev_sensor e' <> -1 -> e' ∈ received (trace_to lb m)).
Proof. intros Hmems Hex Hfair n i k e. by apply (written_is_delivered t mems st lb Hmems Hex Hfair). Qed.

(** A sub-HAL reports an event; the framework receives it and calls [poll]
    again, which sleeps. *)
Definition liveness_run : list action :=
  [DoInit; DoLock 1; DoStore 1 (sample_event 9 3); DoPollReturn 1 true; DoMark 1;
   DoCall 4 (replicate 4 (sample_event 0 0)); DoScan; DoScan; DoScan; DoScan; DoScan;
   DoCall 4 (replicate 4 (sample_event 0 0)); DoScan; DoScan; DoScan].

Lemma every_event_delivered_witness :
  let H := android9_sensors_h in
  exists st lb m,
    execution (sys_step sample_table) (opened_system sample_mems) st lb /\
    weakly_fair st lb reader_ready (reader_moves sample_table) /\
    sample_event 2 3 ∈ received (trace_to lb m).
Proof.
  intros H.
  destruct (do_actions sample_table (opened_system sample_mems) liveness_run)
    as [[tr s]|] eqn:Hrun; [|vm_compute in Hrun; discriminate].
  destruct (run_comes_to_rest _ _ _ _ (do_actions_sound sample_table _ _ _ _ Hrun))
    as (st & lb & Hex & Hrest).
  vm_compute in Hrun. injection Hrun as <- <-.
  assert (weakly_fair st lb reader_ready (reader_moves sample_table)) as Hfair
    by (apply (rest_weakly_fair st lb _ _ _ _ _ Hrest); intros Hready; exact Hready).
  destruct (@every_event_delivered H sample_table sample_mems st lb) with (n := 15%nat) (i := 1%nat)
    (k := 0%nat) (e := sample_event 9 3) as (m & _ & _ & _ & Hd).
  - split; [vm_compute; split; reflexivity|]. repeat constructor.
  - exact Hex.
  - exact Hfair.
  - destruct (Hrest 15%nat) as (_ & _ & Htr); [simpl; lia|]. rw Htr. reflexivity.
  - exists st, lb, m. split; [exact Hex|]. split; [exact Hfair|].
    apply Hd. vm_compute. discriminate.
Defined.
