(* ===== verification/WriterLiveness.v ===== *)
(** * Liveness of the writer threads

    The executions of SensorLiveness.v, when the scheduler is besides strongly
    fair to a writer thread: a writer that finds [queue_mutex] free again and
    again gets it.  (Weak fairness is not enough here, because [poll] takes the
    mutex over and over.)  Then the writer is not starved: it publishes what its
    sub-HAL reported, and it comes to poll its sub-HAL again, however full its
    queue was. *)
From S2P Require Import Prelude EventQueue Handles SensorsHal PollLoop SensorThreads.
From S2P Require Import Executions SensorLiveness.

(** The writer wants the mutex, and it is free. *)
Definition writer_ready (i : nat) (s : system) : Prop :=
  (sys_writers s !! i = Some WLock \/ exists evs, sys_writers s !! i = Some (WMark evs)) /\
  sys_mutex s = MFree.

Definition writer_moves (i : nat) (s : system) (l : label) (s' : system) : Prop :=
  writer_ready i s /\ writer_step i s l s'.

(** * Theorems *)

Section Frame.
Context `{SensorsHeader} (t : HandleTable).

(** What the other threads' steps do to writer [i]: wake it, at most. *)
Lemma writer_frame i s l s' :
  sys_step t s l s' ->
  writer_step i s l s' \/
  wrote i [l] = [] /\
  (sys_writers s' !! i = sys_writers s !! i \/
   sys_writers s !! i = Some WSleep /\ sys_writers s' !! i = Some WLock).
Proof.
  intros Hs. destruct Hs as [s Hm|j s l s' Hs|s l s' Hs]; [by right; split; [|left]|..].
  - destruct (decide (j = i)) as [->|Hji]; [by left|right].
    destruct Hs; simpl; try (split; [done|left; by rw list_lookup_insert_ne]).
    case_decide; [done|]. split; [done|left]. case_match; simpl; by rw list_lookup_insert_ne.
  - right. destruct Hs as [| s m e r d o s1 Hrd Hrel | | | |]; simpl; try by split; [|left].
    split; [done|]. destruct o as [j|j e' [|]]; simpl; [by left| |by left].
    destruct (decide (Z.to_nat j = i)) as [Hj|Hj].
    + rw Hj list_lookup_alter_eq. destruct (sys_writers s !! i) as [pc|]; [|by left]. simpl.
      destruct (wake_writer_lock pc) as [->|[-> Hw]]; [by left|right]. by rw Hw.
    + left. by rw list_lookup_alter_ne.
Qed.

Lemma init_done_step s l s' :
  sys_step t s l s' -> sys_mutex s <> MInit -> sys_mutex s' <> MInit.
Proof.
  intros Hs Hm. destruct Hs as [s _|j s l s' Hs|s l s' Hs]; [done|..].
  - destruct Hs; simpl; try done. by case_match.
  - by destruct Hs; simpl.
Qed.
End Frame.

Section FairWriter.
Context `{SensorsHeader} (t : HandleTable).
Variables (mems : list (list sensors_event_t)) (st : nat -> system) (lb : nat -> option label).
Variable (i : nat).
Hypothesis Hmems : mems_ok mems.
Hypothesis Hex : execution (sys_step t) (opened_system mems) st lb.
Hypothesis Hfair : weakly_fair st lb reader_ready (reader_moves t).
Hypothesis Hstrong : strongly_fair st lb (writer_ready i) (writer_moves i).

Let written (n : nat) : list sensors_event_t := wrote i (trace_to lb n).

Lemma init_stays n m : (n <= m)%nat -> sys_mutex (st n) <> MInit -> sys_mutex (st m) <> MInit.
Proof.
  intros Hle Hn. induction Hle as [|m Hle IH]; [done|].
  pose proof (ex_step _ _ _ _ Hex m) as Hs. destruct (lb m) as [l|]; [|by rw Hs].
  by eapply init_done_step.
Qed.

(** The mutex is free again and again. *)
Lemma mutex_free_again n :
  sys_mutex (st n) <> MInit -> exists m, (n <= m)%nat /\ sys_mutex (st m) = MFree.
Proof.
  intros Hn. destruct (call_ends t mems st lb Hmems Hex Hfair n) as (m & Hm & Hcall).
  exists m. split; [done|]. pose proof (init_stays n m Hm Hn) as Hinit.
  pose proof (sy_reader _ (tr_ok _ _ _ (at_moment t mems st lb Hmems Hex m))) as Hr.
  unfold reader_ok, in_call in *.
  destruct (sys_reader (st m)); try done; destruct (sys_mutex (st m)); try done; by destruct Hr.
Qed.

(** Until the list is built, no writer gets anywhere. *)
Lemma writers_before_init n pc :
  sys_mutex (st n) = MInit -> sys_writers (st n) !! i = Some pc -> pc = WLock.
Proof.
  revert pc. induction n as [|n IH]; intros pc Hm Hpc.
  { rw (ex_init _ _ _ _ Hex) in Hpc.
    destruct (opened_system_shape mems) as (_ & Hw & _). rw Hw in Hpc.
    by apply lookup_replicate in Hpc as [-> _]. }
  pose proof (ex_step _ _ _ _ Hex n) as Hs. destruct (lb n) as [l|]; [|rw Hs in Hm Hpc; by apply IH].
  assert (sys_mutex (st n) = MInit) as Hn.
  { destruct (sys_mutex (st n)) eqn:Hmx; [|done|]; destruct (init_done_step t _ _ _ Hs); congruence. }
  destruct (writer_frame t i _ _ _ Hs) as [Hw|[_ [Heq|[_ Heq]]]].
  - exfalso. inversion Hw as [s q Hq Hwpc Hmx|s Hwpc|s q n' p Hq Hwpc Hmx|s q b n' evs e data Hq Hwpc
      |s b n' evs Hwpc|s b n' evs Hwpc|s q evs Hq Hwpc Hmx]; subst;
      try congruence; by specialize (IH _ Hn Hwpc).
  - rw Heq in Hpc. by apply IH.
  - rw Heq in Hpc. by injection Hpc.
Qed.

Lemma init_done n pc :
  sys_writers (st n) !! i = Some pc -> pc <> WLock -> sys_mutex (st n) <> MInit.
Proof. intros Hpc Hne Hm. by destruct (Hne (writers_before_init n pc Hm Hpc)). Qed.

(** A step that is not the writer's. *)
Lemma moment_cases n :
  (exists l, lb n = Some l /\ writer_step i (st n) l (st (S n))) \/
  (written (S n) = written n /\
   (sys_writers (st (S n)) !! i = sys_writers (st n) !! i \/
    sys_writers (st n) !! i = Some WSleep /\ sys_writers (st (S n)) !! i = Some WLock)).
Proof.
  pose proof (ex_step _ _ _ _ Hex n) as Hs. unfold written. rw trace_to_S.
  destruct (lb n) as [l|].
  - destruct (writer_frame t i _ _ _ Hs) as [Hw|[Hnil Hpc]]; [left; by exists l|right].
    rw wrote_app /= . simpl in Hnil. rw Hnil app_nil_r. done.
  - right. simpl. rw app_nil_r Hs. by split; [|left].
Qed.

(** The writer publishes what its sub-HAL reported. *)
Lemma report_is_published n evs :
  sys_writers (st n) !! i = Some (WMark evs) ->
  exists m, (n <= m)%nat /\ lb m = Some (LWrote i evs).
Proof.
  intros Hn.
  destruct (strong_leads_to st lb (writer_ready i) (writer_moves i)
    (fun k => (n <= k)%nat /\ sys_writers (st k) !! i = Some (WMark evs))
    (fun _ => exists m, (n <= m)%nat /\ lb m = Some (LWrote i evs)) n Hstrong) as (_ & _ & Hgoal);
    [..|done|done].
  - intros k [Hk Hpc]. pose proof (init_done k _ Hpc ltac:(done)) as Hinit.
    destruct (mutex_free_again k Hinit) as (m & Hm & Hfree).
    exists m. split; [done|]. intros [_ Hpcm]. split; [right; by exists evs|done].
  - intros k [Hk Hpc]. destruct (moment_cases k) as [(l & Hl & Hw)|[_ [Heq|[Heq _]]]].
    + right. exists l. split; [done|]. split; [|done].
      inversion Hw; subst; simplify_eq. split; [right; by exists evs|done].
    + left. split; [lia|by rw Heq].
    + congruence.
  - intros k l [Hk Hpc] Hl [_ Hw]. exists k. split; [done|]. rw Hl.
    inversion Hw; subst; simplify_eq. done.
Qed.

(** ** The way to the next poll of the sub-HAL *)

(** The writer has been waiting since moment [n]. *)
Definition waiting_since (n k : nat) : Prop :=
  (n <= k)%nat /\
  (sys_writers (st k) !! i = Some WLock \/ sys_writers (st k) !! i = Some WSleep) /\
  written k = written n.

Definition polls (k : nat) : Prop :=
  exists buffer bufferSize, sys_writers (st k) !! i = Some (WPoll buffer bufferSize []).

Lemma waiting_since_step n k :
  waiting_since n k -> waiting_since n (S k) \/ polls (S k).
Proof.
  intros (Hk & Hpc & Hw). destruct (moment_cases k) as [(l & Hl & Hs)|[Heq Hpc']].
  - assert ((i < length (sys_writers (st k)))%nat) as Hlt
      by (destruct Hpc as [Hpc|Hpc]; by eapply lookup_lt_Some).
    assert (forall l', l = LTau -> l' = l -> written (S k) = written k) as Htau.
    { intros l' -> _. unfold written. by rw trace_to_S Hl wrote_app /= app_nil_r. }
    inversion Hs; subst; try (destruct Hpc; congruence); unfold waiting_since, polls;
      match goal with He : set_writer _ _ _ = st (S k) |- _ => rw -He end.
    + left. split; [lia|]. split; [right; simpl; by rw list_lookup_insert_eq|].
      rw -Hw. by eapply Htau.
    + left. split; [lia|]. split; [left; simpl; by rw list_lookup_insert_eq|].
      rw -Hw. by eapply Htau.
    + right. eexists _, _. simpl. by rw list_lookup_insert_eq.
  - left. split; [lia|]. rw Heq. split; [|done].
    destruct Hpc' as [->|[_ ->]]; [done|by left].
Qed.

Lemma waiting_until n m :
  waiting_since n n -> (n <= m)%nat ->
  waiting_since n m \/ exists m', (n <= m')%nat /\ polls m'.
Proof.
  intros Hn Hle. induction Hle as [|m Hle [IH|?]]; [by left| |by right].
  destruct (waiting_since_step n m IH) as [?|?]; [by left|right]. exists (S m). split; [lia|done].
Qed.

(** The events in the queue are those written and not taken. *)
Lemma queue_size k q :
  sys_queues (st k) !! i = Some q ->
  mCapacity q = SENSOR_EVENT_QUEUE_CAPACITY /\
  mSize q + Z.of_nat (took lb i k) = Z.of_nat (length (written k)).
Proof.
  intros Hq. pose proof (at_moment t mems st lb Hmems Hex k) as [Hok Hfifo _].
  pose proof (Forall_lookup_1 _ _ _ _ (sy_queues _ Hok) Hq) as Hwf.
  split; [by apply (Forall_lookup_1 _ _ _ _ (sy_capacity _ Hok) Hq)|].
  unfold written. rw (Hfifo i q Hq) length_app. unfold took.
  pose proof (length_contents q Hwf). destruct Hwf. lia.
Qed.

Definition room (k : nat) : Prop :=
  Z.of_nat (length (written k)) < SENSOR_EVENT_QUEUE_CAPACITY + Z.of_nat (took lb i k).

Lemma took_grows k m : (k <= m)%nat -> (took lb i k <= took lb i m)%nat.
Proof.
  intros Hle. unfold took. rw (trace_split lb k m Hle) scans_app taken_app length_app. lia.
Qed.

(** With room in its queue, a waiting writer gets the mutex and polls. *)
Lemma room_leads_to_poll n k :
  waiting_since n k -> room k -> sys_mutex (st k) <> MInit ->
  exists m, (k <= m)%nat /\ polls m.
Proof.
  intros Hk Hroom Hinit.
  assert (forall k', waiting_since n k' -> room k' -> sys_writers (st k') !! i = Some WLock) as Hlock.
  { intros k' (_ & [?|Hpc] & _) Hr; [done|].
    pose proof (at_moment t mems st lb Hmems Hex k') as [Hok _ _].
    destruct (writer_has_queue _ i _ Hok Hpc) as [q Hq].
    destruct (writer_lookup _ i q _ Hok Hq Hpc) as (_ & _ & Hfull). simpl in Hfull.
    destruct (queue_size k' q Hq) as [Hcap Hsize]. unfold room in Hr. lia. }
  set (P k' := (waiting_since n k' /\ room k' /\ sys_mutex (st k') <> MInit)).
  destruct (strong_leads_to st lb (writer_ready i) (writer_moves i)
    (fun k' => (k <= k')%nat /\ P k') (fun _ => exists m, (k <= m)%nat /\ polls m) k Hstrong)
    as (_ & _ & Hgoal); [..|done|done].
  - intros k' [Hkk (Hw & Hr & Hi)]. destruct (mutex_free_again k' Hi) as (m & Hm & Hfree).
    exists m. split; [done|]. intros [_ (Hwm & Hrm & _)]. split; [left; by apply Hlock|done].
  - intros k' [Hkk (Hw & Hr & Hi)]. pose proof (Hlock k' Hw Hr) as Hpc.
    destruct (moment_cases k') as [(l & Hl & Hs)|[Heq Hpc']].
    + right. exists l. split; [done|]. split; [|done].
      inversion Hs; subst; simplify_eq; by split; [left|].
    + left. split; [lia|]. split.
      * destruct Hw as (? & _ & ?). split; [lia|]. rw Heq. split; [|done].
        destruct Hpc' as [->|[_ ->]]; by left.
      * split; [unfold room in *; rw Heq; pose proof (took_grows k' (S k')); lia|].
        by apply (init_stays k' (S k')); [lia|].
  - intros k' l [Hkk (Hw & Hr & Hi)] Hl [_ Hs]. exists (S k'). split; [lia|].
    pose proof (Hlock k' Hw Hr) as Hpc. unfold polls.
    inversion Hs; subst; try congruence.
    + match goal with Hq : sys_queues _ !! i = Some ?q |- _ =>
        destruct (queue_size k' q Hq) as [Hcap Hsize] end. unfold room in Hr. lia.
    + eexists _, _. simpl. rw list_lookup_insert_eq; [done|]. by eapply lookup_lt_Some.
Qed.

(** A writer that waits, polls its sub-HAL some time. *)
Lemma waiting_leads_to_poll n :
  waiting_since n n -> sys_mutex (st n) <> MInit -> exists m, (n <= m)%nat /\ polls m.
Proof.
  intros Hn Hinit. destruct (decide (Z.of_nat (length (written n)) <
    SENSOR_EVENT_QUEUE_CAPACITY + Z.of_nat (took lb i n))) as [Hroom|Hfull].
  { by apply (room_leads_to_poll n). }
  assert (i < length mems)%nat as Hi.
  { destruct Hn as (_ & Hpc & _). pose proof (at_moment t mems st lb Hmems Hex n) as [Hok _ _].
    assert (exists q, sys_queues (st n) !! i = Some q) as [q Hq]
      by (destruct Hpc as [Hpc|Hpc]; by eapply writer_has_queue).
    rw -(queues_at t mems st lb Hmems Hex n). by eapply lookup_lt_Some. }
  destruct (written_is_taken t mems st lb Hmems Hex Hfair i (took lb i n) n Hi) as (m & Hm & Htook).
  { fold (written n). unfold SENSOR_EVENT_QUEUE_CAPACITY in Hfull. lia. }
  destruct (waiting_until n m Hn Hm) as [Hwm|?]; [|done].
  destruct (room_leads_to_poll n m Hwm) as (m' & ? & ?); [|by apply (init_stays n m)|].
  - unfold room. destruct Hwm as (_ & _ & ->).
    assert (exists q, sys_queues (st n) !! i = Some q) as [q Hq]
      by (apply lookup_lt_is_Some_2; by rw (queues_at t mems st lb Hmems Hex n)).
    destruct (queue_size n q Hq) as [Hcap Hsize].
    pose proof (at_moment t mems st lb Hmems Hex n) as [Hok _ _].
    destruct (Forall_lookup_1 _ _ _ _ (sy_queues _ Hok) Hq). lia.
  - exists m'. split; [lia|done].
Qed.
End FairWriter.

(** ** Property *)

(** C4: no writer thread starves, and what a sub-HAL reports arrives.  In every
    infinite execution that is weakly fair to the framework's thread and strongly
    fair to the writer thread of sub-HAL [i]: the writer publishes each report of
    its sub-HAL, every event of which is some time returned to the framework
    under its global handle, if its sensor is known; and once the list of sensors
    is built, the writer polls its sub-HAL again and again, with room for at
    least one event, however full its queue was and however often [poll] holds the
    mutex. *)
Theorem writers_not_starved `{SensorsHeader} (t : HandleTable) mems st lb (i : nat) :
  mems_ok mems -> execution (sys_step t) (opened_system mems) st lb ->
  weakly_fair st lb reader_ready (reader_moves t) ->
  strongly_fair st lb (writer_ready i) (writer_moves i) ->
  (forall n evs, sys_writers (st n) !! i = Some (WMark evs) ->
     (exists m, (n <= m)%nat /\ lb m = Some (LWrote i evs)) /\
     forall e, e ∈ evs ->
       let e' := copy_event_remap_handle t e (Z.of_nat i) in
       ev_sensor e' <> -1 -> exists m, e' ∈ received (trace_to lb m)) /\
  (forall n, sys_mutex (st n) <> MInit ->
     sys_writers (st n) !! i = Some WLock \/ sys_writers (st n) !! i = Some WSleep ->
     exists m buffer bufferSize, (n <= m)%nat /\ 1 <= bufferSize /\
       sys_writers (st m) !! i = Some (WPoll (Some buffer) bufferSize [])).
Proof.
  intros Hmems Hex Hfair Hstrong. split.
  - intros n evs Hn.
    destruct (report_is_published t mems st lb i Hmems Hex Hfair Hstrong n evs Hn) as (m & Hm & Hl).
    split; [by exists m|]. intros e He e' He'.
    assert (e ∈ wrote i (trace_to lb (S m))) as [k Hk]%list_elem_of_lookup.
    { rw trace_to_S Hl wrote_app elem_of_app. right. simpl. rw app_nil_r. by case_decide. }
    destruct (written_is_delivered t mems st lb Hmems Hex Hfair (S m) i k e Hk)
      as (m' & _ & _ & _ & Hd).
    exists m'. by apply Hd.
  - intros n Hinit Hpc.
    destruct (waiting_leads_to_poll t mems st lb i Hmems Hex Hfair Hstrong n) as (m & Hm & b & sz & Hpoll);
      [by split; [lia|]|done|].
    pose proof (at_moment t mems st lb Hmems Hex m) as [Hok _ _].
    destruct (writer_has_queue _ i _ Hok Hpoll) as [q Hq].
    destruct (writer_lookup _ i q _ Hok Hq Hpoll) as (_ & _ & -> & Hsz & _).
    by exists m, (write_pos q), sz.
Qed.

(** The moments of the example before and after the writer has a report. *)
Definition report_run : list action :=
  [DoInit; DoLock 1; DoStore 1 (sample_event 9 3); DoPollReturn 1 true].
Definition after_report_run : list action :=
  [DoMark 1; DoCall 4 (replicate 4 (sample_event 0 0)); DoScan; DoScan; DoScan; DoScan; DoScan;
   DoCall 4 (replicate 4 (sample_event 0 0)); DoScan; DoScan; DoScan; DoLock 1].

Lemma writers_not_starved_witness :
  let H := android9_sensors_h in
  exists st lb m,
    execution (sys_step sample_table) (opened_system sample_mems) st lb /\
    weakly_fair st lb reader_ready (reader_moves sample_table) /\
    strongly_fair st lb (writer_ready 1) (writer_moves 1) /\
    sys_writers (st 4%nat) !! 1%nat = Some (WMark [sample_event 9 3]) /\
    sample_event 2 3 ∈ received (trace_to lb m).
Proof.
  intros H.
  destruct (do_actions sample_table (opened_system sample_mems) report_run)
    as [[tr1 s1]|] eqn:Hrun1; [|vm_compute in Hrun1; discriminate].
  destruct (do_actions sample_table s1 after_report_run) as [[tr2 s2]|] eqn:Hrun2;
    [|vm_compute in Hrun1; injection Hrun1 as _ <-; vm_compute in Hrun2; discriminate].
  destruct (run_execution _ _ _ _ _ _ (do_actions_sound sample_table _ _ _ _ Hrun1)
    (do_actions_sound sample_table _ _ _ _ Hrun2)) as (st & lb & Hex & Hst & Hrest).
  vm_compute in Hrun1. injection Hrun1 as <- <-. vm_compute in Hrun2. injection Hrun2 as <- <-.
  assert (weakly_fair st lb reader_ready (reader_moves sample_table)) as Hfair
    by (apply (rest_weakly_fair st lb _ _ _ _ _ Hrest); intros Hready; exact Hready).
  assert (strongly_fair st lb (writer_ready 1) (writer_moves 1)) as Hstrong.
  { apply (rest_strongly_fair st lb _ _ _ _ _ Hrest). intros [[Hpc|[evs Hpc]] _]; discriminate. }
  change (length _) with 4%nat in Hst.
  assert (sys_writers (st 4%nat) !! 1%nat = Some (WMark [sample_event 9 3])) as Hpc
    by (rw Hst; reflexivity).
  destruct (@writers_not_starved H sample_table sample_mems st lb 1) as [Hreports _].
  - split; [vm_compute; split; reflexivity|]. repeat constructor.
  - exact Hex.
  - exact Hfair.
  - exact Hstrong.
  - destruct (proj2 (Hreports 4%nat [sample_event 9 3] Hpc) (sample_event 9 3)) as [m Hm].
    + apply list_elem_of_singleton. reflexivity.
    + vm_compute. discriminate.
    + exists st, lb, m. split_and!; first [exact Hex|exact Hfair|exact Hstrong|exact Hpc|exact Hm].
Defined.
