(* ===== verification/HalClose.v ===== *)
(** * Closing the multi-HAL while its threads run

    [device__close] (sensors/multihal.cpp) closes the sub-HALs' devices one
    after the other and deletes the context.  Dispatch.v has the calls it makes;
    here it is one more thread beside those of SensorThreads.v, since it neither
    stops the writer threads nor waits for a call of [poll].

    What the other threads use: a writer has the pointers to its device and its
    queue in its [TaskContext], and neither the queue nor the [TaskContext] is
    ever deleted; [poll] reads [queues] and [nextReadIndex] of the context in
    every iteration of its scan. *)
From S2P Require Import Prelude EventQueue Handles SensorsHal PollLoop SensorThreads.

(** Where [device__close] is: not called, [k] devices closed, returned. *)
Inductive close_pc :=
| KOpen
| KClosing (k : nat)
| KDeleted.

(** Whether device [i] has been closed. *)
Definition dev_closed (c : close_pc) (i : nat) : bool :=
  match c with
  | KOpen => false
  | KClosing k => (i <? k)%nat
  | KDeleted => true
  end.

Record life := mkLife {
  lf_sys : system;
  lf_close : close_pc;
}.

Inductive life_label :=
| LThread (l : label)                 (* a step of a writer or of poll *)
| LPoll (i : nat) (closed : bool)     (* writer i calls device->poll *)
| LCloseCall                          (* device__close is called *)
| LClose (i : nat)                    (* dev->close(dev) of device i *)
| LDelete                             (* delete ctx *)
| LUseAfterFree.                      (* an access of the deleted context *)

(** The step in which writer [i] calls [device->poll]. *)
Definition calls_poll (i : nat) (s s' : system) : bool :=
  match sys_writers s !! i, sys_writers s' !! i with
  | Some WLock, Some (WPoll _ _ _) => true
  | _, _ => false
  end.

Definition reads_context (l : label) : bool :=
  match l with LTook _ => true | _ => false end.

Section Steps.
Context `{SensorsHeader} (t : HandleTable).

(** [None] after an access of the deleted context.  The framework does not call
    [poll] once it has called [close]; a call in progress goes on. *)
Inductive life_step : option life -> life_label -> option life -> Prop :=
| f_init s c :
    sys_mutex s = MInit ->
    life_step (Some (mkLife s c)) (LThread LTau)
      (Some (mkLife (set_reader s (sys_reader s) (sys_waiting s) MFree) c))
| f_writer i s l s' c :
    writer_step i s l s' ->
    life_step (Some (mkLife s c))
      (if calls_poll i s s' then LPoll i (dev_closed c i) else LThread l)
      (Some (mkLife s' c))
| f_reader s l s' c :
    reader_step t s l s' -> (c = KOpen \/ sys_reader s <> RIdle) ->
    (reads_context l = false \/ c <> KDeleted) ->
    life_step (Some (mkLife s c)) (LThread l) (Some (mkLife s' c))
| f_reader_freed s l s' :
    reader_step t s l s' -> reads_context l = true ->
    life_step (Some (mkLife s KDeleted)) LUseAfterFree None
| f_close s :
    life_step (Some (mkLife s KOpen)) LCloseCall (Some (mkLife s (KClosing 0)))
| f_close_device s k :
    (k < length (sys_writers s))%nat ->
    life_step (Some (mkLife s (KClosing k))) (LClose k) (Some (mkLife s (KClosing (S k))))
| f_delete s :
    life_step (Some (mkLife s (KClosing (length (sys_writers s))))) LDelete
      (Some (mkLife s KDeleted)).
End Steps.

(** The devices that were closed, in order. *)
Definition closes (tr : list life_label) : list nat :=
  flat_map (fun l => match l with LClose i => [i] | _ => [] end) tr.

(** What a writer has got of its sub-HAL and not yet put into its queue. *)
Definition unmarked (pc : writer_pc) : Z :=
  match pc with WMark evs => Z.of_nat (length evs) | _ => 0 end.

(** How many devices [device__close] has closed, of [n]. *)
Definition closed_count (c : close_pc) (n : nat) : nat :=
  match c with KOpen => 0 | KClosing k => k | KDeleted => n end.

(** * Theorems *)

Section Close.
Context `{SensorsHeader} (t : HandleTable) (mems : list (list sensors_event_t)).
Hypothesis Hmems : mems_ok mems.

Abbreviation opened := (Some (mkLife (opened_system mems) KOpen)).

Lemma closes_app l1 l2 : closes (l1 ++ l2) = closes l1 ++ closes l2.
Proof. apply flat_map_app. Qed.

(** What the threads do is a run of SensorThreads.v. *)
Record life_ok (tr : list life_label) (p : option life) : Prop := mk_life_ok {
  lo_run s c : p = Some (mkLife s c) -> exists tr', run (sys_step t) (opened_system mems) tr' s;
  lo_closes s c : p = Some (mkLife s c) ->
    closes tr = seq 0 (closed_count c (length mems)) /\
    (closed_count c (length mems) <= length mems)%nat;
}.

Lemma run_writers tr s :
  run (sys_step t) (opened_system mems) tr s ->
  system_ok s /\ length (sys_writers s) = length mems.
Proof.
  intros Hrun. pose proof (reachable_ok t mems s tr Hmems Hrun) as Hok. split; [done|].
  by rw -(Forall2_length _ _ _ (sy_writers _ Hok)) (run_queue_count t mems tr s Hmems Hrun).
Qed.

Lemma life_run_ok tr p : run (life_step t) opened tr p -> life_ok tr p.
Proof.
  revert tr p. apply (run_invariant _ life_ok).
  { constructor; intros s c [= <- <-]; [exists []; constructor|by split; [|simpl; lia]]. }
  intros tr p l p' [Hrun Hcl] Hs.
  assert (forall s c s' c' l0, p = Some (mkLife s c) -> p' = Some (mkLife s' c') ->
    sys_step t s l0 s' -> c' = c -> closes [l] = [] -> life_ok (tr ++ [l]) p') as Hthread.
  { intros s c s' c' l0 Hp -> Hstep -> Hl. destruct (Hrun s c Hp) as [tr' Hr].
    constructor; intros s0 c0 [= <- <-].
    - exists (tr' ++ [l0]). by econstructor.
    - rw closes_app Hl app_nil_r. by apply (Hcl s c). }
  destruct Hs as [s c Hm|i s l0 s' c Hw|s l0 s' c Hr Hc Hf|s l0 s' Hr Hf|s|s k Hk|s].
  - eapply Hthread; [done|done|by apply step_init|done|done].
  - eapply Hthread; [done|done|by eapply step_writer|done|]. by case_match.
  - eapply Hthread; [done|done|by apply step_reader|done|done].
  - by constructor.
  - constructor; intros s0 c0 [= <- <-]; [by eapply Hrun|]. rw closes_app app_nil_r.
    by destruct (Hcl s KOpen).
  - destruct (Hrun s _ eq_refl) as [tr' Hr]. destruct (run_writers tr' s Hr) as [_ Hlen].
    destruct (Hcl s _ eq_refl) as [Hseq _]. simpl in Hseq.
    constructor; intros s0 c0 [= <- <-]; [by exists tr'|]. rw closes_app Hseq /=.
    split; [by rw -seq_S|lia].
  - destruct (Hrun s _ eq_refl) as [tr' Hr]. destruct (run_writers tr' s Hr) as [_ Hlen].
    destruct (Hcl s _ eq_refl) as [Hseq _]. simpl in Hseq.
    constructor; intros s0 c0 [= <- <-]; [by exists tr'|]. rw closes_app Hseq /= app_nil_r Hlen.
    by split.
Qed.

(** ** After the close *)

Lemma writer_poll_step i s s' l b n :
  writer_step i s l s' -> sys_writers s !! i = Some WLock ->
  sys_writers s' !! i = Some (WPoll b n []) ->
  life_step t (Some (mkLife s KDeleted)) (LPoll i true) (Some (mkLife s' KDeleted)).
Proof.
  intros Hw Hpc Hpc'. pose proof (f_writer t i s l s' KDeleted Hw) as Hs.
  unfold calls_poll in Hs. by rw Hpc Hpc' in Hs.
Qed.

(** A waiting writer whose queue has room calls [poll] next. *)
Lemma waiting_polls s i q :
  sys_queues s !! i = Some q -> sys_writers s !! i = Some WLock -> sys_mutex s = MFree ->
  mSize q <> mCapacity q ->
  exists s', life_step t (Some (mkLife s KDeleted)) (LPoll i true) (Some (mkLife s' KDeleted)).
Proof.
  intros Hq Hpc Hm Hfull.
  destruct (getWritableRegion q SENSOR_EVENT_QUEUE_CAPACITY) as [n p] eqn:Hg.
  eexists. eapply (writer_poll_step i s _ LTau p n); [by eapply w_region|done|].
  simpl. rw list_lookup_insert_eq; [done|]. by eapply lookup_lt_Some.
Qed.

Lemma room_polls s i q pc :
  system_ok s -> sys_queues s !! i = Some q -> sys_writers s !! i = Some pc ->
  sys_mutex s = MFree -> getSize q + unmarked pc < SENSOR_EVENT_QUEUE_CAPACITY ->
  exists tr s', run (life_step t) (Some (mkLife s KDeleted)) tr (Some (mkLife s' KDeleted)) /\
    LPoll i true ∈ tr.
Proof.
  intros Hok Hq Hpc Hm Hroom.
  destruct (writer_lookup s i q pc Hok Hq Hpc) as (Hwf & Hcap & Hpcok).
  assert ((i < length (sys_writers s))%nat) as Hi by (by eapply lookup_lt_Some).
  assert (forall l s1 q1, writer_step i s l s1 -> calls_poll i s s1 = false ->
    sys_queues s1 !! i = Some q1 -> sys_writers s1 !! i = Some WLock -> sys_mutex s1 = MFree ->
    mSize q1 <> mCapacity q1 ->
    exists tr s', run (life_step t) (Some (mkLife s KDeleted)) tr (Some (mkLife s' KDeleted)) /\
      LPoll i true ∈ tr) as Hthen.
  { intros l s1 q1 Hw Hno Hq1 Hpc1 Hm1 Hf1.
    destruct (waiting_polls s1 i q1 Hq1 Hpc1 Hm1 Hf1) as [s2 Hs2].
    exists [LThread l; LPoll i true], s2. split; [|by right; left].
    eapply run_cons; [|by apply run_one].
    pose proof (f_writer t i s l s1 KDeleted Hw) as Hs. by rw Hno in Hs. }
  unfold getSize in Hroom.
  destruct pc as [| |b n evs|evs]; simpl in Hroom, Hpcok.
  - destruct (waiting_polls s i q Hq Hpc Hm) as [s' Hs]; [lia|].
    exists [LPoll i true], s'. split; [by apply run_one|by left].
  - lia.
  - eapply (Hthen LTau _ q); [by eapply w_poll_nothing| |done| |done|lia].
    + unfold calls_poll. by rw Hpc.
    + simpl. by rw list_lookup_insert_eq.
  - destruct Hpcok as [_ Hreg]. pose proof (w_mark i s q evs Hq Hpc Hm) as Hw.
    assert (i < length (sys_queues s))%nat by (by eapply lookup_lt_Some).
    eapply (Hthen _ _ (markAsWritten q (Z.of_nat (length evs)))); [exact Hw| | | |by case_match|].
    + unfold calls_poll. by rw Hpc.
    + case_match; simpl; by rw list_lookup_insert_eq.
    + case_match; simpl; by rw list_lookup_insert_eq.
    + destruct Hwf. simpl. rw i32_id; [lia|]. unfold SENSOR_EVENT_QUEUE_CAPACITY in *. ilia.
Qed.

(** A writer whose queue is full when the context is deleted. *)
Record never_polls (i : nat) (p : option life) : Prop := mk_never_polls {
  st_state : exists s q, p = Some (mkLife s KDeleted) /\ sys_reader s = RIdle /\
    sys_queues s !! i = Some q /\ mSize q = mCapacity q /\
    (sys_writers s !! i = Some WLock \/ sys_writers s !! i = Some WSleep);
}.

Lemma never_polls_step i p l p' : never_polls i p -> life_step t p l p' -> never_polls i p' /\ l <> LPoll i true.
Proof.
  intros [(s & q & -> & Hrd & Hq & Hfull & Hpc)] Hs.
  inversion Hs as [s0 c Hm|j s0 l0 s' c Hw|s0 l0 s' c Hr Hc Hf|s0 l0 s' Hr Hf|s0|s0 k Hk|s0]; subst.
  - split; [|done]. constructor. by exists (set_reader s (sys_reader s) (sys_waiting s) MFree), q.
  - assert (never_polls i (Some (mkLife s' KDeleted)) /\ (j = i -> calls_poll i s s' = false))
      as [Hst Hno]; cycle 1.
    { split; [done|]. destruct (calls_poll j s s') eqn:Hc; [|done]. intros [= ->].
      by rw (Hno eq_refl) in Hc. }
    destruct (decide (j = i)) as [->|Hji].
    + split.
      * constructor. inversion Hw; subst; simplify_eq; try (by destruct Hpc; congruence).
        -- eexists _, q. split; [done|]. split; [done|]. split; [done|]. split; [done|]. right.
           simpl. rw list_lookup_insert_eq; [done|]. by destruct Hpc; eapply lookup_lt_Some.
        -- eexists _, q. split; [done|]. split; [done|]. split; [done|]. split; [done|]. left.
           simpl. rw list_lookup_insert_eq; [done|]. by destruct Hpc; eapply lookup_lt_Some.
      * intros _. unfold calls_poll. inversion Hw; subst; simplify_eq; try (by destruct Hpc; congruence);
          simpl; destruct Hpc as [Hpc|Hpc]; rw Hpc; try done;
          rw list_lookup_insert_eq; try done; by eapply lookup_lt_Some.
    + split; [|done]. constructor.
      assert (sys_reader s' = RIdle /\ sys_queues s' !! i = Some q /\
        sys_writers s' !! i = sys_writers s !! i) as (Hrd' & Hq' & Hpc').
      { inversion Hw; subst; simpl; try case_match; simpl; rw ?list_lookup_insert_ne; try done;
          split_and!; try done; by rw Hrd. }
      exists s', q. by rw Hpc'.
  - by destruct Hc.
  - inversion Hr; subst; done || congruence.
Qed.

Lemma never_polls_run i tr p p' :
  never_polls i p -> run (life_step t) p tr p' -> never_polls i p' /\ LPoll i true ∉ tr.
Proof.
  intros Hst Hrun. revert tr p' Hrun.
  apply (run_invariant _ (fun tr p => never_polls i p /\ LPoll i true ∉ tr)).
  { split; [done|]. apply not_elem_of_nil. }
  intros tr p1 l p2 [Hst1 Htr] Hs. destruct (never_polls_step i p1 l p2 Hst1 Hs) as [Hst2 Hl].
  split; [done|]. apply not_elem_of_app. split; [done|]. intros Hin%list_elem_of_singleton. by subst l.
Qed.
End Close.

(** ** Property *)

(** C22: what closing the HAL does to its threads.  In every interleaving
    [device__close] closes each sub-HAL's device once, in order.  It does not
    stop the writer threads: each of them can still go on to call [poll] of its
    device, which is closed, and where it waits for the mutex and its queue has
    room this is all it can do; only a writer whose queue is full is harmless,
    and that one is never released.  And a call of [poll] that is still scanning
    accesses the deleted context in its next step. *)
Theorem close_leaves_writers `{SensorsHeader} (t : HandleTable) mems tr s :
  mems_ok mems ->
  run (life_step t) (Some (mkLife (opened_system mems) KOpen)) tr (Some (mkLife s KDeleted)) ->
  closes tr = seq 0 (length mems) /\
  (forall i q pc,
     sys_queues s !! i = Some q -> sys_writers s !! i = Some pc ->
     sys_reader s = RIdle -> sys_mutex s <> MInit ->
     (getSize q + unmarked pc < SENSOR_EVENT_QUEUE_CAPACITY ->
      (exists tr' s', run (life_step t) (Some (mkLife s KDeleted)) tr' (Some (mkLife s' KDeleted)) /\
         LPoll i true ∈ tr') /\
      (pc = WLock -> forall l s', writer_step i s l s' -> calls_poll i s s' = true)) /\
     (getSize q = SENSOR_EVENT_QUEUE_CAPACITY -> forall tr' p,
      run (life_step t) (Some (mkLife s KDeleted)) tr' p ->
      (LPoll i true ∉ tr') /\ exists s', p = Some (mkLife s' KDeleted) /\
        (sys_writers s' !! i = Some WLock \/ sys_writers s' !! i = Some WSleep))) /\
  (forall m e r d,
     sys_reader s = RScan m e r d ->
     scan_guard (queueCount s) m (mkScan (sys_queues s) (sys_next s) e r d) = true ->
     life_step t (Some (mkLife s KDeleted)) LUseAfterFree None /\
     forall l s', reader_step t s l s' -> reads_context l = true).
Proof.
  intros Hm Hrun. destruct (life_run_ok t mems Hm tr _ Hrun) as [Hr Hcl].
  destruct (Hr s _ eq_refl) as [tr' Hr']. destruct (run_writers t mems Hm tr' s Hr') as [Hok _].
  split; [by apply (Hcl s KDeleted)|]. pose proof (sy_reader _ Hok) as Hrok. unfold reader_ok in Hrok.
  split.
  - intros i q pc Hq Hpc Hrd Hinit. rw Hrd in Hrok.
    assert (sys_mutex s = MFree) as Hfree by by destruct (sys_mutex s).
    destruct (writer_lookup s i q pc Hok Hq Hpc) as (Hwf & Hcap & Hpcok). unfold getSize. split.
    + intros Hroom. split; [by eapply room_polls|]. intros -> l s' Hw. simpl in Hroom.
      unfold calls_poll. rw Hpc. inversion Hw; subst; simplify_eq; [lia|]. simpl.
      rw list_lookup_insert_eq; [done|]. by eapply lookup_lt_Some.
    + intros Hfull tr2 p Hrun2. destruct (never_polls_run t i tr2 (Some (mkLife s KDeleted)) p) as [[Hst] Hno];
        [|done|].
      * constructor. exists s, q. split_and!; try done; [lia|].
        destruct pc as [| |b n evs|evs]; simpl in Hpcok; [by left|by right|..].
        -- destruct Hpcok as (_ & ? & []). lia.
        -- destruct Hpcok as [Hne []]. destruct evs; [done|]. simpl in *. lia.
      * split; [done|]. destruct Hst as (s2 & q2 & -> & _ & _ & _ & Hpc2). by exists s2.
  - intros m e r d Hrd Hg. rw Hrd in Hrok. destruct Hrok as (_ & _ & Hscan).
    rw -(queueCount_id s Hok) in Hscan.
    assert (forall l s', reader_step t s l s' -> reads_context l = true) as Hall.
    { intros l s' Hs. inversion Hs; subst; simplify_eq; try done; congruence. }
    split; [|done].
    destruct (scan_step_cases t _ m _ Hscan Hg) as (q0 & _ & _ & [[_ Hs]|(? & ? & _ & Hs)]);
      (eapply f_reader_freed; [by eapply r_scan|done]).
Qed.

(** Two sub-HALs; the list is built, and the HAL closed at once. *)
Lemma close_leaves_writers_witness :
  let H := android9_sensors_h in
  exists s tr s',
    run (life_step sample_table) (Some (mkLife (opened_system sample_mems) KOpen))
      [LThread LTau; LCloseCall; LClose 0; LClose 1; LDelete] (Some (mkLife s KDeleted)) /\
    run (life_step sample_table) (Some (mkLife s KDeleted)) tr (Some (mkLife s' KDeleted)) /\
    LPoll 1 true ∈ tr.
Proof.
  intros H.
  set (s0 := opened_system sample_mems).
  set (s := set_reader s0 (sys_reader s0) (sys_waiting s0) MFree).
  assert (run (life_step sample_table) (Some (mkLife s0 KOpen))
    [LThread LTau; LCloseCall; LClose 0; LClose 1; LDelete] (Some (mkLife s KDeleted))) as Hrun.
  { eapply run_cons; [apply f_init; reflexivity|]. eapply run_cons; [apply f_close|].
    eapply run_cons; [apply f_close_device; simpl; lia|].
    eapply run_cons; [apply f_close_device; simpl; lia|]. apply run_one. apply (f_delete _ s). }
  destruct (@close_leaves_writers H sample_table sample_mems _ s
    ltac:(split; [vm_compute; split; reflexivity|repeat constructor]) Hrun) as (_ & Hw & _).
  destruct (Hw 1%nat (new_SensorEventQueue SENSOR_EVENT_QUEUE_CAPACITY (replicate 36 (sample_event 0 0)))
    WLock) as [[(tr & s' & Hrun' & Hin) _] _].
  - reflexivity.
  - reflexivity.
  - reflexivity.
  - discriminate.
  - reflexivity.
  - exists s, tr, s'. split; [exact Hrun|]. split; [exact Hrun'|exact Hin].
Defined.
