(* ===== verification/InitThreads.v ===== *)
(** * The initialisation from several threads

    [module__get_sensors_list] and [open_sensors] (sensors/multihal.cpp) share
    the globals of the initialisation under three mutexes.  SensorInit.v models
    each call as one computation; here a call is split at every lock, unlock and
    access of a shared object, down to one sub-HAL or one sensor per step, so
    that the calls of several threads can be interleaved.  [alone] puts the
    steps of one thread together again: without others, a call does what
    SensorInit.v says ([list_alone], [open_alone]). *)
From S2P Require Import Prelude Handles SensorsHal Dispatch SensorInit.

(** The two callers of [lazy_init_modules]. *)
Inductive caller := FromOpen | FromList.

(** Where a call is, with the locals it still needs. *)
Inductive init_pc :=
(* lazy_init_modules *)
| PLockModules (c : caller)
| PCheckModules (c : caller)
| PLoad (c : caller) (so_paths : list string)   (* nothing left: unlock *)
(* lazy_init_sensors_list *)
| PLockSensors
| PCheckList
| PUnlockEarly
| PResetCount
| PCount (modules : list Z)
| PAllocate
| PCopyModule (modules : list Z) (module_index mutable_sensor_index : Z)
    (mutable_sensor_list : list sensor_t)
| PCopySensor (m : Z) (locals : list sensor_t) (modules : list Z)
    (module_index mutable_sensor_index : Z) (mutable_sensor_list : list sensor_t)
| PDeleteVersions
| PUnlockSensors
| PUnlockQueue
(* module__get_sensors_list *)
| PRead
| PListed (r : Z * option (list sensor_t))
(* open_sensors *)
| PLockQueue
| PNewVersions
| POpen (modules : list Z) (devices : list hw_device_t)
| PInsert (m : Z) (sub_hw_device : hw_device_t) (modules : list Z) (devices : list hw_device_t)
| POpened (dev : sensors_poll_context_t).

(** The globals, and whether [init_modules_mutex] and [init_sensors_mutex] are
    locked; [queue_mutex] is among the globals. *)
Record shared (W : Type) := mkShared {
  sh_init : init_state W;
  init_modules_mutex : bool;
  init_sensors_mutex : bool;
}.
Arguments mkShared {W}.
Arguments sh_init {W}.
Arguments init_modules_mutex {W}.
Arguments init_sensors_mutex {W}.

Definition set_modules_mutex {W} (sh : shared W) (b : bool) : shared W :=
  mkShared (sh_init sh) b (init_sensors_mutex sh).
Definition set_sensors_mutex {W} (sh : shared W) (b : bool) : shared W :=
  mkShared (sh_init sh) (init_modules_mutex sh) b.
Definition set_init {W} (sh : shared W) (s : init_state W) : shared W :=
  mkShared s (init_modules_mutex sh) (init_sensors_mutex sh).

(** The state in which no thread is in a critical section. *)
Definition unlocked {W} (s : init_state W) : shared W := mkShared s false false.

Section Steps.
Context `{SensorsHeader} {W : Type}.
Variable read_file : string -> option string.
Variable load_library : string -> dl_result.
Variable get_sensors_list : Z -> W -> list sensor_t * W.
Variable open_module : Z -> W -> (Z * hw_device_t) * W.
Variable junk_sensor : nat -> sensor_t.
Variable junk_batch : nat -> batch_data.
Variable proxy : Z.

Definition config : Type := init_pc * shared W.

(** The access of [m], after which the call is at the pc that [k] says. *)
Definition access {A} (m : initM (init_state W) A) (k : A -> init_pc) (sh : shared W) :
    outcome config :=
  match m (sh_init sh) with
  | Done (a, s) => Done (k a, set_init sh s)
  | Crash => Crash
  | Deadlock => Deadlock
  end.

(** [pthread_mutex_lock]: no step while the mutex is locked. *)
Definition lock (locked : bool) (c : config) : outcome config :=
  if locked then Deadlock else Done c.

(** The next step of a call: [Done], undefined ([Crash]), or not possible now
    ([Deadlock], also of a call that has returned).  First [lazy_init_modules]. *)
Definition modules_next (pc : init_pc) (sh : shared W) : outcome config :=
  match pc with
  | PLockModules c =>
      lock (init_modules_mutex sh) (PCheckModules c, set_modules_mutex sh true)
  | PCheckModules c =>
      access (s ← get_init;
        match sub_hw_modules s with
        | Some _ => mret []
        | None =>
            so_paths ← or_crash (get_so_paths read_file);
            put_init (with_modules s []);; mret so_paths
        end) (PLoad c) sh
  | PLoad c (path :: so_paths) =>
      access (s ← get_init;
        modules ← or_crash (sub_hw_modules s);
        put_init (with_modules s (modules ++ load_modules load_library [path])))
        (fun _ => PLoad c so_paths) sh
  | PLoad c [] =>
      Done (match c with FromOpen => PLockQueue | FromList => PResetCount end,
            set_modules_mutex sh false)
  | _ => Deadlock
  end.

(** [module__get_sensors_list], with [lazy_init_sensors_list]. *)
Definition list_next (pc : init_pc) (sh : shared W) : outcome config :=
  match pc with
  | PLockSensors =>
      lock (init_sensors_mutex sh) (PCheckList, set_sensors_mutex sh true)
  | PCheckList =>
      access get_init (fun s => match global_sensors_list (in_globals s) with
        | Some _ => PUnlockEarly | None => PLockModules FromList end) sh
  | PUnlockEarly => Done (PRead, set_sensors_mutex sh false)
  | PResetCount =>
      access (s ← get_init; put_init (with_count s 0);; or_crash (sub_hw_modules s)) PCount sh
  | PCount (m :: modules) =>
      access (count_sensors get_sensors_list [m]) (fun _ => PCount modules) sh
  | PCount [] => Done (PAllocate, sh)
  | PAllocate =>
      access (s ← get_init;
        let n := Z.to_nat (global_sensors_count s) in
        put_init (with_globals s
          {| g_table := g_table (in_globals s);
             global_sensors_list := global_sensors_list (in_globals s);
             sensors_batch_list := Some ((fun i => set_empty (junk_batch i) true) <$> seq 0 n);
             sensors_enable_state := Some (replicate n 0) |});;
        modules ← or_crash (sub_hw_modules s);
        mret (modules, junk_sensor <$> seq 0 n))
        (fun '(modules, list) => PCopyModule modules 0 0 list) sh
  | PCopyModule (m :: modules) module_index index list =>
      access (call_get_sensors_list get_sensors_list m)
        (fun locals => PCopySensor m locals modules module_index index list) sh
  | PCopySensor m (local_sensor :: locals) modules module_index index list =>
      access (copy_sensors m module_index [local_sensor] index list)
        (fun '(index', list') => PCopySensor m locals modules module_index index' list') sh
  | PCopySensor m [] modules module_index index list =>
      Done (PCopyModule modules (i32 (module_index + 1)) index list, sh)
  | PCopyModule [] _ _ list =>
      access (s ← get_init;
        put_init (with_globals s
          {| g_table := g_table (in_globals s);
             global_sensors_list := Some list;
             sensors_batch_list := sensors_batch_list (in_globals s);
             sensors_enable_state := sensors_enable_state (in_globals s) |}))
        (fun _ => PDeleteVersions) sh
  | PDeleteVersions =>
      access (s ← get_init; put_init (with_versions s None)) (fun _ => PUnlockSensors) sh
  | PUnlockSensors => Done (PUnlockQueue, set_sensors_mutex sh false)
  | PUnlockQueue =>
      access (s ← get_init; put_init (with_mutex s false)) (fun _ => PRead) sh
  | PRead =>
      access (s ← get_init;
        mret (global_sensors_count s, global_sensors_list (in_globals s))) PListed sh
  | _ => Deadlock
  end.

(** [open_sensors], after [lazy_init_modules]. *)
Definition open_next (pc : init_pc) (sh : shared W) : outcome config :=
  match pc with
  | PLockQueue =>
      access (s ← get_init;
        if queue_mutex s then deadlock else put_init (with_mutex s true))
        (fun _ => PNewVersions) sh
  | PNewVersions =>
      access (s ← get_init; put_init (with_versions s (Some ∅));; or_crash (sub_hw_modules s))
        (fun modules => POpen modules []) sh
  | POpen (m :: modules) devices =>
      access (call_open open_module m)
        (fun '(sub_open_result, sub_hw_device) =>
           if sub_open_result =? 0 then PInsert m sub_hw_device modules devices
           else POpen modules devices) sh
  | PInsert m sub_hw_device modules devices =>
      access (s ← get_init;
        versions ← or_crash (sub_hw_versions s);
        put_init (with_versions s (Some
          (match versions !! m with
           | Some _ => versions
           | None => <[m := dev_version sub_hw_device]> versions
           end))))
        (fun _ => POpen modules (devices ++ [sub_hw_device])) sh
  | POpen [] devices =>
      Done (POpened {| proxy_device := proxy; sub_hw_devices := devices |}, sh)
  | _ => Deadlock
  end.

Definition init_next (pc : init_pc) (sh : shared W) : outcome config :=
  match pc with
  | PLockModules _ | PCheckModules _ | PLoad _ _ => modules_next pc sh
  | PLockQueue | PNewVersions | POpen _ _ | PInsert _ _ _ _ => open_next pc sh
  | _ => list_next pc sh
  end.

Definition returned (pc : init_pc) : bool :=
  match pc with PListed _ | POpened _ => true | _ => false end.

(** The calls, and the state they share; [None] after a crash. *)
Definition init_pool : Type := option (shared W * list init_pc).

(** Thread [j] makes its next step. *)
Inductive init_pool_step : init_pool -> nat -> init_pool -> Prop :=
| ip_step sh pcs j pc pc' sh' :
    pcs !! j = Some pc -> init_next pc sh = Done (pc', sh') ->
    init_pool_step (Some (sh, pcs)) j (Some (sh', <[j := pc']> pcs))
| ip_crash sh pcs j pc :
    pcs !! j = Some pc -> init_next pc sh = Crash ->
    init_pool_step (Some (sh, pcs)) j None.

(** One thread without others: where it gets in [k] steps. *)
Inductive alone : nat -> config -> outcome config -> Prop :=
| alone_here c : alone 0 c (Done c)
| alone_step k pc sh c o : init_next pc sh = Done c -> alone k c o -> alone (S k) (pc, sh) o
| alone_crash pc sh : init_next pc sh = Crash -> alone 0 (pc, sh) Crash
| alone_blocked pc sh : init_next pc sh = Deadlock -> alone 0 (pc, sh) Deadlock.
End Steps.

(** ** Specification *)

(** Where [lazy_init_modules] returns to. *)
Definition after_modules (c : caller) : init_pc :=
  match c with FromOpen => PLockQueue | FromList => PResetCount end.

(** In the critical section of [init_sensors_mutex]. *)
Definition inside (pc : init_pc) : bool :=
  match pc with
  | PLockModules FromList | PCheckModules FromList | PLoad FromList _
  | PCheckList | PUnlockEarly | PResetCount | PCount _ | PAllocate | PCopyModule _ _ _ _
  | PCopySensor _ _ _ _ _ _ | PDeleteVersions | PUnlockSensors => true
  | _ => false
  end.

(** Steps that a call still has once the list is built, at most. *)
Definition rank (pc : init_pc) : nat :=
  match pc with
  | PLockSensors => 4
  | PCheckList => 3
  | PUnlockEarly | PUnlockQueue => 2
  | PRead => 1
  | _ => 0
  end.

(** * Theorems *)

Section Alone.
Context `{SensorsHeader} {W : Type}.
Variable read_file : string -> option string.
Variable load_library : string -> dl_result.
Variable get_sensors_list : Z -> W -> list sensor_t * W.
Variable open_module : Z -> W -> (Z * hw_device_t) * W.
Variable junk_sensor : nat -> sensor_t.
Variable junk_batch : nat -> batch_data.
Variable proxy : Z.

Abbreviation next := (init_next read_file load_library get_sensors_list open_module
  junk_sensor junk_batch proxy).
Abbreviation alone := (alone read_file load_library get_sensors_list open_module
  junk_sensor junk_batch proxy).
Abbreviation I := (initM (init_state W)).

Lemma alone_app k1 k2 c1 c2 o : alone k1 c1 (Done c2) -> alone k2 c2 o -> alone (k1 + k2) c1 o.
Proof.
  intros H1 H2. remember (Done c2) as d eqn:Hd. revert Hd.
  induction H1 as [c|k pc sh c o' Hn H1 IH| |]; intros Hd; try done.
  - by injection Hd as ->.
  - econstructor; [done|]. by apply IH.
Qed.

(** From [pc], with the mutexes [a] and [b], a thread alone does what [m] does,
    and is at the pc [k] says afterwards. *)
Definition meets {A} (pc : init_pc) (a b : bool) (m : I A) (k : A -> init_pc) (a' b' : bool) : Prop :=
  forall s, exists n, alone n (pc, mkShared s a b)
    match m s with
    | Done (x, s') => Done (k x, mkShared s' a' b')
    | Crash => Crash
    | Deadlock => Deadlock
    end.

Lemma meets_bind {A B} pc a b (m : I A) k a1 b1 (f : A -> I B) k2 a2 b2 :
  meets pc a b m k a1 b1 -> (forall x, meets (k x) a1 b1 (f x) k2 a2 b2) ->
  meets pc a b (m ≫= f) k2 a2 b2.
Proof.
  intros Hm Hf s. destruct (Hm s) as [n1 H1]. unfold mbind, initM_bind.
  destruct (m s) as [[x s1]| |]; [|by exists n1..].
  destruct (Hf x s1) as [n2 H2]. exists (n1 + n2)%nat. by eapply alone_app.
Qed.

Lemma meets_access {A} pc a b (m : I A) k :
  (forall s, next pc (mkShared s a b) = access m k (mkShared s a b)) -> meets pc a b m k a b.
Proof.
  intros Hn s. specialize (Hn s). unfold access in Hn. simpl in Hn.
  destruct (m s) as [[x s']| |].
  - exists 1%nat. econstructor; [done|constructor].
  - exists 0%nat. by constructor.
  - exists 0%nat. by constructor.
Qed.

Lemma meets_ext {A} pc a b (m m' : I A) k a' b' :
  (forall s, m s = m' s) -> meets pc a b m k a' b' -> meets pc a b m' k a' b'.
Proof. intros Heq Hm s. destruct (Hm s) as [n Hn]. exists n. by rw -Heq. Qed.

(** A step that only locks or unlocks, or goes on. *)
Lemma meets_jump {A} pc a b pc1 a1 b1 (m : I A) k a' b' :
  (forall s, next pc (mkShared s a b) = Done (pc1, mkShared s a1 b1)) ->
  meets pc1 a1 b1 m k a' b' -> meets pc a b m k a' b'.
Proof. intros Hn Hm s. destruct (Hm s) as [n Ha]. exists (S n). by econstructor. Qed.

Lemma meets_here a b {A} (x : A) k : meets (k x) a b (mret x) k a b.
Proof. intros s. exists 0%nat. constructor. Qed.

(** ** lazy_init_modules *)

Lemma load_alone c so_paths ms s b :
  sub_hw_modules s = Some ms ->
  exists n, alone n (PLoad c so_paths, mkShared s true b)
    (Done (after_modules c,
      mkShared (with_modules s (ms ++ load_modules load_library so_paths)) false b)).
Proof.
  revert ms s. induction so_paths as [|path so_paths IH]; intros ms s Hs.
  - exists 1%nat. econstructor; [done|]. simpl. rw app_nil_r.
    destruct s. simpl in *. subst. constructor.
  - destruct (IH (ms ++ load_modules load_library [path])
      (with_modules s (ms ++ load_modules load_library [path]))) as [n Hn]; [done|].
    exists (S n). econstructor.
    + simpl. unfold access. init_unfold. simpl. by rw Hs.
    + rw -app_assoc in Hn. simpl in Hn |- *. by destruct (load_library path).
Qed.

Lemma modules_alone c b :
  meets (PLockModules c) false b (lazy_init_modules read_file load_library)
    (fun _ => after_modules c) false b.
Proof.
  apply (meets_jump _ _ _ (PCheckModules c) true b); [done|]. intros s.
  unfold lazy_init_modules. init_unfold.
  destruct (sub_hw_modules s) as [ms|] eqn:Hs.
  - destruct (load_alone c [] ms s b Hs) as [n Hn]. exists (S n). econstructor.
    + simpl. unfold access. init_unfold. simpl. by rw Hs.
    + simpl in Hn. rw app_nil_r in Hn. destruct s. simpl in *. by subst.
  - destruct (get_so_paths read_file) as [so_paths|] eqn:Hp.
    + destruct (load_alone c so_paths [] (with_modules s []) b) as [n Hn]; [done|].
      exists (S n). econstructor; [|exact Hn].
      simpl. unfold access. init_unfold. simpl. by rw Hs Hp.
    + exists 0%nat. constructor. simpl. unfold access. init_unfold. simpl. by rw Hs Hp.
Qed.

(** ** module__get_sensors_list *)

Lemma count_alone modules a b :
  meets (PCount modules) a b (count_sensors get_sensors_list modules) (fun _ => PAllocate) a b.
Proof.
  induction modules as [|m modules IH].
  - apply (meets_jump _ _ _ PAllocate a b); [done|]. apply (meets_here _ _ tt (fun _ => PAllocate)).
  - eapply meets_ext; [|eapply (meets_bind _ _ _ (count_sensors get_sensors_list [m])
      (fun _ => PCount modules)); [by apply meets_access|intros u; exact IH]].
    intros s. unfold call_get_sensors_list. simpl. unfold call_get_sensors_list. init_unfold.
    by destruct (get_sensors_list m (in_world s)).
Qed.

Lemma copy_sensors_cons m mi sn locals idx lst (s : init_state W) :
  copy_sensors m mi (sn :: locals) idx lst s =
    ('(idx', lst') ← copy_sensors m mi [sn] idx lst; copy_sensors m mi locals idx' lst') s.
Proof.
  simpl. init_unfold. destruct (arr_set lst idx sn); [|done]. simpl.
  destruct (sub_hw_versions s) as [vs|]; [|done]. destruct (vs !! m); [|done].
  by destruct (arr_set _ _ _).
Qed.

Lemma copy_sensors_alone m locals modules mi idx lst a b :
  meets (PCopySensor m locals modules mi idx lst) a b (copy_sensors m mi locals idx lst)
    (fun '(idx', lst') => PCopyModule modules (i32 (mi + 1)) idx' lst') a b.
Proof.
  revert idx lst. induction locals as [|sn locals IH]; intros idx lst.
  - apply (meets_jump _ _ _ (PCopyModule modules (i32 (mi + 1)) idx lst) a b); [done|].
    apply (meets_here _ _ (idx, lst) (fun '(idx', lst') => PCopyModule modules (i32 (mi + 1)) idx' lst')).
  - eapply meets_ext; [intros s; symmetry; apply copy_sensors_cons|].
    eapply (meets_bind _ _ _ _ (fun '(idx', lst') => PCopySensor m locals modules mi idx' lst'));
      [by apply meets_access|]. intros [idx' lst']. apply IH.
Qed.

(** Building the list, up to the point where it is visible to all. *)
Definition publish (list : list sensor_t) : I unit :=
  s ← get_init;
  put_init (with_globals s
    {| g_table := g_table (in_globals s); global_sensors_list := Some list;
       sensors_batch_list := sensors_batch_list (in_globals s);
       sensors_enable_state := sensors_enable_state (in_globals s) |}).

Lemma copy_modules_alone modules mi idx lst a b :
  meets (PCopyModule modules mi idx lst) a b
    (list ← copy_modules get_sensors_list modules mi idx lst; publish list)
    (fun _ => PDeleteVersions) a b.
Proof.
  revert mi idx lst. induction modules as [|m modules IH]; intros mi idx lst.
  - by apply meets_access.
  - apply (meets_ext _ _ _ (locals ← call_get_sensors_list get_sensors_list m;
      '(idx', lst') ← copy_sensors m mi locals idx lst;
      list ← copy_modules get_sensors_list modules (i32 (mi + 1)) idx' lst'; publish list)).
    2: { apply (meets_bind _ _ _ _ (fun locals => PCopySensor m locals modules mi idx lst) a b);
           [by apply meets_access|]. intros locals.
         eapply meets_bind; [apply copy_sensors_alone|]. intros [idx' lst']. apply IH. }
    intros s. simpl. init_unfold. destruct (call_get_sensors_list _ _ _) as [[l s1]| |]; [|done..].
    by destruct (copy_sensors _ _ _ _ _ _) as [[[i1 l1] s2]| |].
Qed.

(** Opening [build]: the part of [lazy_init_sensors_list] under the mutex. *)
Definition build : I unit :=
  lazy_init_modules read_file load_library;;
  modules ← (s ← get_init; put_init (with_count s 0);; or_crash (sub_hw_modules s));
  count_sensors get_sensors_list modules;;
  '(modules, list) ← (s ← get_init;
    let n := Z.to_nat (global_sensors_count s) in
    put_init (with_globals s
      {| g_table := g_table (in_globals s);
         global_sensors_list := global_sensors_list (in_globals s);
         sensors_batch_list := Some ((fun i => set_empty (junk_batch i) true) <$> seq 0 n);
         sensors_enable_state := Some (replicate n 0) |});;
    modules ← or_crash (sub_hw_modules s);
    mret (modules, junk_sensor <$> seq 0 n));
  (list ← copy_modules get_sensors_list modules 0 0 list; publish list);;
  s ← get_init; put_init (with_versions s None).

Lemma build_alone :
  meets (PLockModules FromList) false true build (fun _ => PUnlockSensors) false true.
Proof.
  eapply meets_bind; [apply modules_alone|]. intros u.
  eapply (meets_bind _ _ _ _ PCount); [by apply meets_access|]. intros modules.
  eapply meets_bind; [apply count_alone|]. intros u'.
  eapply (meets_bind _ _ _ _ (fun '(modules, list) => PCopyModule modules 0 0 list));
    [by apply meets_access|]. intros [modules' list].
  eapply meets_bind; [apply copy_modules_alone|]. intros u''. by apply meets_access.
Qed.

Lemma count_sensors_modules modules (s s' : init_state W) :
  count_sensors get_sensors_list modules s = Done (tt, s') ->
  sub_hw_modules s' = sub_hw_modules s.
Proof.
  revert s. induction modules as [|m modules IH]; intros s; simpl.
  { init_unfold. by intros [= <-]. }
  unfold call_get_sensors_list. init_unfold.
  destruct (get_sensors_list m (in_world s)) as [l w]. intros Hd. by apply IH in Hd.
Qed.

(** [lazy_init_sensors_list] where the list is not built yet. *)
Lemma lazy_init_sensors_list_build s :
  global_sensors_list (in_globals s) = None ->
  lazy_init_sensors_list read_file load_library get_sensors_list junk_sensor junk_batch s =
    (build;; s ← get_init; put_init (with_mutex s false)) s.
Proof.
  intros Hg. unfold lazy_init_sensors_list, build, publish. unfold mbind at 1, initM_bind at 1.
  unfold get_init at 1. rw Hg. init_unfold.
  destruct (lazy_init_modules _ _ _) as [[u s1]| |]; [|done..]. simpl.
  destruct (sub_hw_modules s1) as [ms|] eqn:Hms; [|done].
  destruct (count_sensors _ _ _) as [[u' s2]| |] eqn:Hc; [|done..].
  destruct u'. apply count_sensors_modules in Hc. simpl in Hc. rw Hc.
  by destruct (copy_modules _ _ _ _ _ _) as [[l s3]| |].
Qed.

(** ** open_sensors *)

Lemma open_modules_alone modules devices a b :
  meets (POpen modules devices) a b (open_modules open_module modules devices)
    (fun devices => POpened {| proxy_device := proxy; sub_hw_devices := devices |}) a b.
Proof.
  revert devices. induction modules as [|m modules IH]; intros devices.
  - apply (meets_jump _ _ _ (POpened {| proxy_device := proxy; sub_hw_devices := devices |}) a b);
      [done|].
    apply (meets_here _ _ devices
      (fun devices => POpened {| proxy_device := proxy; sub_hw_devices := devices |})).
  - simpl. apply (meets_bind _ _ _ _ (fun '(sub_open_result, sub_hw_device) =>
        if sub_open_result =? 0 then PInsert m sub_hw_device modules devices
        else POpen modules devices) a b); [by apply meets_access|].
    intros [r d]. destruct (r =? 0); [|apply IH].
    apply (meets_ext _ _ _ ((s ← get_init; versions ← or_crash (sub_hw_versions s);
        put_init (with_versions s (Some (match versions !! m with
          | Some _ => versions | None => <[m := dev_version d]> versions end))));;
        open_modules open_module modules (devices ++ [d]))).
    + intros s. init_unfold. by destruct (sub_hw_versions s).
    + eapply (meets_bind _ _ _ _ (fun _ => POpen modules (devices ++ [d])));
        [by apply meets_access|]. intros u. apply IH.
Qed.

(** A call of [open_sensors] alone does what SensorInit.v says. *)
Lemma open_alone :
  meets (PLockModules FromOpen) false false
    (open_sensors read_file load_library open_module proxy) POpened false false.
Proof.
  apply (meets_ext _ _ _ (lazy_init_modules read_file load_library;;
    (s ← get_init; if queue_mutex s then deadlock else put_init (with_mutex s true));;
    modules ← (s ← get_init; put_init (with_versions s (Some ∅));; or_crash (sub_hw_modules s));
    devices ← open_modules open_module modules [];
    mret {| proxy_device := proxy; sub_hw_devices := devices |})).
  { intros s. unfold open_sensors. init_unfold.
    destruct (lazy_init_modules _ _ _) as [[u s1]| |]; [|done..]. by destruct (queue_mutex s1). }
  eapply meets_bind; [apply modules_alone|]. intros u.
  eapply (meets_bind _ _ _ _ (fun _ => PNewVersions)); [by apply meets_access|]. intros u'.
  eapply (meets_bind _ _ _ _ (fun modules => POpen modules [])); [by apply meets_access|].
  intros modules. eapply meets_bind; [apply open_modules_alone|]. intros devices.
  apply (meets_here _ _ {| proxy_device := proxy; sub_hw_devices := devices |} POpened).
Qed.

(** The steps before the list is built. *)
Lemma list_starts s n o :
  global_sensors_list (in_globals s) = None ->
  alone n (PLockModules FromList, mkShared s false true) o ->
  alone (S (S n)) (PLockSensors, mkShared s false false) o.
Proof.
  intros Hg Hn. econstructor; [done|]. econstructor; [|exact Hn].
  simpl. unfold access. init_unfold. simpl. by rw Hg.
Qed.

(** And so does a call of [module__get_sensors_list]. *)
Lemma list_alone :
  meets PLockSensors false false
    (module__get_sensors_list read_file load_library get_sensors_list junk_sensor junk_batch)
    PListed false false.
Proof.
  assert (meets PRead false false (s ← get_init;
    mret (global_sensors_count s, global_sensors_list (in_globals s))) PListed false false) as Hread
    by by apply meets_access.
  intros s. destruct (global_sensors_list (in_globals s)) as [lst|] eqn:Hg.
  - destruct (Hread s) as [n Hn]. exists (S (S (S n))).
    econstructor; [done|]. econstructor; [simpl; unfold access; init_unfold; simpl; by rw Hg|].
    econstructor; [done|]. unfold module__get_sensors_list, lazy_init_sensors_list.
    init_unfold. rw Hg. exact Hn.
  - destruct (meets_bind (PLockModules FromList) false true build _ false true
      (fun _ => s ← get_init; put_init (with_mutex s false)) (fun _ => PRead) false false
      build_alone) with s as [n Hn].
    { intros u. apply (meets_jump _ _ _ PUnlockQueue false false); [done|]. by apply meets_access. }
    unfold module__get_sensors_list. unfold mbind at 1, initM_bind at 1.
    rw lazy_init_sensors_list_build; [|done].
    destruct ((build ;; _) s) as [[u s1]| |].
    + destruct (Hread s1) as [n1 Hn1]. exists (S (S (n + n1))). apply list_starts; [done|].
      eapply alone_app; [exact Hn|exact Hn1].
    + exists (S (S n)). by apply list_starts.
    + exists (S (S n)). by apply list_starts.
Qed.
End Alone.

(** ** Several threads *)

Lemma sum_list_with_insert {A} (f : A -> nat) (l : list A) j x y :
  l !! j = Some x -> (sum_list_with f (<[j := y]> l) + f x = sum_list_with f l + f y)%nat.
Proof.
  revert j. induction l as [|z l IH]; intros [|j] Hj; try done; simpl in *.
  - injection Hj as ->. lia.
  - specialize (IH j Hj). lia.
Qed.

Section Pool.
Context `{SensorsHeader} {W : Type}.
Variable read_file : string -> option string.
Variable load_library : string -> dl_result.
Variable get_sensors_list : Z -> W -> list sensor_t * W.
Variable open_module : Z -> W -> (Z * hw_device_t) * W.
Variable junk_sensor : nat -> sensor_t.
Variable junk_batch : nat -> batch_data.
Variable proxy : Z.

Abbreviation next := (init_next read_file load_library get_sensors_list open_module
  junk_sensor junk_batch proxy).
Abbreviation alone := (alone read_file load_library get_sensors_list open_module
  junk_sensor junk_batch proxy).
Abbreviation pool_step := (init_pool_step read_file load_library get_sensors_list open_module
  junk_sensor junk_batch proxy).

(** A thread that runs alone while the others wait. *)
Lemma alone_run k pc sh pc' sh' j pcs :
  pcs !! j = Some pc -> alone k (pc, sh) (Done (pc', sh')) ->
  run pool_step (Some (sh, pcs)) (replicate k j) (Some (sh', <[j := pc']> pcs)).
Proof.
  intros Hj Ha. remember (pc, sh) as c eqn:Hc. remember (Done (pc', sh')) as o eqn:Ho.
  revert pc sh pcs Hj Hc Ho. induction Ha as [c|k pc0 sh0 [pc1 sh1] o Hn Ha IH|pc0 sh0 Hn|pc0 sh0 Hn];
    intros pc sh pcs Hj Hc Ho; try done.
  - injection Ho as ->. injection Hc as -> ->. rw list_insert_id; [constructor|done].
  - injection Hc as -> ->. simpl. eapply run_cons; [by apply ip_step with (pc := pc)|].
    rw -(list_insert_insert_eq pcs j pc' pc1). eapply IH; [|done..].
    rw list_lookup_insert_eq; [done|]. by eapply lookup_lt_Some.
Qed.

Lemma alone_run_crash k pc sh j pcs :
  pcs !! j = Some pc -> alone k (pc, sh) Crash ->
  run pool_step (Some (sh, pcs)) (replicate (S k) j) None.
Proof.
  intros Hj Ha. remember (pc, sh) as c eqn:Hc. remember Crash as o eqn:Ho.
  revert pc sh pcs Hj Hc Ho. induction Ha as [c|k pc0 sh0 [pc1 sh1] o Hn Ha IH|pc0 sh0 Hn|pc0 sh0 Hn];
    intros pc sh pcs Hj Hc Ho; try done.
  - injection Hc as -> ->. simpl. eapply run_cons; [by apply ip_step with (pc := pc)|].
    eapply IH; [|done..]. rw list_lookup_insert_eq; [done|]. by eapply lookup_lt_Some.
  - injection Hc as -> ->. apply run_one. by eapply ip_crash.
Qed.

(** A call that has left the critical section does not get back into it. *)
Definition leaving (pc : init_pc) : Prop :=
  match pc with PUnlockQueue | PRead | PListed _ => True | _ => False end.

Lemma leaving_alone k pc sh pc' sh' :
  leaving pc -> alone k (pc, sh) (Done (pc', sh')) -> leaving pc'.
Proof.
  intros Hl Ha. remember (pc, sh) as c eqn:Hc. remember (Done (pc', sh')) as o eqn:Ho.
  revert pc sh Hl Hc Ho. induction Ha as [c|k pc0 sh0 [pc1 sh1] o Hn Ha IH|pc0 sh0 Hn|pc0 sh0 Hn];
    intros pc sh Hl Hc Ho; try done.
  - injection Ho as ->. by injection Hc as -> ->.
  - injection Hc as -> ->. eapply IH; [|done..].
    destruct pc; try done; simpl in Hn; unfold access in Hn; init_unfold; by injection Hn as <- _.
Qed.

Lemma inside_next pc sh pc' sh' :
  inside pc = true -> next pc sh = Done (pc', sh') ->
  leaving pc' \/ inside pc' = true /\ init_sensors_mutex sh' = init_sensors_mutex sh.
Proof.
  assert (forall A (m : initM (init_state W) A) k,
    access m k sh = Done (pc', sh') -> (forall a, inside (k a) = true) ->
    inside pc' = true /\ init_sensors_mutex sh' = init_sensors_mutex sh) as Hacc.
  { intros A m k Ha Hk. unfold access in Ha. destruct (m (sh_init sh)) as [[a s]| |]; [|done..].
    injection Ha as <- <-. by split. }
  intros Hin Hn.
  destruct pc as [[]|[]|[] [|]| | | | |[]| |[]|m []| | | | | | | |[]| |]; try done;
    cbn [init_next list_next modules_next] in Hn; try (by injection Hn as <- <-; by (left + (right; split))).
  all: right; first [eapply Hacc; [exact Hn|] | unfold lock in Hn; case_match; [done|]].
  all: try (intros a; simpl; by repeat (done || case_match)).
  by injection Hn as <- <-.
Qed.

(** *** After [open]: the list is built once *)

Variables (sensors : Z -> list sensor_t) (opens : Z -> Z * hw_device_t).

Abbreviation initialised := (initialised_globals junk_batch sensors opens).
Abbreviation total := (sensor_total sensors).

Record built (ms : list Z) (s : init_state W) : Prop := mk_built {
  bu_modules : sub_hw_modules s = Some ms;
  bu_versions : sub_hw_versions s = None;
  bu_globals : in_globals s = initialised ms;
  bu_count : global_sensors_count s = total ms;
}.

(** What a call of [module__get_sensors_list] returns. *)
Definition result (ms : list Z) : Z * option (list sensor_t) :=
  (total ms, global_sensors_list (initialised ms)).

(** Where a call can be once the list is built. *)
Definition late (ms : list Z) (pc : init_pc) : Prop :=
  match pc with
  | PLockSensors | PCheckList | PUnlockEarly | PUnlockQueue | PRead => True
  | PListed r => r = result ms
  | _ => False
  end.

(** The stages of the initialisation, with a bound on the steps that are left:
    [n] calls wait; one of them builds the list, alone; all of them read it. *)
Inductive stage (ms : list Z) (s1 s3 : init_state W) (K n : nat) :
    nat -> shared W -> list init_pc -> Prop :=
| stage_before :
    stage ms s1 s3 K n (K + 4 * n + 2) (unlocked s1) (replicate n PLockSensors)
| stage_building j k pc sh :
    (j < n)%nat -> inside pc = true -> init_sensors_mutex sh = true ->
    alone k (pc, sh) (Done (PUnlockSensors, mkShared s3 false true)) ->
    stage ms s1 s3 K n (k + 4 * n + 1) sh (<[j := pc]> (replicate n PLockSensors))
| stage_built sh pcs :
    length pcs = n -> built ms (sh_init sh) -> Forall (late ms) pcs ->
    (init_sensors_mutex sh = true ->
     exists j pc, pcs !! j = Some pc /\ (pc = PCheckList \/ pc = PUnlockEarly)) ->
    (queue_mutex (sh_init sh) = true -> exists j, pcs !! j = Some PUnlockQueue) ->
    stage ms s1 s3 K n (sum_list_with rank pcs) sh pcs.

Section Stages.
Context (ms : list Z) (s1 s3 : init_state W) (K n : nat).
Hypothesis Hbuild :
  alone K (PCheckList, mkShared s1 false true) (Done (PUnlockSensors, mkShared s3 false true)).
Hypothesis Hbuilt : built ms s3.

Abbreviation stage := (stage ms s1 s3 K n).

Lemma sum_rank_waiting m : sum_list_with rank (replicate m PLockSensors) = (4 * m)%nat.
Proof. induction m as [|m IH]; [done|]. simpl. lia. Qed.

Lemma lookup_waiting j i pc pc0 :
  <[j := pc0]> (replicate n PLockSensors) !! i = Some pc ->
  i = j /\ pc = pc0 /\ (j < n)%nat \/ i <> j /\ pc = PLockSensors.
Proof.
  intros [(<- & <- & Hj)|[Hij Hi]]%list_lookup_insert_Some.
  - left. by rw length_replicate in Hj.
  - right. by apply lookup_replicate in Hi as [-> _].
Qed.

Lemma before_next j pc r :
  replicate n PLockSensors !! j = Some pc -> next pc (unlocked s1) = r ->
  r = Done (PCheckList, mkShared s1 false true) /\ (j < n)%nat.
Proof. by intros [-> ?]%lookup_replicate <-. Qed.

(** The builder makes its next step. *)
Lemma building_next j k pc sh :
  (j < n)%nat -> inside pc = true -> init_sensors_mutex sh = true ->
  alone k (pc, sh) (Done (PUnlockSensors, mkShared s3 false true)) ->
  exists pc' sh' m,
    next pc sh = Done (pc', sh') /\ (m < k + 4 * n + 1)%nat /\
    stage m sh' (<[j := pc']> (replicate n PLockSensors)).
Proof.
  intros Hj Hin Hmx Ha. inversion Ha as [c|k' pc0 sh0 [pc' sh'] o Hn Ha'| |]; subst.
  - exists PUnlockQueue, (mkShared s3 false false). eexists. split; [done|]. split; cycle 1.
    + apply stage_built; [by rw length_insert length_replicate|done| |done|].
      * apply Forall_insert; [|done]. by apply Forall_replicate.
      * intros _. exists j. rw list_lookup_insert_eq; [done|by rw length_replicate].
    + pose proof (sum_list_with_insert rank (replicate n PLockSensors) j PLockSensors PUnlockQueue)
        as Hsum.
      rw lookup_replicate_2 in Hsum; [|done]. specialize (Hsum eq_refl).
      rw sum_rank_waiting in Hsum. simpl in Hsum. lia.
  - destruct (inside_next pc sh pc' sh' Hin Hn) as [Hl|[Hin' Hmx']].
    { by destruct (leaving_alone _ _ _ _ _ Hl Ha'). }
    exists pc', sh', (k' + 4 * n + 1)%nat. split; [done|]. split; [lia|].
    apply stage_building; try done. by rw Hmx'.
Qed.

(** A call that reads the list makes its next step. *)
Lemma late_next pc sh :
  late ms pc -> built ms (sh_init sh) ->
  returned pc = true \/ pc = PLockSensors /\ init_sensors_mutex sh = true \/
  exists pc' sh', next pc sh = Done (pc', sh') /\ late ms pc' /\ built ms (sh_init sh') /\
    (rank pc' < rank pc)%nat /\
    match pc with
    | PLockSensors => pc' = PCheckList /\ sh' = mkShared (sh_init sh) (init_modules_mutex sh) true
    | PCheckList => pc' = PUnlockEarly /\ sh' = sh
    | PUnlockEarly => init_sensors_mutex sh' = false /\ sh_init sh' = sh_init sh
    | PUnlockQueue => init_sensors_mutex sh' = init_sensors_mutex sh /\
        queue_mutex (sh_init sh') = false
    | _ => sh' = sh
    end.
Proof.
  intros Hl Hb. pose proof Hb as [Hm Hv Hg Hc].
  destruct pc; try done; [..|by left]; right; [destruct (init_sensors_mutex sh) eqn:Hmx; [by left|]|..];
    right; simpl; rw ?Hmx; unfold access; init_unfold; simpl.
  - do 2 eexists. split; [done|]. split_and!; simpl; done || lia.
  - rw Hg. do 2 eexists. split; [done|]. split_and!; simpl; try done; [lia|by destruct sh].
  - do 2 eexists. split; [done|]. split_and!; simpl; done || lia.
  - do 2 eexists. split; [done|]. split_and!; simpl; done || lia.
  - do 2 eexists. split; [done|]. rw Hg Hc. split_and!; simpl; try done; [lia|by destruct sh].
Qed.

Lemma built_step sh pcs j pc pc' sh' :
  length pcs = n -> built ms (sh_init sh) -> Forall (late ms) pcs ->
  (init_sensors_mutex sh = true ->
   exists j pc, pcs !! j = Some pc /\ (pc = PCheckList \/ pc = PUnlockEarly)) ->
  (queue_mutex (sh_init sh) = true -> exists j, pcs !! j = Some PUnlockQueue) ->
  pcs !! j = Some pc -> next pc sh = Done (pc', sh') ->
  exists m, (m < sum_list_with rank pcs)%nat /\ stage m sh' (<[j := pc']> pcs).
Proof.
  intros Hlen Hb Hl Hmx Hq Hj Hn. pose proof (Forall_lookup_1 _ _ _ _ Hl Hj) as Hpc.
  assert (<[j := pc']> pcs !! j = Some pc') as Hj'
    by (rw list_lookup_insert_eq; [done|by eapply lookup_lt_Some]).
  destruct (late_next pc sh Hpc Hb) as [Hr|[[-> Hlk]|(pc1 & sh1 & Hn1 & Hl' & Hb' & Hrk & Hcase)]].
  { destruct pc; done. }
  { simpl in Hn. by rw Hlk in Hn. }
  rw Hn1 in Hn. injection Hn as -> ->.
  exists (sum_list_with rank (<[j := pc']> pcs)). split.
  { pose proof (sum_list_with_insert rank pcs j pc pc' Hj). lia. }
  assert (forall i pc0, pcs !! i = Some pc0 -> pc0 <> pc -> <[j := pc']> pcs !! i = Some pc0) as Hkeep.
  { intros i pc0 Hi Hne. rw list_lookup_insert_ne; [done|]. intros ->. by simplify_eq. }
  apply stage_built; [by rw length_insert|done|by apply Forall_insert|..].
  - intros Hmx'. assert (pc <> PCheckList -> pc <> PUnlockEarly ->
      init_sensors_mutex sh' = init_sensors_mutex sh ->
      exists j0 pc0, <[j := pc']> pcs !! j0 = Some pc0 /\ (pc0 = PCheckList \/ pc0 = PUnlockEarly))
      as Hholder.
    { intros Hne1 Hne2 Heq. rw Heq in Hmx'. destruct (Hmx Hmx') as (i & pc0 & Hi & Hor).
      exists i, pc0. split; [|done]. apply Hkeep; [done|]. by destruct Hor as [-> | ->]. }
    destruct pc; try done.
    + destruct Hcase as [-> _]. exists j, PCheckList. by split; [|left].
    + destruct Hcase as [-> _]. exists j, PUnlockEarly. by split; [|right].
    + destruct Hcase as [Hf _]. by rw Hf in Hmx'.
    + by apply Hholder; [..|apply Hcase].
    + by apply Hholder; [..|rw Hcase].
  - intros Hq'. assert (pc <> PUnlockQueue -> sh_init sh' = sh_init sh ->
      exists j0, <[j := pc']> pcs !! j0 = Some PUnlockQueue) as Hholder.
    { intros Hne Heq. rw Heq in Hq'. destruct (Hq Hq') as [i Hi]. exists i. by apply Hkeep. }
    destruct pc; try done.
    + apply Hholder; [done|]. by destruct Hcase as [_ ->].
    + apply Hholder; [done|]. by destruct Hcase as [_ ->].
    + by apply Hholder; [|apply Hcase].
    + destruct Hcase as [_ Hf]. by rw Hf in Hq'.
    + by apply Hholder; [|rw Hcase].
Qed.

(** Every step keeps the stages going, and there are no crashes. *)
Lemma stage_step m sh pcs j p :
  stage m sh pcs -> pool_step (Some (sh, pcs)) j p ->
  exists m' sh' pcs', p = Some (sh', pcs') /\ (m' < m)%nat /\ stage m' sh' pcs'.
Proof.
  intros Hst Hs. inversion Hs as [sh0 pcs0 j0 pc pc' sh' Hj Hn|sh0 pcs0 j0 pc Hj Hn]; subst;
    (destruct Hst as [|i k pc0 sh Hi Hin Hmx Ha|sh pcs Hlen Hb Hl Hmx Hq]; cycle 2;
      [|destruct (before_next j pc _ Hj Hn) as [Heq Hjn]; try done
       |destruct (lookup_waiting i j pc pc0 Hj) as [(-> & -> & _)|[_ ->]]]).
  - destruct (built_step sh pcs j pc pc' sh') as (m & Hm & Hst); try done.
    by exists m, sh', (<[j := pc']> pcs).
  - injection Heq as -> ->. do 3 eexists. split; [done|]. split; cycle 1.
    + by apply stage_building.
    + lia.
  - destruct (building_next i k pc0 sh Hi Hin Hmx Ha) as (pc1 & sh1 & m & Hn1 & Hm & Hst).
    rw Hn1 in Hn. injection Hn as -> ->. rw list_insert_insert_eq. by exists m, sh', (<[i := pc']> (replicate n PLockSensors)).
  - simpl in Hn. by rw Hmx in Hn.
  - exfalso. pose proof (Forall_lookup_1 _ _ _ _ Hl Hj) as Hpc.
    destruct (late_next pc sh Hpc Hb) as [Hr|[[-> Hlk]|(pc1 & sh1 & Hn1 & _)]];
      [by destruct pc|simpl in Hn; by rw Hlk in Hn|congruence].
  - destruct (building_next i k pc0 sh Hi Hin Hmx Ha) as (pc1 & sh1 & m & Hn1 & _). congruence.
  - simpl in Hn. by rw Hmx in Hn.
Qed.

(** While a call has not returned, some call can go on. *)
Lemma stage_progress m sh pcs :
  stage m sh pcs -> Forall (fun pc => returned pc = true) pcs \/
  exists j p, pool_step (Some (sh, pcs)) j p.
Proof.
  intros [|j k pc sh' Hj Hin Hmx Ha|sh' pcs' Hlen Hb Hl Hmx Hq].
  - destruct n as [|n']; [by left|]. right. exists 0%nat. eexists. by apply ip_step with (pc := PLockSensors).
  - right. destruct (building_next j k pc sh' Hj Hin Hmx Ha) as (pc1 & sh1 & m' & Hn & _).
    exists j. eexists. eapply ip_step; [|exact Hn]. rw list_lookup_insert_eq; [done|by rw length_replicate].
  - assert (forall i pc, pcs' !! i = Some pc -> returned pc = true \/
      pc = PLockSensors /\ init_sensors_mutex sh' = true \/ exists j p, pool_step (Some (sh', pcs')) j p)
      as Hcase.
    { intros i pc Hi. pose proof (Forall_lookup_1 _ _ _ _ Hl Hi) as Hpc.
      destruct (late_next pc sh' Hpc Hb) as [?|[?|(pc1 & sh1 & Hn1 & _)]]; [by left|by right; left|].
      right. right. exists i. eexists. by eapply ip_step. }
    destruct (decide (Exists (fun pc => returned pc = false) pcs')) as [Hex|Hall].
    + right. apply Exists_exists in Hex as (pc & [i Hi]%list_elem_of_lookup & Hr).
      destruct (Hcase i pc Hi) as [?|[[-> Hlk]|?]]; [congruence| |done].
      destruct (Hmx Hlk) as (i' & pc' & Hi' & Hor).
      destruct (Hcase i' pc' Hi') as [?|[[? _]|?]]; [by destruct Hor as [-> | ->]..|done].
    + left. apply Forall_forall. intros pc Hpc. destruct (returned pc) eqn:Hr; [done|].
      destruct Hall. apply Exists_exists. by exists pc.
Qed.

Lemma stage_run tr p :
  run pool_step (Some (unlocked s1, replicate n PLockSensors)) tr p ->
  exists m sh pcs, p = Some (sh, pcs) /\ (length tr + m <= K + 4 * n + 2)%nat /\ stage m sh pcs.
Proof.
  intros Hrun. revert tr p Hrun. apply (run_invariant _ (fun tr p => exists m sh pcs,
    p = Some (sh, pcs) /\ (length tr + m <= K + 4 * n + 2)%nat /\ stage m sh pcs)).
  - do 3 eexists. split; [done|]. split; [|by apply stage_before]. simpl. lia.
  - intros tr p j p' (m & sh & pcs & -> & Hlen & Hst) Hs.
    destruct (stage_step m sh pcs j p' Hst Hs) as (m' & sh' & pcs' & -> & Hm & Hst').
    exists m', sh', pcs'. split; [done|]. split; [rw length_app /=; lia|done].
Qed.
End Stages.

(** The state [open] leaves, and what building the list makes of it. *)
Lemma open_then_build paths (w : W) :
  static_modules get_sensors_list open_module sensors opens ->
  get_so_paths read_file = Some paths ->
  let ms := load_modules load_library paths in
  (forall m, m ∈ ms -> (opens m).1 = 0) ->
  total ms < INT_MAX -> Z.of_nat (length ms) <= INT_MAX ->
  exists ctx s1 s2 s3 K,
  open_call read_file load_library open_module proxy (loaded_state w) = Done (ctx, s1) /\
  list_call read_file load_library get_sensors_list junk_sensor junk_batch s1 =
    Done (result ms, s2) /\
  in_globals s2 = initialised ms /\
  alone K (PCheckList, mkShared s1 false true) (Done (PUnlockSensors, mkShared s3 false true)) /\
  built ms s3.
Proof.
  intros Hst Hpaths ms Hall Htotal Hms.
  destruct (open_call_run read_file load_library get_sensors_list open_module proxy sensors opens
    paths w Hst Hpaths) as (vs & w1 & Hopen & Hvs). fold ms in Hopen, Hvs.
  destruct (list_call_run read_file load_library get_sensors_list open_module junk_sensor junk_batch
    sensors opens ms vs (-1) w1 Hst) as (w2 & Hlist); [|done|done|].
  { intros m Hm _. apply Hvs. split_and!; [done|done|by apply Hall]. }
  set (s1 := mkInit _ _ _ _ _ _) in Hopen, Hlist.
  destruct (build_alone read_file load_library get_sensors_list open_module junk_sensor junk_batch
    proxy s1) as [K HK].
  pose proof Hlist as Hbuild. unfold list_call, module__get_sensors_list in Hbuild.
  unfold mbind at 1, initM_bind at 1 in Hbuild. rw lazy_init_sensors_list_build in Hbuild; [|done].
  unfold mbind at 1, initM_bind at 1 in Hbuild.
  destruct (build _ _ _ _ _ s1) as [[u s3]| |] eqn:Hb; [|done..].
  init_unfold. simpl in Hbuild. injection Hbuild as _ _ Hm Hv Hg Hc _.
  do 5 eexists. split_and!; [exact Hopen|exact Hlist|done| |by constructor].
  econstructor; [|exact HK]. done.
Qed.

(** [open] has created the map of versions and not yet filled it, when the list
    is asked for. *)
Lemma list_during_open paths (w : W) m :
  static_modules get_sensors_list open_module sensors opens ->
  get_so_paths read_file = Some paths ->
  let ms := load_modules load_library paths in
  m ∈ ms -> sensors m <> [] -> total ms <= INT_MAX ->
  exists tr, run pool_step
    (Some (unlocked (loaded_state w), [PLockModules FromOpen; PLockSensors])) tr None.
Proof.
  intros Hst Hpaths ms Hm Hne Htotal.
  destruct (modules_alone read_file load_library get_sensors_list open_module junk_sensor junk_batch
    proxy FromOpen false (loaded_state w)) as [k1 H1].
  unfold lazy_init_modules in H1. init_unfold. simpl in H1. rw Hpaths /= in H1. fold ms in H1.
  set (s := mkInit _ _ _ _ _ _) in H1.
  set (s' := mkInit (Some ms) (Some ∅) (mkGlobals initial_table None None None) (-1) true w).
  assert (alone 2 (PLockQueue, unlocked s) (Done (POpen ms [], unlocked s'))) as H2
    by (do 2 (econstructor; [done|]); constructor).
  destruct (list_alone read_file load_library get_sensors_list open_module junk_sensor junk_batch
    proxy s') as [k3 H3].
  pose proof (list_call_missing read_file load_library get_sensors_list open_module junk_sensor
    junk_batch sensors opens ms (Some ∅) m (-1) true w Hst Hm Hne ltac:(done) Htotal) as Hcrash.
  unfold list_call in Hcrash. fold s' in Hcrash. rw Hcrash in H3.
  eexists. eapply run_app; [|eapply (alone_run_crash _ PLockSensors _ 1%nat); [|exact H3]].
  - eapply (alone_run _ (PLockModules FromOpen) _ (POpen ms []) (unlocked s') 0%nat); [done|].
    eapply alone_app; [exact H1|exact H2].
  - done.
Qed.
End Pool.

(** ** Property *)

(** C10: the initialisation from several threads.  Once [open] has returned, any
    number of threads may ask for the sensors at the same time, interleaved step
    by step: none crashes, they are never all blocked, and they come to an end
    after a bounded number of steps; every one of them gets what a single call
    would get, the globals are those that a single call leaves, with each handle
    assigned once, and the queue mutex that [open] left locked is released.
    While [open] is still running, asking for the sensors is not safe: the list
    is built under another mutex than the versions of the sub-HALs, and can
    find them missing, which crashes the process. *)
Theorem init_calls_interleaved `{SensorsHeader} {W} read_file load_library
    (get_sensors_list : Z -> W -> list sensor_t * W) open_module junk_sensor junk_batch proxy
    sensors opens paths (w : W) (n : nat) :
  let pool_step := init_pool_step read_file load_library get_sensors_list open_module
    junk_sensor junk_batch proxy in
  let ms := load_modules load_library paths in
  static_modules get_sensors_list open_module sensors opens ->
  get_so_paths read_file = Some paths ->
  (forall m, m ∈ ms -> (opens m).1 = 0) ->
  sensor_total sensors ms < INT_MAX -> Z.of_nat (length ms) <= INT_MAX ->
  (exists ctx s1 r s2 bound,
   open_call read_file load_library open_module proxy (loaded_state w) = Done (ctx, s1) /\
   list_call read_file load_library get_sensors_list junk_sensor junk_batch s1 = Done (r, s2) /\
   forall tr p, run pool_step (Some (unlocked s1, replicate n PLockSensors)) tr p ->
     (length tr <= bound)%nat /\
     exists sh pcs, p = Some (sh, pcs) /\
     (Forall (fun pc => returned pc = true) pcs \/ exists j p', pool_step p j p') /\
     (forall r', PListed r' ∈ pcs -> r' = r /\ in_globals (sh_init sh) = in_globals s2) /\
     (n <> 0%nat -> Forall (fun pc => returned pc = true) pcs ->
      queue_mutex (sh_init sh) = false)) /\
  (forall m, m ∈ ms -> sensors m <> [] ->
   exists tr, run pool_step
     (Some (unlocked (loaded_state w), [PLockModules FromOpen; PLockSensors])) tr None).
Proof.
  intros pool_step ms Hst Hpaths Hall Htotal Hms. split; cycle 1.
  { intros m Hm Hne. eapply list_during_open; [exact Hst|exact Hpaths|exact Hm|exact Hne|].
    by apply Z.lt_le_incl. }
  destruct (open_then_build read_file load_library get_sensors_list open_module junk_sensor
    junk_batch proxy sensors opens paths w Hst Hpaths Hall Htotal Hms)
    as (ctx & s1 & s2 & s3 & K & Hopen & Hlist & Hg & HK & Hb).
  exists ctx, s1, (result junk_batch sensors opens ms), s2, (K + 4 * n + 2)%nat.
  split; [exact Hopen|]. split; [exact Hlist|]. intros tr p Hrun.
  eapply stage_run in Hrun as (m & sh & pcs & -> & Hlen & Hs); [|exact HK|exact Hb].
  split; [lia|]. exists sh, pcs. split; [done|].
  split; [by eapply stage_progress|]. rw Hg.
  destruct Hs as [|j k pc sh Hj Hin Hmx Ha|sh pcs Hn Hbu Hl Hmx Hq].
  - split; [by intros r' [? _]%elem_of_replicate|]. intros Hn Hret.
    destruct n as [|n']; [done|]. by inversion Hret.
  - split.
    + intros r' [i Hi]%list_elem_of_lookup. apply lookup_waiting in Hi as [(_ & <- & _)|[_ ?]]; done.
    + intros _ Hret. eapply Forall_lookup_1 in Hret; [|apply list_lookup_insert_eq;
        by rw length_replicate]. by destruct pc.
  - split.
    + intros r' Hr. eapply Forall_forall in Hl; [|exact Hr]. split; [exact Hl|by destruct Hbu].
    + intros _ Hret. destruct (queue_mutex (sh_init sh)); [|done]. destruct (Hq eq_refl) as [i Hi].
      by apply (Forall_lookup_1 _ _ _ _ Hret) in Hi.
Qed.

(** Two modules with a sensor each; three threads ask for the list. *)
Lemma init_calls_interleaved_witness :
  let H := android9_sensors_h in
  let step := init_pool_step two_paths two_libraries (list_of true) (open_of 0)
    (fun _ => one_sensor) (fun _ => mkBatch false 0 0 0 0) 5 in
  (exists ctx s1 lst bound,
   open_call two_paths two_libraries (open_of 0) 5 (loaded_state tt) = Done (ctx, s1) /\
   forall tr p, run step (Some (unlocked s1, replicate 3 PLockSensors)) tr p ->
     (length tr <= bound)%nat /\
     exists sh pcs, p = Some (sh, pcs) /\
     forall r, PListed r ∈ pcs -> r = (2, Some lst)) /\
  exists tr, run step
    (Some (unlocked (loaded_state tt), [PLockModules FromOpen; PLockSensors])) tr None.
Proof.
  intros H step.
  destruct (@init_calls_interleaved H unit two_paths two_libraries (list_of true) (open_of 0)
    (fun _ => one_sensor) (fun _ => mkBatch false 0 0 0 0) 5 (sensors_of true) (opens_of 0)
    ["/a.so"; "/b.so"]%string tt 3)
    as [(ctx & s1 & r & s2 & bound & Hopen & Hlist & Hrun) Hcrash].
  - split; intros; reflexivity.
  - reflexivity.
  - intros m Hm. apply elem_of_cons in Hm as [->|Hm]; [reflexivity|].
    apply list_elem_of_singleton in Hm as ->. reflexivity.
  - reflexivity.
  - vm_compute. discriminate.
  - split.
    + pose proof Hopen as Hs1. vm_compute in Hs1. injection Hs1 as _ <-.
      vm_compute in Hlist. injection Hlist as <- _.
      do 2 eexists. eexists. exists bound. split; [exact Hopen|].
      intros tr p Htr. destruct (Hrun tr p Htr) as (Hlen & sh & pcs & -> & _ & Hr & _).
      split; [exact Hlen|]. exists sh, pcs. split; [reflexivity|].
      intros r' Hr'. exact (proj1 (Hr r' Hr')).
    + apply (Hcrash 1); [|discriminate]. left.
Defined.
