(* ===== verification/ControlThreads.v ===== *)
(** * Control calls from several threads

    [device__activate] and [device__batch] (sensors/multihal.cpp) read and write
    [sensors_enable_state] and [sensors_batch_list] without a lock.  Dispatch.v
    models each of them as one computation; here they are split at every access
    of a shared object (an array element, or a call into a sub-HAL), so that the
    accesses of several threads can be interleaved.  [run_thread] puts the
    steps together again: alone, a thread does what Dispatch.v says. *)
From S2P Require Import Prelude Handles SensorsHal Dispatch.

(** Where a call is, with its arguments and the locals it still needs. *)
Inductive call_pc :=
| PActivate (handle enabled : Z)
| PStoreEnable (handle enabled activate_retval : Z)
| PCheckBatch (handle activate_retval : Z)
| PApplyBatch (handle activate_retval period_ns : Z)
| PClearBatch (handle activate_retval delay_retval : Z)
| PBatch (handle flags period_ns timeout : Z)
| PSaveBatch (handle flags period_ns timeout : Z)
| PFallback (handle period_ns : Z)
| POther (c : control_call)
| PDone (handle retval : Z).

(** The handle a call is about. *)
Definition pc_handle (pc : call_pc) : Z :=
  match pc with
  | PActivate g _ | PStoreEnable g _ _ | PCheckBatch g _ | PApplyBatch g _ _
  | PClearBatch g _ _ | PBatch g _ _ _ | PSaveBatch g _ _ _ | PFallback g _ | PDone g _ => g
  | POther c => control_handle c
  end.

Definition call_start (c : control_call) : call_pc :=
  match c with
  | Activate g enabled => PActivate g enabled
  | Batch g flags period_ns timeout => PBatch g flags period_ns timeout
  | c => POther c
  end.

Section Steps.
Context `{SensorsHeader} {W : Type} (sub_hal : sub_call -> W -> Z * W).
Context (ctx : sensors_poll_context_t).

Abbreviation M := (Dispatch.M (W := W)).

(** The next access of a call. *)
Definition thread_next (pc : call_pc) : M call_pc :=
  match pc with
  | PActivate g enabled =>
      activate_retval ← activate sub_hal ctx g enabled;
      h ← get_globals;
      mret (if negb (halIsAPILevelCompliant ctx (g_table h) g SENSORS_DEVICE_API_VERSION_1_1)
            then PStoreEnable g enabled activate_retval else PDone g activate_retval)
  | PStoreEnable g enabled activate_retval =>
      h ← get_globals;
      enable ← defined (sensors_enable_state h);
      enable' ← defined (arr_set enable (i32 (g - 1)) enabled);
      put_globals (set_enable_state h enable');;
      mret (if negb (enabled =? 0) then PCheckBatch g activate_retval
            else PDone g activate_retval)
  | PCheckBatch g activate_retval =>
      h ← get_globals;
      bl ← defined (sensors_batch_list h);
      b ← defined (arr_get bl (i32 (g - 1)));
      mret (if negb (empty_ b) then PApplyBatch g activate_retval (b_period_ns b)
            else PDone g activate_retval)
  | PApplyBatch g activate_retval period_ns =>
      delay_retval ← setDelay sub_hal ctx g period_ns;
      mret (PClearBatch g activate_retval delay_retval)
  | PClearBatch g activate_retval delay_retval =>
      h ← get_globals;
      bl ← defined (sensors_batch_list h);
      b ← defined (arr_get bl (i32 (g - 1)));
      bl' ← defined (arr_set bl (i32 (g - 1)) (set_empty b true));
      put_globals (set_batch_list h bl');;
      mret (PDone g (if negb (delay_retval =? 0) || negb (activate_retval =? 0) then 1 else 0))
  | PBatch g flags period_ns timeout =>
      h ← get_globals;
      if halIsAPILevelCompliant ctx (g_table h) g SENSORS_DEVICE_API_VERSION_1_1
      then retval ← batch sub_hal ctx g flags period_ns timeout; mret (PDone g retval)
      else
        enable ← defined (sensors_enable_state h);
        e ← defined (arr_get enable (i32 (g - 1)));
        mret (if e =? 0 then PSaveBatch g flags period_ns timeout else PFallback g period_ns)
  | PSaveBatch g flags period_ns timeout =>
      h ← get_globals;
      bl ← defined (sensors_batch_list h);
      b ← defined (arr_get bl (i32 (g - 1)));
      bl' ← defined (arr_set bl (i32 (g - 1)) (update_batch_data b g flags period_ns timeout));
      put_globals (set_batch_list h bl');;
      mret (PDone g 0)
  | PFallback g period_ns =>
      retval ← setDelay sub_hal ctx g period_ns;
      mret (PDone g retval)
  | POther c =>
      retval ← control sub_hal ctx c;
      mret (PDone (control_handle c) retval)
  | PDone g retval => mret (PDone g retval)
  end.

(** A thread that nobody interferes with. *)
Fixpoint run_thread (fuel : nat) (pc : call_pc) : M call_pc :=
  match fuel with
  | O => mret pc
  | S fuel' => pc' ← thread_next pc; run_thread fuel' pc'
  end.

(** The threads, and the state they share; [None] when a thread has made an
    access that is not defined. *)
Definition pool : Type := option ((hal_globals * W) * list call_pc).

Definition finished (pc : call_pc) : bool :=
  match pc with PDone _ _ => true | _ => false end.

(** Thread [j] makes its next access. *)
Inductive pool_step : pool -> nat -> pool -> Prop :=
| p_thread s pcs j pc :
    pcs !! j = Some pc -> finished pc = false ->
    pool_step (Some (s, pcs)) j
      (match thread_next pc s with
       | Some (pc', s') => Some (s', <[j := pc']> pcs)
       | None => None
       end).
End Steps.

(** ** The invariant *)

(** The array elements of handle [g]. *)
Definition entries (h : hal_globals) (g : Z) : option Z * option batch_data :=
  (el ← sensors_enable_state h; arr_get el (g - 1),
   bl ← sensors_batch_list h; arr_get bl (g - 1)).

(** Nothing is pending while the sensor is active. *)
Definition settled (h : hal_globals) (g : Z) : Prop :=
  forall e b, entries h g = (Some e, Some b) -> e <> 0 -> empty_ b = true.

(** An activation that has marked the sensor active and not yet dealt with what
    was pending. *)
Definition in_between (pc : call_pc) : bool :=
  match pc with
  | PCheckBatch _ _ | PApplyBatch _ _ _ | PClearBatch _ _ _ => true
  | _ => false
  end.

Record arrays_ok (n : Z) (h : hal_globals) : Prop := mk_arrays_ok {
  ao_table : table_wf (g_table h);
  ao_next : next_global_handle (g_table h) = n + 1;
  ao_enable : exists el, sensors_enable_state h = Some el /\ Z.of_nat (length el) = n;
  ao_batch : exists bl, sensors_batch_list h = Some bl /\ Z.of_nat (length bl) = n;
}.

(** What a thread relies on: its handle is assigned, and the sensor whose
    request it is about to record is inactive. *)
Definition pc_ok (n : Z) (h : hal_globals) (pc : call_pc) : Prop :=
  match pc with
  | POther (Activate _ _) | POther (Batch _ _ _ _) => False
  | POther _ | PDone _ _ => True
  | PSaveBatch g _ _ _ => 1 <= g <= n /\ (entries h g).1 = Some 0
  | pc => 1 <= pc_handle pc <= n
  end.

Record pool_ok (n : Z) (h : hal_globals) (pcs : list call_pc) : Prop := mk_pool_ok {
  po_arrays : arrays_ok n h;
  po_distinct : NoDup (pc_handle <$> pcs);
  po_pcs : Forall (pc_ok n h) pcs;
  po_settled g : 1 <= g <= n ->
    (forall pc, pc ∈ pcs -> pc_handle pc = g -> in_between pc = false) -> settled h g;
}.

(** * Theorems *)

Section Alone.
Context `{SensorsHeader} `{!SensorsHeaderLaws} {W : Type}.
Context (sub_hal : sub_call -> W -> Z * W) (ctx : sensors_poll_context_t).
Hypothesis Hdevs : Z.of_nat (length (sub_hw_devices ctx)) <= INT_MAX.

Lemma run_done fuel g r s : run_thread sub_hal ctx fuel (PDone g r) s = Some (PDone g r, s).
Proof. induction fuel as [|fuel IH]; [done|exact IH]. Qed.

(** Alone, a thread does what the model of the whole call does. *)
Lemma run_thread_alone c h w :
  run_thread sub_hal ctx 5 (call_start c) (h, w) =
    (r ← control sub_hal ctx c; mret (PDone (control_handle c) r)) (h, w).
Proof.
  assert (forall fuel pc s, run_thread sub_hal ctx (S fuel) pc s =
    match thread_next sub_hal ctx pc s with
    | Some (pc', s') => run_thread sub_hal ctx fuel pc' s' | None => None end) as Hrun by done.
  destruct c as [g en|g ns|g fl p tmo|g|data]; simpl call_start; rw Hrun;
    unfold thread_next at 1; unfold control, get_globals; st_unfold.
  2: by destruct (device__setDelay _ _ _ _ _) as [[r s]|]; [rw run_done|].
  3: by destruct (device__flush _ _ _ _) as [[r s]|]; [rw run_done|].
  3: by destruct (device__inject_sensor_data _ _ _ _) as [[r s]|]; [rw run_done|].
  - unfold device__activate, get_globals, put_globals; st_unfold.
    destruct (activate_total sub_hal ctx Hdevs g en h w) as (r & w1 & ->).
    destruct (halIsAPILevelCompliant _ _ _ _); [by rw run_done|]. simpl negb. cbv iota beta.
    rw Hrun. unfold thread_next at 1, get_globals, put_globals; st_unfold.
    destruct (sensors_enable_state h) as [el|]; [|done].
    destruct (arr_set el _ en) as [el'|]; [|done].
    destruct (negb (en =? 0)); [|by rw run_done].
    rw Hrun. unfold thread_next at 1, get_globals, put_globals; st_unfold.
    cbn [sensors_batch_list set_enable_state].
    destruct (sensors_batch_list h) as [bl|] eqn:Hbl; [|done].
    destruct (arr_get bl _) as [b|] eqn:Hb; [|done].
    destruct (empty_ b); [by rw run_done|].
    destruct (setDelay_total sub_hal ctx Hdevs g (b_period_ns b) (set_enable_state h el') w1)
      as (d & w2 & Hd).
    cbn -[run_thread thread_next setDelay arr_set]. rw Hd.
    rw Hrun. unfold thread_next at 1; st_unfold. rw Hd.
    rw Hrun. unfold thread_next at 1, get_globals, put_globals; st_unfold.
    cbn -[run_thread arr_set]. rw Hbl Hb. by destruct (arr_set bl _ _).
  - unfold device__batch, get_globals, put_globals; st_unfold.
    destruct (halIsAPILevelCompliant _ _ _ _).
    { by destruct (batch _ _ _ _ _ _ _) as [[r s]|]; [rw run_done|]. }
    destruct (sensors_enable_state h) as [el|]; [|done].
    destruct (arr_get el _) as [e|]; [|done]. destruct (e =? 0); rw Hrun;
      unfold thread_next at 1, get_globals, put_globals; st_unfold.
    + destruct (sensors_batch_list h) as [bl|]; [|done]. destruct (arr_get bl _) as [b|]; [|done].
      by destruct (arr_set bl _ _).
    + by destruct (setDelay _ _ _ _ _) as [[r s]|]; [rw run_done|].
Qed.
End Alone.

(** ** One access *)

Section Entries.
Implicit Types (h : hal_globals).

Lemma arr_get_insert {A} (l : list A) i j x :
  0 <= i < Z.of_nat (length l) ->
  arr_get (<[Z.to_nat i := x]> l) j = if decide (j = i) then Some x else arr_get l j.
Proof.
  intros Hi. unfold arr_get. case_decide as Hj; destruct (Z.leb_spec 0 j); try lia; try done.
  - subst. by rw list_lookup_insert_eq; [|lia].
  - by rw list_lookup_insert_ne; [|lia].
Qed.

Lemma store_enable n h g en :
  arrays_ok n h -> n <= INT_MAX -> 1 <= g <= n ->
  exists el el',
    sensors_enable_state h = Some el /\ arr_set el (i32 (g - 1)) en = Some el' /\
    arrays_ok n (set_enable_state h el') /\
    forall g', entries (set_enable_state h el') g' =
      if decide (g' = g) then (Some en, (entries h g).2) else entries h g'.
Proof.
  intros [? ? [el [Hel ?]] Hb] Hn Hg. rw (i32_id (g - 1)); [|ilia].
  exists el, (<[Z.to_nat (g - 1) := en]> el). split; [done|]. split; [apply arr_set_eq; lia|].
  split.
  - constructor; try done. eexists. split; [done|]. by rw length_insert.
  - intros g'. unfold entries. simpl. rw arr_get_insert; [|lia]. rw Hel. simpl.
    repeat case_decide; subst; done || lia.
Qed.

Lemma store_batch n h g b :
  arrays_ok n h -> n <= INT_MAX -> 1 <= g <= n ->
  exists bl bl',
    sensors_batch_list h = Some bl /\ is_Some (arr_get bl (i32 (g - 1))) /\
    (entries h g).2 = arr_get bl (i32 (g - 1)) /\
    arr_set bl (i32 (g - 1)) b = Some bl' /\
    arrays_ok n (set_batch_list h bl') /\
    forall g', entries (set_batch_list h bl') g' =
      if decide (g' = g) then ((entries h g).1, Some b) else entries h g'.
Proof.
  intros [? ? He [bl [Hbl ?]]] Hn Hg. rw (i32_id (g - 1)); [|ilia].
  exists bl, (<[Z.to_nat (g - 1) := b]> bl). split; [done|].
  split; [apply arr_get_is_Some; lia|]. split; [unfold entries; by rw Hbl|].
  split; [apply arr_set_eq; lia|]. split.
  - constructor; try done. eexists. split; [done|]. by rw length_insert.
  - intros g'. unfold entries. simpl. rw arr_get_insert; [|lia]. rw Hbl. simpl.
    repeat case_decide; subst; done || lia.
Qed.
(** The element of [sensors_batch_list] of an assigned handle. *)
Lemma batch_entry n h g :
  arrays_ok n h -> n <= INT_MAX -> 1 <= g <= n ->
  exists bl b, sensors_batch_list h = Some bl /\ arr_get bl (i32 (g - 1)) = Some b /\
    (entries h g).2 = Some b.
Proof.
  intros Ha Hn Hg. destruct (store_batch n h g (mkBatch true 0 0 0 0) Ha Hn Hg)
    as (bl & _ & Hbl & [b Hb] & He & _).
  exists bl, b. by rw He.
Qed.

Lemma enable_entry n h g :
  arrays_ok n h -> n <= INT_MAX -> 1 <= g <= n ->
  exists el e, sensors_enable_state h = Some el /\ arr_get el (i32 (g - 1)) = Some e /\
    (entries h g).1 = Some e.
Proof.
  intros [_ _ [el [Hel ?]] _] Hn Hg. rw (i32_id (g - 1)); [|ilia].
  destruct (proj2 (arr_get_is_Some el (g - 1))) as [e He]; [lia|].
  exists el, e. unfold entries. by rw Hel /= He.
Qed.

(** Replacing the element, whatever is computed from the old one. *)
Lemma update_batch n h g (f : batch_data -> batch_data) :
  arrays_ok n h -> n <= INT_MAX -> 1 <= g <= n ->
  exists bl b bl', sensors_batch_list h = Some bl /\ arr_get bl (i32 (g - 1)) = Some b /\
    arr_set bl (i32 (g - 1)) (f b) = Some bl' /\ arrays_ok n (set_batch_list h bl') /\
    forall g', entries (set_batch_list h bl') g' =
      if decide (g' = g) then ((entries h g).1, Some (f b)) else entries h g'.
Proof.
  intros Ha Hn Hg. destruct (batch_entry n h g Ha Hn Hg) as (bl & b & Hbl & Hb & _).
  destruct (store_batch n h g (f b) Ha Hn Hg) as (bl0 & bl' & Hbl0 & _ & _ & Hset & Ha' & He).
  rw Hbl in Hbl0. injection Hbl0 as <-. by exists bl, b, bl'.
Qed.
End Entries.

(** What an access of a call leaves to the others. *)
Record access_ok (n : Z) (h : hal_globals) (pc pc' : call_pc) (h' : hal_globals) : Prop :=
  mk_access_ok {
  ac_handle : pc_handle pc' = pc_handle pc;
  ac_table : g_table h' = g_table h;
  ac_arrays : arrays_ok n h';
  ac_pc : pc_ok n h' pc';
  ac_others g : g <> pc_handle pc -> entries h' g = entries h g;
  ac_settled : in_between pc' = false -> settled h' (pc_handle pc);
}.

Section Access.
Context `{SensorsHeader} `{!SensorsHeaderLaws} {W : Type}.
Context (sub_hal : sub_call -> W -> Z * W) (ctx : sensors_poll_context_t) (n : Z).
Hypothesis Hdevs : Z.of_nat (length (sub_hw_devices ctx)) <= INT_MAX.
Hypothesis Hn : n <= INT_MAX.

(** The accesses that leave the arrays alone. *)
Lemma access_same h pc pc' :
  arrays_ok n h -> pc_handle pc' = pc_handle pc -> pc_ok n h pc' ->
  (in_between pc' = false -> settled h (pc_handle pc)) -> access_ok n h pc pc' h.
Proof. intros. by constructor. Qed.

Lemma other_total c h w :
  pc_ok n h (POther c) ->
  exists r w', control sub_hal ctx c (h, w) = Some (r, (h, w')).
Proof.
  intros Hc. destruct c as [| g ns| |g|data]; try done.
  - by apply setDelay_total.
  - by apply flush_total.
  - by apply inject_total.
Qed.

Lemma compliant_batch_total h w g fl p tmo :
  halIsAPILevelCompliant ctx (g_table h) g SENSORS_DEVICE_API_VERSION_1_1 = true ->
  exists r w', batch sub_hal ctx g fl p tmo (h, w) = Some (r, (h, w')).
Proof.
  intros Hc. unfold batch, get_globals. st_unfold. simpl. rw v1_device_v0.
  destruct (get_v0_device_by_handle _ _ _); [|by eauto].
  destruct (0 <=? _); [|by eauto]. rw Hc call_sub_run. by eauto.
Qed.

Lemma thread_next_ok h w pc :
  arrays_ok n h -> pc_ok n h pc -> finished pc = false ->
  (in_between pc = false -> settled h (pc_handle pc)) ->
  exists pc' h' w', thread_next sub_hal ctx pc (h, w) = Some (pc', (h', w')) /\
    access_ok n h pc pc' h'.
Proof.
  intros Ha Hpc Hfin Hs. destruct pc as [g en|g en r|g r|g r p|g r d|g fl p tmo|g fl p tmo|g p|c|g r];
    simpl in *; unfold get_globals, put_globals; st_unfold; try done.
  - destruct (activate_total sub_hal ctx Hdevs g en h w) as (r & w1 & ->).
    do 3 eexists. split; [done|]. apply access_same; simpl; [done|..]; by destruct (negb _).
  - destruct (store_enable n h g en Ha Hn Hpc) as (el & el' & -> & -> & Ha' & He).
    do 3 eexists. split; [done|].
    constructor; simpl; [by destruct (negb _)|done|done|by destruct (negb _)|..].
    + intros g' Hg'. rw He. by case_decide.
    + destruct (Z.eqb_spec en 0) as [->|]; [|done]. intros _ e b. rw He. case_decide; [|done].
      by intros [= <-].
  - destruct (batch_entry n h g Ha Hn Hpc) as (bl & b & -> & -> & He).
    do 3 eexists. split; [done|]. apply access_same; simpl; [done|by destruct (negb _)..|].
    destruct (empty_ b) eqn:Hb; [|done]. intros _ e b' Heb. rw Heb in He. by injection He as ->.
  - destruct (setDelay_total sub_hal ctx Hdevs g p h w) as (d & w1 & ->).
    do 3 eexists. split; [done|]. by apply access_same.
  - destruct (update_batch n h g (fun b => set_empty b true) Ha Hn Hpc)
      as (bl & b & bl' & -> & -> & -> & Ha' & He).
    do 3 eexists. split; [done|]. constructor; simpl; try done.
    + intros g' Hg'. rw He. by case_decide.
    + intros _ e b'. rw He. case_decide; [|done]. by intros [= _ <-].
  - destruct (halIsAPILevelCompliant _ _ _ _) eqn:Hc.
    { destruct (compliant_batch_total h w g fl p tmo Hc) as (r & w' & ->).
      do 3 eexists. split; [done|]. apply access_same; simpl; done || (by intros; apply Hs). }
    destruct (enable_entry n h g Ha Hn Hpc) as (el & e & -> & -> & He).
    do 3 eexists. split; [done|]. destruct (Z.eqb_spec e 0) as [->|]; by apply access_same.
  - destruct Hpc as [Hg He0]. change ((entries h g).1 = Some 0) in He0.
    destruct (update_batch n h g (fun b => update_batch_data b g fl p tmo) Ha Hn Hg)
      as (bl & b & bl' & -> & -> & -> & Ha' & He).
    do 3 eexists. split; [done|]. constructor; simpl; try done.
    + intros g' Hg'. rw He. by case_decide.
    + intros _ e b'. rw He. case_decide; [|done]. rw He0. by intros [= <-].
  - destruct (setDelay_total sub_hal ctx Hdevs g p h w) as (d & w1 & ->).
    do 3 eexists. split; [done|]. by apply access_same.
  - destruct (other_total c h w Hpc) as (r & w1 & ->).
    do 3 eexists. split; [done|]. apply access_same; simpl; done || (by intros; apply Hs).
Qed.
End Access.

(** ** Interleavings *)

Section Pool.
Context `{SensorsHeader} `{!SensorsHeaderLaws} {W : Type}.
Context (sub_hal : sub_call -> W -> Z * W) (ctx : sensors_poll_context_t) (n : Z).
Hypothesis Hdevs : Z.of_nat (length (sub_hw_devices ctx)) <= INT_MAX.
Hypothesis Hn : n <= INT_MAX.

Lemma distinct_handles (pcs : list call_pc) j k pc1 pc2 :
  NoDup (pc_handle <$> pcs) -> pcs !! j = Some pc1 -> pcs !! k = Some pc2 -> j <> k ->
  pc_handle pc1 <> pc_handle pc2.
Proof.
  intros Hnd H1 H2 Hjk Heq. apply Hjk.
  apply (NoDup_lookup _ _ _ (pc_handle pc1) Hnd); rw list_lookup_fmap; [by rw H1|by rw H2 Heq].
Qed.

Lemma pc_ok_entries h h' pc :
  entries h' (pc_handle pc) = entries h (pc_handle pc) -> pc_ok n h pc -> pc_ok n h' pc.
Proof. intros He. destruct pc; try done. simpl in He. unfold pc_ok. by rw He. Qed.

(** The others do not notice an access about another handle. *)
Lemma pool_access_ok h h' pcs j pc pc' :
  pool_ok n h pcs -> pcs !! j = Some pc -> access_ok n h pc pc' h' ->
  pool_ok n h' (<[j := pc']> pcs).
Proof.
  intros [Ha Hd Hp Hs] Hj [Hh Ht Ha' Hp' Ho Hs']. constructor; [done|..].
  - rw list_fmap_insert Hh list_insert_id; [done|]. by rw list_lookup_fmap Hj.
  - apply Forall_lookup. intros k pc2 [(<- & <- & _)|[Hjk Hk]]%list_lookup_insert_Some; [done|].
    apply pc_ok_entries with h; [|by eapply (Forall_lookup_1 _ _ _ _ Hp)].
    apply Ho. by eapply distinct_handles.
  - intros g Hg Hbetween. destruct (decide (g = pc_handle pc)) as [->|Hne].
    + apply Hs'. apply Hbetween; [|done]. apply list_elem_of_insert. by eapply lookup_lt_Some.
    + intros e b. rw Ho; [|done]. apply (Hs g Hg). intros pc2 [k Hk]%list_elem_of_lookup Hg2.
      destruct (decide (j = k)) as [->|Hjk]; [by simplify_eq|].
      apply Hbetween; [|done]. apply list_elem_of_lookup. exists k. by rw list_lookup_insert_ne.
Qed.

Lemma pool_step_ok h w pcs j p :
  pool_ok n h pcs -> pool_step sub_hal ctx (Some ((h, w), pcs)) j p ->
  exists h' w' pcs', p = Some ((h', w'), pcs') /\ pool_ok n h' pcs' /\ g_table h' = g_table h.
Proof.
  intros Hok Hs. inversion Hs as [s pcs0 j0 pc Hj Hfin]; subst.
  pose proof Hok as [Ha Hd Hp Hset].
  pose proof (Forall_lookup_1 _ _ _ _ Hp Hj) as Hpc.
  destruct (thread_next_ok sub_hal ctx n Hdevs Hn h w pc Ha Hpc Hfin) as (pc' & h' & w' & -> & Hacc).
  { intros Hb. destruct (decide (1 <= pc_handle pc <= n)) as [Hg|Hg].
    - apply Hset; [done|]. intros pc2 [k Hk]%list_elem_of_lookup Heq.
      destruct (decide (j = k)) as [->|Hjk]; [by simplify_eq|].
      by destruct (distinct_handles pcs j k pc pc2).
    - intros e b He. destruct Ha as [_ _ [el [Hel ?]] _]. unfold entries in He.
      rw Hel /= in He. injection He as He _. apply arr_get_Some in He as [? _]. lia. }
  exists h', w', (<[j := pc']> pcs). split; [done|]. split; [by eapply pool_access_ok|].
  by destruct Hacc.
Qed.

Lemma run_pool_ok h w pcs tr p :
  pool_ok n h pcs -> run (pool_step sub_hal ctx) (Some ((h, w), pcs)) tr p ->
  exists h' w' pcs', p = Some ((h', w'), pcs') /\ pool_ok n h' pcs' /\ g_table h' = g_table h.
Proof.
  intros Hok Hrun. revert tr p Hrun. apply (run_invariant _ (fun _ p => exists h' w' pcs',
    p = Some ((h', w'), pcs') /\ pool_ok n h' pcs' /\ g_table h' = g_table h)).
  { by exists h, w, pcs. }
  intros tr p j p' (h1 & w1 & pcs1 & -> & Hok1 & Ht) Hs.
  destruct (pool_step_ok h1 w1 pcs1 j p' Hok1 Hs) as (h2 & w2 & pcs2 & -> & Hok2 & Ht2).
  exists h2, w2, pcs2. by rw Ht2.
Qed.

Lemma settled_pending h i e b el bl :
  sensors_enable_state h = Some el -> sensors_batch_list h = Some bl ->
  el !! i = Some e -> bl !! i = Some b -> entries h (Z.of_nat i + 1) = (Some e, Some b).
Proof.
  intros Hel Hbl He Hb. unfold entries. rw Hel Hbl. simpl. unfold arr_get.
  replace (Z.of_nat i + 1 - 1) with (Z.of_nat i) by lia.
  destruct (Z.leb_spec 0 (Z.of_nat i)); [|lia]. by rw Nat2Z.id He Hb.
Qed.

(** At rest the arrays are consistent again. *)
Lemma pool_ok_finished h pcs :
  pool_ok n h pcs -> Forall (fun pc => finished pc = true) pcs -> globals_ok n h.
Proof.
  intros [[Ht Hx He Hb] _ _ Hs] Hfin. constructor; try done.
  intros el bl i e b Hel Hbl Hei Hbi Hne.
  refine (Hs (Z.of_nat i + 1) _ _ e b _ Hne); [|..|by eapply settled_pending].
  - destruct He as [el' [Hel' ?]]. simplify_eq. apply lookup_lt_Some in Hei. lia.
  - intros pc Hpc _. apply (proj1 (Forall_forall _ _) Hfin) in Hpc. by destruct pc.
Qed.

Lemma pool_ok_start h cs :
  globals_ok n h -> NoDup (control_handle <$> cs) ->
  (forall c, c ∈ cs -> match c with Activate g _ | Batch g _ _ _ => 1 <= g <= n | _ => True end) ->
  pool_ok n h (call_start <$> cs).
Proof.
  intros [Ht Hx He Hb Hp] Hnd Hcs. constructor.
  - by constructor.
  - rw -list_fmap_compose. erewrite list_fmap_ext; [exact Hnd|]. by intros i [].
  - apply Forall_fmap, Forall_forall. intros c Hc. specialize (Hcs c Hc). by destruct c.
  - intros g Hg _ e b Hent Hne. destruct He as [el [Hel ?]], Hb as [bl [Hbl ?]].
    unfold entries in Hent. rw Hel Hbl /= in Hent. injection Hent as He' Hb'.
    apply arr_get_Some in He' as [_ He']. apply arr_get_Some in Hb' as [_ Hb'].
    by eapply (Hp el bl _ e b).
Qed.
End Pool.

Section Race.
Context `{SensorsHeader} `{!SensorsHeaderLaws} {W : Type}.
Context (sub_hal : sub_call -> W -> Z * W) (ctx : sensors_poll_context_t) (n : Z).
Hypothesis Hdevs : Z.of_nat (length (sub_hw_devices ctx)) <= INT_MAX.
Hypothesis Hn : n <= INT_MAX.

Lemma pool_cons s pcs j pc pc' s' tr p :
  pcs !! j = Some pc -> finished pc = false -> thread_next sub_hal ctx pc s = Some (pc', s') ->
  run (pool_step sub_hal ctx) (Some (s', <[j := pc']> pcs)) tr p ->
  run (pool_step sub_hal ctx) (Some (s, pcs)) (j :: tr) p.
Proof.
  intros Hj Hfin Hs Hrun. eapply run_cons; [|exact Hrun].
  pose proof (p_thread sub_hal ctx s pcs j pc Hj Hfin) as Hp. by rw Hs in Hp.
Qed.

Lemma race_loses_request h w g d l b en fl p tmo :
  arrays_ok n h -> 1 <= g <= n -> route ctx (g_table h) g = Some (d, l) ->
  dev_version d < SENSORS_DEVICE_API_VERSION_1_1 ->
  entries h g = (Some 0, Some b) -> empty_ b = true -> en <> 0 ->
  exists h',
    run (pool_step sub_hal ctx) (Some ((h, w), [PBatch g fl p tmo; PActivate g en]))
      [0; 1; 1; 1; 0]%nat
      (Some ((h', (sub_hal (CallActivate d l en) w).2),
             [PDone g 0; PDone g (sub_hal (CallActivate d l en) w).1])) /\
    entries h' g = (Some en, Some (update_batch_data b g fl p tmo)).
Proof.
  intros Ha Hg Hroute Hv Hent Hemp Hen. destruct levels_nonneg as [H11 _].
  destruct (route_Some ctx (g_table h) g d l Hdevs Hroute) as (Hd & _ & _).
  assert (halIsAPILevelCompliant ctx (g_table h) g SENSORS_DEVICE_API_VERSION_1_1 = false)
    as Hcomp by (rw (compliant_device _ _ _ d); [|done..]; by apply Z.leb_gt).
  destruct (enable_entry n h g Ha Hn Hg) as (el0 & e & Hel & He & Hent1).
  rw Hent in Hent1. injection Hent1 as <-.
  destruct (store_enable n h g en Ha Hn Hg) as (el & el' & Hel' & Hset & Ha1 & Hent2).
  set (h1 := set_enable_state h el') in *.
  assert (entries h1 g = (Some en, Some b)) as He1 by (rw Hent2 Hent; by case_decide).
  destruct (update_batch n h1 g (fun b => update_batch_data b g fl p tmo) Ha1 Hn Hg)
    as (bl & b' & bl' & Hbl & Hb & Hsetb & _ & Hent3).
  destruct (batch_entry n h1 g Ha1 Hn Hg) as (bl0 & b0 & Hbl0 & Hb0 & He0).
  rw He1 in He0. injection He0 as <-. rw Hbl in Hbl0. injection Hbl0 as <-.
  rw Hb in Hb0. injection Hb0 as ->.
  exists (set_batch_list h1 bl'). split; [|rw Hent3 He1; by case_decide].
  eapply pool_cons; [done|done| |].
  { simpl. unfold get_globals. st_unfold. by rw Hcomp Hel He. }
  eapply pool_cons; [done|done| |].
  { simpl. unfold get_globals. st_unfold. rw activate_run; [|done]. by rw Hroute call_sub_run /= Hcomp. }
  eapply pool_cons; [done|done| |].
  { simpl. unfold get_globals, put_globals. st_unfold. rw Hel' Hset /=.
    by rw (proj2 (Z.eqb_neq en 0) Hen). }
  eapply pool_cons; [done|done| |].
  { simpl. unfold get_globals. st_unfold. change (sensors_batch_list h) with (sensors_batch_list h1).
    by rw Hbl Hb Hemp. }
  eapply pool_cons; [done|done| |by apply run_nil].
  simpl. unfold get_globals, put_globals. st_unfold.
  change (sensors_batch_list h) with (sensors_batch_list h1). by rw Hbl Hb Hsetb.
Qed.

Lemma entries_not_ok h g en b :
  globals_ok n h -> entries h g = (Some en, Some b) -> en <> 0 -> empty_ b = true.
Proof.
  intros [_ _ [el [Hel _]] [bl [Hbl _]] Hp] Hent Hen. unfold entries in Hent.
  rw Hel Hbl /= in Hent. injection Hent as He Hb.
  apply arr_get_Some in He as [_ He]. apply arr_get_Some in Hb as [_ Hb]. by eapply Hp.
Qed.
End Race.

(** ** Property *)

(** C27: control calls from several threads.  Calls about different sensors can
    be interleaved access by access: no array is accessed outside of its
    bounds, the handle table does not change, and when all calls have returned
    the state is consistent again.  Two calls about the same sensor cannot: a
    request that is recorded while another thread activates the sensor is lost.
    Both calls report what they would report alone, the sensor is active, but
    its sub-HAL is never told the period, and the request stays pending beside
    an active sensor, which no sequence of whole calls can bring about. *)
Theorem control_calls_interleaved `{SensorsHeader} `{!SensorsHeaderLaws} {W}
    (sub_hal : sub_call -> W -> Z * W) ctx n h w :
  Z.of_nat (length (sub_hw_devices ctx)) <= INT_MAX -> n <= INT_MAX -> globals_ok n h ->
  (forall cs tr p,
     NoDup (control_handle <$> cs) ->
     (forall c, c ∈ cs -> match c with Activate g _ | Batch g _ _ _ => 1 <= g <= n | _ => True end) ->
     run (pool_step sub_hal ctx) (Some ((h, w), call_start <$> cs)) tr p ->
     exists h' w' pcs, p = Some ((h', w'), pcs) /\ g_table h' = g_table h /\
       (Forall (fun pc => finished pc = true) pcs -> globals_ok n h')) /\
  (forall g d l b enabled flags period_ns timeout,
     1 <= g <= n -> route ctx (g_table h) g = Some (d, l) ->
     dev_version d < SENSORS_DEVICE_API_VERSION_1_1 ->
     entries h g = (Some 0, Some b) -> empty_ b = true -> enabled <> 0 ->
     exists h',
       let '(r, w') := sub_hal (CallActivate d l enabled) w in
       run (pool_step sub_hal ctx)
         (Some ((h, w), call_start <$> [Batch g flags period_ns timeout; Activate g enabled]))
         [0; 1; 1; 1; 0]%nat (Some ((h', w'), [PDone g 0; PDone g r])) /\
       entries h' g = (Some enabled, Some (update_batch_data b g flags period_ns timeout)) /\
       ~ globals_ok n h').
Proof.
  intros Hdevs Hn Hok. split.
  - intros cs tr p Hnd Hcs Hrun. pose proof (pool_ok_start n h cs Hok Hnd Hcs) as Hpool.
    destruct (run_pool_ok sub_hal ctx n Hdevs Hn h w _ tr p Hpool Hrun)
      as (h' & w' & pcs & -> & Hp & Ht).
    exists h', w', pcs. split; [done|]. split; [done|]. by apply pool_ok_finished.
  - intros g d l b en fl p tmo Hg Hroute Hv Hent Hemp Hen.
    destruct (race_loses_request sub_hal ctx n Hdevs Hn h w g d l b en fl p tmo)
      as (h' & Hrun & Hent'); [by destruct Hok|done..|].
    exists h'. destruct (sub_hal (CallActivate d l en) w) as [r w'].
    split; [exact Hrun|]. split; [done|]. intros Hok'.
    by pose proof (entries_not_ok n h' g en _ Hok' Hent' Hen).
Qed.

(** One sensor of an API 1.0 sub-HAL; the sub-HAL only sees the activation. *)
Lemma control_calls_interleaved_witness :
  let H := android9_sensors_h in
  let d0 := mkDevice 100 16777217 in
  let ctx := mkCtx 1 [d0] in
  let b := mkBatch true 0 0 0 0 in
  let h := mkGlobals (snd (assign_handles initial_table [mkFull 0 5]))
             None (Some [b]) (Some [0]) in
  exists h',
    run (pool_step logging_hal ctx)
      (Some ((h, []), call_start <$> [Batch 1 0 20000000 0; Activate 1 1]))
      [0; 1; 1; 1; 0]%nat (Some ((h', [CallActivate d0 5 1]), [PDone 1 0; PDone 1 0])) /\
    entries h' 1 = (Some 1, Some (mkBatch false 1 0 20000000 0)).
Proof.
  intros H d0 ctx b h.
  destruct (@control_calls_interleaved H android9_laws _ logging_hal ctx 1 h []) as [_ Hrace].
  - vm_compute. discriminate.
  - unfold INT_MAX. lia.
  - constructor.
    + apply (assign_wf initial_table 0 5); [apply initial_table_wf|reflexivity].
    + reflexivity.
    + exists [0]. split; reflexivity.
    + exists [b]. split; reflexivity.
    + intros el bl i e b' [= <-] [= <-] He _ Hne. destruct i as [|i]; [|by destruct i].
      simpl in He. injection He as <-. destruct Hne. reflexivity.
  - destruct (Hrace 1 d0 5 b 1 0 20000000 0) as (h' & Hrun & Hent & _);
      [lia|vm_compute; reflexivity|vm_compute; reflexivity|vm_compute; reflexivity|reflexivity
      |discriminate|].
    exists h'. split; [exact Hrun|exact Hent].
Defined.
