(* ===== verification/CString.v ===== *)
(** * Characters and C strings

    A [char] is a [Z] from 0 to 255, a text the list of its characters without
    the terminating zero.  The classification functions are those of the C
    locale, the locale of a program that never calls [setlocale].  [scan_*] are
    what the sources use of [scanf] and [strtoul]. *)
From Stdlib Require Import Ascii.
From S2P Require Import Prelude.

(** ** Characters *)

Definition ch (c : Ascii.ascii) : Z := Z.of_N (Ascii.N_of_ascii c).
Definition text_of (s : string) : list Z := ch <$> String.list_ascii_of_string s.

Definition tolower (c : Z) : Z := if (65 <=? c) && (c <=? 90) then c + 32 else c.
Definition toupper (c : Z) : Z := if (97 <=? c) && (c <=? 122) then c - 32 else c.
Definition isspace (c : Z) : bool := (c =? 32) || ((9 <=? c) && (c <=? 13)).

Definition is_byte (b : Z) : Prop := 0 <= b < 256.

(** [std::string::operator[]]: the character at the end is 0. *)
Definition str_at (text : list Z) (i : nat) : Z := default 0 (text !! i).

(** The characters before the terminating zero of a buffer. *)
Fixpoint c_str (buffer : list Z) : list Z :=
  match buffer with
  | [] => []
  | c :: rest => if c =? 0 then [] else c :: c_str rest
  end.

(** [strncmp(text, prefix, strlen(prefix)) == 0]. *)
Definition has_prefix (prefix text : list Z) : bool :=
  bool_decide (take (length prefix) text = prefix).

(** [text[strcspn(text, "\r\n")] = 0]. *)
Fixpoint cut_line (text : list Z) : list Z :=
  match text with
  | [] => []
  | c :: rest => if (c =? 13) || (c =? 10) then [] else c :: cut_line rest
  end.

(** What [snprintf] leaves in a buffer of [size] > 0 bytes. *)
Definition snprintf (size : nat) (text : list Z) : list Z := take (size - 1) text.

(** [fgets]: at most [size] - 1 characters, up to and with a newline; [None] at
    the end of the file. *)
Fixpoint fgets_chars (n : nat) (bytes : list Z) : list Z * list Z :=
  match n, bytes with
  | O, _ | _, [] => ([], bytes)
  | S n', c :: rest =>
      if c =? 10 then ([c], rest)
      else let '(line, rest') := fgets_chars n' rest in (c :: line, rest')
  end.

Definition fgets (size : nat) (bytes : list Z) : option (list Z * list Z) :=
  match bytes with [] => None | _ => Some (fgets_chars (size - 1) bytes) end.

(** ** Scanning *)

Definition isdigit (c : Z) : bool := (48 <=? c) && (c <=? 57).

Fixpoint skip_spaces (text : list Z) : list Z :=
  match text with
  | [] => []
  | c :: rest => if isspace c then skip_spaces rest else text
  end.

(** [%<n>s]: a word of at most [n] characters. *)
Fixpoint scan_word_chars (n : nat) (text : list Z) : list Z * list Z :=
  match n, text with
  | O, _ | _, [] => ([], text)
  | S n', c :: rest =>
      if isspace c then ([], text)
      else let '(word, rest') := scan_word_chars n' rest in (c :: word, rest')
  end.

Definition scan_word (n : nat) (text : list Z) : option (list Z * list Z) :=
  match scan_word_chars n (skip_spaces text) with
  | ([], _) => None
  | (word, rest) => Some (word, rest)
  end.

Fixpoint take_digits (text : list Z) : list Z * list Z :=
  match text with
  | [] => ([], [])
  | c :: rest =>
      if isdigit c then let '(ds, rest') := take_digits rest in (c :: ds, rest')
      else ([], text)
  end.

Definition digits_value (v : Z) (ds : list Z) : Z :=
  foldl (fun a d => a * 10 + (d - 48)) v ds.

(** The sign and the digits of a decimal number. *)
Definition scan_sign (text : list Z) : bool * list Z :=
  match text with
  | c :: rest =>
      if c =? 45 then (true, rest) else if c =? 43 then (false, rest) else (false, text)
  | [] => (false, [])
  end.

Definition scan_magnitude (text : list Z) : option (bool * Z * list Z) :=
  let '(negative, text) := scan_sign (skip_spaces text) in
  match take_digits text with
  | ([], _) => None
  | (ds, rest) => Some (negative, digits_value 0 ds, rest)
  end.

Definition ULLONG_MAX : Z := 18446744073709551615.

(** [%llu]: a 64-bit unsigned number, [ULLONG_MAX] when it is too large;
    [None] when there is no number. *)
Definition scan_unsigned (text : list Z) : option (Z * list Z) :=
  match scan_magnitude text with
  | None => None
  | Some (negative, v, rest) =>
      Some (if ULLONG_MAX <? v then ULLONG_MAX else if negative : bool then u64 (- v) else v, rest)
  end.

(** The width of [long], which the sources are built for both ways. *)
Class LongWidth := {
  long_bits : Z;
  long_width : long_bits = 32 \/ long_bits = 64;
}.

(** [strtoul(text, &end, 10)]: the number, the largest [unsigned long] when it
    is too large, and the text at [end].  Without digits the number is 0 and
    [end] is [text]. *)
Definition strtoul `{LongWidth} (text : list Z) : Z * list Z :=
  match scan_magnitude text with
  | None => (0, text)
  | Some (negative, v, rest) =>
      (if 2 ^ long_bits <=? v then 2 ^ long_bits - 1
       else if negative : bool then (- v) mod 2 ^ long_bits else v, rest)
  end.

(** [%d]. *)
Definition scan_int (text : list Z) : option (Z * list Z) :=
  match scan_magnitude text with
  | None => None
  | Some (negative, v, rest) =>
      let v := if negative : bool then - v else v in
      Some (i32 (Z.max INT64_MIN (Z.min INT64_MAX v)), rest)
  end.

(** ** Printing *)

Fixpoint print_digits (fuel : nat) (n : Z) (acc : list Z) : list Z :=
  let acc := (48 + n mod 10) :: acc in
  if n / 10 =? 0 then acc
  else match fuel with O => acc | S fuel' => print_digits fuel' (n / 10) acc end.

(** [%llu] of a 64-bit unsigned number, which has at most 20 digits. *)
Definition print_dec (n : Z) : list Z := print_digits 20 n [].

(** * Theorems *)

Lemma fgets_line n line rest :
  (length line < n)%nat -> 10 ∉ line -> fgets_chars n (line ++ 10 :: rest) = (line ++ [10], rest).
Proof.
  revert n. induction line as [|c line IH]; intros n Hlen Hnl.
  - destruct n; [lia|]. done.
  - destruct n as [|n]; simpl in *; [lia|]. apply not_elem_of_cons in Hnl as [Hc Hnl].
    destruct (Z.eqb_spec c 10); [by subst|]. by rw (IH n); [|lia|].
Qed.

Lemma print_digits_spec fuel n acc :
  0 <= n < 10 ^ Z.of_nat (S fuel) ->
  exists ds, print_digits fuel n acc = ds ++ acc /\ ds <> [] /\
    Forall (fun c => isdigit c = true) ds /\ digits_value 0 ds = n.
Proof.
  revert n acc. induction fuel as [|fuel IH]; intros n acc Hn; simpl.
  all: pose proof (Z.mod_pos_bound n 10 ltac:(lia)) as Hmod.
  all: pose proof (Z.div_mod n 10 ltac:(lia)) as Hdm.
  all: assert (isdigit (48 + n mod 10) = true) as Hd by (unfold isdigit; lia).
  - exists [48 + n mod 10]. change (10 ^ Z.of_nat 1) with 10 in Hn.
    assert (n / 10 = 0) as Hz by (apply Z.div_small; lia). rw Hz.
    split_and!; [done|done|by constructor|]. unfold digits_value. simpl. lia.
  - destruct (Z.eqb_spec (n / 10) 0) as [Hz|Hz].
    + exists [48 + n mod 10]. split_and!; [done|done|by constructor|].
      unfold digits_value. simpl. lia.
    + destruct (IH (n / 10) ((48 + n mod 10) :: acc)) as (ds & -> & Hne & Hds & Hv).
      { split; [apply Z.div_pos; lia|]. apply Z.div_lt_upper_bound; [lia|].
        replace (Z.of_nat (S (S fuel))) with (Z.succ (Z.of_nat (S fuel))) in Hn by lia.
        rw Z.pow_succ_r in Hn; lia. }
      exists (ds ++ [48 + n mod 10]). split_and!.
      * by rw -app_assoc.
      * by destruct ds.
      * apply Forall_app. split; [done|]. by constructor.
      * unfold digits_value in *. rw foldl_app Hv. simpl. lia.
Qed.

Lemma take_digits_app ds rest :
  Forall (fun c => isdigit c = true) ds ->
  match rest with c :: _ => isdigit c = false | [] => True end ->
  take_digits (ds ++ rest) = (ds, rest).
Proof.
  intros Hds Hr. induction Hds as [|c ds Hc Hds IH]; simpl.
  - destruct rest as [|c rest]; [done|]. simpl. by rw Hr.
  - by rw Hc IH.
Qed.

(** Where there is no digit there is no number, for any of the scanners. *)
Definition starts_number (text : list Z) : bool :=
  match text with c :: _ => isdigit c || (c =? 43) || (c =? 45) | [] => false end.

Lemma scan_magnitude_none text :
  starts_number (skip_spaces text) = false -> scan_magnitude text = None.
Proof.
  unfold scan_magnitude. destruct (skip_spaces text) as [|c rest]; [done|]. simpl.
  rw !orb_false_iff. intros [[Hd Hp] Hm]. rw Hm Hp. simpl. by rw Hd.
Qed.

Lemma digits_value_nonneg v ds :
  0 <= v -> Forall (fun c => isdigit c = true) ds -> 0 <= digits_value v ds.
Proof.
  intros Hv Hds. revert v Hv. induction Hds as [|c ds Hc Hds IH]; intros v Hv; [done|].
  apply IH. unfold isdigit in Hc. lia.
Qed.

Lemma scan_magnitude_digits ds rest :
  ds <> [] -> Forall (fun c => isdigit c = true) ds ->
  match rest with c :: _ => isdigit c = false | [] => True end ->
  scan_magnitude (ds ++ rest) = Some (false, digits_value 0 ds, rest).
Proof.
  intros Hne Hds Hr. destruct ds as [|d ds]; [done|].
  pose proof Hds as Hds0. apply Forall_cons in Hds0 as [Hd _].
  unfold scan_magnitude. simpl.
  assert (isspace d = false) as -> by (unfold isdigit, isspace in *; lia). simpl.
  destruct (Z.eqb_spec d 45); [unfold isdigit in Hd; lia|].
  destruct (Z.eqb_spec d 43); [unfold isdigit in Hd; lia|].
  by rw (take_digits_app (d :: ds)); [|done|done].
Qed.

Lemma strtoul_none `{LongWidth} text :
  starts_number (skip_spaces text) = false -> strtoul text = (0, text).
Proof. intros Hn. unfold strtoul. by rw scan_magnitude_none. Qed.

Lemma strtoul_digits `{LongWidth} ds rest :
  ds <> [] -> Forall (fun c => isdigit c = true) ds ->
  match rest with c :: _ => isdigit c = false | [] => True end ->
  strtoul (ds ++ rest) = (Z.min (digits_value 0 ds) (2 ^ long_bits - 1), rest).
Proof.
  intros Hne Hds Hr. unfold strtoul. rw scan_magnitude_digits; [|done..].
  destruct (Z.leb_spec (2 ^ long_bits) (digits_value 0 ds)); f_equal; lia.
Qed.

(** Printing a number and scanning it. *)
Lemma scan_print n rest :
  0 <= n <= ULLONG_MAX -> match rest with c :: _ => isdigit c = false | [] => True end ->
  scan_unsigned (print_dec n ++ rest) = Some (n, rest).
Proof.
  intros Hn Hr. unfold print_dec.
  destruct (print_digits_spec 20 n []) as (ds & -> & Hne & Hds & Hv).
  { split; [lia|]. unfold ULLONG_MAX in Hn. change (10 ^ Z.of_nat 21) with (10 ^ 21). lia. }
  rw app_nil_r. unfold scan_unsigned. rw scan_magnitude_digits; [|done..]. rw Hv.
  destruct (Z.ltb_spec ULLONG_MAX n); [lia|done].
Qed.

Lemma scan_print_space n rest :
  0 <= n <= ULLONG_MAX -> match rest with c :: _ => isdigit c = false | [] => True end ->
  scan_unsigned (32 :: print_dec n ++ rest) = Some (n, rest).
Proof.
  intros Hn Hr. rw -(scan_print n rest Hn Hr). unfold scan_unsigned, scan_magnitude. done.
Qed.

(** ** Words and lines *)

(** The end of a word. *)
Definition at_end (rest : list Z) : Prop :=
  match rest with c :: _ => isspace c = true | [] => True end.

Lemma scan_word_chars_app n text : (scan_word_chars n text).1 ++ (scan_word_chars n text).2 = text.
Proof.
  revert n. induction text as [|c text IH]; intros [|n]; simpl; try done.
  destruct (isspace c); [done|]. specialize (IH n).
  destruct (scan_word_chars n text) as [word rest]. simpl in *. by rw IH.
Qed.

Lemma scan_word_text n text word rest :
  scan_word n text = Some (word, rest) -> skip_spaces text = word ++ rest.
Proof.
  unfold scan_word. pose proof (scan_word_chars_app n (skip_spaces text)) as Happ.
  destruct (scan_word_chars n (skip_spaces text)) as [[|c w] r]; [done|]. by intros [= <- <-].
Qed.

(** A word that fits is read whole. *)
Lemma scan_word_whole n word rest :
  word <> [] -> Forall (fun c => isspace c = false) word -> (length word <= n)%nat -> at_end rest ->
  scan_word n (word ++ rest) = Some (word, rest).
Proof.
  intros Hne Hw Hlen Hr. unfold scan_word.
  assert (skip_spaces (word ++ rest) = word ++ rest) as ->.
  { destruct word as [|c word]; [done|]. apply Forall_cons in Hw as [Hc _]. simpl. by rw Hc. }
  assert (scan_word_chars n (word ++ rest) = (word, rest)) as ->.
  { clear Hne. revert n Hlen. induction Hw as [|c word Hc Hw IH]; intros [|n] Hlen; simpl in *; try lia.
    - by destruct rest.
    - destruct rest as [|c rest]; [done|]. simpl in *. by rw Hr.
    - rw Hc (IH n); [done|lia]. }
  by destruct word.
Qed.

Lemma skip_spaces_in c text : c ∈ skip_spaces text -> c ∈ text.
Proof. induction text as [|d text IH]; simpl; [done|]. destruct (isspace d); set_solver. Qed.

(** The newline at the end of a line is a space. *)
Lemma skip_spaces_newline text :
  skip_spaces (text ++ [10]) = match skip_spaces text with [] => [] | l => l ++ [10] end.
Proof. induction text as [|c text IH]; simpl; [done|]. by destruct (isspace c). Qed.

(** [fgets] in the middle of a line that does not fit. *)
Lemma fgets_part n line rest :
  (n <= length line)%nat -> 10 ∉ line -> fgets_chars n (line ++ rest) = (take n line, drop n line ++ rest).
Proof.
  revert n. induction line as [|c line IH]; intros n Hlen Hnl.
  - destruct n; [|simpl in Hlen; lia]. by destruct rest.
  - destruct n as [|n]; simpl in *; [done|]. apply not_elem_of_cons in Hnl as [Hc Hnl].
    destruct (Z.eqb_spec c 10); [by subst|]. by rw (IH n); [|lia|].
Qed.
