(* ===== verification/MacAddr.v ===== *)
(** * MAC address texts and addresses

    Model of the text half of macaddr/mac_addr_normalization.cpp: [HexValue],
    [ParseMac], the masking of [GenerateMac] and the [snprintf] format of
    [StoreMac].  A [std::string] is the list of its characters.

    The file and process half is in MacStore.v. *)
From Stdlib Require Import Ascii.
From S2P Require Import Prelude CString.

(** ** Hexadecimal digits *)

Definition HexValue (value : Z) : Z :=
  if (ch "0"%char <=? value) && (value <=? ch "9"%char) then value - ch "0"%char
  else
    let value := tolower value in
    if (ch "a"%char <=? value) && (value <=? ch "f"%char) then value - ch "a"%char + 10
    else -1.

(** ** Parsing *)

(** The loop over [address]; what it wrote before a failure stays written. *)
Fixpoint parse_loop (text : list Z) (indices : list nat) (address : list Z) :
    bool * list Z :=
  match indices with
  | [] => (true, address)
  | index :: indices' =>
      let offset := (index * 3)%nat in
      let high := HexValue (str_at text offset) in
      let low := HexValue (str_at text (offset + 1)) in
      if (high <? 0) || (low <? 0) ||
         ((index <? length address - 1)%nat && negb (str_at text (offset + 2) =? ch ":"%char))
      then (false, address)
      else parse_loop text indices'
             (<[index := u8 (Z.lor (Z.shiftl high 4) low)]> address)
  end.

(** The tests after the loop. *)
Definition usable_mac (address : list Z) : bool :=
  let all_zero := forallb (fun value => value =? 0) address in
  let all_ff := forallb (fun value => value =? 255) address in
  negb all_zero && negb all_ff && (Z.land (str_at address 0) 1 =? 0).

Definition ParseMac (text : list Z) (address : list Z) : bool * list Z :=
  if negb (length text =? 17)%nat then (false, address)
  else
    match parse_loop text (seq 0 (length address)) address with
    | (false, address) => (false, address)
    | (true, address) => (usable_mac address, address)
    end.

(** The loop of [HasValidMac] that drops trailing white space. *)
Fixpoint pop_spaces (reversed : list Z) : list Z :=
  match reversed with
  | c :: reversed' => if isspace c then pop_spaces reversed' else reversed
  | [] => []
  end.

Definition strip (text : list Z) : list Z := reverse (pop_spaces (reverse text)).

(** What [HasValidMac] answers for the bytes it read. *)
Definition valid_text (bytes : list Z) : bool :=
  (ParseMac (strip bytes) (replicate 6 0)).1.

(** ** Generating and printing *)

(** The last assignment of [GenerateMac], on the bytes it read. *)
Definition mask_address (address : list Z) : list Z :=
  match address with
  | [] => []
  | a0 :: rest => u8 (Z.lor (Z.land a0 254) 2) :: rest
  end.

(** [%02X] of an [unsigned char]. *)
Definition hex_digit (v : Z) : Z := if v <? 10 then 48 + v else 55 + v.
Definition print_byte (b : Z) : list Z := [hex_digit (b / 16); hex_digit (b mod 16)].

(** [snprintf] with the format of [StoreMac]. *)
Fixpoint format_mac (address : list Z) : list Z :=
  match address with
  | [] => []
  | [b] => print_byte b
  | b :: rest => print_byte b ++ ch ":"%char :: format_mac rest
  end.

(** * Theorems *)

(** ** Hexadecimal digits *)

Ltac chars :=
  change (ch "0"%char) with 48 in *; change (ch "9"%char) with 57 in *; change (ch "a"%char) with 97 in *;
  change (ch "f"%char) with 102 in *; change (ch ":"%char) with 58 in *.

Lemma HexValue_digit c :
  0 <= HexValue c -> 0 <= HexValue c < 16 /\ hex_digit (HexValue c) = toupper c.
Proof.
  unfold HexValue, tolower, toupper, hex_digit. chars.
  repeat case_match; lia.
Qed.

Lemma HexValue_hex_digit v : 0 <= v < 16 -> HexValue (hex_digit v) = v.
Proof.
  intros Hv. unfold HexValue, tolower, hex_digit. chars. repeat case_match; lia.
Qed.

Lemma nibbles_disjoint h l : 0 <= l < 16 -> Z.land (h * 16) l = 0.
Proof.
  intros Hl. apply Z.bits_inj'. intros n Hn. rw Z.land_spec Z.bits_0.
  change 16 with (2 ^ 4). destruct (Z.ltb_spec n 4).
  - rw Z.mul_pow2_bits_low; [done|lia].
  - replace l with (l mod 2 ^ 4) by (apply Z.mod_small; lia).
    rw Z.mod_pow2_bits_high; [apply andb_false_r|lia].
Qed.

Lemma nibbles h l : 0 <= h < 16 -> 0 <= l < 16 -> u8 (Z.lor (Z.shiftl h 4) l) = h * 16 + l.
Proof.
  intros Hh Hl. rw Z.shiftl_mul_pow2; [|lia]. change (2 ^ 4) with 16.
  pose proof (nibbles_disjoint h l Hl) as Hd.
  rw -(Z.lxor_lor _ _ Hd) -(Z.add_nocarry_lxor _ _ Hd). unfold u8. rw Z.mod_small; lia.
Qed.

Lemma print_parse_byte b : is_byte b ->
  HexValue (hex_digit (b / 16)) = b / 16 /\ HexValue (hex_digit (b mod 16)) = b mod 16 /\
  0 <= b / 16 < 16 /\ 0 <= b mod 16 < 16 /\
  u8 (Z.lor (Z.shiftl (b / 16) 4) (b mod 16)) = b.
Proof.
  unfold is_byte. intros Hb.
  assert (0 <= b / 16 < 16) by (split; [apply Z.div_pos|apply Z.div_lt_upper_bound]; lia).
  assert (0 <= b mod 16 < 16) by (apply Z.mod_pos_bound; lia).
  split_and!; [by apply HexValue_hex_digit..|lia|lia|lia|lia|].
  rw nibbles; [|done|done]. pose proof (Z.div_mod b 16). lia.
Qed.

(** ** The loop *)

(** One turn of the loop that succeeds: the digits it read and the byte it
    stored. *)
Lemma parse_loop_cons text index indices a a' :
  parse_loop text (index :: indices) a = (true, a') ->
  let high := str_at text (index * 3) in
  let low := str_at text (index * 3 + 1) in
  exists b, is_byte b /\
    toupper high = hex_digit (b / 16) /\ toupper low = hex_digit (b mod 16) /\
    ((index < length a - 1)%nat -> str_at text (index * 3 + 2) = ch ":"%char) /\
    parse_loop text indices (<[index := b]> a) = (true, a').
Proof.
  intros Hp high low. simpl in Hp. fold high low in Hp.
  destruct (Z.ltb_spec (HexValue high) 0) as [|Hh]; [done|].
  destruct (Z.ltb_spec (HexValue low) 0) as [|Hl]; [done|]. simpl in Hp.
  apply HexValue_digit in Hh as [Hh Hh']. apply HexValue_digit in Hl as [Hl Hl'].
  rw nibbles in Hp; [|done|done].
  exists (HexValue high * 16 + HexValue low).
  assert ((HexValue high * 16 + HexValue low) / 16 = HexValue high) as ->.
  { rw Z.div_add_l; [|lia]. rw Z.div_small; lia. }
  assert ((HexValue high * 16 + HexValue low) mod 16 = HexValue low) as ->.
  { rw Z.add_comm Z.mod_add; [|lia]. by rw Z.mod_small. }
  split_and!; [unfold is_byte; lia|done|done| |].
  - intros Hi. apply Nat.ltb_lt in Hi. rw Hi in Hp.
    destruct (Z.eqb_spec (str_at text (index * 3 + 2)) (ch ":"%char)); done.
  - by destruct (_ && _).
Qed.

Lemma seventeen {A} (text : list A) : length text = 17%nat ->
  exists c0 c1 c2 c3 c4 c5 c6 c7 c8 c9 c10 c11 c12 c13 c14 c15 c16,
    text = [c0; c1; c2; c3; c4; c5; c6; c7; c8; c9; c10; c11; c12; c13; c14; c15; c16].
Proof.
  intros Hlen. do 17 (destruct text as [|? text]; [done|]).
  destruct text; [|done]. by repeat eexists.
Qed.

Lemma six {A} (l : list A) : length l = 6%nat ->
  exists a0 a1 a2 a3 a4 a5, l = [a0; a1; a2; a3; a4; a5].
Proof.
  intros Hlen. do 6 (destruct l as [|? l]; [done|]). destruct l; [|done]. by repeat eexists.
Qed.

(** The converse: one turn over a printed byte. *)
Lemma parse_loop_printed text index indices a b :
  is_byte b -> str_at text (index * 3) = hex_digit (b / 16) ->
  str_at text (index * 3 + 1) = hex_digit (b mod 16) ->
  ((index < length a - 1)%nat -> str_at text (index * 3 + 2) = ch ":"%char) ->
  parse_loop text (index :: indices) a = parse_loop text indices (<[index := b]> a).
Proof.
  intros Hb Hh Hl Hsep. destruct (print_parse_byte b Hb) as (Hph & Hpl & ? & ? & Hu).
  simpl. rw Hh Hl Hph Hpl Hu.
  destruct (Z.ltb_spec (b / 16) 0); [lia|]. destruct (Z.ltb_spec (b mod 16) 0); [lia|]. simpl.
  destruct (Nat.ltb_spec index (length a - 1)) as [Hi|]; [|done]. by rw Hsep.
Qed.

(** Splits [Forall] over an explicit list. *)
Ltac bytes := forall_list done.

Ltac take_six Hlen := destruct (six _ Hlen) as (?a0 & ?a1 & ?a2 & ?a3 & ?a4 & ?a5 & ->).

(** What [ParseMac] accepts is the printed form of a usable address, in either
    case of the letters. *)
Lemma ParseMac_accepts text a0 a :
  length a0 = 6%nat -> ParseMac text a0 = (true, a) ->
  length a = 6%nat /\ Forall is_byte a /\ usable_mac a = true /\
  toupper <$> text = format_mac a.
Proof.
  intros H0 Hp. take_six H0. unfold ParseMac in Hp.
  destruct (Nat.eqb_spec (length text) 17) as [Hlen|]; [|done]. simpl negb in Hp. cbn iota in Hp.
  change (seq 0 _) with [0; 1; 2; 3; 4; 5]%nat in Hp.
  destruct (parse_loop _ _ _) as [[] a'] eqn:Hl; [|done]. injection Hp as Hu ->.
  do 6 (apply parse_loop_cons in Hl as (?b & ? & ? & ? & ?Hc & Hl)).
  simpl in Hl. injection Hl as <-.
  destruct (seventeen _ Hlen) as (c0 & c1 & c2 & c3 & c4 & c5 & c6 & c7 & c8 & c9 & c10 &
    c11 & c12 & c13 & c14 & c15 & c16 & ->).
  unfold str_at in *. simpl in *.
  repeat match goal with H : (_ -> _ = ch _) |- _ => specialize (H ltac:(lia)) end.
  split_and!; [done|by bytes|done|]. unfold print_byte. simpl. subst.
  change (toupper (ch ":"%char)) with (ch ":"%char). by repeat f_equal.
Qed.

(** Printing then parsing gives the address back, accepted exactly when it is
    usable. *)
Lemma parse_format_roundtrip a a0 :
  length a = 6%nat -> Forall is_byte a -> length a0 = 6%nat ->
  ParseMac (format_mac a) a0 = (usable_mac a, a).
Proof.
  intros Ha Hb H0. take_six H0. destruct (six a Ha) as (b0 & b1 & b2 & b3 & b4 & b5 & ->).
  repeat (apply Forall_cons in Hb as [?Hb Hb]).
  unfold ParseMac. change (length (format_mac _)) with 17%nat.
  change (seq 0 _) with [0; 1; 2; 3; 4; 5]%nat. simpl negb. cbn iota.
  rw (parse_loop_printed _ 0 _ _ b0); [|done..]. rw (parse_loop_printed _ 1 _ _ b1); [|done..].
  rw (parse_loop_printed _ 2 _ _ b2); [|done..]. rw (parse_loop_printed _ 3 _ _ b3); [|done..].
  rw (parse_loop_printed _ 4 _ _ b4); [|done..].
  rw (parse_loop_printed _ 5 _ _ b5); [|done|done|done|simpl; lia]. done.
Qed.

(** Upper and lower case letters are the same to the parser. *)
Lemma HexValue_toupper c : HexValue (toupper c) = HexValue c.
Proof. unfold HexValue, tolower, toupper. chars. repeat case_match; lia. Qed.

Lemma str_at_toupper text i : str_at (toupper <$> text) i = toupper (str_at text i).
Proof. unfold str_at. rw list_lookup_fmap. by destruct (text !! i). Qed.

Lemma toupper_colon c : (toupper c =? ch ":"%char) = (c =? ch ":"%char).
Proof. unfold toupper. chars. repeat case_match; lia. Qed.

Lemma parse_loop_toupper text indices a :
  parse_loop (toupper <$> text) indices a = parse_loop text indices a.
Proof.
  revert a. induction indices as [|i indices IH]; intros a; simpl; [done|].
  by rw !str_at_toupper !HexValue_toupper toupper_colon IH.
Qed.

(** C36: [ParseMac] accepts exactly the seventeen-character texts that are, in
    either case of the letters, the printed form of a usable address (unicast,
    neither zero nor all ones), and the address it stores is that one. *)
Theorem parse_mac_correct text a0 a :
  length a0 = 6%nat ->
  ParseMac text a0 = (true, a) <->
  length a = 6%nat /\ Forall is_byte a /\ usable_mac a = true /\
  toupper <$> text = format_mac a.
Proof.
  intros H0. split; [by apply ParseMac_accepts|]. intros (Ha & Hb & Hu & Hf).
  rw -Hu -(parse_format_roundtrip a a0 Ha Hb H0) -Hf. unfold ParseMac.
  by rw length_fmap parse_loop_toupper.
Qed.

Lemma parse_mac_correct_witness :
  ParseMac (text_of "a2:00:5e:10:ff:0B") (replicate 6 0) = (true, [162; 0; 94; 16; 255; 11]).
Proof.
  apply (proj2 (parse_mac_correct (text_of "a2:00:5e:10:ff:0B") (replicate 6 0)
    [162; 0; 94; 16; 255; 11] eq_refl)).
  split_and!; [reflexivity| |reflexivity|reflexivity].
  forall_list (split; reflexivity || discriminate).
Defined.

(** The mask makes any six bytes a unicast, locally administered address that
    is neither zero nor the broadcast address. *)
Lemma mask_first_bits x :
  is_byte x -> is_byte (u8 (Z.lor (Z.land x 254) 2)) /\
  Z.testbit (u8 (Z.lor (Z.land x 254) 2)) 0 = false /\
  Z.testbit (u8 (Z.lor (Z.land x 254) 2)) 1 = true.
Proof.
  intros Hx. unfold u8, is_byte. split; [by apply Z.mod_pos_bound|].
  change 256 with (2 ^ 8). rw !Z.mod_pow2_bits_low; [|lia..].
  rw !Z.lor_spec !Z.land_spec. simpl. by rw !andb_false_r orb_true_r.
Qed.

Lemma usable_of_bits x rest :
  Z.testbit x 0 = false -> Z.testbit x 1 = true -> usable_mac (x :: rest) = true.
Proof.
  intros H0 H1. unfold usable_mac, str_at. simpl.
  destruct (Z.eqb_spec x 0) as [->|_]; [done|].
  destruct (Z.eqb_spec x 255) as [->|_]; [done|]. simpl. apply Z.eqb_eq. apply Z.bits_inj'. intros n Hn. rw Z.land_spec Z.bits_0.
  destruct (decide (n = 0)) as [->|]; [by rw H0|].
  change 1 with (2 ^ 0). rw Z.pow2_bits_false; [apply andb_false_r|done].
Qed.

Lemma mask_address_usable a :
  length a = 6%nat -> Forall is_byte a ->
  length (mask_address a) = 6%nat /\ Forall is_byte (mask_address a) /\
  usable_mac (mask_address a) = true.
Proof.
  intros Ha Hb. destruct a as [|x rest]; [done|]. apply Forall_cons in Hb as [Hx Hb].
  destruct (mask_first_bits x Hx) as (? & ? & ?). split_and!; [done| |].
  - by apply Forall_cons.
  - by apply usable_of_bits.
Qed.

(** A printed address has no white space at its end, so stripping what was read
    back leaves it alone. *)
Lemma strip_format a :
  length a = 6%nat -> Forall is_byte a -> strip (format_mac a) = format_mac a.
Proof.
  intros Ha Hb. destruct (six a Ha) as (b0 & b1 & b2 & b3 & b4 & b5 & ->).
  repeat (apply Forall_cons in Hb as [?Hb Hb]).
  destruct (print_parse_byte b5 Hb5) as (_ & _ & _ & ? & _).
  unfold strip. change (format_mac _) with
    ((print_byte b0 ++ ch ":"%char :: print_byte b1 ++ ch ":"%char :: print_byte b2 ++
     ch ":"%char :: print_byte b3 ++ ch ":"%char :: print_byte b4 ++
     [ch ":"%char; hex_digit (b5 / 16)]) ++ [hex_digit (b5 mod 16)]).
  rw reverse_snoc. simpl.
  assert (isspace (hex_digit (b5 mod 16)) = false) as ->.
  { unfold isspace, hex_digit. case_match; lia. }
  by rw reverse_cons reverse_involutive.
Qed.

(** The text [StoreMac] writes for any six random bytes is one that
    [HasValidMac] accepts, with or without a trailing newline. *)
Theorem generated_text_valid random :
  length random = 6%nat -> Forall is_byte random ->
  length (format_mac (mask_address random)) = 17%nat /\
  valid_text (format_mac (mask_address random)) = true /\
  valid_text (format_mac (mask_address random) ++ [10]) = true.
Proof.
  intros Hr Hb. destruct (mask_address_usable random Hr Hb) as (Hlen & Hb' & Hu).
  split; [by destruct (six _ Hlen) as (? & ? & ? & ? & ? & ? & ->)|].
  assert (valid_text (format_mac (mask_address random)) = true) as Hv.
  { unfold valid_text. by rw strip_format // parse_format_roundtrip. }
  split; [done|]. unfold valid_text, strip. rw reverse_snoc. done.
Qed.

Lemma generated_text_valid_witness :
  valid_text (format_mac (mask_address [255; 255; 255; 255; 255; 255])) = true /\
  format_mac (mask_address [255; 255; 255; 255; 255; 255]) = text_of "FE:FF:FF:FF:FF:FF".
Proof.
  split; [|reflexivity].
  apply (generated_text_valid [255; 255; 255; 255; 255; 255] eq_refl).
  forall_list (split; reflexivity || discriminate).
Defined.
