(* ===== verification/Posix.v ===== *)
(** * Programs over POSIX calls

    The kernel is outside of the repository.  The programs of the tree are
    written as values of [prog], which make [syscall]s; what the kernel answers
    is the class [Posix], and what its documentation promises is [PosixLaws]:
    one relation, [sys_spec], that each answer satisfies.

    [wp P p Q w] says that [p], run from the world [w], returns (it neither
    exits nor runs out of fuel), that [P] holds before and after every call,
    and that [Q] holds of the result.

    The worlds seen here are those of one process: nobody else changes the
    directory entries between its calls, except for the child it waits for.
    [disk] is a concrete kernel for the witnesses. *)
From S2P Require Import Prelude.

(** ** Calls *)

Inductive sysres (A : Type) :=
| Ok (a : A)
| Err (errno : Z).
Arguments Ok {A}.
Arguments Err {A}.

Inductive oflag := O_RDONLY | O_WRONLY | O_CREAT | O_EXCL | O_CLOEXEC | O_NOFOLLOW.

#[export] Instance oflag_eq_dec : EqDecision oflag.
Proof. solve_decision. Defined.

Inductive syscall : Type -> Type :=
| SysOpen (path : string) (flags : list oflag) (mode : Z) : syscall (sysres Z)
| SysRead (fd : Z) (size : nat) : syscall (sysres (list Z))
| SysWrite (fd : Z) (data : list Z) : syscall (sysres nat)
| SysClose (fd : Z) : syscall (sysres unit)
| SysUnlink (path : string) : syscall (sysres unit)
| SysRename (old new : string) : syscall (sysres unit)
| SysFchmod (fd mode : Z) : syscall (sysres unit)
| SysFchown (fd uid gid : Z) : syscall (sysres unit)
| SysFsync (fd : Z) : syscall (sysres unit)
| SysFork : syscall (sysres Z)
| SysExec (path : string) : syscall (sysres unit)
| SysWaitpid (pid : Z) : syscall (sysres Z).

(** ** Programs *)

Inductive prog (A : Type) : Type :=
| Ret (a : A)
| Exit (status : Z)
| OutOfFuel
| Call {B} (c : syscall B) (k : B -> prog A).
Arguments Ret {A}.
Arguments Exit {A}.
Arguments OutOfFuel {A}.
Arguments Call {A B}.

Fixpoint prog_bind_ {A B} (f : A -> prog B) (p : prog A) : prog B :=
  match p with
  | Ret a => f a
  | Exit status => Exit status
  | OutOfFuel => OutOfFuel
  | Call c k => Call c (fun r => prog_bind_ f (k r))
  end.

#[export] Instance prog_ret : MRet prog := fun A a => Ret a.
#[export] Instance prog_bind : MBind prog := fun A B f p => prog_bind_ f p.

Definition call {B} (c : syscall B) : prog B := Call c Ret.

(** ** Files *)

Record file := mkFile { f_bytes : list Z; f_mode : Z; f_uid : Z; f_gid : Z }.

(** A directory entry: a regular file or anything else (a device, a link). *)
Inductive node := Regular (f : file) | Special.

Definition set_bytes (f : file) (b : list Z) : file := mkFile b (f_mode f) (f_uid f) (f_gid f).
Definition set_mode (f : file) (m : Z) : file := mkFile (f_bytes f) m (f_uid f) (f_gid f).
Definition set_owner (f : file) (u g : Z) : file := mkFile (f_bytes f) (f_mode f) u g.

(** Writing [data] at offset [off]. *)
Definition overwrite (bytes : list Z) (off : nat) (data : list Z) : list Z :=
  take off bytes ++ data ++ drop (off + length data) bytes.

(** ** The kernel *)

Class Posix (W : Type) := {
  sys {A} : syscall A -> W -> A * W;
  entry : W -> gmap string node;             (* the directory entries *)
  handle : W -> Z -> option (string * nat);  (* an open descriptor's file and offset *)
  interrupts : W -> nat;                     (* a bound on the signals still to come *)
}.

Section Spec.
Context `{Posix W}.

(** The file a descriptor refers to becomes [g f]. *)
Definition updates (fd : Z) (g : file -> file) (w w' : W) : Prop :=
  handle w' fd = handle w fd /\
  exists p off, handle w fd = Some (p, off) /\
  entry w' = alter (fun n => match n with Regular f => Regular (g f) | Special => Special end)
               p (entry w).

(** What the manual pages promise, for the calls the programs make. *)
Definition sys_spec {A} (c : syscall A) (w : W) : A -> W -> Prop :=
  match c in syscall A return A -> W -> Prop with
  | SysOpen path flags mode => fun r w' =>
      match r with
      | Err _ => entry w' = entry w
      | Ok fd =>
          0 <= fd /\ handle w' fd = Some (path, 0%nat) /\
          if bool_decide (O_CREAT ∈ flags) && bool_decide (O_EXCL ∈ flags)
          then entry w !! path = None /\
               exists m u g, entry w' = <[path := Regular (mkFile [] m u g)]> (entry w)
          else entry w' = entry w /\
               (bool_decide (O_CREAT ∈ flags) = false -> is_Some (entry w !! path))
      end
  | SysRead fd size => fun r w' =>
      entry w' = entry w /\
      match r with
      | Err e => handle w' fd = handle w fd /\
          (e = EINTR -> (interrupts w' < interrupts w)%nat)
      | Ok bytes => exists p off, handle w fd = Some (p, off) /\
          handle w' fd = Some (p, (off + length bytes)%nat) /\ (length bytes <= size)%nat /\
          match entry w !! p with
          | Some (Regular f) => bytes = u8 <$> take size (drop off (f_bytes f))
          | _ => Forall (fun b => 0 <= b < 256) bytes
          end
      end
  | SysWrite fd data => fun r w' =>
      match r with
      | Err e => entry w' = entry w /\ handle w' fd = handle w fd /\
          (e = EINTR -> (interrupts w' < interrupts w)%nat)
      | Ok n => (n <= length data)%nat /\ (data <> [] -> (0 < n)%nat) /\
          exists p off, handle w fd = Some (p, off) /\
          handle w' fd = Some (p, (off + n)%nat) /\
          entry w' = alter (fun x => match x with
            | Regular f => Regular (set_bytes f (overwrite (f_bytes f) off (take n data)))
            | Special => Special end) p (entry w)
      end
  | SysClose fd => fun _ w' => entry w' = entry w
  | SysUnlink path => fun r w' =>
      match r with
      | Ok _ => entry w' = delete path (entry w)
      | Err e => entry w' = entry w
      end
  | SysRename old new => fun r w' =>
      match r with
      | Ok _ => exists x, entry w !! old = Some x /\
          entry w' = <[new := x]> (delete old (entry w))
      | Err _ => entry w' = entry w
      end
  | SysFchmod fd mode => fun r w' =>
      match r with
      | Ok _ => updates fd (fun f => set_mode f mode) w w'
      | Err _ => entry w' = entry w
      end
  | SysFchown fd uid gid => fun r w' =>
      match r with
      | Ok _ => updates fd (fun f => set_owner f uid gid) w w'
      | Err _ => entry w' = entry w
      end
  | SysFsync fd => fun _ w' => entry w' = entry w
  | SysFork => fun r w' => entry w' = entry w /\
      match r with Ok pid => 0 < pid | Err _ => True end   (* seen by the parent *)
  | SysExec path => fun _ _ => True
  | SysWaitpid pid => fun r w' =>   (* the child changes what it likes *)
      match r with
      | Err e => e = EINTR -> (interrupts w' < interrupts w)%nat
      | Ok _ => True
      end
  end.

Class PosixLaws : Prop := {
  sys_documented A (c : syscall A) (w : W) : sys_spec c w (sys c w).1 (sys c w).2;
  sys_interrupts A (c : syscall A) (w : W) : (interrupts (sys c w).2 <= interrupts w)%nat;
}.

(** ** Running *)

Inductive result (A : Type) := Returned (a : A) | Exited (status : Z) | Exhausted.
Arguments Returned {A}.
Arguments Exited {A}.
Arguments Exhausted {A}.

Fixpoint exec {A} (p : prog A) (w : W) : result A * W :=
  match p with
  | Ret a => (Returned a, w)
  | Exit status => (Exited status, w)
  | OutOfFuel => (Exhausted, w)
  | Call c k => let '(r, w') := sys c w in exec (k r) w'
  end.

(** The worlds before, between and after the calls. *)
Fixpoint visited {A} (p : prog A) (w : W) : list W :=
  match p with
  | Call c k => w :: (let '(r, w') := sys c w in visited (k r) w')
  | _ => [w]
  end.

Fixpoint wp {A} (P : W -> Prop) (p : prog A) (Q : A -> W -> Prop) (w : W) : Prop :=
  P w /\
  match p with
  | Ret a => Q a w
  | Exit _ | OutOfFuel => False
  | Call c k => let '(r, w') := sys c w in wp P (k r) Q w'
  end.
End Spec.
Arguments Returned {A}.
Arguments Exited {A}.
Arguments Exhausted {A}.
Arguments PosixLaws W {_}.

(** ** Rules *)

Section Rules.
Context `{PosixLaws W}.

Lemma wp_sound {A} P (p : prog A) Q w :
  wp P p Q w ->
  (exists a w', exec p w = (Returned a, w') /\ P w' /\ Q a w') /\ Forall P (visited p w).
Proof.
  revert w. induction p as [a|s| |B c k IH]; intros w [HP Hp]; try done; simpl in *.
  - split; [by exists a, w|]. by constructor.
  - destruct (sys c w) as [r w'].
    destruct (IH r w' Hp) as [Hex Hvis]. split; [done|]. by constructor.
Qed.

Lemma wp_ret {A} (P : W -> Prop) (a : A) (Q : A -> W -> Prop) w :
  P w -> Q a w -> wp P (mret a) Q w.
Proof. done. Qed.

Lemma wp_bind {A B} P (f : A -> prog B) (p : prog A) Q w :
  wp P p (fun a w' => wp P (f a) Q w') w -> wp P (p ≫= f) Q w.
Proof.
  unfold mbind, prog_bind. revert w.
  induction p as [a|s| |C c k IH]; intros w [HP Hp]; simpl in *; try done.
  split; [done|]. destruct (sys c w) as [r w']. by apply IH.
Qed.

Lemma wp_call {B} (P : W -> Prop) (c : syscall B) (Q : B -> W -> Prop) w :
  P w ->
  (forall r w', sys_spec c w r w' -> (interrupts w' <= interrupts w)%nat -> P w' /\ Q r w') ->
  wp P (call c) Q w.
Proof.
  intros HP Hk. unfold call. simpl. split; [done|].
  pose proof (sys_documented B c w). pose proof (sys_interrupts B c w).
  destruct (sys c w) as [r w']. by apply Hk.
Qed.

Lemma wp_mono {A} (P P' : W -> Prop) (p : prog A) (Q Q' : A -> W -> Prop) w :
  wp P p Q w -> (forall w', P w' -> P' w') -> (forall a w', P w' -> Q a w' -> Q' a w') ->
  wp P' p Q' w.
Proof.
  intros Hp HP HQ. revert w Hp. induction p as [a|s| |B c k IH]; intros w [HPw Hp]; simpl in *;
    try done; [split; [by apply HP|by apply HQ]|].
  split; [by apply HP|]. destruct (sys c w) as [r w']. by apply IH.
Qed.

Lemma exec_bind {A B} (p : prog A) (f : A -> prog B) w a w' :
  exec p w = (Returned a, w') -> exec (p ≫= f) w = exec (f a) w'.
Proof.
  unfold mbind, prog_bind. revert w.
  induction p as [x|s| |C c k IH]; intros w Hp; simpl in *; try done.
  - by injection Hp as -> ->.
  - destruct (sys c w) as [r w1]. by apply IH.
Qed.

Lemma visited_bind {A B} (p : prog A) (f : A -> prog B) w a w' :
  exec p w = (Returned a, w') -> visited p w ⊆ visited (p ≫= f) w.
Proof.
  unfold mbind, prog_bind. revert w.
  induction p as [x|s| |C c k IH]; intros w Hp; simpl in *; try done.
  - injection Hp as -> ->. destruct (f a); set_solver.
  - destruct (sys c w) as [r w1]. specialize (IH r w1 Hp). set_solver.
Qed.

Lemma wp_pre {A} P (p : prog A) Q w : wp P p Q w -> P w.
Proof. by destruct p; intros [? _]. Qed.
End Rules.

#[export] Hint Resolve wp_ret : mozart.

(** [wp] goals are stepped with the rules, not unfolded. *)
Arguments wp : simpl never.
Arguments call : simpl never.
Arguments prog_bind_ : simpl never.

(** ** A concrete kernel

    Every call that may be interrupted is, [d_signals] times; writes take at
    most five bytes; special files give [d_random]; the child a program waits
    for applies [d_helper] to the entries. *)

Record disk := mkDisk {
  d_entries : gmap string node;
  d_fds : gmap Z (string * nat);
  d_next : nat;
  d_signals : nat;
  d_random : list Z;
  d_helper : gmap string node -> gmap string node;
}.

Definition with_entries (d : disk) (e : gmap string node) : disk :=
  mkDisk e (d_fds d) (d_next d) (d_signals d) (d_random d) (d_helper d).
Definition with_fds (d : disk) (f : gmap Z (string * nat)) : disk :=
  mkDisk (d_entries d) f (d_next d) (d_signals d) (d_random d) (d_helper d).
Definition with_signals (d : disk) (n : nat) : disk :=
  mkDisk (d_entries d) (d_fds d) (d_next d) n (d_random d) (d_helper d).

Definition on_regular (g : file -> file) (x : node) : node :=
  match x with Regular f => Regular (g f) | Special => Special end.

Definition EBADF : Z := 9.
Definition EEXIST : Z := 17.

Definition disk_opened (d : disk) (path : string) (e : gmap string node) : sysres Z * disk :=
  (Ok (Z.of_nat (d_next d)),
   mkDisk e (<[Z.of_nat (d_next d) := (path, 0%nat)]> (d_fds d)) (S (d_next d)) (d_signals d)
     (d_random d) (d_helper d)).

Definition disk_interrupted {A} (d : disk) (r : sysres A * disk) : sysres A * disk :=
  match d_signals d with
  | S n => (Err EINTR, with_signals d n)
  | O => r
  end.

Definition disk_chunk (data : list Z) : nat := (5 `min` length data)%nat.

Definition disk_update (d : disk) (fd : Z) (g : file -> file) : sysres unit * disk :=
  match d_fds d !! fd with
  | None => (Err EBADF, d)
  | Some (p, _) => (Ok tt, with_entries d (alter (on_regular g) p (d_entries d)))
  end.

Definition disk_sys {A} (c : syscall A) (d : disk) : A * disk :=
  match c in syscall A return A * disk with
  | SysOpen path flags mode =>
      match d_entries d !! path with
      | Some _ =>
          if bool_decide (O_CREAT ∈ flags) then (Err EEXIST, d)
          else disk_opened d path (d_entries d)
      | None =>
          if bool_decide (O_CREAT ∈ flags) && bool_decide (O_EXCL ∈ flags)
          then disk_opened d path (<[path := Regular (mkFile [] mode 0 0)]> (d_entries d))
          else (Err ENOENT, d)
      end
  | SysRead fd size => disk_interrupted d
      match d_fds d !! fd with
      | None => (Err EBADF, d)
      | Some (p, off) =>
          let bytes := match d_entries d !! p with
            | Some (Regular f) => u8 <$> take size (drop off (f_bytes f))
            | _ => take size (u8 <$> d_random d) end in
          (Ok bytes, with_fds d (<[fd := (p, (off + length bytes)%nat)]> (d_fds d)))
      end
  | SysWrite fd data => disk_interrupted d
      match d_fds d !! fd with
      | None => (Err EBADF, d)
      | Some (p, off) =>
          let n := disk_chunk data in
          (Ok n, with_entries (with_fds d (<[fd := (p, (off + n)%nat)]> (d_fds d)))
             (alter (on_regular (fun f => set_bytes f (overwrite (f_bytes f) off (take n data))))
                p (d_entries d)))
      end
  | SysClose fd => (Ok tt, with_fds d (delete fd (d_fds d)))
  | SysUnlink path => match d_entries d !! path with
      | Some _ => (Ok tt, with_entries d (delete path (d_entries d)))
      | None => (Err ENOENT, d) end
  | SysRename old new => match d_entries d !! old with
      | Some x => (Ok tt, with_entries d (<[new := x]> (delete old (d_entries d))))
      | None => (Err ENOENT, d) end
  | SysFchmod fd mode => disk_update d fd (fun f => set_mode f mode)
  | SysFchown fd uid gid => disk_update d fd (fun f => set_owner f uid gid)
  | SysFsync fd => (Ok tt, d)
  | SysFork => (Ok 100, d)
  | SysExec path => (Err ENOENT, d)
  | SysWaitpid pid => disk_interrupted d (Ok 0, with_entries d (d_helper d (d_entries d)))
  end.

#[export] Instance disk_posix : Posix disk := {
  sys A := disk_sys;
  entry := d_entries;
  handle d fd := d_fds d !! fd;
  interrupts := d_signals;
}.

Lemma u8_bytes l : Forall (fun b => 0 <= b < 256) (u8 <$> l).
Proof. apply Forall_fmap, Forall_forall. intros b _. unfold u8. simpl. by apply Z.mod_pos_bound. Qed.

Lemma disk_documented A (c : syscall A) (d : disk) :
  sys_spec c d (sys c d).1 (sys c d).2.
Proof.
  destruct c; simpl;
    unfold disk_interrupted, disk_update, disk_opened, updates.
  - repeat case_match; simplify_eq/=; try done;
      (split; [lia|]); (split; [by rw lookup_insert_eq|]); rw ?H0; try (by split; [done|]; eauto).
  - destruct (d_signals d) eqn:Hs; simpl; [|by split_and!; [|..|intros; lia]].
    destruct (d_fds d !! fd) as [[p off]|] eqn:Hf; simpl; [|by split_and!].
    split; [done|]. exists p, off. rw lookup_insert_eq. split_and!; [done|done| |].
    + destruct (d_entries d !! p) as [[f|]|]; rw ?length_fmap length_take; lia.
    + destruct (d_entries d !! p) as [[f|]|]; [done|apply Forall_take, u8_bytes..].
  - destruct (d_signals d) eqn:Hs; simpl; [|by split_and!; [|..|intros; lia]].
    destruct (d_fds d !! fd) as [[p off]|] eqn:Hf; simpl; [|by split_and!].
    unfold disk_chunk. split; [lia|].
    split; [by destruct data; [|unfold length; lia]|].
    exists p, off. by rw lookup_insert_eq.
  - done.
  - by destruct (d_entries d !! path).
  - destruct (d_entries d !! old) as [x|] eqn:Hx; [|done]. by exists x.
  - destruct (d_fds d !! fd) as [[p off]|] eqn:Hf; simpl; [|done]. split; [done|]. by exists p, off.
  - destruct (d_fds d !! fd) as [[p off]|] eqn:Hf; simpl; [|done]. split; [done|]. by exists p, off.
  - done.
  - done.
  - done.
  - destruct (d_signals d) eqn:Hs; simpl; [done|]. intros _. lia.
Qed.

#[export] Instance disk_laws : PosixLaws disk.
Proof.
  constructor; [apply disk_documented|]. intros A c d.
  destruct c; simpl; unfold disk_interrupted, disk_update, disk_opened, with_signals;
    repeat case_match; simpl; lia.
Qed.
