(* ===== verification/MacStore.v ===== *)
(** * Reading, generating and storing the MAC address files

    Model of the file and process half of macaddr/mac_addr_normalization.cpp
    as programs over POSIX calls, one definition per function of the source.
    [fuel] bounds the turns of the loops that repeat a call: a file of [n]
    bytes takes at most [n] reads or writes besides the interrupted ones, so
    more than [interrupts w + 17] is enough for every loop of the program.
    Log messages and the [errno] they print are left out. *)
From S2P Require Import Prelude CString Posix MacAddr.

Definition kVendorHelper : string := "/vendor/bin/mac_addr_normalization_vendor".
Definition kBluetoothPath : string := "/data/misc/bluedroid/macbt".
Definition kWifiPath : string := "/data/misc/wifi/macwifi".
Definition kSystemUid : Z := 1000.
Definition kBluetoothUid : Z := 1002.
Definition kBluetoothGid : Z := 1002.
Definition kWifiGid : Z := 1010.

(** ** Programs *)

(** [data] is the caller's buffer, [current] the position in it. *)
Fixpoint ReadFully_loop (fuel : nat) (fd : Z) (data : list Z) (current size : nat) :
    prog (bool * list Z) :=
  match size with
  | O => mret (true, data)
  | S _ =>
      match fuel with
      | O => OutOfFuel
      | S fuel' =>
          count ← call (SysRead fd size);
          match count with
          | Err errno =>
              if errno =? EINTR then ReadFully_loop fuel' fd data current size
              else mret (false, data)
          | Ok [] => mret (false, data)
          | Ok bytes =>
              ReadFully_loop fuel' fd (write_at data current bytes)
                (current + length bytes) (size - length bytes)
          end
      end
  end.

Definition ReadFully (fuel : nat) (fd : Z) (data : list Z) (size : nat) :
    prog (bool * list Z) := ReadFully_loop fuel fd data 0 size.

(** [data] is what is left to write: [current] and [size]. *)
Fixpoint WriteFully (fuel : nat) (fd : Z) (data : list Z) : prog bool :=
  match data with
  | [] => mret true
  | _ :: _ =>
      match fuel with
      | O => OutOfFuel
      | S fuel' =>
          count ← call (SysWrite fd data);
          match count with
          | Err errno => if errno =? EINTR then WriteFully fuel' fd data else mret false
          | Ok count => WriteFully fuel' fd (drop count data)
          end
      end
  end.

(** The [do ... while] loop of [HasValidMac]. *)
Fixpoint read_once (fuel : nat) (fd : Z) (size : nat) : prog (sysres (list Z)) :=
  match fuel with
  | O => OutOfFuel
  | S fuel' =>
      count ← call (SysRead fd size);
      match count with
      | Err errno => if errno =? EINTR then read_once fuel' fd size else mret (Err errno)
      | Ok bytes => mret (Ok bytes)
      end
  end.

Definition HasValidMac (fuel : nat) (path : string) : prog bool :=
  fd ← call (SysOpen path [O_RDONLY; O_CLOEXEC; O_NOFOLLOW] 0);
  match fd with
  | Err _ => mret false
  | Ok fd =>
      count ← read_once fuel fd 32;
      _ ← call (SysClose fd);
      match count with
      | Err _ | Ok [] => mret false
      | Ok bytes =>
          let text := strip bytes in
          mret (ParseMac text (replicate 6 0)).1
      end
  end.

(** [waitpid] until it is not interrupted. *)
Fixpoint wait_child (fuel : nat) (child : Z) : prog (sysres Z) :=
  match fuel with
  | O => OutOfFuel
  | S fuel' =>
      status ← call (SysWaitpid child);
      match status with
      | Err errno => if errno =? EINTR then wait_child fuel' child else mret (Err errno)
      | Ok status => mret (Ok status)
      end
  end.

(** The exit status of the helper only changes what is logged. *)
Definition RunVendorHelper (fuel : nat) : prog unit :=
  child ← call SysFork;
  match child with
  | Err _ => mret tt
  | Ok child =>
      if child =? 0 then
        _ ← call (SysExec kVendorHelper);
        Exit 127
      else
        _ ← wait_child fuel child;
        mret tt
  end.

Definition GenerateMac (fuel : nat) (address : list Z) : prog (bool * list Z) :=
  fd ← call (SysOpen "/dev/urandom" [O_RDONLY; O_CLOEXEC] 0);
  match fd with
  | Err _ => mret (false, address)
  | Ok fd =>
      '(success, address) ← ReadFully fuel fd address (length address);
      _ ← call (SysClose fd);
      if negb success then mret (false, address)
      else mret (true, mask_address address)
  end.

Definition is_ok {A} (r : sysres A) : bool := match r with Ok _ => true | Err _ => false end.

(** The short-circuit conjunction that fills the temporary file. *)
Definition fill_temporary (fuel : nat) (fd uid gid : Z) (text : list Z) : prog bool :=
  r ← call (SysFchmod fd 432);   (* 0660 *)
  if negb (is_ok r) then mret false else
  r ← call (SysFchown fd uid gid);
  if negb (is_ok r) then mret false else
  ok ← WriteFully fuel fd text;
  if negb ok then mret false else
  r ← call (SysFsync fd);
  mret (is_ok r).

Definition temporary (path : string) : string := path +:+ ".tmp".

(** The end of [StoreMac], from the [close] on. *)
Definition install_temporary (fd : Z) (path : string) (success : bool) : prog bool :=
  closed ← call (SysClose fd);
  let success := if is_ok closed then success else false in
  if negb success then
    _ ← call (SysUnlink (temporary path));
    mret false
  else
    renamed ← call (SysRename (temporary path) path);
    if negb (is_ok renamed) then
      _ ← call (SysUnlink (temporary path));
      mret false
    else mret true.

Definition StoreMac (fuel : nat) (path : string) (uid gid : Z) : prog bool :=
  '(ok, address) ← GenerateMac fuel (replicate 6 0);
  if negb ok then mret false else
  let text := format_mac address in
  if negb (length text =? 17)%nat then mret false else
  removed ← call (SysUnlink (temporary path));
  if match removed with Err errno => negb (errno =? ENOENT) | Ok _ => false end
  then mret false else
  fd ← call (SysOpen (temporary path) [O_WRONLY; O_CREAT; O_EXCL; O_CLOEXEC; O_NOFOLLOW] 432);
  match fd with
  | Err _ => mret false
  | Ok fd =>
      success ← fill_temporary fuel fd uid gid text;
      install_temporary fd path success
  end.

Definition EnsureMac (fuel : nat) (path : string) (uid gid : Z) : prog bool :=
  valid ← HasValidMac fuel path;
  if valid : bool then mret true else StoreMac fuel path uid gid.

Definition main (fuel : nat) : prog Z :=
  bluetooth_valid ← HasValidMac fuel kBluetoothPath;
  need ← (if negb bluetooth_valid then mret true
          else wifi_valid ← HasValidMac fuel kWifiPath; mret (negb wifi_valid));
  _ ← (if need : bool then RunVendorHelper fuel else mret tt);
  bluetooth_ok ← EnsureMac fuel kBluetoothPath kBluetoothUid kBluetoothGid;
  wifi_ok ← EnsureMac fuel kWifiPath kSystemUid kWifiGid;
  mret (if bluetooth_ok && wifi_ok then 0 else 1).

(** ** Specification *)

(** What a completed [StoreMac] leaves at its path. *)
Definition generated_file (uid gid : Z) (f : file) : Prop :=
  (exists random, length random = 6%nat /\ Forall is_byte random /\
     f_bytes f = format_mac (mask_address random)) /\
  f_mode f = 432 /\ f_uid f = uid /\ f_gid f = gid.

(** A path whose content [HasValidMac] accepts; nothing is known of what is
    read from something other than a regular file. *)
Definition mac_present (e : gmap string node) (path : string) : Prop :=
  match e !! path with
  | Some (Regular f) => valid_text (u8 <$> take 32 (f_bytes f)) = true
  | Some Special => True
  | None => False
  end.

(** [e] and [e'] differ at most at the paths [ps]. *)
Definition same_except (ps : list string) (e e' : gmap string node) : Prop :=
  forall p, p ∉ ps -> e' !! p = e !! p.

(** * Theorems *)

Section Programs.
Context `{PosixLaws W}.
Implicit Types (w : W) (e : gmap string node).

(** Calls by their results: [wcall] applies [wp_call] to the next call and
    gives its documented behaviour. *)
Ltac wcall r w' Hs Hi :=
  apply wp_bind, wp_call; [|intros r w' Hs Hi; simpl in Hs; split].

(** The bytes of a read are bytes. *)
Lemma read_bytes fd size w bytes w' :
  sys_spec (SysRead fd size) w (Ok bytes) w' ->
  (length bytes <= size)%nat /\ Forall is_byte bytes.
Proof.
  intros [_ (p & off & _ & _ & Hlen & Hb)]. split; [done|].
  case_match; [|done]. case_match; [|done]. subst bytes. apply u8_bytes.
Qed.

Lemma Forall_write_at {A} (P : A -> Prop) l i xs :
  Forall P l -> Forall P xs -> Forall P (write_at l i xs).
Proof.
  intros Hl Hxs. revert l i Hl. induction Hxs as [|x xs Hx Hxs IH]; intros l i Hl; simpl; [done|].
  apply IH. by apply Forall_insert.
Qed.

(** Reading until the buffer is full: it ends, leaves the files alone, and
    leaves bytes in the buffer. *)
Lemma ReadFully_loop_spec fuel fd data current size e n w :
  Forall is_byte data ->
  entry w = e -> (interrupts w <= n)%nat -> (interrupts w + size < fuel)%nat ->
  wp (fun w' => entry w' = e /\ (interrupts w' <= n)%nat)
    (ReadFully_loop fuel fd data current size)
    (fun r _ => length r.2 = length data /\ Forall is_byte r.2) w.
Proof.
  revert data current size w. induction fuel as [|fuel IH];
    intros data current size w Hb He Hn Hf; [lia|].
  destruct size as [|size]; simpl; [by apply wp_ret|].
  wcall r w' Hs Hi; [done|destruct Hs as [-> _]; split; [done|lia]|].
  pose proof (read_bytes fd (S size) w) as Hrb.
  destruct r as [[|b bytes]|err]; [by apply wp_ret; [split; [by destruct Hs as [-> _]|lia]|]| |].
  - destruct (Hrb (b :: bytes) w' Hs) as [Hlen Hbytes].
    eapply wp_mono; [apply (IH (write_at data current (b :: bytes))) | done |].
    + by apply Forall_write_at.
    + by destruct Hs as [-> _].
    + lia.
    + simpl in *. lia.
    + intros a w2 _. by rw length_write_at.
  - destruct Hs as (Hent & _ & Hint). destruct (Z.eqb_spec err EINTR) as [He'|].
    + apply IH; [done|by rw Hent|lia|]. specialize (Hint He'). lia.
    + apply wp_ret; [split; [by rw Hent|lia]|done].
Qed.

(** Appending all the data to the regular file at [p]. *)
Lemma WriteFully_spec fuel fd data p f e n w :
  handle w fd = Some (p, length (f_bytes f)) -> entry w = <[p := Regular f]> e ->
  (interrupts w <= n)%nat -> (interrupts w + length data < fuel)%nat ->
  wp (fun w' => same_except [p] e (entry w') /\ (interrupts w' <= n)%nat)
    (WriteFully fuel fd data)
    (fun b w' => exists written,
       entry w' = <[p := Regular (set_bytes f (f_bytes f ++ written))]> e /\
       written `prefix_of` data /\ (b = true -> written = data)) w.
Proof.
  revert data f w. induction fuel as [|fuel IH]; intros data f w Hh He Hn Hf; [lia|].
  assert (same_except [p] e (entry w)) as Hsame.
  { intros q Hq. rw He lookup_insert_ne; [done|]. intros ->. set_solver. }
  assert (entry w = <[p := Regular (set_bytes f (f_bytes f ++ []))]> e) as Hnil.
  { rw He app_nil_r. by destruct f. }
  destruct data as [|x data]; simpl.
  { apply wp_ret; [done|]. exists []. split_and!; [done|apply prefix_nil|done]. }
  wcall r w' Hs Hi; [done| |].
  - split; [|lia]. destruct r as [k|err]; [|by destruct Hs as [-> _]].
    destruct Hs as (_ & _ & q & off & Hh' & _ & ->). simplify_eq. intros q Hq.
    rw lookup_alter_ne; [by apply Hsame|]. intros ->. set_solver.
  - destruct r as [k|err].
    + destruct Hs as (Hk & Hpos & q & off & Hh' & Hh2 & He'). simplify_eq.
      specialize (Hpos ltac:(done)). rw He alter_insert_eq in He'.
      assert (overwrite (f_bytes f) (length (f_bytes f)) (take k (x :: data)) =
              f_bytes f ++ take k (x :: data)) as Hov.
      { unfold overwrite. rw firstn_all drop_ge; [by rw app_nil_r|lia]. }
      rw Hov in He'.
      eapply wp_mono; [apply (IH (drop k (x :: data)) (set_bytes f (f_bytes f ++ take k (x :: data)))) | done |].
      * rw Hh2. simpl. rw length_app length_take. simpl in *. do 2 f_equal. lia.
      * done.
      * lia.
      * rw length_drop. simpl in *. lia.
      * intros b w2 _ (wr & Hw & Hpre & Hb). exists (take k (x :: data) ++ wr). split_and!.
        -- rw Hw. unfold set_bytes. simpl. by rw -app_assoc.
        -- rw -{2}(take_drop k (x :: data)). by apply prefix_app.
        -- intros Hbt. rw (Hb Hbt). apply take_drop.
    + destruct Hs as (He' & Hh' & Hint). destruct (Z.eqb_spec err EINTR) as [Hei|].
      * apply IH; [by rw Hh'|by rw He'|lia|]. specialize (Hint Hei). simpl in *. lia.
      * apply wp_ret; [split; [by rw He'|lia]|]. exists [].
        split_and!; [by rw He'|apply prefix_nil|done].
Qed.

(** One read, repeated while interrupted. *)
Lemma read_once_spec fuel fd size p off e n w :
  handle w fd = Some (p, off) -> entry w = e ->
  (interrupts w <= n)%nat -> (interrupts w < fuel)%nat ->
  wp (fun w' => entry w' = e /\ (interrupts w' <= n)%nat)
    (read_once fuel fd size)
    (fun r _ => match r with
       | Err _ => True
       | Ok bytes => forall f, e !! p = Some (Regular f) ->
           bytes = u8 <$> take size (drop off (f_bytes f))
       end) w.
Proof.
  revert w. induction fuel as [|fuel IH]; intros w Hh He Hn Hf; [lia|]. simpl.
  wcall r w' Hs Hi; [done|destruct Hs as [-> _]; split; [done|lia]|].
  destruct r as [bytes|err].
  - destruct Hs as (He' & q & off' & Hh' & _ & _ & Hb). simplify_eq.
    apply wp_ret; [split; [by rw He'|lia]|]. intros f Hfile. by rw Hfile in Hb.
  - destruct Hs as (He' & Hh' & Hint). destruct (Z.eqb_spec err EINTR) as [Hei|].
    + apply IH; [by rw Hh'|by rw He'|lia|]. specialize (Hint Hei). lia.
    + apply wp_ret; [split; [by rw He'|lia]|done].
Qed.

Lemma HasValidMac_spec fuel path e n w :
  entry w = e -> (interrupts w <= n)%nat -> (interrupts w < fuel)%nat ->
  wp (fun w' => entry w' = e /\ (interrupts w' <= n)%nat)
    (HasValidMac fuel path) (fun b _ => b = true -> mac_present e path) w.
Proof.
  intros He Hn Hf. unfold HasValidMac.
  wcall r w' Hs Hi; [done| |].
  { split; [|lia]. destruct r as [fd|err]; [|by rw Hs]. by destruct Hs as (_ & _ & -> & _). }
  destruct r as [fd|err]; [|apply wp_ret; [split; [by rw Hs|lia]|done]].
  destruct Hs as (_ & Hh & He' & Hex). simpl in Hex. specialize (Hex ltac:(done)).
  apply wp_bind. eapply wp_mono; [eapply (read_once_spec fuel fd 32 path 0 e n); [done|by rw He'|lia|lia]|done|].
  intros count w1 [He1 Hn1] Hc. wcall r2 w2 Hs2 Hi2; [done|split; [by rw Hs2|lia]|].
  destruct count as [[|b bytes]|err]; (apply wp_ret; [split; [by rw Hs2|lia]|]); [done| |done].
  intros Hv. unfold mac_present. rw He in Hex. destruct Hex as [[f|] Hx]; rw Hx; [|done].
  specialize (Hc f Hx). rw drop_0 in Hc. unfold valid_text. by rw -Hc.
Qed.

Lemma GenerateMac_spec fuel e n w :
  entry w = e -> (interrupts w <= n)%nat -> (n + 6 < fuel)%nat ->
  wp (fun w' => entry w' = e /\ (interrupts w' <= n)%nat)
    (GenerateMac fuel (replicate 6 0))
    (fun r _ => r.1 = true -> exists random, length random = 6%nat /\
       Forall is_byte random /\ r.2 = mask_address random) w.
Proof.
  intros He Hn Hf. unfold GenerateMac.
  wcall r w' Hs Hi; [done| |].
  { split; [|lia]. destruct r as [fd|err]; [|by rw Hs]. by destruct Hs as (_ & _ & -> & _). }
  destruct r as [fd|err]; [|apply wp_ret; [split; [by rw Hs|lia]|done]].
  destruct Hs as (_ & _ & He' & _).
  apply wp_bind. eapply wp_mono; [eapply (ReadFully_loop_spec _ _ _ _ _ e n)|done|].
  - apply Forall_replicate. unfold is_byte. lia.
  - by rw He'.
  - lia.
  - simpl. lia.
  - intros [success address] w1 [He1 Hn1] [Hlen Hb]. simpl in Hlen, Hb.
    wcall r2 w2 Hs2 Hi2; [done|split; [by rw Hs2|lia]|].
    destruct success; (apply wp_ret; [split; [by rw Hs2|lia]|]); [|done].
    intros _. by exists address.
Qed.

Lemma same_except_insert ps p x e e' :
  p ∈ ps -> same_except ps e e' -> same_except ps e (<[p := x]> e').
Proof. intros Hp Hs q Hq. rw lookup_insert_ne; [by apply Hs|]. by intros ->. Qed.

Lemma same_except_delete ps p e e' :
  p ∈ ps -> same_except ps e e' -> same_except ps e (delete p e').
Proof. intros Hp Hs q Hq. rw lookup_delete_ne; [by apply Hs|]. by intros ->. Qed.

Lemma same_except_refl ps e : same_except ps e e.
Proof. done. Qed.

Lemma same_except_trans ps e1 e2 e3 :
  same_except ps e1 e2 -> same_except ps e2 e3 -> same_except ps e1 e3.
Proof. intros H1 H2 p Hp. rw H2; [by apply H1|done]. Qed.

(** Filling the new file at [p]. *)
Lemma fill_temporary_spec fuel fd uid gid text p m u g e n w :
  handle w fd = Some (p, 0%nat) -> entry w = <[p := Regular (mkFile [] m u g)]> e ->
  (interrupts w <= n)%nat -> (n + length text < fuel)%nat ->
  wp (fun w' => same_except [p] e (entry w') /\ (interrupts w' <= n)%nat)
    (fill_temporary fuel fd uid gid text)
    (fun b w' => b = true ->
       entry w' = <[p := Regular (mkFile text 432 uid gid)]> e) w.
Proof.
  intros Hh He Hn Hf. unfold fill_temporary.
  assert (forall x, same_except [p] e (<[p := x]> e)) as Hsame.
  { intros x. apply same_except_insert; [by left|done]. }
  wcall r w1 Hs Hi; [split; [rw He; apply Hsame|lia]| |].
  { split; [|lia]. destruct r; [|rw Hs He; apply Hsame].
    destruct Hs as (_ & q & off & Hq & ->). rw Hh in Hq. injection Hq as <- <-. rw He alter_insert_eq. apply Hsame. }
  destruct r as [[]|err]; simpl; [|apply wp_ret; [split; [rw Hs He; apply Hsame|lia]|done]].
  destruct Hs as (Hh1 & q & off & Hq & He1). rw Hh in Hq. injection Hq as <- <-. rw He alter_insert_eq /= in He1.
  wcall r w2 Hs2 Hi2; [split; [rw He1; apply Hsame|lia]| |].
  { split; [|lia]. destruct r; [|rw Hs2 He1; apply Hsame].
    destruct Hs2 as (_ & q & off & Hq' & ->). rw Hh1 Hh in Hq'. injection Hq' as <- <-.
    rw He1 alter_insert_eq. apply Hsame. }
  destruct r as [[]|err]; simpl; [|apply wp_ret; [split; [rw Hs2 He1; apply Hsame|lia]|done]].
  destruct Hs2 as (Hh2 & q & off & Hq' & He2). rw Hh1 Hh in Hq'. injection Hq' as <- <-.
  rw He1 alter_insert_eq /= in He2.
  apply wp_bind. eapply wp_mono; [apply (WriteFully_spec fuel fd text p (mkFile [] 432 uid gid) e n)|done|].
  - rw Hh2 Hh1 Hh. done.
  - exact He2.
  - lia.
  - lia.
  - intros ok w3 [Hs3 Hn3] (wr & He3 & _ & Hok).
    destruct ok; simpl; [|by apply wp_ret].
    rw Hok // /set_bytes /= in He3.
    apply wp_call; [done|]. intros r w4 Hs4 Hi4.
    simpl in Hs4. split; [split; [by rw Hs4|lia]|]. intros _. by rw Hs4.
Qed.

Lemma temporary_ne path : temporary path <> path.
Proof.
  intros Heq. apply (f_equal String.length) in Heq. unfold temporary in Heq.
  assert (forall a b, String.length (a +:+ b) = (String.length a + String.length b)%nat) as Happ.
  { intros a b. induction a as [|c a IH]; [done|]. simpl. by rw IH. }
  rw Happ /= in Heq. lia.
Qed.

(** The path has its entry of [e], or a complete new file; the other paths are
    as in [e]. *)
Definition installing (e : gmap string node) (n : nat) (path : string) (uid gid : Z) (w : W) : Prop :=
  (entry w !! path = e !! path \/
   exists f, entry w !! path = Some (Regular f) /\ generated_file uid gid f) /\
  same_except [path; temporary path] e (entry w) /\ (interrupts w <= n)%nat.

Definition installed (e : gmap string node) (path : string) (uid gid : Z) (b : bool) (w : W) : Prop :=
  if b
  then (exists f, entry w !! path = Some (Regular f) /\ generated_file uid gid f) /\
       entry w !! temporary path = None
  else entry w !! path = e !! path.

(** Nothing but the temporary file has changed. *)
Lemma installing_temporary e n path uid gid w :
  same_except [temporary path] e (entry w) -> (interrupts w <= n)%nat ->
  installing e n path uid gid w /\ installed e path uid gid false w.
Proof.
  intros Hs Hi. pose proof (temporary_ne path).
  assert (entry w !! path = e !! path) as Hp by (apply Hs; set_solver).
  unfold installing. split_and!; [by left| |done|done]. intros q Hq. apply Hs. set_solver.
Qed.

(** Giving up: the temporary file is removed, if that works. *)
Lemma unlink_temporary_spec e n path uid gid w :
  same_except [temporary path] e (entry w) -> (interrupts w <= n)%nat ->
  wp (installing e n path uid gid)
    (_ ← call (SysUnlink (temporary path)); mret false)
    (installed e path uid gid) w.
Proof.
  intros Hs Hi. apply wp_bind, wp_call; [by apply installing_temporary|].
  intros r w' Hs' Hi'. simpl in Hs'.
  destruct (installing_temporary e n path uid gid w') as [HP HQ].
  - destruct r; rw Hs'; [|done]. apply same_except_delete; [by left|done].
  - lia.
  - split; [done|]. by apply wp_ret.
Qed.

Lemma install_temporary_spec e e2 n fd path uid gid f success w :
  same_except [temporary path] e (entry w) -> (interrupts w <= n)%nat ->
  generated_file uid gid f ->
  (success = true -> entry w = <[temporary path := Regular f]> e2) ->
  wp (installing e n path uid gid) (install_temporary fd path success)
    (installed e path uid gid) w.
Proof.
  intros Hs Hi Hf Hfill. unfold install_temporary. pose proof (temporary_ne path) as Hne.
  wcall r w1 Hs1 Hi1; [by apply installing_temporary|
    apply installing_temporary; [by rw Hs1|lia]|].
  destruct (negb (if is_ok r then success else false)) eqn:Hsucc.
  { apply unlink_temporary_spec; [by rw Hs1|lia]. }
  destruct success; [|by destruct (is_ok r)]. specialize (Hfill eq_refl).
  apply wp_bind, wp_call; [apply installing_temporary; [by rw Hs1|lia]|].
  intros r2 w2 Hs2 Hi2. simpl in Hs2. destruct r2 as [[]|err]; simpl.
  - destruct Hs2 as (x & Hx & He2). rw Hs1 Hfill lookup_insert_eq in Hx. injection Hx as <-.
    assert (installing e n path uid gid w2 /\ installed e path uid gid true w2) as [HP HQ].
    { unfold installing, installed. rw He2 lookup_insert_eq.
      split_and!; [right; by exists f| |lia|by exists f|].
      - apply same_except_insert; [by left|]. apply same_except_delete; [set_solver|].
        intros q Hq. rw Hs1. apply Hs. set_solver.
      - rw lookup_insert_ne; [|by intros ?]. by rw lookup_delete_eq. }
    split; [done|]. by apply wp_ret.
  - split; [apply installing_temporary; [by rw Hs2 Hs1|lia]|].
    apply unlink_temporary_spec; [by rw Hs2 Hs1|lia].
Qed.

(** [StoreMac] replaces the file in one step: whenever the process stops, the
    path has its old entry or a complete new file. *)
Lemma StoreMac_spec fuel path uid gid e n w :
  entry w = e -> (interrupts w <= n)%nat -> (n + 17 < fuel)%nat ->
  wp (installing e n path uid gid) (StoreMac fuel path uid gid) (installed e path uid gid) w.
Proof.
  intros He Hn Hf. unfold StoreMac.
  apply wp_bind. eapply wp_mono; [apply (GenerateMac_spec fuel e n w He Hn); lia| |].
  { intros w' [He' Hi]. apply installing_temporary; [by rw He'|done]. }
  intros [ok address] w1 [He1 Hn1] Hok.
  assert (installing e n path uid gid w1 /\ installed e path uid gid false w1) as [HP1 HQ1]
    by (apply installing_temporary; [by rw He1|done]).
  destruct ok; simpl; [|by apply wp_ret].
  destruct (Hok eq_refl) as (random & Hlen & Hb & Hr). simpl in Hr. subst address.
  destruct (Nat.eqb_spec (length (format_mac (mask_address random))) 17) as [Hl17|];
    simpl; [|by apply wp_ret].
  set (text := format_mac (mask_address random)) in *.
  apply wp_bind, wp_call; [done|]. intros r w2 Hs2 Hi2. simpl in Hs2.
  assert (same_except [temporary path] e (entry w2)) as Hsame2.
  { destruct r; rw Hs2 He1; [|done]. apply same_except_delete; [by left|done]. }
  assert (installing e n path uid gid w2 /\ installed e path uid gid false w2) as [HP2 HQ2]
    by (apply installing_temporary; [done|lia]).
  split; [done|].
  destruct (match r with Ok _ => false | Err errno => negb (errno =? ENOENT) end);
    [by apply wp_ret|].
  apply wp_bind, wp_call; [done|]. intros r3 w3 Hs3 Hi3. simpl in Hs3.
  assert (same_except [temporary path] e (entry w3)) as Hsame3.
  { destruct r3 as [fd|err]; [|by rw Hs3].
    destruct Hs3 as (_ & _ & _ & ? & ? & ? & ->). apply same_except_insert; [by left|done]. }
  assert (installing e n path uid gid w3 /\ installed e path uid gid false w3) as [HP3 HQ3]
    by (apply installing_temporary; [done|lia]).
  split; [done|]. destruct r3 as [fd|err]; [|by apply wp_ret].
  destruct Hs3 as (_ & Hh3 & _ & m & u & g & He3).
  apply wp_bind. eapply wp_mono;
    [apply (fill_temporary_spec fuel fd uid gid text (temporary path) m u g (entry w2) n
       w3 Hh3 He3); [lia|rw Hl17; lia]| |].
  { intros w' [Hs' Hi']. apply installing_temporary; [by apply (same_except_trans _ _ (entry w2))|done]. }
  intros success w4 [Hs4 Hn4] Hfill.
  apply (install_temporary_spec e (entry w2) n fd path uid gid (mkFile text 432 uid gid));
    [by apply (same_except_trans _ _ (entry w2))|done| |done].
  split_and!; [by exists random|done..].
Qed.

Lemma wait_child_spec fuel child n w :
  (interrupts w <= n)%nat -> (interrupts w < fuel)%nat ->
  wp (fun w' => (interrupts w' <= n)%nat) (wait_child fuel child) (fun _ _ => True) w.
Proof.
  revert w. induction fuel as [|fuel IH]; intros w Hn Hf; [lia|]. simpl.
  wcall r w' Hs Hi; [done|lia|].
  destruct r as [status|err]; [by apply wp_ret; [lia|]|].
  destruct (Z.eqb_spec err EINTR) as [He|]; [|by apply wp_ret; [lia|]].
  specialize (Hs He). apply IH; lia.
Qed.

Lemma RunVendorHelper_spec fuel n w :
  (interrupts w <= n)%nat -> (n < fuel)%nat ->
  wp (fun w' => (interrupts w' <= n)%nat) (RunVendorHelper fuel) (fun _ _ => True) w.
Proof.
  intros Hn Hf. unfold RunVendorHelper. wcall r w' Hs Hi; [done|lia|].
  destruct r as [child|err]; [|by apply wp_ret; [lia|]].
  destruct Hs as [_ Hc]. destruct (Z.eqb_spec child 0); [lia|].
  apply wp_bind. eapply wp_mono; [apply (wait_child_spec fuel child n); lia|done|].
  intros. by apply wp_ret.
Qed.

Lemma generated_present e path uid gid f :
  e !! path = Some (Regular f) -> generated_file uid gid f -> mac_present e path.
Proof.
  intros Hp [(random & Hlen & Hb & Hf) _]. unfold mac_present. rw Hp Hf.
  destruct (mask_address_usable random Hlen Hb) as (Hl & Hb' & Hu).
  rw take_ge; [|by destruct (six _ Hl) as (? & ? & ? & ? & ? & ? & ->); simpl; lia].
  assert (u8 <$> format_mac (mask_address random) = format_mac (mask_address random)) as ->.
  { destruct (six _ Hl) as (b0 & b1 & b2 & b3 & b4 & b5 & Heq). rw Heq in Hb' |- *.
    repeat (apply Forall_cons in Hb' as [?Hb Hb']).
    assert (forall b, is_byte b -> u8 <$> print_byte b = print_byte b) as Hpb.
    { intros b Hbb. destruct (print_parse_byte b Hbb) as (_ & _ & ? & ? & _).
      unfold print_byte, hex_digit, u8. simpl.
      repeat f_equal; case_match; apply Z.mod_small; lia. }
    change (format_mac [b0; b1; b2; b3; b4; b5]) with
      (print_byte b0 ++ [58] ++ print_byte b1 ++ [58] ++ print_byte b2 ++ [58] ++
       print_byte b3 ++ [58] ++ print_byte b4 ++ [58] ++ print_byte b5).
    rw !fmap_app !Hpb //. }
  unfold valid_text. by rw strip_format // parse_format_roundtrip.
Qed.

Lemma EnsureMac_spec fuel path uid gid e n w :
  entry w = e -> (interrupts w <= n)%nat -> (n + 17 < fuel)%nat ->
  wp (installing e n path uid gid) (EnsureMac fuel path uid gid)
    (fun b w' => b = true -> mac_present (entry w') path) w.
Proof.
  intros He Hn Hf. unfold EnsureMac. apply wp_bind.
  eapply wp_mono; [apply (HasValidMac_spec fuel path e n); [done|done|lia]| |].
  { intros w' [He' Hi']. apply installing_temporary; [by rw He'|done]. }
  intros b w1 [He1 Hn1] Hb. destruct b.
  - apply wp_ret; [apply installing_temporary; [by rw He1|done]|]. rw He1. done.
  - eapply wp_mono; [by apply StoreMac_spec|done|].
    intros b w2 _ Hin ->. destruct Hin as [(f & Hp & Hg) _].
    by eapply generated_present.
Qed.

Lemma main_spec fuel n w :
  (interrupts w <= n)%nat -> (n + 17 < fuel)%nat ->
  wp (fun w' => (interrupts w' <= n)%nat) (main fuel)
    (fun code w' => (code = 0 \/ code = 1) /\
       (code = 0 -> mac_present (entry w') kBluetoothPath /\
                    mac_present (entry w') kWifiPath)) w.
Proof.
  intros Hn Hf. unfold main. apply wp_bind.
  eapply wp_mono; [apply (HasValidMac_spec fuel kBluetoothPath (entry w) n); [done|done|lia]|
                   by intros ? []|].
  intros b w1 [_ Hn1] _. apply wp_bind.
  eapply (wp_mono (fun w' => (interrupts w' <= n)%nat) _ _ (fun _ _ => True)); [|done|].
  { destruct b; cbn [negb]; [|by apply wp_ret]. apply wp_bind.
    eapply wp_mono; [apply (HasValidMac_spec fuel kWifiPath (entry w1) n); [done|done|lia]|
                     by intros ? []|]. intros. by apply wp_ret; [naive_solver|]. }
  intros need w2 Hn2 _. apply wp_bind.
  eapply (wp_mono (fun w' => (interrupts w' <= n)%nat) _ _ (fun _ _ => True)); [|done|].
  { destruct need; [apply RunVendorHelper_spec; lia|by apply wp_ret]. }
  intros _ w3 Hn3 _. apply wp_bind.
  eapply wp_mono; [apply (EnsureMac_spec fuel _ kBluetoothUid kBluetoothGid (entry w3) n); done|
                   by intros ? (_ & _ & ?)|].
  intros bluetooth_ok w4 (_ & _ & Hn4) Hbt. apply wp_bind.
  eapply wp_mono; [apply (EnsureMac_spec fuel _ kSystemUid kWifiGid (entry w4) n); done|
                   by intros ? (_ & _ & ?)|].
  intros wifi_ok w5 (_ & Hsame & Hn5) Hwifi. apply wp_ret; [done|].
  destruct bluetooth_ok, wifi_ok; simpl; (split; [by auto|]); try done.
  intros _. split; [|by apply Hwifi]. unfold mac_present. rw (Hsame kBluetoothPath).
  - by apply Hbt.
  - apply (bool_decide_unpack _). by vm_compute.
Qed.
End Programs.

(** With enough fuel for the interruptions still to come, [WriteFully]
    ends; it appends to the descriptor's file a prefix of the data, all of it
    when it reports success, however the writes are split and interrupted; no
    other entry ever changes. *)
Theorem write_fully_appends `{PosixLaws W} fuel fd data p f (w : W) :
  handle w fd = Some (p, length (f_bytes f)) -> entry w !! p = Some (Regular f) ->
  (interrupts w + length data < fuel)%nat ->
  exists ok w' written,
  exec (WriteFully fuel fd data) w = (Returned ok, w') /\
  entry w' = <[p := Regular (set_bytes f (f_bytes f ++ written))]> (entry w) /\
  written `prefix_of` data /\ (ok = true -> written = data) /\
  Forall (fun v => same_except [p] (entry w) (entry v)) (visited (WriteFully fuel fd data) w).
Proof.
  intros Hh He Hf.
  assert (entry w = <[p := Regular f]> (entry w)) as He' by (by rw insert_id).
  destruct (wp_sound _ _ _ w (WriteFully_spec fuel fd data p f (entry w) (interrupts w) w
    Hh He' (le_n _) Hf)) as [(ok & w' & Hex & _ & written & Hw & Hpre & Hok) Hvis].
  exists ok, w', written. split_and!; [done..|].
  eapply Forall_impl; [exact Hvis|]. by intros v [? _].
Qed.

(** C12: [StoreMac] is atomic: whenever the process is stopped, the path has
    its old entry or a complete generated file with mode 0660 and the given
    owner, and no other entry but the temporary file has changed; it ends, and
    reports success exactly when the new file is in place and the temporary
    name is gone, failure when the old entry is still there. *)
Theorem store_mac_atomic `{PosixLaws W} fuel path uid gid (w : W) :
  (interrupts w + 17 < fuel)%nat ->
  exists ok w',
  exec (StoreMac fuel path uid gid) w = (Returned ok, w') /\
  (if ok : bool
   then (exists f, entry w' !! path = Some (Regular f) /\ generated_file uid gid f) /\
        entry w' !! temporary path = None
   else entry w' !! path = entry w !! path) /\
  Forall (fun v =>
    (entry v !! path = entry w !! path \/
     exists f, entry v !! path = Some (Regular f) /\ generated_file uid gid f) /\
    same_except [path; temporary path] (entry w) (entry v))
    (visited (StoreMac fuel path uid gid) w).
Proof.
  intros Hf.
  destruct (wp_sound _ _ _ w (StoreMac_spec fuel path uid gid (entry w) (interrupts w) w
    eq_refl (le_n _) Hf)) as [(ok & w' & Hex & _ & HQ) Hvis].
  exists ok, w'. split_and!; [done|by destruct ok|].
  eapply Forall_impl; [exact Hvis|]. by intros v (? & ? & _).
Qed.

(** C30: [main] ends with exit code 0 or 1, whatever the vendor helper does to
    the files, and code 0 means that both files hold an address [HasValidMac]
    accepts; [EnsureMac] changes nothing at a path whose check succeeds. *)
Theorem main_ensures_addresses `{PosixLaws W} fuel (w : W) :
  (interrupts w + 17 < fuel)%nat ->
  (exists code w', exec (main fuel) w = (Returned code, w') /\ (code = 0 \/ code = 1) /\
     (code = 0 -> mac_present (entry w') kBluetoothPath /\
                  mac_present (entry w') kWifiPath)) /\
  (forall path uid gid w1, exec (HasValidMac fuel path) w = (Returned true, w1) ->
     exec (EnsureMac fuel path uid gid) w = (Returned true, w1) /\ entry w1 = entry w).
Proof.
  intros Hf. split.
  - destruct (wp_sound _ _ _ w (main_spec fuel (interrupts w) w (le_n _) Hf))
      as [(code & w' & Hex & _ & HQ) _].
    by exists code, w'.
  - intros path uid gid w1 Hv. split.
    + unfold EnsureMac. by rw (exec_bind _ _ _ _ _ Hv).
    + destruct (wp_sound _ _ _ w (HasValidMac_spec fuel path (entry w) (interrupts w) w
        eq_refl (le_n _) ltac:(lia))) as [(b & w' & Hex & [He _] & _) _].
      rw Hv in Hex. injection Hex as <- <-. done.
Qed.

(** ** Witnesses *)

(** No file yet, a few interruptions, a helper that writes nothing useful. *)
Definition fresh_device : disk :=
  mkDisk (<["/dev/urandom" := Special]> ∅) ∅ 3 4 [1; 2; 3; 4; 5; 6] (fun e => e).

Lemma write_fully_appends_witness :
  exists ok w' written,
  exec (WriteFully 20 7 [1; 2; 3; 4; 5; 6; 7])
    (mkDisk (<["f" := Regular (mkFile [9] 0 0 0)]> ∅) (<[7 := ("f"%string, 1%nat)]> ∅) 3 2 []
       (fun e => e)) = (Returned ok, w') /\
  (ok = true -> written = [1; 2; 3; 4; 5; 6; 7]).
Proof.
  destruct (write_fully_appends 20 7 [1; 2; 3; 4; 5; 6; 7] "f" (mkFile [9] 0 0 0)
    (mkDisk (<["f" := Regular (mkFile [9] 0 0 0)]> ∅) (<[7 := ("f"%string, 1%nat)]> ∅) 3 2 []
       (fun e => e))) as (ok & w' & written & Hex & _ & _ & Hok & _).
  - reflexivity.
  - reflexivity.
  - simpl. lia.
  - exists ok, w', written. split; [exact Hex|exact Hok].
Defined.

Lemma store_mac_atomic_witness :
  exists w', exec (StoreMac 30 kWifiPath 1000 1010) fresh_device = (Returned true, w') /\
  exists f, entry w' !! kWifiPath = Some (Regular f) /\ generated_file 1000 1010 f.
Proof.
  destruct (store_mac_atomic 30 kWifiPath 1000 1010 fresh_device) as (ok & w' & Hex & Hok & _).
  - simpl. lia.
  - exists w'. destruct ok; [split; [exact Hex|apply Hok]|].
    exfalso. apply (f_equal fst) in Hex. vm_compute in Hex. discriminate.
Defined.

Lemma main_ensures_addresses_witness :
  exists w', exec (main 30) fresh_device = (Returned 0, w') /\
  mac_present (entry w') kBluetoothPath /\ mac_present (entry w') kWifiPath.
Proof.
  destruct (main_ensures_addresses 30 fresh_device) as [(code & w' & Hex & Hc & Hok) _].
  - simpl. lia.
  - exists w'. destruct Hc as [->| ->]; [split; [exact Hex|apply Hok; reflexivity]|].
    exfalso. apply (f_equal fst) in Hex. vm_compute in Hex. discriminate.
Defined.
