(* ===== verification/Power.v ===== *)
(** * The power HAL

    Model of power/power.c: the interaction boost, its worker thread and the
    hints that request or cancel it.

    A hint is the list of [action]s its thread performs: each is one critical
    section of [boost_lock], one write of a sysfs file, or one reading of the
    clock.  The globals the lock protects are only accessed under it, so a
    critical section is one step; the writes of [set_interaction_boost] are
    made without the lock, each a step of its own.  [pstep] interleaves any
    number of client threads, the worker and the clock; a label says which
    thread moves, whether a sysfs write succeeds, and how a wait ends.

    The library is built as 64-bit code, so [time_t] and [long] are 64 bits
    wide.  hardware/power.h is not part of the repository: its hint numbers are the
    class [PowerHeader]. *)
From S2P Require Import Prelude.

(** ** Constants *)

Definition DEFAULT_INTERACTION_MS : Z := 1500.
Definition LAUNCH_BOOST_MS : Z := 1500.
Definition MAX_BOOST_MS : Z := 3000.
Definition LINEAGE_POWER_HINT_CPU_BOOST : Z := 272.   (* 0x00000110 *)

Definition cpu0_min : string := "/sys/devices/system/cpu/cpu0/cpufreq/scaling_min_freq".
Definition cpu4_min : string := "/sys/devices/system/cpu/cpu4/cpufreq/scaling_min_freq".
Definition cpu0_boostpulse : string :=
  "/sys/devices/system/cpu/cpu0/cpufreq/interactive/boostpulse".
Definition gpu_min : string := "/sys/class/devfreq/gpufreq/min_freq".
Definition ddr_min : string := "/sys/class/devfreq/ddrfreq/min_freq".
Definition hmp_up : string := "/sys/kernel/hmp/up_threshold".
Definition hmp_down : string := "/sys/kernel/hmp/down_threshold".

Class PowerHeader := {
  POWER_HINT_INTERACTION : Z;
  POWER_HINT_LAUNCH : Z;
  POWER_HINT_LOW_POWER : Z;
}.

(** ** Time *)

Record timespec := mkTime { tv_sec : Z; tv_nsec : Z }.

Definition compare_timespec (left right : timespec) : Z :=
  if negb (tv_sec left =? tv_sec right) then
    if tv_sec left <? tv_sec right then -1 else 1
  else if negb (tv_nsec left =? tv_nsec right) then
    if tv_nsec left <? tv_nsec right then -1 else 1
  else 0.

(** The first lines of [request_boost]. *)
Definition clamp_duration (duration_ms : Z) : Z :=
  if duration_ms <=? 0 then DEFAULT_INTERACTION_MS
  else if duration_ms >? MAX_BOOST_MS then MAX_BOOST_MS
  else duration_ms.

(** The deadline of a boost requested at [now]. *)
Definition deadline_after (now : timespec) (duration_ms : Z) : timespec :=
  let tv_sec1 := i64 (tv_sec now + Z.quot duration_ms 1000) in
  let tv_nsec1 := i64 (tv_nsec now + Z.rem duration_ms 1000 * 1000000) in
  if 1000000000 <=? tv_nsec1
  then mkTime (i64 (tv_sec1 + 1)) (i64 (tv_nsec1 - 1000000000))
  else mkTime tv_sec1 tv_nsec1.

(** ** State *)

Record globals := mkPower {
  boost_deadline : timespec;
  boost_active : bool;
  low_power_mode : bool;
  signalled : bool;   (* boost_cond was signalled since the worker last began to wait *)
  sysfs : gmap string string;
}.

Definition set_boost (s : globals) (d : timespec) (a : bool) : globals :=
  mkPower d a (low_power_mode s) true (sysfs s).
Definition set_low_power (s : globals) (b : bool) : globals :=
  mkPower (boost_deadline s) (boost_active s) b (signalled s) (sysfs s).

(** [write_value]; [ok] is false when the file cannot be opened or written. *)
Definition write_value (ok : bool) (path value : string) (s : globals) : globals :=
  if ok then mkPower (boost_deadline s) (boost_active s) (low_power_mode s) (signalled s)
               (<[path := value]> (sysfs s))
  else s.

(** The writes of [set_interaction_boost], in order. *)
Definition set_interaction_boost (enabled : bool) : list (string * string) :=
  if enabled then
    [(cpu0_min, "1516800"); (cpu4_min, "2016000"); (gpu_min, "600000000");
     (ddr_min, "667000000"); (hmp_up, "300"); (hmp_down, "150")]%string
  else
    [(cpu0_min, "403200"); (cpu4_min, "1017600"); (gpu_min, "288000000");
     (ddr_min, "120000000"); (hmp_up, "978"); (hmp_down, "672")]%string.

(** ** Hints *)

Inductive action :=
| AWrite (path value : string)
| ARequest (duration_ms : Z)      (* request_boost up to the lock *)
| AEnqueue (deadline : timespec)  (* its critical section *)
| ALowPower (enabled : bool)      (* low_power_mode = enabled, under the lock *)
| ACancel.                        (* the critical section of cancel_boost *)

Definition boost_writes (enabled : bool) : list action :=
  (fun pv => AWrite pv.1 pv.2) <$> set_interaction_boost enabled.

(** [power_hint] with the [int32_t] that [data] points to, if any. *)
Definition power_hint `{PowerHeader} (boost_thread_started : bool) (hint : Z)
    (data : option Z) : list action :=
  if negb boost_thread_started then []
  else if hint =? POWER_HINT_INTERACTION then
    [AWrite cpu0_boostpulse "1"; ARequest (default DEFAULT_INTERACTION_MS data)]
  else if hint =? POWER_HINT_LAUNCH then
    match data with
    | Some v => if negb (v =? 0) then [ARequest LAUNCH_BOOST_MS] else []
    | None => []
    end
  else if hint =? POWER_HINT_LOW_POWER then
    let enabled := match data with Some v => negb (v =? 0) | None => false end in
    ALowPower enabled :: (if enabled then [ACancel] else [])
  else if u32 hint =? LINEAGE_POWER_HINT_CPU_BOOST then
    let duration_us := default 0 data in
    [ARequest (Z.quot duration_us 1000)]
  else [].

Definition power_set_interactive (boost_thread_started : bool) (on : Z) : list action :=
  if (on =? 0) && boost_thread_started then [ACancel] else [].

(** One action at time [now]: what the thread does next, and the new state. *)
Definition do_action (now : timespec) (ok : bool) (a : action) (s : globals) :
    list action * globals :=
  match a with
  | AWrite path value => ([], write_value ok path value s)
  | ARequest duration_ms => ([AEnqueue (deadline_after now (clamp_duration duration_ms))], s)
  | AEnqueue deadline =>
      if low_power_mode s then ([], s)
      else
        let d := if negb (boost_active s) || (compare_timespec deadline (boost_deadline s) >? 0)
                 then deadline else boost_deadline s in
        (boost_writes true, set_boost s d true)
  | ALowPower enabled => ([], set_low_power s enabled)
  | ACancel =>
      (if boost_active s then boost_writes false else [],
       set_boost s (boost_deadline s) false)
  end.

(** ** The threads *)

Inductive worker_pc :=
| WTop                                (* about to test boost_active *)
| WWait                               (* in pthread_cond_wait *)
| WTimed (until : timespec)           (* in pthread_cond_timedwait *)
| WOff (writes : list (string * string)).   (* in set_interaction_boost(false) *)

Inductive wake := WakeSignal | WakeSpurious | WakeTimeout.

Record system := mkSystem {
  pg : globals;
  worker : worker_pc;
  clients : list (list action);
  clock : timespec;
}.

Definition wait_begins (s : globals) : globals :=
  mkPower (boost_deadline s) (boost_active s) (low_power_mode s) false (sysfs s).

(** One step of [boost_worker]. *)
Definition worker_step (how : wake) (ok : bool) (s : system) : option system :=
  let g := pg s in
  let go g' pc := Some (mkSystem g' pc (clients s) (clock s)) in
  match worker s with
  | WTop =>
      if negb (boost_active g) then go (wait_begins g) WWait
      else go (wait_begins g) (WTimed (boost_deadline g))
  | WWait =>
      match how with
      | WakeSignal => if signalled g then go g WTop else None
      | WakeSpurious => go g WTop
      | WakeTimeout => None
      end
  | WTimed until =>
      match how with
      | WakeSignal => if signalled g then go g WTop else None
      | WakeSpurious => go g WTop
      | WakeTimeout =>
          if compare_timespec (clock s) until >=? 0 then
            if boost_active g && (compare_timespec (clock s) (boost_deadline g) >=? 0)
            then go (mkPower (boost_deadline g) false (low_power_mode g) (signalled g) (sysfs g))
                    (WOff (set_interaction_boost false))
            else go g WTop
          else None
      end
  | WOff [] => go g WTop
  | WOff ((path, value) :: writes) => go (write_value ok path value g) (WOff writes)
  end.

Inductive label :=
| LCall (i : nat) (actions : list action)  (* a framework call on an idle thread *)
| LAct (i : nat) (ok : bool)
| LWorker (how : wake) (ok : bool)
| LTick (now : timespec).

Definition pstep (s : system) (l : label) : option system :=
  match l with
  | LCall i actions =>
      match clients s !! i with
      | Some [] => Some (mkSystem (pg s) (worker s) (<[i := actions]> (clients s)) (clock s))
      | _ => None
      end
  | LAct i ok =>
      match clients s !! i with
      | Some (a :: rest) =>
          let '(next, g) := do_action (clock s) ok a (pg s) in
          Some (mkSystem g (worker s) (<[i := next ++ rest]> (clients s)) (clock s))
      | _ => None
      end
  | LWorker how ok => worker_step how ok s
  | LTick now =>
      if compare_timespec (clock s) now <=? 0
      then Some (mkSystem (pg s) (worker s) (clients s) now) else None
  end.

(** [power_init] has started the worker; the variables have their initial
    values; [threads] threads may call. *)
Definition power_init (threads : nat) (fs : gmap string string) (now : timespec) : system :=
  mkSystem (mkPower (mkTime 0 0) false false false fs) WTop (replicate threads []) now.

(** The calls the framework makes: hints and screen state changes. *)
Inductive framework_call `{PowerHeader} : list action -> Prop :=
| call_hint hint data : framework_call (power_hint true hint data)
| call_interactive on : framework_call (power_set_interactive true on).

Definition calls_ok `{PowerHeader} (l : label) : Prop :=
  match l with LCall _ actions => framework_call actions | _ => True end.

Fixpoint psteps (s : system) (ls : list label) : option system :=
  match ls with
  | [] => Some s
  | l :: ls' => s' ← pstep s l; psteps s' ls'
  end.

(** ** Specification *)

Definition nanoseconds (t : timespec) : Z := tv_sec t * 1000000000 + tv_nsec t.
Definition normal (t : timespec) : Prop := 0 <= tv_nsec t < 1000000000.

(** The sysfs files hold the boosted or the idle values. *)
Definition shows (boosted : bool) (fs : gmap string string) : Prop :=
  forall path value, (path, value) ∈ set_interaction_boost boosted -> fs !! path = Some value.

(** A thread runs its actions alone, and every write succeeds. *)
Fixpoint run_alone (fuel : nat) (now : timespec) (actions : list action) (s : globals) :
    option globals :=
  match actions with
  | [] => Some s
  | a :: rest =>
      match fuel with
      | O => None
      | S fuel' =>
          let '(next, s') := do_action now true a s in run_alone fuel' now (next ++ rest) s'
      end
  end.

(** Successful writes, in order. *)
Definition apply_writes (ws : list (string * string)) (s : globals) : globals :=
  foldl (fun g pv => write_value true pv.1 pv.2 g) s ws.

(** The worker when its wait times out, alone. *)
Definition expire (now : timespec) (s : globals) : globals :=
  if boost_active s && (compare_timespec now (boost_deadline s) >=? 0)
  then apply_writes (set_interaction_boost false)
         (mkPower (boost_deadline s) false (low_power_mode s) (signalled s) (sysfs s))
  else s.

(** Calls and expiries, one after the other; no thread runs between the steps
    of another. *)
Inductive event := EvCall (actions : list action) | EvExpire.

Fixpoint run_events (evs : list (timespec * event)) (s : globals) : option globals :=
  match evs with
  | [] => Some s
  | (now, EvCall actions) :: evs' => s' ← run_alone 20 now actions s; run_events evs' s'
  | (now, EvExpire) :: evs' => run_events evs' (expire now s)
  end.

Definition event_ok `{PowerHeader} (e : timespec * event) : Prop :=
  match e.2 with EvCall actions => framework_call actions | EvExpire => True end.

(** The files show whether a boost is active, and low power mode excludes one. *)
Definition settled (s : globals) : Prop :=
  shows (boost_active s) (sysfs s) /\ (low_power_mode s = true -> boost_active s = false).

(** * Theorems *)

(** ** Time *)

Lemma compare_timespec_spec a b :
  normal a -> normal b ->
  compare_timespec a b =
    if nanoseconds a <? nanoseconds b then -1
    else if nanoseconds b <? nanoseconds a then 1 else 0.
Proof.
  unfold normal, nanoseconds, compare_timespec. intros Ha Hb.
  repeat case_match; lia.
Qed.

Lemma compare_timespec_refl a : compare_timespec a a = 0.
Proof. unfold compare_timespec. by rw !Z.eqb_refl. Qed.

Lemma compare_timespec_ge_trans a b c :
  compare_timespec a b >= 0 -> compare_timespec b c >= 0 -> compare_timespec a c >= 0.
Proof. unfold compare_timespec. repeat case_match; lia. Qed.

Lemma compare_timespec_antisym a b :
  (compare_timespec a b >? 0) = true -> compare_timespec a b >= 0.
Proof. lia. Qed.

Lemma clamp_duration_range d : 1 <= clamp_duration d <= MAX_BOOST_MS.
Proof. unfold clamp_duration, MAX_BOOST_MS, DEFAULT_INTERACTION_MS. repeat case_match; lia. Qed.

(** C39: the deadline of a boost is a normal time exactly the requested number
    of milliseconds after now, where a request is 1500 ms when it is not
    positive and at most 3000 ms; two normal times compare as their numbers of
    nanoseconds; and the deadline of a boost that is already active is only
    ever moved later. *)
Theorem boost_deadline_exact now d s ok :
  normal now -> 0 <= tv_sec now < INT64_MAX - 4 -> low_power_mode s = false ->
  normal (boost_deadline s) ->
  let deadline := deadline_after now (clamp_duration d) in
  normal deadline /\
  nanoseconds deadline = nanoseconds now + clamp_duration d * 1000000 /\
  1 <= clamp_duration d <= 3000 /\
  (0 < d <= 3000 -> clamp_duration d = d) /\
  let s' := (do_action now ok (AEnqueue deadline) s).2 in
  boost_active s' = true /\
  nanoseconds (boost_deadline s') =
    if boost_active s then Z.max (nanoseconds (boost_deadline s)) (nanoseconds deadline)
    else nanoseconds deadline.
Proof.
  intros Hnow Hsec Hlow Hold deadline.
  pose proof (clamp_duration_range d) as Hc. unfold MAX_BOOST_MS in Hc.
  assert (normal deadline /\ nanoseconds deadline = nanoseconds now + clamp_duration d * 1000000)
    as [Hn Hd].
  { unfold deadline, deadline_after, normal, nanoseconds in *.
    rw Z.quot_div_nonneg; [|lia..]. rw Z.rem_mod_nonneg; [|lia..].
    pose proof (Z.div_mod (clamp_duration d) 1000).
    pose proof (Z.mod_pos_bound (clamp_duration d) 1000).
    assert (0 <= clamp_duration d / 1000 <= 3) by
      (split; [apply Z.div_pos; lia|apply Z.div_le_upper_bound; lia]).
    no_wrap. destruct (Z.leb_spec 1000000000 (tv_nsec now + clamp_duration d mod 1000 * 1000000));
      simpl; no_wrap; lia. }
  split; [done|]. split; [done|]. split; [done|]. split.
  - unfold clamp_duration, MAX_BOOST_MS. intros ?. repeat case_match; lia.
  - unfold do_action. rw Hlow. simpl. split; [done|].
    destruct (boost_active s); simpl; [|done].
    rw compare_timespec_spec //. repeat case_match; lia.
Qed.

(** ** One call at a time *)

Lemma apply_writes_fields ws s :
  boost_active (apply_writes ws s) = boost_active s /\
  low_power_mode (apply_writes ws s) = low_power_mode s /\
  boost_deadline (apply_writes ws s) = boost_deadline s.
Proof. revert s. induction ws as [|[p v] ws IH]; intros s; [done|]. apply (IH (write_value true p v s)). Qed.

Lemma apply_writes_shows b s : shows b (sysfs (apply_writes (set_interaction_boost b) s)).
Proof.
  intros path value Hin. unfold set_interaction_boost in Hin.
  destruct b; repeat (apply elem_of_cons in Hin as [[= -> ->]|Hin]); try (by apply elem_of_nil in Hin);
    simpl; rw !lookup_insert; by vm_compute.
Qed.

Lemma run_alone_writes fuel now ws rest s :
  run_alone (length ws + fuel) now (((fun pv => AWrite pv.1 pv.2) <$> ws) ++ rest) s =
    run_alone fuel now rest (apply_writes ws s).
Proof. revert s. induction ws as [|[p v] ws IH]; intros s; simpl; [done|]. apply IH. Qed.

Lemma run_alone_boost b fuel now rest s :
  run_alone (6 + fuel) now (boost_writes b ++ rest) s =
    run_alone fuel now rest (apply_writes (set_interaction_boost b) s).
Proof. unfold boost_writes. rw -run_alone_writes. by destruct b. Qed.

Definition boost_now (now : timespec) (duration_ms : Z) (s : globals) : globals :=
  if low_power_mode s then s
  else apply_writes (set_interaction_boost true)
         (do_action now true (AEnqueue (deadline_after now (clamp_duration duration_ms))) s).2.

Definition cancel_now (s : globals) : globals :=
  let s' := set_boost s (boost_deadline s) false in
  if boost_active s then apply_writes (set_interaction_boost false) s' else s'.

Lemma run_alone_nil fuel now s : run_alone fuel now [] s = Some s.
Proof. by destruct fuel. Qed.

Lemma run_request fuel now d s :
  run_alone (8 + fuel) now [ARequest d] s = Some (boost_now now d s).
Proof.
  change (run_alone (8 + fuel) now [ARequest d] s) with
    (run_alone (S (6 + fuel)) now [AEnqueue (deadline_after now (clamp_duration d))] s).
  unfold boost_now, do_action, run_alone. fold run_alone. unfold do_action.
  destruct (low_power_mode s); [apply run_alone_nil|].
  rw (run_alone_boost true). apply run_alone_nil.
Qed.

Lemma run_cancel fuel now s :
  run_alone (7 + fuel) now [ACancel] s = Some (cancel_now s).
Proof.
  change (7 + fuel)%nat with (S (6 + fuel)).
  unfold cancel_now, run_alone. fold run_alone. unfold do_action.
  destruct (boost_active s); [|apply run_alone_nil].
  rw (run_alone_boost false). apply run_alone_nil.
Qed.

Lemma boost_now_settled now d s : settled s -> settled (boost_now now d s).
Proof.
  intros [Hs Hl]. unfold boost_now. destruct (low_power_mode s) eqn:Hlow; [split; [done|]; intros _; by apply Hl|].
  set (g := (do_action _ _ _ _).2).
  assert (boost_active g = true /\ low_power_mode g = false) as [Ha Hg].
  { unfold g, do_action. by rw Hlow. }
  destruct (apply_writes_fields (set_interaction_boost true) g) as (Hb & Hl' & _).
  split; [rw Hb Ha; apply apply_writes_shows|]. by rw Hl' Hg.
Qed.

Lemma cancel_now_settled s :
  shows (boost_active s) (sysfs s) ->
  settled (cancel_now s) /\ boost_active (cancel_now s) = false.
Proof.
  intros Hs. unfold cancel_now. destruct (boost_active s) eqn:Ha; [|by split_and!; split].
  destruct (apply_writes_fields (set_interaction_boost false) (set_boost s (boost_deadline s) false))
    as (Hb & _ & _).
  split; [|done]. split; [rw Hb; apply apply_writes_shows|by rw Hb].
Qed.

Lemma expire_settled now s : settled s -> settled (expire now s).
Proof.
  intros [Hs Hl]. unfold expire. destruct (_ && _); [|exact (conj Hs Hl)].
  set (g := mkPower _ _ _ _ _).
  destruct (apply_writes_fields (set_interaction_boost false) g) as (Hb & _ & _).
  split; [rw Hb; apply apply_writes_shows|by rw Hb].
Qed.

Lemma boostpulse_settled s : settled s -> settled (write_value true cpu0_boostpulse "1" s).
Proof.
  intros [Hs Hl]. split; [|done]. intros path value Hin. simpl in *.
  rw lookup_insert_ne; [by apply Hs|]. intros <-. unfold set_interaction_boost in Hin.
  destruct (boost_active s); repeat (apply elem_of_cons in Hin as [[= ]|Hin]);
    by apply elem_of_nil in Hin.
Qed.

Lemma run_call_alone `{PowerHeader} now actions s :
  framework_call actions -> settled s ->
  exists s', run_alone 20 now actions s = Some s' /\ settled s'.
Proof.
  intros Hc Hs. destruct Hc as [hint data|on].
  - unfold power_hint. simpl negb. cbn iota.
    destruct (hint =? POWER_HINT_INTERACTION).
    { exists (boost_now now (default DEFAULT_INTERACTION_MS data)
        (write_value true cpu0_boostpulse "1" s)).
      split; [apply (run_request 11)|by apply boost_now_settled, boostpulse_settled]. }
    destruct (hint =? POWER_HINT_LAUNCH).
    { destruct data as [v|]; [|by exists s]. destruct (negb (v =? 0)); [|by exists s].
      eexists. split; [apply (run_request 12)|by apply boost_now_settled]. }
    destruct (hint =? POWER_HINT_LOW_POWER).
    { destruct (match data with Some v => _ | None => _ end).
      - exists (cancel_now (set_low_power s true)). split; [apply (run_cancel 12)|].
        apply cancel_now_settled. apply Hs.
      - exists (set_low_power s false). split; [done|]. split; [apply Hs|done]. }
    destruct (u32 hint =? LINEAGE_POWER_HINT_CPU_BOOST); [|by exists s].
    eexists. split; [apply (run_request 12)|by apply boost_now_settled].
  - unfold power_set_interactive. destruct (_ && _); [|by exists s].
    exists (cancel_now s). split; [apply (run_cancel 13)|]. apply cancel_now_settled. apply Hs.
Qed.

(** Calls that do not overlap keep the sysfs files in step with the boost:
    starting from idle values, any sequence of hints, screen state changes and
    expiries, each run to its end before the next, ends with the boosted values
    in the files exactly when a boost is active, and no boost active in low
    power mode; a request in low power mode changes nothing, and turning low
    power mode on or the screen off leaves the idle values. *)
Theorem power_calls_settled `{PowerHeader} evs s :
  settled s -> Forall event_ok evs ->
  (exists s', run_events evs s = Some s' /\ settled s') /\
  (forall now d, low_power_mode s = true -> run_alone 20 now [ARequest d] s = Some s) /\
  (forall now, exists s1 s2,
     run_alone 20 now (power_set_interactive true 0) s = Some s1 /\ shows false (sysfs s1) /\
     run_alone 20 now [ALowPower true; ACancel] s = Some s2 /\ shows false (sysfs s2) /\
     low_power_mode s2 = true).
Proof.
  intros Hs Hev. split_and!.
  - revert s Hs. induction evs as [|[now [actions|]] evs IH]; intros s Hs; [by exists s|..];
      apply Forall_cons in Hev as [He Hev]; cbn [run_events].
    + destruct (run_call_alone now actions s He Hs) as (s1 & Hr & Hs1). rw Hr. by apply IH.
    + apply IH; [done|]. by apply expire_settled.
  - intros now d Hlow. rw (run_request 12). unfold boost_now. by rw Hlow.
  - intros now. exists (cancel_now s), (cancel_now (set_low_power s true)).
    destruct (cancel_now_settled s (proj1 Hs)) as [[Hsh _] Ha].
    destruct (cancel_now_settled (set_low_power s true) (proj1 Hs)) as [[Hsh2 _] Ha2].
    rw Ha in Hsh. rw Ha2 in Hsh2.
    split_and!; [apply (run_cancel 13)|done|apply (run_cancel 12)|done|].
    unfold cancel_now. destruct (boost_active (set_low_power s true)); [|done].
    by apply apply_writes_fields.
Qed.

(** ** Interleaved threads *)

(** The worker does not sleep past the deadline of an active boost, unless a
    signal is on its way to it. *)
Definition worker_awake (s : system) : Prop :=
  boost_active (pg s) = true ->
  match worker s with
  | WWait => signalled (pg s) = true
  | WTimed until => signalled (pg s) = true \/ compare_timespec (boost_deadline (pg s)) until >= 0
  | WTop | WOff _ => True
  end.

(** A thread that has turned low power mode on has still to cancel. *)
Definition cancels (actions : list action) : Prop :=
  ALowPower true ∈ actions -> actions = [ALowPower true; ACancel].

Definition low_power_ok (s : system) : Prop :=
  Forall cancels (clients s) /\
  (low_power_mode (pg s) = true -> boost_active (pg s) = true ->
   exists actions, actions ∈ clients s /\ ACancel ∈ actions).

Definition power_ok (s : system) : Prop := worker_awake s /\ low_power_ok s.

Lemma compare_timespec_self_ge a : compare_timespec a a >= 0.
Proof. by rw compare_timespec_refl. Qed.

(** One action and the flags of the lock. *)
Lemma do_action_awake now ok a g next g' :
  do_action now ok a g = (next, g') ->
  (signalled g' = true) \/
  (signalled g' = signalled g /\ boost_active g' = boost_active g /\
   boost_deadline g' = boost_deadline g).
Proof.
  destruct a; simpl; [|by intros [= _ <-]; right|destruct (low_power_mode g)|
    by intros [= _ <-]; right|]; intros [= _ <-]; [destruct ok; by right|by right|by left|by left].
Qed.

Lemma worker_awake_step s l s' : worker_awake s -> pstep s l = Some s' -> worker_awake s'.
Proof.
  intros Hw Hs. destruct l as [i actions|i ok|how ok|now]; simpl in Hs.
  - destruct (clients s !! i) as [[]|]; [|done..]. by injection Hs as <-.
  - destruct (clients s !! i) as [[|a rest]|]; [done| |done].
    destruct (do_action (clock s) ok a (pg s)) as [next g] eqn:Ha. injection Hs as <-.
    intros Hact. simpl in *.
    apply do_action_awake in Ha as [Hsig|(Hsig & Hb & Hd)].
    + destruct (worker s); try done. by left.
    + rw Hsig Hd. apply Hw. by rw -Hb.
  - unfold worker_step in Hs. destruct (worker s) as [| |until|[|[p v] ws]] eqn:Hpc.
    + destruct (boost_active (pg s)) eqn:Hact; injection Hs as <-; unfold worker_awake; simpl;
        [|by rw Hact]. intros _. right. apply compare_timespec_self_ge.
    + destruct how; [destruct (signalled (pg s)); [|done]| |done]; by injection Hs as <-.
    + destruct how; [destruct (signalled (pg s)); [|done]| |destruct (_ >=? 0); [|done];
        destruct (_ && _)]; by injection Hs as <-.
    + by injection Hs as <-.
    + by injection Hs as <-.
  - destruct (_ <=? 0); [|done]. by injection Hs as <-.
Qed.

Lemma cancels_boost_writes b : cancels (boost_writes b).
Proof.
  intros Hin. exfalso. unfold boost_writes in Hin.
  apply list_elem_of_fmap in Hin as (pv & Heq & _). done.
Qed.

(** What is left of a call after one of its actions still cancels if need be:
    every call but the low power hint has no [ALowPower true] in it. *)
Lemma cancels_tail a rest : cancels (a :: rest) -> cancels rest.
Proof.
  intros Hc Hin. specialize (Hc ltac:(by right)). simplify_eq.
  apply list_elem_of_singleton in Hin. done.
Qed.

Lemma do_action_cancels now ok a g next g' rest :
  do_action now ok a g = (next, g') -> cancels (a :: rest) -> cancels (next ++ rest).
Proof.
  intros Ha Hc Hin. apply elem_of_app in Hin as [Hin|Hin].
  - exfalso. destruct a; simpl in Ha; [| |destruct (low_power_mode g)| |destruct (boost_active g)];
      injection Ha as <- _; try (by apply elem_of_nil in Hin).
    + apply list_elem_of_singleton in Hin. done.
    + by apply cancels_boost_writes in Hin.
    + by apply cancels_boost_writes in Hin.
  - pose proof (cancels_tail _ _ Hc Hin) as ->.
    specialize (Hc ltac:(by right; left)). done.
Qed.

Lemma call_cancels `{PowerHeader} actions : framework_call actions -> cancels actions.
Proof.
  destruct 1 as [hint data|on]; unfold power_hint, power_set_interactive; intros Hin;
    repeat case_match; simpl in *; try done;
    repeat (apply elem_of_cons in Hin as [?|Hin]; [done|]); try (by apply elem_of_nil in Hin).
  all: by simplify_eq.
Qed.

Lemma pending_kept (cs : list (list action)) i old new :
  cs !! i = Some old -> (ACancel ∈ old -> ACancel ∈ new) ->
  (exists actions, actions ∈ cs /\ ACancel ∈ actions) ->
  exists actions, actions ∈ <[i := new]> cs /\ ACancel ∈ actions.
Proof.
  intros Hi Hkeep (actions & Hin & Hc). apply list_elem_of_lookup in Hin as [j Hj].
  destruct (decide (i = j)) as [->|Hij].
  - exists new. split; [|apply Hkeep; by simplify_eq].
    apply list_elem_of_lookup. exists j. apply list_lookup_insert_eq. by eapply lookup_lt_Some.
  - exists actions. split; [|done]. apply list_elem_of_lookup. exists j.
    by rw list_lookup_insert_ne.
Qed.

Lemma worker_step_flags how ok s s' :
  worker_step how ok s = Some s' ->
  clients s' = clients s /\ clock s' = clock s /\
  low_power_mode (pg s') = low_power_mode (pg s) /\
  (boost_active (pg s') = true -> boost_active (pg s) = true).
Proof.
  unfold worker_step. destruct (worker s) as [| |until|[|[p v] ws]].
  - destruct (negb _); by intros [= <-].
  - destruct how; [destruct (signalled _)| |]; by intros [= <-].
  - destruct how; [destruct (signalled _)| |destruct (_ >=? 0); [destruct (_ && _)|]];
      by intros [= <-].
  - by intros [= <-].
  - destruct ok; by intros [= <-].
Qed.

Lemma low_power_ok_step `{PowerHeader} s l s' :
  low_power_ok s -> calls_ok l -> pstep s l = Some s' -> low_power_ok s'.
Proof.
  intros [Hc Hp] Hl Hs. destruct l as [i actions|i ok|how ok|now]; simpl in Hs, Hl.
  - destruct (clients s !! i) as [[]|] eqn:Hi; [|done..]. injection Hs as <-. split; simpl.
    + apply Forall_insert; [done|by apply call_cancels].
    + intros ? ?. eapply pending_kept; [done| |by apply Hp]. by intros ?%elem_of_nil.
  - destruct (clients s !! i) as [[|a rest]|] eqn:Hi; [done| |done].
    destruct (do_action (clock s) ok a (pg s)) as [next g] eqn:Ha. injection Hs as <-.
    assert (cancels (a :: rest)) as Har by (by eapply Forall_lookup_1).
    split; simpl; [apply Forall_insert; [done|by eapply do_action_cancels]|].
    intros Hlow Hact.
    assert (a <> ACancel -> (low_power_mode (pg s) = true /\ boost_active (pg s) = true) ->
            exists actions, actions ∈ <[i := next ++ rest]> (clients s) /\ ACancel ∈ actions)
      as Hkeep.
    { intros Hne [? ?]. eapply pending_kept; [done| |by apply Hp].
      intros [?|?]%elem_of_cons; [done|]. apply elem_of_app. by right. }
    destruct a as [p v|d|d|[]|]; simpl in Ha.
    + apply Hkeep; [done|]. destruct ok; by injection Ha as _ <-.
    + apply Hkeep; [done|]. by injection Ha as _ <-.
    + destruct (low_power_mode (pg s)) eqn:Hlow0; injection Ha as <- <-.
      * by apply Hkeep.
      * simpl in Hlow. by rw Hlow0 in Hlow.
    + injection Ha as <- <-. specialize (Har ltac:(by left)). simplify_eq.
      exists [ACancel]. split; [|by left]. apply list_elem_of_lookup. exists i.
      apply list_lookup_insert_eq. by eapply lookup_lt_Some.
    + by injection Ha as <- <-.
    + by injection Ha as <- <-.
  - apply worker_step_flags in Hs as (Hcs & _ & Hlow & Hact). unfold low_power_ok.
    rw Hcs Hlow. split; [done|]. intros ? ?. by apply Hp; [|apply Hact].
  - destruct (_ <=? 0); [|done]. by injection Hs as <-.
Qed.

(** The runs the framework can cause. *)
Definition power_run `{PowerHeader} (s : system) (ls : list label) (s' : system) : Prop :=
  Forall calls_ok ls /\ psteps s ls = Some s'.

Lemma power_run_ok `{PowerHeader} s ls s' :
  power_ok s -> power_run s ls s' -> power_ok s'.
Proof.
  intros Hok [Hls Hrun]. revert s Hok Hrun. induction ls as [|l ls IH]; intros s Hok Hrun.
  - by injection Hrun as <-.
  - apply Forall_cons in Hls as [Hl Hls]. simpl in Hrun.
    destruct (pstep s l) as [s1|] eqn:Hs; [|done]. simpl in Hrun.
    apply (IH Hls s1); [|done]. destruct Hok as [Hw Hp].
    split; [by eapply worker_awake_step|by eapply low_power_ok_step].
Qed.

Lemma power_init_ok threads fs now : power_ok (power_init threads fs now).
Proof.
  split; [done|]. split; [|done]. simpl. apply Forall_replicate. by intros ?%elem_of_nil.
Qed.

(** C38: low power mode excludes a boost: in every interleaving, once low power
    mode is on and no call is in progress, no boost is active; and as long as
    one still is, some thread is about to cancel it. *)
Theorem low_power_excludes_boost `{PowerHeader} threads fs now ls s :
  power_run (power_init threads fs now) ls s -> low_power_mode (pg s) = true ->
  (Forall (fun actions => actions = []) (clients s) -> boost_active (pg s) = false) /\
  (boost_active (pg s) = true ->
   exists actions, actions ∈ clients s /\ ACancel ∈ actions).
Proof.
  intros Hrun Hlow.
  destruct (power_run_ok _ _ _ (power_init_ok threads fs now) Hrun) as [_ [_ Hp]].
  split; [|by apply Hp]. intros Hidle. apply not_true_is_false. intros Hact.
  destruct (Hp Hlow Hact) as (actions & Hin & Hc).
  rw Forall_forall in Hidle. rw (Hidle actions Hin) in Hc. by apply elem_of_nil in Hc.
Qed.

(** ** The worker ends every boost *)

Lemma psteps_app s l1 l2 : psteps s (l1 ++ l2) = (s' ← psteps s l1; psteps s' l2).
Proof.
  revert s. induction l1 as [|l l1 IH]; intros s; simpl; [done|].
  destruct (pstep s l); simpl; [apply IH|done].
Qed.

(** The worker alone, its waits ended by a signal or by the time. *)
Definition own_step (l : label) : Prop :=
  match l with LWorker WakeSignal true | LWorker WakeTimeout true => True | _ => False end.

Definition boost_ended (s : system) : Prop :=
  exists ls s', Forall own_step ls /\ psteps s ls = Some s' /\
    boost_active (pg s') = false /\ shows false (sysfs (pg s')).

Lemma boost_ended_step s l s' :
  own_step l -> pstep s l = Some s' -> boost_ended s' -> boost_ended s.
Proof.
  intros Hl Hs (ls & s2 & Hls & Hrun & Hend). exists (l :: ls), s2.
  split; [by constructor|]. split; [|done]. simpl. by rw Hs.
Qed.

Lemma boost_off_ended g cs now :
  boost_active g = false ->
  boost_ended (mkSystem g (WOff (set_interaction_boost false)) cs now).
Proof.
  intros Hact. exists (replicate 6 (LWorker WakeSignal true)). eexists.
  split; [by repeat constructor|]. split; [reflexivity|]. split; [done|].
  apply (apply_writes_shows false g).
Qed.

Lemma boost_timed_ended g cs now until :
  boost_active g = true -> compare_timespec now (boost_deadline g) >= 0 ->
  compare_timespec now until >= 0 ->
  boost_ended (mkSystem g (WTimed until) cs now).
Proof.
  intros Hact Hnow Huntil. eapply (boost_ended_step _ (LWorker WakeTimeout true)); [done| |].
  - simpl. unfold worker_step. simpl. rw Hact.
    destruct (compare_timespec now until >=? 0) eqn:Hu; [|lia].
    destruct (compare_timespec now (boost_deadline g) >=? 0) eqn:Hd; [done|lia].
  - by apply boost_off_ended.
Qed.

Lemma boost_top_ended g cs now :
  boost_active g = true -> compare_timespec now (boost_deadline g) >= 0 ->
  boost_ended (mkSystem g WTop cs now).
Proof.
  intros Hact Hnow. eapply (boost_ended_step _ (LWorker WakeTimeout true)); [done| |].
  - simpl. unfold worker_step. simpl. by rw Hact.
  - by apply boost_timed_ended.
Qed.

Lemma boost_writing_ended g ws cs now :
  boost_active g = true -> compare_timespec now (boost_deadline g) >= 0 ->
  boost_ended (mkSystem g (WOff ws) cs now).
Proof.
  revert g. induction ws as [|[p v] ws IH]; intros g Hact Hnow.
  - eapply (boost_ended_step _ (LWorker WakeTimeout true)); [done|done|]. by apply boost_top_ended.
  - eapply (boost_ended_step _ (LWorker WakeTimeout true)); [done|done|]. by apply IH.
Qed.

(** No boost outlives its deadline: in every interleaving, when a boost is
    active and its deadline has passed, the worker alone, without a spurious
    wakeup, switches it off and leaves the idle values in the sysfs files:
    no wakeup is lost and no wait is too long, whatever requests extended,
    cancelled or restarted the boost. *)
Theorem boost_ends `{PowerHeader} threads fs now ls s :
  power_run (power_init threads fs now) ls s -> boost_active (pg s) = true ->
  compare_timespec (clock s) (boost_deadline (pg s)) >= 0 ->
  exists ls' s', Forall own_step ls' /\ psteps s ls' = Some s' /\
    boost_active (pg s') = false /\ shows false (sysfs (pg s')).
Proof.
  intros Hrun Hact Hnow.
  destruct (power_run_ok _ _ _ (power_init_ok threads fs now) Hrun) as [Hw _].
  specialize (Hw Hact). change (boost_ended s).
  destruct s as [g pc cs t]. simpl in *. destruct pc as [| |until|ws].
  - by apply boost_top_ended.
  - eapply (boost_ended_step _ (LWorker WakeSignal true)); [done| |by apply boost_top_ended].
    simpl. unfold worker_step. simpl. by rw Hw.
  - destruct Hw as [Hsig|Huntil].
    + eapply (boost_ended_step _ (LWorker WakeSignal true)); [done| |by apply boost_top_ended].
      simpl. unfold worker_step. simpl. by rw Hsig.
    + apply boost_timed_ended; [done|done|]. by eapply compare_timespec_ge_trans.
  - by apply boost_writing_ended.
Qed.

(** ** A race that leaves the boost on *)

(** The actions of the hints that do not ask for a boost. *)
Definition quiet (a : action) : Prop :=
  match a with ALowPower _ | ACancel => True | _ => False end.

Definition quiet_label (l : label) : Prop :=
  match l with LCall _ actions => Forall quiet actions | _ => True end.

(** The boosted values are in the files and nothing is left to remove them. *)
Definition stuck (s : system) : Prop :=
  boost_active (pg s) = false /\ match worker s with WOff (_ :: _) => False | _ => True end /\
  Forall (Forall quiet) (clients s) /\ shows true (sysfs (pg s)).

Lemma stuck_step s l s' : stuck s -> quiet_label l -> pstep s l = Some s' -> stuck s'.
Proof.
  intros (Hact & Hpc & Hcs & Hsh) Hl Hs. destruct l as [i actions|i ok|how ok|now]; simpl in Hs.
  - destruct (clients s !! i) as [[]|]; [|done..]. injection Hs as <-.
    split_and!; [done|done|by apply Forall_insert|done].
  - destruct (clients s !! i) as [[|a rest]|] eqn:Hi; [done| |done].
    assert (Forall quiet (a :: rest)) as Hq by (eapply Forall_lookup_1 in Hi; [|done]; done).
    apply Forall_cons in Hq as [Hqa Hq].
    destruct a as [| | |b|]; try done; simpl in Hs; rw ?Hact in Hs; injection Hs as <-;
      (split_and!; [done|done|by apply Forall_insert|done]).
  - unfold worker_step in Hs. destruct (worker s) as [| |until|[|[p v] ws]] eqn:Hw; [| | | |done].
    + rw Hact in Hs. injection Hs as <-. by split_and!.
    + destruct how; [destruct (signalled _); [|done]| |done]; injection Hs as <-; by split_and!.
    + rw Hact in Hs. destruct how; [destruct (signalled _); [|done]| |destruct (_ >=? 0); [|done]];
        injection Hs as <-; by split_and!.
    + injection Hs as <-. by split_and!.
  - destruct (_ <=? 0); [|done]. injection Hs as <-. by split_and!.
Qed.

Lemma stuck_psteps s ls s' :
  stuck s -> Forall quiet_label ls -> psteps s ls = Some s' -> stuck s'.
Proof.
  revert s. induction ls as [|l ls IH]; intros s Hst Hls Hrun; [by injection Hrun as <-|].
  apply Forall_cons in Hls as [Hl Hls]. simpl in Hrun.
  destruct (pstep s l) as [s1|] eqn:Hs; [|done]. apply (IH s1); [by eapply stuck_step|done|done].
Qed.

(** A thread alone writes all its values. *)
Lemma psteps_writes i ws rest g pc cs t :
  cs !! i = Some (((fun pv => AWrite pv.1 pv.2) <$> ws) ++ rest) ->
  psteps (mkSystem g pc cs t) (replicate (length ws) (LAct i true)) =
    Some (mkSystem (apply_writes ws g) pc (<[i := rest]> cs) t).
Proof.
  revert g cs. induction ws as [|[p v] ws IH]; intros g cs Hi; simpl.
  - by rw list_insert_id.
  - simpl in Hi. rw Hi /=.
    rw (IH (write_value true p v g)); [by rw list_insert_insert_eq|].
    apply list_lookup_insert_eq. by eapply lookup_lt_Some.
Qed.

(** The interleaving: thread 0 is past the lock of [request_boost] when thread
    1 turns the screen off and writes the idle values; then thread 0 writes the
    boosted ones. *)
Definition race_labels `{PowerHeader} : list label :=
  [LCall 0 (power_hint true POWER_HINT_INTERACTION None); LAct 0 true; LAct 0 true; LAct 0 true;
   LCall 1 (power_set_interactive true 0); LAct 1 true] ++
  replicate 6 (LAct 1 true) ++ replicate 6 (LAct 0 true).

Lemma race_run `{PowerHeader} fs now :
  exists g, psteps (power_init 2 fs now) race_labels =
    Some (mkSystem (apply_writes (set_interaction_boost true)
                      (apply_writes (set_interaction_boost false) g)) WTop [[]; []] now) /\
    boost_active g = false.
Proof.
  set (g0 := write_value true cpu0_boostpulse "1" (mkPower (mkTime 0 0) false false false fs)).
  set (d := deadline_after now (clamp_duration DEFAULT_INTERACTION_MS)).
  exists (set_boost (set_boost g0 d true) d false). split; [|done].
  unfold race_labels, power_hint. rw Z.eqb_refl psteps_app.
  assert (psteps (power_init 2 fs now)
    [LCall 0 [AWrite cpu0_boostpulse "1"; ARequest DEFAULT_INTERACTION_MS];
     LAct 0 true; LAct 0 true; LAct 0 true; LCall 1 (power_set_interactive true 0); LAct 1 true] =
    Some (mkSystem (set_boost (set_boost g0 d true) d false) WTop
            [boost_writes true; boost_writes false] now)) as Hfirst by reflexivity.
  simpl default. simpl negb. cbn iota. rw Hfirst. cbn [mbind option_bind]. rw psteps_app.
  rw (psteps_writes 1 (set_interaction_boost false) []); [|by rw app_nil_r].
  cbn [mbind option_bind].
  rw (psteps_writes 0 (set_interaction_boost true) []); [done|by rw app_nil_r].
Qed.

(** C19: the sysfs writes are made after the lock is released, and two calls
    can make them in the wrong order: from the initial state, a touch hint
    overlapping with the screen going off can end with every thread idle, no
    boost active, and the boosted values in the files.  Nothing then removes
    them: neither the worker nor time nor any number of low power and screen
    off calls changes them, until another boost is requested. *)
Theorem boost_can_be_stuck `{PowerHeader} fs now :
  exists s,
  power_run (power_init 2 fs now) race_labels s /\
  Forall (fun actions => actions = []) (clients s) /\ boost_active (pg s) = false /\
  shows true (sysfs (pg s)) /\
  forall ls s', Forall quiet_label ls -> psteps s ls = Some s' ->
    shows true (sysfs (pg s')) /\ boost_active (pg s') = false.
Proof.
  destruct (race_run fs now) as (g & Hrun & Hg). eexists. split; [split; [|exact Hrun]|].
  { unfold race_labels. simpl. forall_list (done || constructor). }
  set (s := mkSystem _ _ _ _).
  assert (boost_active (pg s) = false) as Hact.
  { unfold s. cbn [pg]. by rw !(proj1 (apply_writes_fields _ _)). }
  assert (stuck s) as Hst.
  { split_and!; [done|exact I|by repeat constructor|]. apply (apply_writes_shows true). }
  split_and!; [by repeat constructor|done|apply Hst|].
  intros ls s' Hls Hq. destruct (stuck_psteps s ls s' Hst Hls Hq) as (? & _ & _ & ?). done.
Qed.

(** ** Witnesses *)

#[local] Instance aosp_power_h : PowerHeader := {
  POWER_HINT_INTERACTION := 2;
  POWER_HINT_LAUNCH := 8;
  POWER_HINT_LOW_POWER := 5;
}.

Lemma boost_deadline_exact_witness :
  nanoseconds (deadline_after (mkTime 100 900000000) (clamp_duration 0)) = 102400000000.
Proof.
  exact (proj1 (proj2 (boost_deadline_exact (mkTime 100 900000000) 0
    (mkPower (mkTime 0 0) false false false ∅) true
    ltac:(unfold normal; simpl; lia) ltac:(unfold INT64_MAX; simpl; lia) eq_refl
    ltac:(unfold normal; simpl; lia)))).
Defined.

Definition idle_globals : globals :=
  apply_writes (set_interaction_boost false) (mkPower (mkTime 0 0) false false false ∅).

Lemma power_calls_settled_witness :
  exists s', run_events
    [(mkTime 1 0, EvCall (power_hint true 2 None)); (mkTime 9 0, EvExpire);
     (mkTime 9 1, EvCall (power_hint true 5 (Some 1)))] idle_globals = Some s' /\ settled s'.
Proof.
  apply power_calls_settled.
  - split; [apply (apply_writes_shows false)|discriminate].
  - forall_list (exact I || constructor).
Defined.

(** Where a run on one thread from the initial state ends. *)
Definition end_of (ls : list label) : system :=
  default (power_init 1 ∅ (mkTime 5 0)) (psteps (power_init 1 ∅ (mkTime 5 0)) ls).

Definition low_power_labels : list label :=
  LCall 0 (power_hint true 2 (Some 100)) :: replicate 9 (LAct 0 true) ++
  LCall 0 (power_hint true 5 (Some 1)) :: replicate 8 (LAct 0 true).

Lemma low_power_excludes_boost_witness :
  exists s, psteps (power_init 1 ∅ (mkTime 5 0)) low_power_labels = Some s /\
  low_power_mode (pg s) = true /\ boost_active (pg s) = false.
Proof.
  exists (end_of low_power_labels).
  assert (psteps (power_init 1 ∅ (mkTime 5 0)) low_power_labels =
          Some (end_of low_power_labels)) as Hrun by (vm_compute; reflexivity).
  assert (low_power_mode (pg (end_of low_power_labels)) = true) as Hlow by (vm_compute; reflexivity).
  split; [exact Hrun|]. split; [exact Hlow|].
  apply (low_power_excludes_boost 1 ∅ (mkTime 5 0) low_power_labels).
  - split; [|exact Hrun].
    forall_list (exact I || constructor).
  - exact Hlow.
  - vm_compute. repeat constructor.
Defined.

Definition expired_labels : list label :=
  LCall 0 (power_hint true 2 (Some 100)) :: replicate 9 (LAct 0 true) ++
  [LWorker WakeSpurious true; LTick (mkTime 7 0)].

Lemma boost_ends_witness :
  exists s ls' s', psteps (power_init 1 ∅ (mkTime 5 0)) expired_labels = Some s /\
  boost_active (pg s) = true /\ psteps s ls' = Some s' /\ boost_active (pg s') = false.
Proof.
  exists (end_of expired_labels).
  assert (psteps (power_init 1 ∅ (mkTime 5 0)) expired_labels =
          Some (end_of expired_labels)) as Hrun by (vm_compute; reflexivity).
  assert (boost_active (pg (end_of expired_labels)) = true) as Hact by (vm_compute; reflexivity).
  destruct (boost_ends 1 ∅ (mkTime 5 0) expired_labels (end_of expired_labels))
    as (ls' & s' & _ & Hrun' & Hoff & _).
  - split; [|exact Hrun].
    forall_list (exact I || constructor).
  - exact Hact.
  - vm_compute. discriminate.
  - exists ls', s'. split; [exact Hrun|]. split; [exact Hact|]. split; [exact Hrun'|exact Hoff].
Defined.
