(* ===== verification/PowerLiveness.v ===== *)
(** * Liveness of the power HAL's worker

    The executions of Power.v that go on for ever, under a scheduler that is
    weakly fair to the worker: as long as it can make a step without a spurious
    wakeup, it makes one some time.  A wait that is over is one it can leave:
    the worker is ready when the condition was signalled, or the time it waits
    for has come.  Spurious wakeups may happen, but not for ever; nothing is
    assumed of the threads that call the HAL. *)
From S2P Require Import Prelude Power Executions.

Section Liveness.
Context `{PowerHeader}.

Definition power_step (s : system) (l : label) (s' : system) : Prop :=
  calls_ok l /\ pstep s l = Some s'.

(** The worker can make a step that is not a spurious wakeup. *)
Definition worker_ready (s : system) : Prop :=
  match worker s with
  | WTop | WOff _ => True
  | WWait => signalled (pg s) = true
  | WTimed until => signalled (pg s) = true \/ compare_timespec (clock s) until >= 0
  end.

Definition worker_moves (s : system) (l : label) (s' : system) : Prop :=
  exists how ok, l = LWorker how ok /\ how <> WakeSpurious /\ pstep s l = Some s'.

(** A step in which a thread asks for a boost. *)
Definition requests (s : system) (l : label) : Prop :=
  exists i ok d rest, l = LAct i ok /\ clients s !! i = Some (AEnqueue d :: rest).

(** Turns of the worker until a boost that is over is switched off, at most. *)
Definition turns (s : system) : nat :=
  (match worker s with
   | WOff writes => 3 + length writes
   | WTop => 2
   | WWait => 3
   | WTimed _ => if signalled (pg s) then 3 else 1
   end)%nat.

(** * Theorems *)

(** What a step does to an active boost. *)
Lemma boost_step s l s' :
  pstep s l = Some s' -> boost_active (pg s) = true ->
  boost_active (pg s') = false \/ requests s l \/
  boost_active (pg s') = true /\ boost_deadline (pg s') = boost_deadline (pg s) /\
  (worker s' = worker s /\ signalled (pg s') = signalled (pg s) \/ exists how ok, l = LWorker how ok).
Proof.
  intros Hs Hact. destruct l as [i actions|i ok|how ok|now]; simpl in Hs.
  - destruct (clients s !! i) as [[]|]; [|done..]. injection Hs as <-. right. right. auto.
  - destruct (clients s !! i) as [[|a rest]|] eqn:Hi; [done| |done].
    destruct a as [p v|d|d|b|]; simpl in Hs; [| |right; left; by exists i, ok, d, rest|..];
      injection Hs as <-; simpl; [destruct ok; right; right; auto|right; right; auto..|by left].
  - destruct (boost_active (pg s')) eqn:Hact'; [|by left]. right. right. split; [done|].
    split; [|right; by exists how, ok].
    unfold worker_step in Hs. rw Hact in Hs. simpl in Hs.
    destruct (worker s) as [| |until|[|[p v] ws]]; [|destruct how as [| |]; try destruct (signalled _)|
      destruct how as [| |]; [destruct (signalled _)| |destruct (_ >=? 0); [destruct (_ >=? 0)|]]|
      |destruct ok]; try done; by injection Hs as <-.
  - destruct (_ <=? 0); [|done]. injection Hs as <-. right. right. auto.
Qed.

Lemma clock_step s l s' : pstep s l = Some s' -> compare_timespec (clock s') (clock s) >= 0.
Proof.
  intros Hs. destruct l as [i actions|i ok|how ok|now]; simpl in Hs.
  - destruct (clients s !! i) as [[]|]; [|done..]. injection Hs as <-. apply compare_timespec_self_ge.
  - destruct (clients s !! i) as [[|a rest]|]; [done| |done].
    destruct (do_action _ _ _ _). injection Hs as <-. apply compare_timespec_self_ge.
  - apply worker_step_flags in Hs as (_ & -> & _). apply compare_timespec_self_ge.
  - destruct (Z.leb_spec (compare_timespec (clock s) now) 0); [|done]. injection Hs as <-. simpl.
    unfold compare_timespec in *. repeat case_match; lia.
Qed.

(** A boost whose deadline has passed: the worker is ready, and each of its
    moves brings it nearer to switching the boost off. *)
Lemma overdue_ready s :
  worker_awake s -> boost_active (pg s) = true ->
  compare_timespec (clock s) (boost_deadline (pg s)) >= 0 -> worker_ready s.
Proof.
  intros Hw Hact Hover. specialize (Hw Hact). unfold worker_ready.
  destruct (worker s) as [| |until|]; try done. destruct Hw as [?|?]; [by left|right].
  by eapply compare_timespec_ge_trans.
Qed.

Lemma overdue_move s l s' :
  worker_awake s -> boost_active (pg s) = true ->
  compare_timespec (clock s) (boost_deadline (pg s)) >= 0 -> worker_moves s l s' ->
  boost_active (pg s') = false \/ (turns s' < turns s)%nat.
Proof.
  intros Hw Hact Hover (how & ok & -> & Hsp & Hs). specialize (Hw Hact). simpl in Hs.
  unfold worker_step in Hs. unfold turns.
  destruct (worker s) as [| |until|[|[p v] ws]] eqn:Hpc.
  - rw Hact in Hs. injection Hs as <-. right. simpl. lia.
  - destruct how; [destruct (signalled (pg s)); [|done]|done|done]. injection Hs as <-. right. simpl. lia.
  - destruct how; [|done|].
    + destruct (signalled (pg s)); [|done]. injection Hs as <-. right. simpl. lia.
    + destruct (_ >=? 0); [|done]. rw Hact /= in Hs.
      destruct (compare_timespec (clock s) (boost_deadline (pg s)) >=? 0) eqn:Hd; [|lia].
      injection Hs as <-. by left.
  - injection Hs as <-. right. simpl. lia.
  - injection Hs as <-. right. simpl. lia.
Qed.

Section Fair.
Variables (threads : nat) (fs : gmap string string) (now : timespec).
Variables (st : nat -> system) (lb : nat -> option label).
Hypothesis Hex : execution power_step (power_init threads fs now) st lb.
Hypothesis Hfair : weakly_fair st lb worker_ready worker_moves.
Hypothesis Hspurious :
  exists N, forall m ok, (N <= m)%nat -> lb m <> Some (LWorker WakeSpurious ok).

(** Moment [m] ends the boost, or somebody asks for another one. *)
Definition ends (m : nat) : Prop :=
  boost_active (pg (st (S m))) = false \/ exists l, lb m = Some l /\ requests (st m) l.

Lemma awake_at n : worker_awake (st n).
Proof.
  pose proof (execution_run _ _ _ _ Hex n) as Hrun. revert Hrun.
  generalize (trace_to lb n) (st n). apply (run_invariant _ (fun _ => worker_awake)).
  - by destruct (power_init_ok threads fs now).
  - intros tr s l s' Hw [_ Hs]. by eapply worker_awake_step.
Qed.

(** The boost of deadline [d] goes on. *)
Definition goes_on (d : timespec) (k : nat) : Prop :=
  boost_active (pg (st k)) = true /\ boost_deadline (pg (st k)) = d.

Lemma goes_on_step d k :
  goes_on d k -> ends k \/ goes_on d (S k) /\
    (worker (st (S k)) = worker (st k) /\ signalled (pg (st (S k))) = signalled (pg (st k)) \/
     exists how ok, lb k = Some (LWorker how ok)).
Proof.
  intros [Hact Hd]. pose proof (ex_step _ _ _ _ Hex k) as Hs. destruct (lb k) as [l|] eqn:Hl.
  - destruct Hs as [_ Hs]. destruct (boost_step _ _ _ Hs Hact) as [Hoff|[Hreq|(Ha & He & Hor)]].
    + left. by left.
    + left. right. by exists l.
    + right. split; [by split; [|rw He]|]. destruct Hor as [?|(how & ok & ->)]; [by left|right].
      by exists how, ok.
  - right. unfold goes_on. rw Hs. split; [done|]. by left.
Qed.

Lemma goes_on_until d n m :
  goes_on d n -> (n <= m)%nat -> goes_on d m \/ exists k, (n <= k)%nat /\ ends k.
Proof.
  intros Hn Hle. induction Hle as [|m Hle [IH|?]]; [by left| |by right].
  destruct (goes_on_step d m IH) as [?|[? _]]; [right; by exists m|by left].
Qed.

Lemma clock_at n m : (n <= m)%nat -> compare_timespec (clock (st m)) (clock (st n)) >= 0.
Proof.
  intros Hle. induction Hle as [|m Hle IH]; [apply compare_timespec_self_ge|].
  eapply compare_timespec_ge_trans; [|exact IH]. pose proof (ex_step _ _ _ _ Hex m) as Hs.
  destruct (lb m) as [l|]; [by eapply clock_step, Hs|]. rw Hs. apply compare_timespec_self_ge.
Qed.

(** Overdue, and with no spurious wakeups to come. *)
Definition overdue (d : timespec) (w k : nat) : Prop :=
  goes_on d k /\ turns (st k) = w /\ compare_timespec (clock (st k)) d >= 0 /\
  forall m ok, (k <= m)%nat -> lb m <> Some (LWorker WakeSpurious ok).

Lemma overdue_progress d w n k :
  (n <= k)%nat -> overdue d w k ->
  exists m, (k <= m)%nat /\
    ((exists j, (n <= j)%nat /\ ends j) \/ exists w', (w' < w)%nat /\ overdue d w' m).
Proof.
  intros Hnk Hk.
  apply (fair_leads_to st lb worker_ready worker_moves
    (fun k => (n <= k)%nat /\ overdue d w k)
    (fun m => (exists j, (n <= j)%nat /\ ends j) \/ exists w', (w' < w)%nat /\ overdue d w' m) k Hfair);
    [..|done].
  - intros j [_ ([Hact Hd] & _ & Hover & _)]. apply overdue_ready; [apply awake_at|done|by rw Hd].
  - intros j [Hnj (Hon & Hw & Hover & Hsp)].
    assert (forall m ok, (S j <= m)%nat -> lb m <> Some (LWorker WakeSpurious ok)) as Hsp'
      by (intros m ok Hm; apply Hsp; lia).
    pose proof (compare_timespec_ge_trans _ _ _ (clock_at j (S j) ltac:(lia)) Hover) as Hover'.
    destruct (goes_on_step d j Hon) as [Hends|[Hon' [[Hpc Hsig]|(how & ok & Hl)]]].
    + right. left. by exists j.
    + left. split; [lia|]. split_and!; [done| |done|done]. rw -Hw. unfold turns. by rw Hpc Hsig.
    + right. pose proof (ex_step _ _ _ _ Hex j) as Hs. rw Hl in Hs. destruct Hs as [_ Hs].
      destruct Hon as [Hact Hd]. destruct (overdue_move (st j) (LWorker how ok) (st (S j)))
        as [Hoff|Hlt]; [apply awake_at|done|by rw Hd| | |].
      * exists how, ok. split; [done|]. split; [|done]. intros ->. by apply (Hsp j ok).
      * left. exists j. split; [done|by left].
      * right. exists (turns (st (S j))). by rw -Hw.
  - intros j l [Hnj ([Hact Hd] & Hw & Hover & Hsp)] Hl Hmv.
    destruct (overdue_move _ _ _ (awake_at j) Hact ltac:(by rw Hd) Hmv) as [Hoff|Hlt].
    + left. exists j. split; [done|by left].
    + destruct (goes_on_step d j (conj Hact Hd)) as [Hends|[Hon' _]]; [left; by exists j|right].
      exists (turns (st (S j))). rw -Hw. split; [done|]. split_and!; [done|done| |].
      * exact (compare_timespec_ge_trans _ _ _ (clock_at j (S j) ltac:(lia)) Hover).
      * intros m ok Hm. apply Hsp. lia.
Qed.

Lemma boost_is_ended d n m :
  goes_on d n -> compare_timespec (clock (st m)) d >= 0 -> exists k, (n <= k)%nat /\ ends k.
Proof.
  intros Hon Hover. destruct Hspurious as [N HN].
  set (k := Nat.max n (Nat.max m N)).
  destruct (goes_on_until d n k Hon) as [Hk|?]; [lia| |done].
  destruct (measure_leads_to (fun w k => (n <= k)%nat /\ overdue d w k)
    (fun _ => exists j, (n <= j)%nat /\ ends j)) with (turns (st k)) k as (_ & _ & ?); [..|done].
  - intros w j [Hnj Hj]. destruct (overdue_progress d w n j Hnj Hj) as (m' & Hm' & [?|(w' & ? & ?)]).
    + exists m'. split; [done|by left].
    + exists m'. split; [done|right]. exists w'. split; [done|]. split; [lia|done].
  - split; [lia|]. split_and!; [done|done| |].
    + eapply compare_timespec_ge_trans; [|exact Hover]. apply clock_at. lia.
    + intros j ok Hj. apply HN. lia.
Qed.
End Fair.
End Liveness.

(** Finite runs, as labels. *)
Lemma psteps_run `{PowerHeader} s ls s' :
  Forall calls_ok ls -> psteps s ls = Some s' -> run power_step s ls s'.
Proof.
  intros Hls. revert s. induction Hls as [|l ls Hl Hls IH]; intros s Hs; simpl in Hs.
  - injection Hs as ->. constructor.
  - destruct (pstep s l) as [s1|] eqn:Hl1; [|done]. simpl in Hs.
    eapply run_cons; [by split|by apply IH].
Qed.

(** ** Property *)

(** C37: every boost ends.  In every infinite execution in which the worker is
    treated fairly and spurious wakeups are not endless: when a boost is active
    and the clock some time passes its deadline, the boost is switched off, or
    another one is asked for.  So no request is needed to end a boost, no wakeup
    is lost and no wait is too long, whatever the callers of the HAL do
    meanwhile; a boost only goes on for ever when it is asked for again and
    again. *)
Theorem every_boost_ends `{PowerHeader} threads fs now st lb (n m : nat) :
  execution power_step (power_init threads fs now) st lb ->
  weakly_fair st lb worker_ready worker_moves ->
  (exists N, forall k ok, (N <= k)%nat -> lb k <> Some (LWorker WakeSpurious ok)) ->
  boost_active (pg (st n)) = true ->
  compare_timespec (clock (st m)) (boost_deadline (pg (st n))) >= 0 ->
  exists k, (n <= k)%nat /\
    (boost_active (pg (st (S k))) = false \/ exists l, lb k = Some l /\ requests (st k) l).
Proof.
  intros Hex Hfair Hsp Hact Hover.
  by apply (boost_is_ended threads fs now st lb Hex Hfair Hsp (boost_deadline (pg (st n))) n m).
Qed.

#[local] Existing Instance aosp_power_h.

(** A boost of 100 ms at second 5; at second 7 the worker finds it over, writes
    the idle values and waits for the next one. *)
Lemma every_boost_ends_witness :
  exists st lb n k,
    execution power_step (power_init 1 ∅ (mkTime 5 0)) st lb /\
    weakly_fair st lb worker_ready worker_moves /\
    boost_active (pg (st n)) = true /\ (n <= k)%nat /\
    (boost_active (pg (st (S k))) = false \/ exists l, lb k = Some l /\ requests (st k) l).
Proof.
  assert (run power_step (power_init 1 ∅ (mkTime 5 0)) expired_labels (end_of expired_labels)) as H1.
  { apply psteps_run; [|vm_compute; reflexivity]. forall_list (exact I || constructor). }
  assert (run power_step (end_of expired_labels) (replicate 9 (LWorker WakeTimeout true))
    (end_of (expired_labels ++ replicate 9 (LWorker WakeTimeout true)))) as H2.
  { apply psteps_run; [|vm_compute; reflexivity]. forall_list (exact I || constructor). }
  destruct (run_execution _ _ _ _ _ _ H1 H2) as (st & lb & Hex & Hst & Hrest).
  assert (weakly_fair st lb worker_ready worker_moves) as Hfair.
  { apply (rest_weakly_fair st lb _ _ _ _ _ Hrest). vm_compute. discriminate. }
  assert (boost_active (pg (st (length expired_labels))) = true) as Hact
    by (rw Hst; vm_compute; reflexivity).
  destruct (every_boost_ends 1 ∅ (mkTime 5 0) st lb (length expired_labels) (length expired_labels))
    as (k & Hk & Hends).
  - exact Hex.
  - exact Hfair.
  - eexists. intros k ok Hk. destruct (Hrest k Hk) as (_ & -> & _). discriminate.
  - exact Hact.
  - rw Hst. vm_compute. discriminate.
  - exists st, lb, (length expired_labels), k.
    split; [exact Hex|]. split; [exact Hfair|]. split; [exact Hact|]. split; [exact Hk|exact Hends].
Defined.
