(* ===== verification/Thermal.v ===== *)
(** * The thermal HAL

    Model of thermal/thermal.c: the search of the thermal zones, the
    temperature list and the CPU usage list.

    The files are a parameter: what opening and reading each path gives, fixed
    while a function runs.  So are the numbers [fscanf] reads with [%f] (type
    [F]), the order in which [readdir] lists the zones, and hardware/thermal.h. *)
From Stdlib Require Import Ascii.
From S2P Require Import Prelude CString.

Definition MAX_PATH_LENGTH : nat := 128.
Definition MAX_TYPE_LENGTH : nat := 32.
Definition CPU_COUNT : nat := 8.
Definition PROC_STAT_PATH : list Z := text_of "/proc/stat".
Definition THERMAL_DIR : list Z := text_of "/sys/devices/virtual/thermal".
Definition THERMAL_ZONE_PREFIX : list Z := text_of "thermal_zone".

Definition cpu_names : list (list Z) :=
  text_of <$> ["cpu0"; "cpu1"; "cpu2"; "cpu3"; "cpu4"; "cpu5"; "cpu6"; "cpu7"]%string.

(** What a path gives. *)
Inductive file_content :=
| OpenError (errno : Z)                (* fopen fails *)
| ReadError (errno : Z)                (* the first read fails *)
| Content (bytes : list Z).

Class ThermalHeader := {
  DEVICE_TEMPERATURE_CPU : Z;
  DEVICE_TEMPERATURE_GPU : Z;
}.

Record temperature_sensor := mkTempSensor {
  ts_name : list Z;
  ts_type : Z;
  ts_path : list Z;    (* the characters before the terminating zero *)
}.

(** [temperature_t]; a number is [Some], UNKNOWN_TEMPERATURE is [None]. *)
Record temperature_t (F : Type) := mkTemp {
  t_type : Z;
  t_name : list Z;
  current_value : option F;
  throttling_threshold : option F;
  shutdown_threshold : option F;
  vr_throttling_threshold : option F;
}.
Arguments mkTemp {F}.
Arguments t_type {F}.
Arguments t_name {F}.
Arguments current_value {F}.

Record cpu_usage_t := mkUsage {
  cu_name : list Z;
  active : Z;
  total : Z;
  is_online : bool;
}.

Section Thermal.
Context `{ThermalHeader} `{LongWidth} {F : Type}.
Variable files : list Z -> file_content.
Variable scan_float : list Z -> option F.

(** The initial value of [sensors]. *)
Definition initial_sensors : list temperature_sensor :=
  [mkTempSensor (text_of "cluster0") DEVICE_TEMPERATURE_CPU [];
   mkTempSensor (text_of "cluster1") DEVICE_TEMPERATURE_CPU [];
   mkTempSensor (text_of "gpu") DEVICE_TEMPERATURE_GPU []].

(** The return value and the line read. *)
Definition read_string (path : list Z) (size : nat) : Z * list Z :=
  match files path with
  | OpenError errno => (- errno, [])
  | ReadError errno => (if negb (errno =? 0) then - errno else - EIO, [])
  | Content bytes =>
      match fgets size bytes with
      | None => (- EIO, [])
      | Some (line, _) => (0, cut_line (c_str line))
      end
  end.

(** The inner loop: the first sensor with the zone's type gets the path. *)
Fixpoint assign_path (type path : list Z) (sensors : list temperature_sensor) :
    list temperature_sensor :=
  match sensors with
  | [] => []
  | s :: sensors' =>
      if bool_decide (type = ts_name s)
      then mkTempSensor (ts_name s) (ts_type s) path :: sensors'
      else s :: assign_path type path sensors'
  end.

(** One directory entry. *)
Definition scan_zone (sensors : list temperature_sensor) (d_name : list Z) :
    list temperature_sensor :=
  if negb (has_prefix THERMAL_ZONE_PREFIX d_name) then sensors
  else
    let path := snprintf MAX_PATH_LENGTH (THERMAL_DIR ++ text_of "/" ++ d_name ++ text_of "/type") in
    let '(result, type) := read_string path MAX_TYPE_LENGTH in
    if negb (result =? 0) then sensors
    else assign_path type
           (snprintf MAX_PATH_LENGTH (THERMAL_DIR ++ text_of "/" ++ d_name ++ text_of "/temp"))
           sensors.

(** [zones]: the names [readdir] gives, or [None] when [opendir] fails. *)
Definition find_temperature_sensors (zones : option (list (list Z)))
    (sensors : list temperature_sensor) : list temperature_sensor :=
  match zones with
  | None => sensors
  | Some names => foldl scan_zone sensors names
  end.

Definition read_temperature (sensor : temperature_sensor) : option F :=
  match ts_path sensor with
  | [] => None
  | _ :: _ =>
      match files (ts_path sensor) with
      | OpenError _ | ReadError _ => None
      | Content bytes => scan_float bytes
      end
  end.

(** The loop over the output; a write outside of [list] is undefined. *)
Fixpoint write_temperatures (i : nat) (sensors : list temperature_sensor)
    (out : list (temperature_t F)) : option (list (temperature_t F)) :=
  match sensors with
  | [] => Some out
  | s :: sensors' =>
      out' ← arr_set out (Z.of_nat i)
        {| t_type := ts_type s; t_name := ts_name s; current_value := read_temperature s;
           throttling_threshold := None; shutdown_threshold := None;
           vr_throttling_threshold := None |};
      write_temperatures (S i) sensors' out'
  end.

(** [once] says whether [pthread_once] has run, with the sensors it left.  The
    result is the return value and the caller's array (a null [list] is [None]). *)
Definition get_temperatures (zones : option (list (list Z)))
    (once : option (list temperature_sensor)) (out : option (list (temperature_t F)))
    (size : nat) : option (Z * option (list (temperature_t F)) * list temperature_sensor) :=
  let sensors := match once with
    | Some sensors => sensors
    | None => find_temperature_sensors zones initial_sensors end in
  let sensor_count := length sensors in
  match out with
  | None => Some (Z.of_nat sensor_count, None, sensors)
  | Some out =>
      let output_count := if (size <? sensor_count)%nat then size else sensor_count in
      out' ← write_temperatures 0 (take output_count sensors) out;
      Some (Z.of_nat sensor_count, Some out', sensors)
  end.

(** ** CPU usage *)

Definition online_path (cpu : nat) : list Z :=
  snprintf MAX_PATH_LENGTH
    (text_of "/sys/devices/system/cpu/cpu" ++ print_dec (Z.of_nat cpu) ++ text_of "/online").

Definition cpu_online (cpu : nat) : bool :=
  if (cpu =? 0)%nat then true
  else
    match files (online_path cpu) with
    | OpenError _ => false
    | ReadError _ => false
    | Content bytes =>
        match scan_int bytes with Some (online, _) => negb (online =? 0) | None => false end
    end.

(** The first loop, over [cpus]. *)
Fixpoint init_usages (cpus : list nat) (out : list cpu_usage_t) : option (list cpu_usage_t) :=
  match cpus with
  | [] => Some out
  | cpu :: cpus' =>
      out' ← arr_set out (Z.of_nat cpu)
        (mkUsage (default [] (cpu_names !! cpu)) 0 0 (cpu_online cpu));
      init_usages cpus' out'
  end.

(** The numbers of one line: [sscanf] of the name and [n] numbers. *)
Fixpoint scan_numbers (n : nat) (text : list Z) : option (list Z) :=
  match n with
  | O => Some []
  | S n' =>
      '(v, text') ← scan_unsigned text;
      vs ← scan_numbers n' text';
      Some (v :: vs)
  end.

(** One line of /proc/stat: the index it updates, and the two numbers. *)
Definition stat_line (ticks_per_second : Z) (line : list Z) : option (Z * Z * Z) :=
  '(name, rest) ← scan_word 15 (c_str line);
  numbers ← scan_numbers 8 rest;
  match numbers with
  | [user; nice; system; idle; iowait; irq; softirq; steal] =>
      if negb (has_prefix (text_of "cpu") name) || (str_at name 3 =? 0) then None
      else
        let '(cpu, end_) := strtoul (drop 3 name) in
        if negb (str_at end_ 0 =? 0) || (Z.of_nat CPU_COUNT <=? cpu) then None
        else
          let active := u64 (user + nice + system + irq + softirq + steal) in
          let total := u64 (active + idle + iowait) in
          Some (cpu, u64 (active * 1000) / ticks_per_second,
                     u64 (total * 1000) / ticks_per_second)
  | _ => None
  end.

Definition set_usage (u : cpu_usage_t) (a t : Z) : cpu_usage_t :=
  mkUsage (cu_name u) a t (is_online u).

Definition apply_stat_line (ticks_per_second : Z) (line : list Z) (out : list cpu_usage_t) :
    option (list cpu_usage_t) :=
  match stat_line ticks_per_second line with
  | None => Some out
  | Some (cpu, a, t) =>
      u ← arr_get out cpu;
      arr_set out cpu (set_usage u a t)
  end.

(** The loop over the file; every turn takes at least one character, so the
    length of the file is enough fuel. *)
Fixpoint stat_loop (fuel : nat) (ticks_per_second : Z) (bytes : list Z)
    (out : list cpu_usage_t) : option (list cpu_usage_t) :=
  match fgets 512 bytes with
  | None => Some out
  | Some (line, rest) =>
      match fuel with
      | O => None
      | S fuel' =>
          out' ← apply_stat_line ticks_per_second line out;
          stat_loop fuel' ticks_per_second rest out'
      end
  end.

(** [ticks_per_second] is the answer of [sysconf]. *)
Definition get_cpu_usages (ticks_per_second : Z) (out : option (list cpu_usage_t)) :
    option (Z * option (list cpu_usage_t)) :=
  match out with
  | None => Some (Z.of_nat CPU_COUNT, None)
  | Some out =>
      if ticks_per_second <=? 0 then Some (- EINVAL, Some out)
      else
        out ← init_usages (seq 0 CPU_COUNT) out;
        match files PROC_STAT_PATH with
        | OpenError errno => Some (- errno, Some out)
        | ReadError _ => Some (Z.of_nat CPU_COUNT, Some out)
        | Content bytes =>
            out' ← stat_loop (length bytes) ticks_per_second bytes out;
            Some (Z.of_nat CPU_COUNT, Some out')
        end
  end.

Definition get_cooling_devices (size : nat) : Z := 0.
End Thermal.

(** ** Specification *)

(** The type a directory entry's zone reports, if it is a zone that can be
    read. *)
Definition zone_type (files : list Z -> file_content) (d_name : list Z) : option (list Z) :=
  if has_prefix THERMAL_ZONE_PREFIX d_name then
    let '(result, type) := read_string files
      (snprintf MAX_PATH_LENGTH (THERMAL_DIR ++ text_of "/" ++ d_name ++ text_of "/type"))
      MAX_TYPE_LENGTH in
    if result =? 0 then Some type else None
  else None.

Definition temp_path (d_name : list Z) : list Z :=
  snprintf MAX_PATH_LENGTH (THERMAL_DIR ++ text_of "/" ++ d_name ++ text_of "/temp").

(** A sensor's path is that of the last zone with its name, or empty. *)
Definition path_found (files : list Z -> file_content) (names : list (list Z))
    (s : temperature_sensor) : Prop :=
  (ts_path s = [] /\ forall d, d ∈ names -> zone_type files d <> Some (ts_name s)) \/
  exists front d back, names = front ++ d :: back /\
    zone_type files d = Some (ts_name s) /\ ts_path s = temp_path d /\
    forall d', d' ∈ back -> zone_type files d' <> Some (ts_name s).

(** The lines of /proc/stat: those of a CPU, those that say something else, and
    a kind of the latter that may be longer than the buffer (the interrupt
    counts). *)
Inductive stat_item :=
| CpuLine (cpu : nat) (numbers : list Z) (extra : list Z)
| OtherLine (text : list Z)
| LongLine (text : list Z).

Definition number_text (numbers : list Z) : list Z := numbers ≫= (fun v => 32 :: print_dec v).

Definition item_text (it : stat_item) : list Z :=
  match it with
  | CpuLine cpu numbers extra =>
      text_of "cpu" ++ print_dec (Z.of_nat cpu) ++ number_text numbers ++ extra
  | OtherLine text | LongLine text => text
  end.

Definition plain (text : list Z) : Prop := (10 ∉ text) /\ (0 ∉ text).
Definition digits (ds : list Z) : Prop := Forall (fun c => isdigit c = true) ds.
Definition word (w : list Z) : Prop := Forall (fun c => isspace c = false) w.

(** What makes a line none of the eight CPUs': its first word does not start
    with "cpu"; it is "cpu", the sum of all; its number is 8 or more; what
    follows "cpu" is not a number; or it has less than eight numbers.  A word
    has at most the 15 characters the program reads. *)
Inductive other_line : list Z -> Prop :=
| other_word text : take 3 (skip_spaces text) <> text_of "cpu" -> other_line text
| other_sum rest : at_end rest -> other_line (text_of "cpu" ++ rest)
| other_number ds rest :
    digits ds -> (length ds <= 12)%nat -> Z.of_nat CPU_COUNT <= digits_value 0 ds -> at_end rest ->
    other_line (text_of "cpu" ++ ds ++ rest)
| other_name ds c t rest :
    digits ds -> word (c :: t) -> isdigit c = false -> c <> 0 ->
    (ds = [] -> starts_number (c :: t) = false) ->
    (length (ds ++ c :: t) <= 12)%nat -> at_end rest ->
    other_line (text_of "cpu" ++ (ds ++ c :: t) ++ rest)
| other_short w numbers rest :
    w <> [] -> word w -> (length w <= 15)%nat -> (length numbers < 8)%nat ->
    Forall (fun v => 0 <= v <= ULLONG_MAX) numbers -> (numbers = [] -> at_end rest) ->
    starts_number (skip_spaces rest) = false ->
    other_line (w ++ number_text numbers ++ rest).

(** Lines short enough for the buffer, except the long ones, which say nothing
    of a CPU anywhere: no part of them starts with "cpu", for want of a c. *)
Definition item_ok (it : stat_item) : Prop :=
  match it with
  | CpuLine cpu numbers extra =>
      (length (item_text it) < 511)%nat /\
      (cpu < CPU_COUNT)%nat /\ length numbers = 8%nat /\
      Forall (fun v => 0 <= v <= ULLONG_MAX) numbers /\ plain extra /\
      match extra with c :: _ => isdigit c = false | [] => True end
  | OtherLine text => (length text < 511)%nat /\ plain text /\ other_line text
  | LongLine text => plain text /\ 99 ∉ text
  end.

(** The numbers of a line: everything but the fourth and fifth is active. *)
Definition usage_of (ticks : Z) (numbers : list Z) : Z * Z :=
  match numbers with
  | [user; nice; system; idle; iowait; irq; softirq; steal] =>
      let active := u64 (user + nice + system + irq + softirq + steal) in
      (u64 (active * 1000) / ticks, u64 (u64 (active + idle + iowait) * 1000) / ticks)
  | _ => (0, 0)
  end.

(** What the lines make of the usage of one CPU: the last of its lines counts. *)
Definition final_usage (ticks : Z) (items : list stat_item) (cpu : nat) (u : cpu_usage_t) :
    cpu_usage_t :=
  foldl (fun u it => match it with
    | CpuLine k numbers _ =>
        if decide (k = cpu) then set_usage u (usage_of ticks numbers).1 (usage_of ticks numbers).2
        else u
    | OtherLine _ | LongLine _ => u end) u items.

(** * Theorems *)

(** ** Temperatures *)

Section Zones.
Context `{ThermalHeader}.
Variable files : list Z -> file_content.

Lemma scan_zone_spec sensors d :
  scan_zone files sensors d =
    match zone_type files d with
    | Some type => assign_path type (temp_path d) sensors
    | None => sensors
    end.
Proof.
  unfold scan_zone, zone_type, temp_path. destruct (has_prefix _ d); simpl; [|done].
  destruct (read_string _ _ _) as [result type]. by destruct (result =? 0).
Qed.

(** With distinct names, each sensor is changed by its own zones only. *)
Lemma assign_path_lookup type path sensors j s :
  NoDup (ts_name <$> sensors) -> sensors !! j = Some s ->
  assign_path type path sensors !! j =
    Some (if decide (type = ts_name s) then mkTempSensor (ts_name s) (ts_type s) path else s).
Proof.
  revert j. induction sensors as [|s0 sensors IH]; intros j Hnd Hj; [done|].
  simpl in *. apply NoDup_cons in Hnd as [Hni Hnd].
  destruct j as [|j]; simpl in Hj.
  - injection Hj as ->. case_bool_decide; by case_decide.
  - case_bool_decide as Hd; simpl; [|by apply IH]. case_decide as Hd'; [|done].
    exfalso. apply Hni. rw -Hd Hd'. apply list_elem_of_fmap.
    exists s. split; [done|]. by eapply list_elem_of_lookup_2.
Qed.

Lemma assign_path_names type path sensors :
  (fun s => (ts_name s, ts_type s)) <$> assign_path type path sensors =
    (fun s => (ts_name s, ts_type s)) <$> sensors.
Proof.
  induction sensors as [|s sensors IH]; [done|]. simpl. case_bool_decide; simpl; [done|].
  f_equal. apply IH.
Qed.

Lemma find_names names sensors :
  (fun s => (ts_name s, ts_type s)) <$> foldl (scan_zone files) sensors names =
    (fun s => (ts_name s, ts_type s)) <$> sensors.
Proof.
  revert sensors. induction names as [|d names IH]; intros sensors; [done|]. simpl.
  rw IH scan_zone_spec. destruct (zone_type files d); [apply assign_path_names|done].
Qed.

Lemma initial_sensors_nodup l :
  (fun s => (ts_name s, ts_type s)) <$> l =
    (fun s => (ts_name s, ts_type s)) <$> initial_sensors -> NoDup (ts_name <$> l).
Proof.
  intros Heq. assert (ts_name <$> l = ts_name <$> initial_sensors) as ->.
  { apply (f_equal (fmap fst)) in Heq. by rw -!list_fmap_compose in Heq. }
  apply (bool_decide_unpack _). by vm_compute.
Qed.

Lemma find_paths names s :
  s ∈ foldl (scan_zone files) initial_sensors names -> path_found files names s.
Proof.
  revert s. induction names as [|d names IH] using rev_ind; intros s Hs.
  { left. split; [|by intros d Hd%elem_of_nil].
    repeat (apply elem_of_cons in Hs as [->|Hs]; [done|]). by apply elem_of_nil in Hs. }
  rw foldl_app /= scan_zone_spec in Hs.
  set (sensors := foldl _ _ names) in *.
  assert (zone_type files d <> Some (ts_name s) -> s ∈ sensors ->
          path_found files (names ++ [d]) s) as Hold.
  { intros Hne Hin. destruct (IH s Hin) as [[Hp Hno]|(front & d0 & back & -> & Ht & Hp & Hb)].
    - left. split; [done|]. intros d' [?| ->%list_elem_of_singleton]%elem_of_app; [by apply Hno|done].
    - right. exists front, d0, (back ++ [d]). split_and!; [by rw -app_assoc|done|done|].
      intros d' [?| ->%list_elem_of_singleton]%elem_of_app; [by apply Hb|done]. }
  destruct (zone_type files d) as [type|] eqn:Hz; [|by apply Hold].
  apply list_elem_of_lookup in Hs as [j Hj].
  assert (NoDup (ts_name <$> sensors)) as Hnd by (apply initial_sensors_nodup, find_names).
  destruct (sensors !! j) as [s0|] eqn:Hs0.
  - rw (assign_path_lookup _ _ _ _ _ Hnd Hs0) in Hj. injection Hj as <-.
    case_decide as Hd; simpl in *.
    + right. exists names, d, []. split_and!; [done|simpl; by rw Hz Hd|done|].
      by intros ? ?%elem_of_nil.
    + apply Hold; [congruence|]. by eapply list_elem_of_lookup_2.
  - exfalso. apply lookup_lt_Some in Hj. apply lookup_ge_None in Hs0.
    pose proof (f_equal length (assign_path_names type (temp_path d) sensors)) as Hl.
    rw !length_fmap in Hl. lia.
Qed.
End Zones.

Section Temperatures.
Context `{ThermalHeader} {F : Type}.
Variable files : list Z -> file_content.
Variable scan_float : list Z -> option F.

Lemma write_temperatures_spec i sensors (out : list (temperature_t F)) :
  (i + length sensors <= length out)%nat ->
  exists out', write_temperatures files scan_float i sensors out = Some out' /\
  length out' = length out /\
  forall j, out' !! j =
    if decide (i <= j < i + length sensors)%nat
    then (fun s => mkTemp (ts_type s) (ts_name s) (read_temperature files scan_float s)
                     None None None) <$> sensors !! (j - i)%nat
    else out !! j.
Proof.
  revert i out. induction sensors as [|s sensors IH]; intros i out Hlen; simpl in *.
  { exists out. split_and!; [done|done|]. intros j. destruct (decide _); [lia|done]. }
  rw arr_set_eq; [|lia]. simpl. rw Nat2Z.id.
  destruct (IH (S i) (<[i := mkTemp (ts_type s) (ts_name s)
    (read_temperature files scan_float s) None None None]> out)) as (out' & -> & Hl & Hj).
  { rw length_insert. lia. }
  exists out'. rw length_insert in Hl. split_and!; [done|done|]. intros j. rw Hj.
  destruct (decide (S i <= j < S i + length sensors)%nat),
    (decide (i <= j < i + S (length sensors))%nat); try lia.
  - replace (j - i)%nat with (S (j - S i)) by lia. done.
  - assert (j = i) as -> by lia. rw list_lookup_insert_eq; [|lia]. by rw Nat.sub_diag.
  - rw list_lookup_insert_ne; [done|lia].
Qed.

(** C35: the temperature list.  [get_temperatures] always reports three
    sensors, the two clusters and the GPU; it writes as many entries as the
    caller's array and the sensors allow and leaves the rest of the array
    alone; each sensor reads the last zone whose type file holds its name, and
    is unknown when there is none; later calls use the zones the first found. *)
Theorem get_temperatures_spec zones (out : list (temperature_t F)) size :
  (size <= length out)%nat ->
  exists out' sensors,
  get_temperatures files scan_float zones None (Some out) size = Some (3, Some out', sensors) /\
  get_temperatures files scan_float zones None None size = Some (3, None, sensors) /\
  (forall zones', get_temperatures files scan_float zones' (Some sensors) (Some out) size =
     Some (3, Some out', sensors)) /\
  ts_name <$> sensors = text_of <$> ["cluster0"; "cluster1"; "gpu"]%string /\
  (forall s, s ∈ sensors -> path_found files (default [] zones) s) /\
  length out' = length out /\
  (forall j, (size `min` 3 <= j)%nat -> out' !! j = out !! j) /\
  (forall j s, (j < size `min` 3)%nat -> sensors !! j = Some s ->
     out' !! j = Some (mkTemp (ts_type s) (ts_name s) (read_temperature files scan_float s)
                         None None None)).
Proof.
  intros Hsize. set (sensors := find_temperature_sensors files zones initial_sensors).
  assert ((fun s => (ts_name s, ts_type s)) <$> sensors =
          (fun s => (ts_name s, ts_type s)) <$> initial_sensors) as Hnames.
  { unfold sensors. destruct zones; [apply find_names|done]. }
  assert (length sensors = 3%nat) as Hlen.
  { apply (f_equal length) in Hnames. by rw !length_fmap in Hnames. }
  assert ((if (size <? length sensors)%nat then size else length sensors) = (size `min` 3)%nat) as Hn.
  { rw Hlen. destruct (Nat.ltb_spec size 3); lia. }
  destruct (write_temperatures_spec 0 (take (size `min` 3) sensors) out) as (out' & Hw & Hl & Hj).
  { rw length_take. lia. }
  exists out', sensors. unfold get_temperatures. fold sensors. rw Hn Hw /= Hlen.
  split_and!; [done..| | |done| |].
  - apply (f_equal (fmap fst)) in Hnames. by rw -!list_fmap_compose in Hnames.
  - intros s Hs. unfold sensors in Hs. destruct zones as [names|]; [by apply find_paths|].
    simpl in *. left. split; [|by intros ? ?%elem_of_nil].
    repeat (apply elem_of_cons in Hs as [->|Hs]; [done|]). by apply elem_of_nil in Hs.
  - intros j Hge. rw Hj. rw length_take Hlen. destruct (decide _); [lia|done].
  - intros j s Hlt Hs. rw Hj length_take Hlen. destruct (decide _); [|lia].
    rw Nat.sub_0_r lookup_take_lt; [|done]. by rw Hs.
Qed.
End Temperatures.

(** ** CPU usage *)

Lemma c_str_plain l : 0 ∉ l -> c_str l = l.
Proof.
  induction l as [|c l IH]; intros Hn; [done|]. apply not_elem_of_cons in Hn as [Hc Hn].
  simpl. destruct (Z.eqb_spec c 0); [by subst|]. by rw IH.
Qed.

Lemma print_dec_plain n c : 0 <= n <= ULLONG_MAX -> c ∈ print_dec n -> isdigit c = true.
Proof.
  intros Hn Hc. unfold print_dec in Hc. destruct (print_digits_spec 20 n []) as (ds & Heq & _ & Hds & _).
  { split; [lia|]. unfold ULLONG_MAX in Hn. change (10 ^ Z.of_nat 21) with (10 ^ 21). lia. }
  rw Heq app_nil_r in Hc. rw Forall_forall in Hds. by apply Hds.
Qed.

Lemma number_text_chars numbers c :
  Forall (fun v => 0 <= v <= ULLONG_MAX) numbers -> c ∈ number_text numbers ->
  c = 32 \/ isdigit c = true.
Proof.
  intros Hn Hc. unfold number_text in Hc. apply list_elem_of_bind in Hc as (v & Hc & Hv).
  rw Forall_forall in Hn. apply elem_of_cons in Hc as [->|Hc]; [by left|right].
  by eapply print_dec_plain; [apply Hn|].
Qed.

Lemma scan_numbers_print numbers rest :
  Forall (fun v => 0 <= v <= ULLONG_MAX) numbers ->
  match rest with c :: _ => isdigit c = false | [] => True end ->
  scan_numbers (length numbers) (number_text numbers ++ rest) = Some numbers.
Proof.
  intros Hn Hr. induction Hn as [|v numbers Hv Hn IH]; [done|].
  change (number_text (v :: numbers)) with ((32 :: print_dec v) ++ number_text numbers).
  cbn [length scan_numbers]. rw -app_assoc -app_comm_cons scan_print_space; [|done|].
  - cbn [mbind option_bind]. by rw IH.
  - destruct numbers; [done|]. reflexivity.
Qed.

Section Lines.
Context `{LongWidth}.

(** The loop reads a printed line as its numbers. *)
Lemma stat_line_print ticks cpu numbers extra :
  item_ok (CpuLine cpu numbers extra) ->
  stat_line ticks (item_text (CpuLine cpu numbers extra) ++ [10]) =
    Some (Z.of_nat cpu, (usage_of ticks numbers).1, (usage_of ticks numbers).2).
Proof.
  intros (_ & Hcpu & Hlen & Hn & [Hnl Hz] & Hex). unfold stat_line.
  assert (0 ∉ item_text (CpuLine cpu numbers extra) ++ [10]) as Hno.
  { simpl. intros Hc.
    repeat (apply elem_of_cons in Hc as [Hc|Hc]; [done|]).
    rw !elem_of_app in Hc. destruct Hc as [[Hc|[Hc|Hc]]|Hc]; [| |done|].
    - apply print_dec_plain in Hc; [done|]. unfold CPU_COUNT, ULLONG_MAX in *. lia.
    - by destruct (number_text_chars numbers 0 Hn Hc).
    - by apply list_elem_of_singleton in Hc. }
  rw (c_str_plain _ Hno). unfold item_text.
  destruct numbers as [|v0 numbers]; [done|].
  pose proof (scan_numbers_print (v0 :: numbers) (extra ++ [10]) Hn) as Hs.
  specialize (Hs ltac:(by destruct extra)).
  change (number_text (v0 :: numbers)) with
    (32 :: print_dec v0 ++ number_text numbers) in Hs |- *.
  set (rest := (32 :: print_dec v0 ++ number_text numbers) ++ extra ++ [10]) in *.
  assert (scan_word 15 (text_of "cpu" ++ print_dec (Z.of_nat cpu) ++ rest) =
          Some (text_of "cpu" ++ print_dec (Z.of_nat cpu), rest) /\
          has_prefix (text_of "cpu") (text_of "cpu" ++ print_dec (Z.of_nat cpu)) = true /\
          (str_at (text_of "cpu" ++ print_dec (Z.of_nat cpu)) 3 =? 0) = false)
    as (Hw & Hp & Hz').
  { unfold CPU_COUNT in Hcpu. do 8 (destruct cpu as [|cpu]; [by split_and!|]). lia. }
  assert (strtoul (drop 3 (text_of "cpu" ++ print_dec (Z.of_nat cpu))) = (Z.of_nat cpu, [])) as Hc.
  { unfold CPU_COUNT in Hcpu. unfold strtoul.
    destruct long_width as [Hb|Hb]; rw Hb;
      (do 8 (destruct cpu as [|cpu]; [by vm_compute|])); lia. }
  assert ((text_of "cpu" ++ print_dec (Z.of_nat cpu) ++
             (32 :: print_dec v0 ++ number_text numbers) ++ extra) ++ [10] =
          text_of "cpu" ++ print_dec (Z.of_nat cpu) ++ rest) as ->.
  { unfold rest. by rw -!app_assoc. }
  rw Hw. cbn [mbind option_bind]. change 8%nat with (S 7). rw -Hlen Hs.
  cbn [mbind option_bind].
  do 7 (destruct numbers as [|? numbers]; [done|]). destruct numbers; [|done].
  rw Hp Hz' Hc. cbn [negb orb str_at default lookup list_lookup].
  destruct (Z.leb_spec (Z.of_nat CPU_COUNT) (Z.of_nat cpu)); [lia|done].
Qed.

(** A name that is no CPU's is skipped, whatever the numbers. *)
Lemma stat_line_name ticks line name rest :
  scan_word 15 (c_str line) = Some (name, rest) ->
  (has_prefix (text_of "cpu") name = false \/ str_at name 3 = 0 \/
   str_at (strtoul (drop 3 name)).2 0 <> 0 \/ Z.of_nat CPU_COUNT <= (strtoul (drop 3 name)).1) ->
  stat_line ticks line = None.
Proof.
  intros Hw Hname. unfold stat_line. rw Hw. cbn [mbind option_bind].
  destruct (scan_numbers 8 rest) as [numbers|]; [|done]. cbn [mbind option_bind].
  do 8 (destruct numbers as [|? numbers]; [done|]). destruct numbers; [|done].
  destruct (has_prefix _ name); [|done]. destruct (Z.eqb_spec (str_at name 3) 0); [done|]. simpl.
  destruct (strtoul (drop 3 name)) as [cpu e]. simpl in *.
  destruct (Z.eqb_spec (str_at e 0) 0); [|done]. simpl.
  destruct (Z.leb_spec (Z.of_nat CPU_COUNT) cpu); [done|].
  destruct Hname as [?|[?|[?|?]]]; [done|done|done|lia].
Qed.

Lemma stat_line_word ticks line :
  0 ∉ line -> take 3 (skip_spaces line) <> text_of "cpu" -> stat_line ticks line = None.
Proof.
  intros Hz Hne. destruct (scan_word 15 (c_str line)) as [[name rest]|] eqn:Hw.
  2: { unfold stat_line. by rw Hw. }
  apply (stat_line_name ticks line name rest Hw). left. unfold has_prefix. apply bool_decide_eq_false.
  intros Hp. apply Hne. rw c_str_plain in Hw; [|done]. rw (scan_word_text _ _ _ _ Hw).
  change (length (text_of "cpu")) with 3%nat in Hp. rw take_app_le; [exact Hp|].
  apply (f_equal length) in Hp. rw length_take in Hp. change (length (text_of "cpu")) with 3%nat in Hp.
  lia.
Qed.

Lemma scan_numbers_short n numbers rest :
  (length numbers < n)%nat -> Forall (fun v => 0 <= v <= ULLONG_MAX) numbers ->
  starts_number (skip_spaces rest) = false ->
  scan_numbers n (number_text numbers ++ rest) = None.
Proof.
  intros Hlen Hn Hr. assert (match rest with c :: _ => isdigit c = false | [] => True end) as Hd.
  { destruct rest as [|c rest]; [done|]. simpl in Hr. destruct (isspace c) eqn:Hsp.
    - unfold isspace, isdigit in *. lia.
    - unfold starts_number in Hr. apply orb_false_iff in Hr as [[? _]%orb_false_iff _]. done. }
  revert n Hlen. induction Hn as [|v numbers Hv Hn IH]; intros [|n] Hlen; simpl in Hlen; try lia.
  - simpl. unfold scan_unsigned. by rw scan_magnitude_none.
  - change (number_text (v :: numbers)) with ((32 :: print_dec v) ++ number_text numbers).
    cbn [scan_numbers]. rw -app_assoc -app_comm_cons scan_print_space; [|done|by destruct numbers].
    cbn [mbind option_bind]. rw IH; [done|lia].
Qed.

Lemma at_end_newline rest : at_end rest -> at_end (rest ++ [10]).
Proof. by destruct rest. Qed.

Lemma skip_spaces_take3 text :
  take 3 (skip_spaces (text ++ [10])) = text_of "cpu" -> take 3 (skip_spaces text) = text_of "cpu".
Proof.
  rw skip_spaces_newline. destruct (skip_spaces text) as [|a [|b [|c l]]]; by simpl.
Qed.

(** A word that starts with "cpu" is read whole. *)
Lemma scan_cpu_word t rest :
  word t -> (length t <= 12)%nat -> at_end rest ->
  scan_word 15 ((text_of "cpu" ++ t) ++ rest) = Some (text_of "cpu" ++ t, rest).
Proof.
  intros Ht Hlen Hr. apply scan_word_whole; [done| |simpl; lia|done].
  apply Forall_app. split; [by repeat constructor|done].
Qed.

Lemma digits_word ds : digits ds -> word ds.
Proof. intros Hds. eapply Forall_impl; [exact Hds|]. intros c Hc. simpl in *. unfold isdigit, isspace in *. lia. Qed.

Lemma long_max : 2 ^ 32 <= 2 ^ long_bits.
Proof. destruct long_width as [-> | ->]; done. Qed.

(** The lines that are not a CPU's are skipped. *)
Lemma stat_line_other ticks text :
  other_line text -> 0 ∉ text -> stat_line ticks (text ++ [10]) = None.
Proof.
  intros Hot Hz.
  assert (0 ∉ text ++ [10]) as Hz1 by (rw not_elem_of_app; split; [done|set_solver]).
  destruct Hot as [text Hw|rest Hr|ds rest Hds Hlen Hv Hr|ds c t rest Hds Hw Hc Hc0 Hsg Hlen Hr
    |w numbers rest Hne Hw Hlen Hn Hnum Hr Hstart].
  - apply stat_line_word; [done|]. by intros Ht%skip_spaces_take3.
  - apply (stat_line_name _ _ (text_of "cpu") (rest ++ [10])).
    + rw (c_str_plain _ Hz1) -app_assoc.
      apply (scan_cpu_word [] (rest ++ [10])); [constructor|simpl; lia|by apply at_end_newline].
    + right; left. done.
  - apply (stat_line_name _ _ (text_of "cpu" ++ ds) (rest ++ [10])).
    + rw (c_str_plain _ Hz1) -!app_assoc app_assoc.
      apply scan_cpu_word; [by apply digits_word|done|by apply at_end_newline].
    + do 3 right. change (drop 3 (text_of "cpu" ++ ds)) with ds.
      destruct ds as [|d ds]; [unfold CPU_COUNT in Hv; done|].
      pose proof (strtoul_digits (d :: ds) []) as Hs. rw app_nil_r in Hs. rw Hs; [|done..]. cbn [fst].
      pose proof long_max as Hmax. change (2 ^ 32) with 4294967296 in Hmax. unfold CPU_COUNT in *. lia.
  - apply (stat_line_name _ _ (text_of "cpu" ++ ds ++ c :: t) (rest ++ [10])).
    + rw (c_str_plain _ Hz1) -app_assoc -(app_assoc (ds ++ c :: t)) (app_assoc (text_of "cpu")).
      apply scan_cpu_word; [|done|by apply at_end_newline].
      apply Forall_app. split; [by apply digits_word|done].
    + do 2 right; left. change (drop 3 (text_of "cpu" ++ ds ++ c :: t)) with (ds ++ c :: t).
      destruct ds as [|d ds].
      * rw strtoul_none; [done|]. simpl. apply Forall_cons in Hw as [Hsp _]. rw Hsp. by apply Hsg.
      * by rw (strtoul_digits (d :: ds) (c :: t)).
  - unfold stat_line. rw (c_str_plain _ Hz1) -!app_assoc.
    rw (scan_word_whole 15 w); [|done..|].
    + cbn [mbind option_bind]. rw scan_numbers_short; [done|lia|done|].
      rw skip_spaces_newline. by destruct (skip_spaces rest).
    + destruct numbers; [|done]. by apply at_end_newline, Hr.
Qed.

Lemma item_text_plain it : item_ok it -> 10 ∉ item_text it.
Proof.
  destruct it as [cpu numbers extra|text|text]; [|by intros (_ & [? _] & _)|by intros [[? _] _]].
  intros (_ & Hcpu & _ & Hn & [Hnl _] & _). simpl. intros Hc.
  repeat (apply elem_of_cons in Hc as [Hc|Hc]; [done|]).
  rw !elem_of_app in Hc. destruct Hc as [Hc|[Hc|Hc]]; [| |done].
  - apply print_dec_plain in Hc; [done|]. unfold CPU_COUNT, ULLONG_MAX in *. lia.
  - by destruct (number_text_chars numbers 10 Hn Hc).
Qed.

(** One turn of the loop over a line that fits the buffer. *)
Lemma stat_loop_line fuel ticks text rest out :
  10 ∉ text -> (length text < 511)%nat ->
  stat_loop (S fuel) ticks ((text ++ [10]) ++ rest) out =
    (out' ← apply_stat_line ticks (text ++ [10]) out; stat_loop fuel ticks rest out').
Proof.
  intros Hnl Hlen. rw -app_assoc. cbn [stat_loop]. unfold fgets.
  destruct (text ++ [10] ++ rest) as [|c bytes] eqn:Heq.
  { by destruct text. }
  rw -Heq. change ([10] ++ rest) with (10 :: rest).
  rw (fgets_line (512 - 1) text rest); [done|lia|done].
Qed.

(** A line without a c, in as many turns as it takes. *)
Lemma stat_loop_long (ticks : Z) (text rest : list Z) fuel out :
  plain text -> 99 ∉ text -> (length ((text ++ [10%Z]) ++ rest) <= fuel)%nat ->
  exists fuel', (length rest <= fuel')%nat /\
    stat_loop fuel ticks ((text ++ [10]) ++ rest) out = stat_loop fuel' ticks rest out.
Proof.
  remember (length text) as n eqn:Hn. revert text fuel Hn.
  induction (lt_wf n) as [n _ IH]. intros text fuel Hn [Hnl Hz] Hc Hfuel.
  assert (forall part, (forall x, x ∈ part -> x ∈ text ++ [10]) -> stat_line ticks part = None) as Hskip.
  { intros part Hin. apply stat_line_word.
    - intros H0%Hin. set_solver.
    - intros Hp. assert (99 ∈ skip_spaces part) as H99%skip_spaces_in%Hin.
      { rw -(take_drop 3 (skip_spaces part)) Hp. vm_compute. left. }
      set_solver. }
  destruct fuel as [|fuel]; [rw !length_app in Hfuel; simpl in Hfuel; lia|].
  destruct (Nat.lt_ge_cases (length text) 511) as [Hlt|Hge].
  - exists fuel. rw (stat_loop_line fuel ticks text rest out Hnl Hlt). unfold apply_stat_line.
    rw Hskip; [|done]. split; [|done]. rw !length_app in Hfuel. simpl in Hfuel. lia.
  - assert (forall x, x ∈ drop 511 text \/ x ∈ take 511 text -> x ∈ text) as Hin.
    { intros x Hx. rw -(take_drop 511 text) elem_of_app. tauto. }
    destruct (IH (length (drop 511 text))) with (text := drop 511 text) (fuel := fuel)
      as (fuel' & Hf' & Hrun).
    + rw length_drop. lia.
    + done.
    + split; intros Hd; [apply Hnl|apply Hz]; apply Hin; by left.
    + intros Hd. apply Hc, Hin. by left.
    + rw !length_app length_drop in Hfuel |- *. simpl in *. lia.
    + exists fuel'. split; [done|]. rw -Hrun -!app_assoc. cbn [stat_loop]. unfold fgets.
      destruct (text ++ [10] ++ rest) as [|c bytes] eqn:Heq; [by destruct text|]. rw -Heq.
      rw (fgets_part (512 - 1) text); [|done..]. unfold apply_stat_line. rw Hskip; [done|].
      intros x Hx. apply elem_of_app. left. apply Hin. by right.
Qed.

Definition stat_text (items : list stat_item) : list Z :=
  items ≫= (fun it => item_text it ++ [10]).

(** The loop over the whole file. *)
Lemma stat_loop_spec fuel ticks items out :
  Forall item_ok items -> (CPU_COUNT <= length out)%nat -> (length (stat_text items) <= fuel)%nat ->
  exists out', stat_loop fuel ticks (stat_text items) out = Some out' /\
  length out' = length out /\
  (forall k u, (k < CPU_COUNT)%nat -> out !! k = Some u ->
     out' !! k = Some (final_usage ticks items k u)) /\
  (forall k, (CPU_COUNT <= k)%nat -> out' !! k = out !! k).
Proof.
  intros Hit Hout. revert fuel out Hout. induction Hit as [|it items Hi Hit IH];
    intros fuel out Hout Hf.
  { exists out. by destruct fuel. }
  change (stat_text (it :: items)) with ((item_text it ++ [10]) ++ stat_text items) in Hf |- *.
  pose proof (item_text_plain it Hi) as Hnl.
  destruct it as [cpu numbers extra|text|text].
  3: { destruct Hi as [Hpl Hc]. destruct (stat_loop_long ticks text (stat_text items) fuel out Hpl Hc Hf)
         as (fuel' & Hf' & Hrun). cbn [item_text]. rw Hrun. by apply IH. }
  all: destruct fuel as [|fuel]; [rw !length_app in Hf; simpl in Hf; lia|].
  all: assert (length (stat_text items) <= fuel)%nat as Hf' by (rw !length_app in Hf; simpl in Hf; lia).
  all: rw (stat_loop_line fuel ticks _ _ _ Hnl (proj1 Hi)); unfold apply_stat_line.
  - rw (stat_line_print ticks cpu numbers extra Hi). destruct Hi as (_ & Hcpu & _).
    destruct (lookup_lt_is_Some_2 out cpu) as [u0 Hu0]; [lia|].
    assert (arr_get out (Z.of_nat cpu) = Some u0) as ->.
    { apply arr_get_Some. rw Nat2Z.id. split; [lia|done]. }
    cbn [mbind option_bind]. rw arr_set_eq; [|lia]. cbn [mbind option_bind]. rw Nat2Z.id.
    set (u1 := set_usage u0 (usage_of ticks numbers).1 (usage_of ticks numbers).2).
    destruct (IH fuel (<[cpu := u1]> out)) as (out' & -> & Hl & Hk & Hge);
      [rw length_insert; lia|lia|].
    exists out'. rw length_insert in Hl. split_and!; [done|done| |].
    + intros k u Hkc Hu. unfold final_usage. cbn [foldl].
      destruct (decide (cpu = k)) as [->|Hne].
      * simplify_eq. apply Hk; [done|]. apply list_lookup_insert_eq. lia.
      * apply Hk; [done|]. by rw list_lookup_insert_ne.
    + intros k Hkc. rw Hge; [|done]. rw list_lookup_insert_ne; [done|lia].
  - destruct Hi as (_ & [_ Hz] & Hot). cbn [item_text]. rw (stat_line_other ticks text Hot Hz).
    cbn [mbind option_bind]. by apply IH.
Qed.
End Lines.

Section Usages.
Context `{LongWidth}.
Variable files : list Z -> file_content.

Lemma init_usages_spec cpus out :
  NoDup cpus -> (forall k, k ∈ cpus -> (k < length out)%nat) ->
  exists out', init_usages files cpus out = Some out' /\ length out' = length out /\
  (forall k, k ∈ cpus ->
     out' !! k = Some (mkUsage (default [] (cpu_names !! k)) 0 0 (cpu_online files k))) /\
  (forall k, k ∉ cpus -> out' !! k = out !! k).
Proof.
  intros Hnd. revert out. induction Hnd as [|cpu cpus Hni Hnd IH]; intros out Hlt; simpl.
  { exists out. split_and!; [done|done| |done]. by intros k ?%elem_of_nil. }
  pose proof (Hlt cpu ltac:(by left)). rw arr_set_eq; [|lia]. simpl. rw Nat2Z.id.
  destruct (IH (<[cpu := mkUsage (default [] (cpu_names !! cpu)) 0 0 (cpu_online files cpu)]> out))
    as (out' & -> & Hl & Hin & Hout).
  { intros k Hk. rw length_insert. apply Hlt. by right. }
  exists out'. rw length_insert in Hl. split_and!; [done|done| |].
  - intros k [->|Hk]%elem_of_cons; [|by apply Hin].
    rw Hout; [|done]. by apply list_lookup_insert_eq.
  - intros k Hk. apply not_elem_of_cons in Hk as [? ?].
    rw Hout; [|done]. by rw list_lookup_insert_ne.
Qed.

End Usages.

(** ** Witnesses *)

#[local] Instance aosp_thermal_h : ThermalHeader := {
  DEVICE_TEMPERATURE_CPU := 0;
  DEVICE_TEMPERATURE_GPU := 1;
}.

(** Two zones of the GPU, and nothing else. *)
Definition sample_files (path : list Z) : file_content :=
  if bool_decide (path = text_of "/sys/devices/virtual/thermal/thermal_zone0/type" \/
                  path = text_of "/sys/devices/virtual/thermal/thermal_zone1/type")
  then Content (text_of "gpu" ++ [10])
  else if bool_decide (path = text_of "/sys/devices/virtual/thermal/thermal_zone1/temp")
  then Content (text_of "47" ++ [10])
  else OpenError ENOENT.

Definition sample_temp : temperature_t Z := mkTemp 9 [] None None None None.

Lemma get_temperatures_spec_witness :
  exists out' sensors,
  get_temperatures sample_files (fun bytes => fst <$> scan_int bytes)
    (Some (text_of <$> ["."; "thermal_zone0"; "thermal_zone1"]%string)) None
    (Some (replicate 3 sample_temp)) 3 = Some (3, Some out', sensors) /\
  length out' = 3%nat.
Proof.
  destruct (get_temperatures_spec sample_files (fun bytes => fst <$> scan_int bytes)
    (Some (text_of <$> ["."; "thermal_zone0"; "thermal_zone1"]%string))
    (replicate 3 sample_temp) 3) as (out' & sensors & Hget & _ & _ & _ & _ & Hlen & _).
  - simpl. lia.
  - exists out', sensors. split; [exact Hget|exact Hlen].
Defined.

#[local] Instance long_32 : LongWidth := {| long_bits := 32; long_width := or_introl eq_refl |}.

Definition sample_stat : list stat_item :=
  [OtherLine (text_of "cpu  12 0 3 40 5 0 1 0 0 0");
   CpuLine 0 [12; 0; 3; 40; 5; 0; 1; 0] (text_of " 0 0");
   CpuLine 5 [100; 0; 0; 0; 0; 0; 0; 0] [];
   OtherLine (text_of "cpu8 1 2 3 4 5 6 7 8 9 10");
   OtherLine (text_of "cpux 1 2 3 4 5 6 7 8 9 10");
   OtherLine (text_of "cpu1 1 2 3");
   LongLine (text_of "intr" ++ mjoin (replicate 300 (text_of " 0")));
   OtherLine (text_of "ctxt 12345")].

Definition stat_files (path : list Z) : file_content :=
  if bool_decide (path = PROC_STAT_PATH) then Content (stat_text sample_stat) else OpenError ENOENT.

