(* ===== verification/Health.v ===== *)
(** * The health service's unit conversion

    Model of health/HealthService.cpp: [scaleToMicro], its two overloads, and
    the two hooks of healthd that call them.  The driver reports mA and mAh;
    Android expects uA and uAh.

    The numbers of the battery properties come from a header that is not part
    of the repository: class [BatteryHeader]. *)
From S2P Require Import Prelude.

Definition kMilliToMicro : Z := 1000.

Definition scaleToMicro_int (value : Z) : Z :=
  if (Z.quot INT_MAX kMilliToMicro <? value) || (value <? Z.quot INT_MIN kMilliToMicro)
  then value
  else i32 (value * kMilliToMicro).

Definition scaleToMicro_int64 (value : Z) : Z :=
  if (Z.quot INT64_MAX kMilliToMicro <? value) || (value <? Z.quot INT64_MIN kMilliToMicro)
  then value
  else i64 (value * kMilliToMicro).

(** The fields of [android::BatteryProperties] the hooks touch, and the rest. *)
Record BatteryProperties := mkProps {
  batteryCurrent : Z;
  batteryFullCharge : Z;
  batteryChargeCounter : Z;
  battery_rest : list Z;
}.

(** The result is the return value, the properties and the flag [logged]. *)
Definition healthd_board_battery_update (props : BatteryProperties) (logged : bool) :
    Z * BatteryProperties * bool :=
  let props := {| batteryCurrent := scaleToMicro_int (batteryCurrent props);
                  batteryFullCharge := batteryFullCharge props;
                  batteryChargeCounter := batteryChargeCounter props;
                  battery_rest := battery_rest props |} in
  let props := {| batteryCurrent := batteryCurrent props;
                  batteryFullCharge := scaleToMicro_int (batteryFullCharge props);
                  batteryChargeCounter := batteryChargeCounter props;
                  battery_rest := battery_rest props |} in
  let props := {| batteryCurrent := batteryCurrent props;
                  batteryFullCharge := batteryFullCharge props;
                  batteryChargeCounter := scaleToMicro_int (batteryChargeCounter props);
                  battery_rest := battery_rest props |} in
  let logged := if negb logged then true else logged in
  (0, props, logged).

(** [struct healthd_config]: the path set here, and the rest. *)
Record healthd_config := mkConfig {
  batteryChargeCounterPath : string;
  config_rest : list string;
}.

Definition kChargeNowPath : string := "/sys/class/power_supply/Battery/charge_now".

Definition healthd_board_init (config : healthd_config) : healthd_config :=
  {| batteryChargeCounterPath := kChargeNowPath; config_rest := config_rest config |}.

(** [main] is the main function of the health library. *)
Definition main {W} (health_service_main : W -> Z * W) (w : W) : Z * W := health_service_main w.

Class BatteryHeader := {
  BATTERY_PROP_CHARGE_COUNTER : Z;
  BATTERY_PROP_CURRENT_NOW : Z;
  BATTERY_PROP_CURRENT_AVG : Z;
}.

Definition healthd_board_battery_property_update `{BatteryHeader} (id value : Z) : Z :=
  if (id =? BATTERY_PROP_CHARGE_COUNTER) || (id =? BATTERY_PROP_CURRENT_NOW) ||
     (id =? BATTERY_PROP_CURRENT_AVG)
  then scaleToMicro_int64 value
  else value.

(** ** Specification *)

(** A thousand times the value when that is in the range of the type, the
    value itself when it is not. *)
Definition in_micro (lo hi value : Z) : Z :=
  if decide (lo <= value * 1000 <= hi) then value * 1000 else value.

(** * Theorems *)

Lemma scaleToMicro_int_spec v : in_i32 v -> scaleToMicro_int v = in_micro INT_MIN INT_MAX v.
Proof.
  intros Hv. unfold scaleToMicro_int, in_micro, kMilliToMicro.
  change (Z.quot INT_MAX 1000) with 2147483. change (Z.quot INT_MIN 1000) with (-2147483).
  destruct (Z.ltb_spec 2147483 v), (Z.ltb_spec v (-2147483)); simpl;
    case_decide; try ilia; by rw i32_id; [|ilia].
Qed.

Lemma scaleToMicro_int64_spec v :
  in_i64 v -> scaleToMicro_int64 v = in_micro INT64_MIN INT64_MAX v.
Proof.
  intros Hv. unfold scaleToMicro_int64, in_micro, kMilliToMicro.
  change (Z.quot INT64_MAX 1000) with 9223372036854775.
  change (Z.quot INT64_MIN 1000) with (-9223372036854775).
  destruct (Z.ltb_spec 9223372036854775 v), (Z.ltb_spec v (-9223372036854775)); simpl;
    case_decide; try ilia; by rw i64_id; [|ilia].
Qed.

(** The health hooks convert units without overflow: each of the three
    [int] fields, and the value of each of the three properties, becomes
    exactly a thousand times what the driver reported whenever that fits its
    type and is otherwise left alone; nothing else changes. *)
Theorem health_units `{BatteryHeader} props logged id value :
  in_i32 (batteryCurrent props) -> in_i32 (batteryFullCharge props) ->
  in_i32 (batteryChargeCounter props) -> in_i64 value ->
  healthd_board_battery_update props logged =
    (0, mkProps (in_micro INT_MIN INT_MAX (batteryCurrent props))
          (in_micro INT_MIN INT_MAX (batteryFullCharge props))
          (in_micro INT_MIN INT_MAX (batteryChargeCounter props))
          (battery_rest props), true) /\
  (id ∈ [BATTERY_PROP_CHARGE_COUNTER; BATTERY_PROP_CURRENT_NOW; BATTERY_PROP_CURRENT_AVG] ->
   healthd_board_battery_property_update id value = in_micro INT64_MIN INT64_MAX value) /\
  (id ∉ [BATTERY_PROP_CHARGE_COUNTER; BATTERY_PROP_CURRENT_NOW; BATTERY_PROP_CURRENT_AVG] ->
   healthd_board_battery_property_update id value = value) /\
  in_i64 (healthd_board_battery_property_update id value).
Proof.
  intros H1 H2 H3 Hv. rw -scaleToMicro_int64_spec //.
  unfold healthd_board_battery_update, healthd_board_battery_property_update. simpl.
  rw !scaleToMicro_int_spec //. split; [by destruct logged|].
  assert (in_i64 (scaleToMicro_int64 value)) as Hr.
  { rw scaleToMicro_int64_spec //. unfold in_micro. case_decide; [|done]. done. }
  repeat case_match; split_and!; try done; intros Hid; set_unfold; lia.
Qed.

#[local] Instance aosp_battery_h : BatteryHeader := {
  BATTERY_PROP_CHARGE_COUNTER := 1;
  BATTERY_PROP_CURRENT_NOW := 2;
  BATTERY_PROP_CURRENT_AVG := 3;
}.

Lemma health_units_witness :
  healthd_board_battery_property_update 2 (-345) = -345000 /\
  (healthd_board_battery_update (mkProps (-345) 4800 2147484 []) false).1.2 =
    mkProps (-345000) 4800000 2147484 [].
Proof.
  destruct (health_units (mkProps (-345) 4800 2147484 []) false 2 (-345)) as (Hu & Hp & _);
    [unfold in_i32, in_i64, INT_MIN, INT_MAX, INT64_MIN, INT64_MAX; simpl; lia..|].
  split; [|rw Hu; reflexivity].
  rw Hp; [reflexivity|]. right. left.
Defined.
