(* ===== verification/DeviceProps.v ===== *)
(** * Device properties and the Bluetooth name

    Model of libinit/init_huawei_hi3635.cpp ([property_override],
    [set_ro_build_prop], [vendor_load_properties]) and of [BtmGetDefaultName]
    in bluetooth/bdroid_buildcfg.h, which reads the model property the first
    one sets.

    The property area is bionic's: class [PropertyArea], with what its calls
    promise for names and values that fit ([PropertyAreaLaws]). *)
From S2P Require Import Prelude.

(** ** The property area *)

Definition PROP_VALUE_MAX : nat := 92.

Class PropertyArea (W : Type) := {
  prop_info : Type;
  __system_property_find : string -> W -> option prop_info;
  __system_property_update : prop_info -> string -> W -> W;
  __system_property_add : string -> string -> W -> W;
  properties : W -> gmap string string;   (* what property_get reads *)
}.

Class PropertyAreaLaws (W : Type) `{PropertyArea W} : Prop := {
  find_known name w :
    is_Some (__system_property_find name w) <-> is_Some (properties w !! name);
  update_sets name pi value w :
    __system_property_find name w = Some pi -> (String.length value < PROP_VALUE_MAX)%nat ->
    properties (__system_property_update pi value w) = <[name := value]> (properties w);
  add_sets name value w :
    __system_property_find name w = None -> (0 < String.length name)%nat ->
    (String.length value < PROP_VALUE_MAX)%nat ->
    properties (__system_property_add name value w) = <[name := value]> (properties w);
}.

(** ** libinit *)

Definition kStockBuildDescription : string := "M2-user 6.0 HUAWEIM2-801W C233B217 release-keys".
Definition kStockBuildDisplayId : string := "M2-801WV100R001C233B217".
Definition kStockBuildFingerprint : string :=
  "HUAWEI/M2/HWMozart:6.0/HUAWEIM2-801W/C233B217:user/release-keys".

Definition ro_props_default_source_order : list string :=
  [""; "odm."; "product."; "system."; "system_ext."; "vendor."]%string.

(** [strstr] and [std::string::find]: does [s] contain [sub]? *)
Fixpoint contains (sub s : string) : bool :=
  String.prefix sub s || match s with EmptyString => false | String _ s' => contains sub s' end.

Section Libinit.
Context {W : Type} `{PropertyArea W}.

Definition property_override (prop value : string) (w : W) : W :=
  match __system_property_find prop w with
  | Some pi => __system_property_update pi value w
  | None => __system_property_add prop value w
  end.

Definition prop_name (product : bool) (source prop : string) : string :=
  if product then "ro.product." +:+ source +:+ prop
  else "ro." +:+ source +:+ "build." +:+ prop.

Definition set_ro_build_prop (prop value : string) (product : bool) (w : W) : W :=
  foldl (fun w source => property_override (prop_name product source prop) value w) w
    ro_props_default_source_order.

(** The chain of tests on the board name. *)
Definition model_name (model : string) : string :=
  if contains "801W" model then "HUAWEI M2-801W"
  else if contains "801L" model then "HUAWEI M2-801L"
  else if contains "802L" model then "HUAWEI M2-802L"
  else if contains "803L" model then "HUAWEI M2-803L"
  else "HUAWEI MediaPad M2 8.0".

(** [boardname] is the content of PRODUCT_NAME, if it can be read. *)
Definition vendor_load_properties (boardname : option string) (w : W) : W :=
  let w := set_ro_build_prop "brand" "HUAWEI" true w in
  let w := set_ro_build_prop "device" "HWMozart" true w in
  let w := set_ro_build_prop "manufacturer" "HUAWEI" true w in
  let w := set_ro_build_prop "name" "M2" true w in
  let w := match boardname with
    | Some model => set_ro_build_prop "model" (model_name model) true w
    | None => w end in
  let w := set_ro_build_prop "description" kStockBuildDescription false w in
  let w := set_ro_build_prop "fingerprint" kStockBuildFingerprint false w in
  let w := set_ro_build_prop "id" "HUAWEIM2-801W" false w in
  let w := set_ro_build_prop "version.incremental" "C233B217" false w in
  let w := property_override "ro.build.display.id" kStockBuildDisplayId w in
  let w := property_override "ro.bootimage.build.description" kStockBuildDescription w in
  let w := property_override "ro.bootimage.build.fingerprint" kStockBuildFingerprint w in
  let w := property_override "ro.bootimage.build.id" "HUAWEIM2-801W" w in
  property_override "ro.bootimage.build.version.incremental" "C233B217" w.

(** ** Bluetooth *)

Definition BtmGetDefaultName (w : W) : string :=
  let device := default ""%string (properties w !! "ro.product.model") in
  if contains "M2-801W" device then "M2-801W"
  else if contains "M2-801L" device then "M2-801L"
  else if contains "M2-802L" device then "M2-802L"
  else if contains "M2-803L" device then "M2-803L"
  else "MediaPad M2 8.0".
End Libinit.

(** ** Specification *)

(** The properties [set_ro_build_prop] sets. *)
Definition ro_build_entries (prop value : string) (product : bool) : list (string * string) :=
  (fun source => (prop_name product source prop, value)) <$> ro_props_default_source_order.

Definition set_all (l : list (string * string)) (m : gmap string string) : gmap string string :=
  foldl (fun m nv => <[nv.1 := nv.2]> m) m l.

(** Everything [vendor_load_properties] sets, in order. *)
Definition device_entries (boardname : option string) : list (string * string) :=
  ro_build_entries "brand" "HUAWEI" true ++ ro_build_entries "device" "HWMozart" true ++
  ro_build_entries "manufacturer" "HUAWEI" true ++ ro_build_entries "name" "M2" true ++
  match boardname with
  | Some model => ro_build_entries "model" (model_name model) true
  | None => [] end ++
  ro_build_entries "description" kStockBuildDescription false ++
  ro_build_entries "fingerprint" kStockBuildFingerprint false ++
  ro_build_entries "id" "HUAWEIM2-801W" false ++
  ro_build_entries "version.incremental" "C233B217" false ++
  [("ro.build.display.id", kStockBuildDisplayId);
   ("ro.bootimage.build.description", kStockBuildDescription);
   ("ro.bootimage.build.fingerprint", kStockBuildFingerprint);
   ("ro.bootimage.build.id", "HUAWEIM2-801W");
   ("ro.bootimage.build.version.incremental", "C233B217")]%string.

(** The Bluetooth name of each board. *)
Definition board_short_name (model : string) : string :=
  if contains "801W" model then "M2-801W"
  else if contains "801L" model then "M2-801L"
  else if contains "802L" model then "M2-802L"
  else if contains "803L" model then "M2-803L"
  else "MediaPad M2 8.0".

(** * Theorems *)

Section PropLemmas.
Context {W : Type} `{PropertyAreaLaws W}.

Definition entry_fits (nv : string * string) : Prop :=
  (0 < String.length nv.1)%nat /\ (String.length nv.2 < PROP_VALUE_MAX)%nat.

Lemma property_override_sets prop value (w : W) :
  entry_fits (prop, value) ->
  properties (property_override prop value w) = <[prop := value]> (properties w).
Proof.
  intros [? ?]. unfold property_override. destruct (__system_property_find prop w) eqn:Hf.
  - by apply update_sets.
  - by apply add_sets.
Qed.

Lemma set_all_app l1 l2 m : set_all (l1 ++ l2) m = set_all l2 (set_all l1 m).
Proof. unfold set_all. apply foldl_app. Qed.

Lemma model_name_fits model : (String.length (model_name model) < PROP_VALUE_MAX)%nat.
Proof. unfold model_name, PROP_VALUE_MAX. repeat case_match; simpl; lia. Qed.

Lemma vendor_load_properties_sets boardname (w : W) :
  properties (vendor_load_properties boardname w) =
    set_all (device_entries boardname) (properties w).
Proof.
  unfold vendor_load_properties, device_entries.
  pose proof (model_name_fits (default ""%string boardname)) as Hm.
  destruct boardname as [model|]; simpl in Hm;
    (rw !property_override_sets;
     [reflexivity|by first [split; vm_compute; lia|split; [vm_compute; lia|done]]..]).
Qed.
End PropLemmas.

(** Reading back a list of settings without repeated names. *)
Lemma set_all_lookup l m name value :
  NoDup l.*1 -> (name, value) ∈ l -> set_all l m !! name = Some value.
Proof.
  intros Hnd Hin. revert m Hnd. induction l as [|[n v] l IH] using rev_ind; intros m Hnd.
  { by apply elem_of_nil in Hin. }
  rw set_all_app. unfold set_all at 1. simpl.
  rw fmap_app in Hnd. apply NoDup_app in Hnd as (Hnd & Hdis & _).
  apply elem_of_app in Hin as [Hin|Hin].
  - rw lookup_insert_ne; [by apply IH|]. intros ->. apply (Hdis name).
    + apply list_elem_of_fmap. by exists (name, value).
    + by left.
  - apply list_elem_of_singleton in Hin. injection Hin as -> ->. by rw lookup_insert_eq.
Qed.

Lemma set_all_other l m name : name ∉ l.*1 -> set_all l m !! name = m !! name.
Proof.
  revert m. induction l as [|[n v] l IH]; intros m Hn; [done|].
  change (set_all ((n, v) :: l) m) with (set_all l (<[n := v]> m)).
  simpl in Hn. apply not_elem_of_cons in Hn as [? ?]. rw IH; [|done]. by rw lookup_insert_ne.
Qed.

Lemma device_entries_nodup boardname : NoDup (device_entries boardname).*1.
Proof.
  apply (bool_decide_unpack _).
  destruct boardname as [model|]; vm_compute; reflexivity.
Qed.

Lemma contains_model model :
  let name := model_name model in
  (if contains "M2-801W" name then "M2-801W"
   else if contains "M2-801L" name then "M2-801L"
   else if contains "M2-802L" name then "M2-802L"
   else if contains "M2-803L" name then "M2-803L"
   else "MediaPad M2 8.0")%string = board_short_name model.
Proof. unfold model_name, board_short_name. by repeat case_match. Qed.

(** C40: [vendor_load_properties] leaves every property it names with its
    value, for each of the six sources and whether or not the property was
    there before, and no other property changed; when the board name can be
    read, the name the Bluetooth stack then announces is the one of that
    board's model. *)
Theorem device_properties_set `{PropertyAreaLaws W} boardname (w : W) :
  let w' := vendor_load_properties boardname w in
  (forall name value, (name, value) ∈ device_entries boardname ->
     properties w' !! name = Some value) /\
  (forall name, name ∉ (device_entries boardname).*1 ->
     properties w' !! name = properties w !! name) /\
  (forall model, boardname = Some model ->
     properties w' !! "ro.product.model"%string = Some (model_name model) /\
     BtmGetDefaultName w' = board_short_name model) /\
  (boardname = None ->
     properties w' !! "ro.product.model"%string = properties w !! "ro.product.model"%string).
Proof.
  intros w'. unfold w', BtmGetDefaultName. rw vendor_load_properties_sets.
  pose proof (device_entries_nodup boardname) as Hnd. split_and!.
  - intros name value. by apply set_all_lookup.
  - intros name. apply set_all_other.
  - intros model ->.
    assert (set_all (device_entries (Some model)) (properties w) !! "ro.product.model"%string =
            Some (model_name model)) as Hmodel.
    { apply set_all_lookup; [done|]. unfold device_entries. do 4 (apply elem_of_app; right).
      apply elem_of_app. left. left. }
    split; [done|]. rw Hmodel. apply contains_model.
  - intros ->. apply set_all_other. apply (bool_decide_unpack _). vm_compute. reflexivity.
Qed.

(** ** A property area for the witness *)

#[local] Instance map_area : PropertyArea (gmap string string) := {
  prop_info := string;
  __system_property_find name w := match w !! name with Some _ => Some name | None => None end;
  __system_property_update pi value w := <[pi := value]> w;
  __system_property_add name value w := <[name := value]> w;
  properties w := w;
}.

#[local] Instance map_area_laws : PropertyAreaLaws (gmap string string).
Proof.
  constructor; simpl.
  - intros name w. destruct (w !! name); split; intros [? ?]; by eexists.
  - intros name pi value w Hf _. by destruct (w !! name); [injection Hf as ->|].
  - done.
Qed.

Lemma device_properties_set_witness :
  BtmGetDefaultName (vendor_load_properties (Some "HiMozart_802L"%string)
    (<["ro.product.model" := "generic"]> ∅ : gmap string string)) = "M2-802L"%string.
Proof.
  exact (proj2 (proj1 (proj2 (proj2 (device_properties_set (Some "HiMozart_802L"%string)
    (<["ro.product.model" := "generic"]> ∅ : gmap string string)))) "HiMozart_802L"%string eq_refl)).
Defined.
