(* ===== verification/CameraMetadata.v ===== *)
(** * The legacy CameraMetadata shim

    Model of libshims/gui/CameraMetadata.cpp: the object of the old ABI (a
    buffer and a lock flag), its life cycle, and [update].

    The buffers belong to libcamera_metadata: class [MetadataLib] has its
    calls, computations on the memory that have no result when they are given a
    buffer that is not allocated or data that is not readable, and
    [MetadataLaws] what its header and C's rules for memory promise.  The data
    of an update is a pointer into the same memory: it is read when the library
    is called, which is after [resizeIfNeeded] may have freed a buffer.  The
    object is 32-bit code (its [static_assert]s fix the offsets), so a [size_t]
    wraps at 2^32. *)
From S2P Require Import Prelude Status.

(** What a buffer holds: its entries (tag and data bytes), the room for them,
    its size in memory, and the vendor whose tags it has. *)
Record bview := mkView {
  b_entries : list (Z * list Z);
  b_entry_capacity : Z;
  b_data_count : Z;
  b_data_capacity : Z;
  b_size : Z;
  b_vendor : Z;
}.

(** The [n] bytes at [a] have none in common with the [s] bytes at [p]. *)
Definition apart (a n p s : Z) : Prop := n <= 0 \/ s <= 0 \/ a + n <= p \/ p + s <= a.

Class MetadataLib (W : Type) := {
  allocate_camera_metadata : Z -> Z -> stM W (option Z);
  free_camera_metadata : Z -> stM W unit;
  get_camera_metadata_entry_count : Z -> stM W Z;
  get_camera_metadata_entry_capacity : Z -> stM W Z;
  get_camera_metadata_data_count : Z -> stM W Z;
  get_camera_metadata_data_capacity : Z -> stM W Z;
  get_camera_metadata_size : Z -> stM W Z;
  append_camera_metadata : Z -> Z -> stM W Z;
  get_local_camera_metadata_tag_type : Z -> option Z -> stM W Z;
  calculate_camera_metadata_entry_data_size : Z -> Z -> Z;
  find_camera_metadata_entry : Z -> Z -> stM W (Z * nat);   (* the result and entry.index *)
  (* buffer, tag (or index), the pointer to the data, the number of elements *)
  add_camera_metadata_entry : Z -> Z -> Z -> Z -> stM W Z;
  update_camera_metadata_entry : Z -> nat -> Z -> Z -> stM W Z;
  buffers : W -> gmap Z bview;   (* the allocated buffers *)
  bytes_at : W -> Z -> Z -> option (list Z);   (* the bytes of a range, if all can be read *)
  tag_type : Z -> Z -> Z;   (* the type of a vendor's tag, negative for an unknown one *)
  no_vendor : Z;
  type_size : Z -> Z;   (* the size of an element *)
}.

Class MetadataLaws (W : Type) `{StatusCodes} `{MetadataLib W} : Prop := {
  allocate_spec e d w : exists r w', allocate_camera_metadata e d w = Some (r, w') /\
    match r with
    | None => buffers w' = buffers w /\ bytes_at w' = bytes_at w
    | Some p => buffers w !! p = None /\
        exists size, 0 <= p /\ 0 < size /\ p + size < 2 ^ 32 /\
          buffers w' = <[p := mkView [] e 0 d size no_vendor]> (buffers w) /\
          (* memory in use stays as it is, and the new buffer is outside it *)
          forall a n data, bytes_at w a n = Some data ->
            bytes_at w' a n = Some data /\ apart a n p size
    end;
  free_spec p b w : buffers w !! p = Some b ->
    exists w', free_camera_metadata p w = Some (tt, w') /\ buffers w' = delete p (buffers w) /\
    (* what was in the buffer can no longer be read, the rest stays *)
    forall a n, (apart a n p (b_size b) -> bytes_at w' a n = bytes_at w a n) /\
                (~ apart a n p (b_size b) -> bytes_at w' a n = None);
  counts_spec p b w : buffers w !! p = Some b ->
    get_camera_metadata_entry_count p w = Some (Z.of_nat (length (b_entries b)), w) /\
    get_camera_metadata_entry_capacity p w = Some (b_entry_capacity b, w) /\
    get_camera_metadata_data_count p w = Some (b_data_count b, w) /\
    get_camera_metadata_data_capacity p w = Some (b_data_capacity b, w) /\
    get_camera_metadata_size p w = Some (b_size b, w);
  type_spec p b tag w : buffers w !! p = Some b ->
    get_local_camera_metadata_tag_type tag (Some p) w = Some (tag_type (b_vendor b) tag, w);
  type_none_spec tag w :
    get_local_camera_metadata_tag_type tag None w = Some (tag_type no_vendor tag, w);
  append_spec p q b c w : p <> q -> buffers w !! p = Some b -> buffers w !! q = Some c ->
    exists r w' b', append_camera_metadata p q w = Some (r, w') /\
    buffers w' = <[p := b']> (buffers w) /\ b_size b' = b_size b /\
    (r = OK -> b_entries b' = b_entries b ++ b_entries c /\
               (b_vendor b = no_vendor -> b_vendor b' = b_vendor c)) /\
    forall a n, apart a n p (b_size b) -> bytes_at w' a n = bytes_at w a n;
  find_spec p b tag w : buffers w !! p = Some b ->
    exists r i, find_camera_metadata_entry p tag w = Some ((r, i), w) /\
    ((r = OK /\ exists data, b_entries b !! i = Some (tag, data)) \/
     (r = NAME_NOT_FOUND /\ forall data, (tag, data) ∉ b_entries b));
  (* the elements are read from memory, outside the buffer written *)
  add_spec p b tag a n data w : buffers w !! p = Some b ->
    bytes_at w a (type_size (tag_type (b_vendor b) tag) * n) = Some data ->
    apart a (type_size (tag_type (b_vendor b) tag) * n) p (b_size b) ->
    exists r w' b', add_camera_metadata_entry p tag a n w = Some (r, w') /\
    buffers w' = <[p := b']> (buffers w) /\ b_size b' = b_size b /\
    b_entries b' = if decide (r = OK) then b_entries b ++ [(tag, data)] else b_entries b;
  update_spec p b i tag old a n data w : buffers w !! p = Some b -> b_entries b !! i = Some (tag, old) ->
    bytes_at w a (type_size (tag_type (b_vendor b) tag) * n) = Some data ->
    apart a (type_size (tag_type (b_vendor b) tag) * n) p (b_size b) ->
    exists r w' b', update_camera_metadata_entry p i a n w = Some (r, w') /\
    buffers w' = <[p := b']> (buffers w) /\ b_size b' = b_size b /\
    b_entries b' = if decide (r = OK) then <[i := (tag, data)]> (b_entries b) else b_entries b;
  (* reading what cannot be read is undefined *)
  add_undefined p b tag a n w : buffers w !! p = Some b ->
    bytes_at w a (type_size (tag_type (b_vendor b) tag) * n) = None ->
    add_camera_metadata_entry p tag a n w = None;
  update_undefined p b i tag old a n w : buffers w !! p = Some b -> b_entries b !! i = Some (tag, old) ->
    bytes_at w a (type_size (tag_type (b_vendor b) tag) * n) = None ->
    update_camera_metadata_entry p i a n w = None;
}.

(** ** The object *)

Record LegacyCameraMetadata := mkMeta { buffer : option Z; locked : bool }.

Section Shim.
Context {W : Type} `{StatusCodes} `{MetadataLib W}.

Abbreviation M := (stM W).

(** Each function takes the object and returns its new value with its result. *)
Definition resizeIfNeeded (metadata : LegacyCameraMetadata) (extraEntries extraData : Z) :
    M (Z * LegacyCameraMetadata) :=
  match buffer metadata with
  | None =>
      b ← allocate_camera_metadata (u32 (extraEntries * 2)) (u32 (extraData * 2));
      mret (match b with Some _ => OK | None => NO_MEMORY end, mkMeta b (locked metadata))
  | Some p =>
      entryCount ← get_camera_metadata_entry_count p;
      entryCapacity ← get_camera_metadata_entry_capacity p;
      dataCount ← get_camera_metadata_data_count p;
      dataCapacity ← get_camera_metadata_data_capacity p;
      let newEntryCapacity :=
        if entryCapacity <? u32 (entryCount + extraEntries)
        then u32 (u32 (entryCount + extraEntries) * 2) else entryCapacity in
      let newDataCapacity :=
        if dataCapacity <? u32 (dataCount + extraData)
        then u32 (u32 (dataCount + extraData) * 2) else dataCapacity in
      if (newEntryCapacity =? entryCapacity) && (newDataCapacity =? dataCapacity)
      then mret (OK, metadata)
      else
        replacement ← allocate_camera_metadata newEntryCapacity newDataCapacity;
        match replacement with
        | None => mret (NO_MEMORY, metadata)
        | Some r =>
            result ← append_camera_metadata r p;
            if negb (result =? OK) then
              free_camera_metadata r;; mret (result, metadata)
            else
              free_camera_metadata p;;
              mret (OK, mkMeta (Some r) (locked metadata))
        end
  end.

(** The test that [data] does not point into the buffer: strictly after its
    start, before its end. *)
Definition inside_buffer (metadata : LegacyCameraMetadata) (dataAddress : Z) : M bool :=
  match buffer metadata with
  | None => mret false
  | Some p =>
      bufferSize ← get_camera_metadata_size p;
      mret ((p <? dataAddress) && (dataAddress <? u32 (p + bufferSize)))
  end.

(** [data] is the pointer the caller passed, and goes to the library as it is. *)
Definition updateImpl (metadata : LegacyCameraMetadata) (tag data dataCount : Z) :
    M (Z * LegacyCameraMetadata) :=
  if locked metadata then mret (INVALID_OPERATION, metadata)
  else
    type ← get_local_camera_metadata_tag_type tag (buffer metadata);
    if type <? 0 then mret (BAD_VALUE, metadata)
    else
      inside ← inside_buffer metadata data;
      if inside : bool then mret (INVALID_OPERATION, metadata)
      else
        '(result, metadata) ← resizeIfNeeded metadata 1
          (calculate_camera_metadata_entry_data_size type dataCount);
        if negb (result =? OK) then mret (result, metadata)
        else
          p ← defined (buffer metadata);
          '(result, index) ← find_camera_metadata_entry p tag;
          if result =? NAME_NOT_FOUND then
            result ← add_camera_metadata_entry p tag data dataCount; mret (result, metadata)
          else if result =? OK then
            result ← update_camera_metadata_entry p index data dataCount; mret (result, metadata)
          else mret (result, metadata).

Definition camera_metadata_ctor_legacy : LegacyCameraMetadata := mkMeta None false.

Definition camera_metadata_clear_legacy (metadata : LegacyCameraMetadata) :
    M LegacyCameraMetadata :=
  match buffer metadata with
  | Some p =>
      if negb (locked metadata) then
        free_camera_metadata p;; mret (mkMeta None (locked metadata))
      else mret metadata
  | None => mret metadata
  end.

Definition camera_metadata_dtor_legacy (metadata : LegacyCameraMetadata) :
    M LegacyCameraMetadata :=
  camera_metadata_clear_legacy (mkMeta (buffer metadata) false).

Definition camera_metadata_release_legacy (metadata : LegacyCameraMetadata) :
    option Z * LegacyCameraMetadata :=
  if locked metadata then (None, metadata)
  else (buffer metadata, mkMeta None (locked metadata)).

Definition camera_metadata_acquire_legacy (metadata : LegacyCameraMetadata) (b : option Z) :
    M LegacyCameraMetadata :=
  if locked metadata then mret metadata
  else
    metadata ← camera_metadata_clear_legacy metadata;
    mret (mkMeta b (locked metadata)).

Definition camera_metadata_get_and_lock_legacy (metadata : LegacyCameraMetadata) :
    option Z * LegacyCameraMetadata :=
  (buffer metadata, mkMeta (buffer metadata) true).

Definition camera_metadata_unlock_legacy (metadata : LegacyCameraMetadata) (b : option Z) :
    Z * LegacyCameraMetadata :=
  if negb (locked metadata) then (INVALID_OPERATION, metadata)
  else if negb (bool_decide (b = buffer metadata)) then (BAD_VALUE, metadata)
  else (OK, mkMeta (buffer metadata) false).

(** The index of the entry, or [None] for the empty entry. *)
Definition camera_metadata_find_legacy (metadata : LegacyCameraMetadata) (tag : Z) :
    M (option nat) :=
  match buffer metadata with
  | Some p =>
      if negb (locked metadata) then
        '(result, index) ← find_camera_metadata_entry p tag;
        mret (if result =? OK then Some index else None)
      else mret None
  | None => mret None
  end.
End Shim.

(** ** Specification *)

Section Spec.
Context {W : Type} `{StatusCodes} `{MetadataLib W}.

(** The object's buffer, if any. *)
Definition own (m : LegacyCameraMetadata) (w : W) : option bview :=
  p ← buffer m; buffers w !! p.

Definition laid_out (p : Z) (b : bview) : Prop :=
  0 <= p /\ 0 < b_size b /\ p + b_size b < 2 ^ 32.

(** The object's buffer, if any, is allocated. *)
Definition meta_ok (m : LegacyCameraMetadata) (w : W) : Prop :=
  match buffer m with
  | Some p => exists b, buffers w !! p = Some b /\ laid_out p b
  | None => True
  end.

(** The buffers that are not the object's. *)
Definition others (m : LegacyCameraMetadata) (w : W) : gmap Z bview :=
  match buffer m with Some p => delete p (buffers w) | None => buffers w end.

(** The type of a tag for the object, and the bytes an update reads. *)
Definition meta_type (m : LegacyCameraMetadata) (tag : Z) (w : W) : Z :=
  tag_type (match own m w with Some b => b_vendor b | None => no_vendor end) tag.

Definition meta_bytes (m : LegacyCameraMetadata) (tag n : Z) (w : W) : Z :=
  type_size (meta_type m tag w) * n.

(** A range that has no byte of the object's buffer. *)
Definition outside (m : LegacyCameraMetadata) (w : W) (a n : Z) : Prop :=
  match buffer m, own m w with Some p, Some b => apart a n p (b_size b) | _, _ => True end.

(** An address after the first byte of the object's buffer. *)
Definition within (m : LegacyCameraMetadata) (w : W) (a : Z) : Prop :=
  exists p b, buffer m = Some p /\ buffers w !! p = Some b /\ p < a < p + b_size b.

(** What a client owes to [update]: unless the call is refused, the data can be
    read and has no byte of the object's buffer. *)
Definition data_ok (m : LegacyCameraMetadata) (tag a n : Z) (w : W) : Prop :=
  locked m = false -> 0 <= meta_type m tag w -> ~ within m w a ->
  is_Some (bytes_at w a (meta_bytes m tag n w)) /\ outside m w a (meta_bytes m tag n w).

Definition meta_entries (m : LegacyCameraMetadata) (w : W) : list (Z * list Z) :=
  match own m w with Some b => b_entries b | None => [] end.

(** The effect of a successful update: the tag's entry gets the data, or a new
    entry is appended. *)
Definition updated (tag : Z) (data : list Z) (es es' : list (Z * list Z)) : Prop :=
  ((forall old, (tag, old) ∉ es) /\ es' = es ++ [(tag, data)]) \/
  exists i old, es !! i = Some (tag, old) /\ es' = <[i := (tag, data)]> es.

(** The end of [updateImpl]: add or update the entry. *)
Definition write_entry (p : Z) (lk : bool) (tag a n : Z) : stM W (Z * LegacyCameraMetadata) :=
  '(result, index) ← find_camera_metadata_entry p tag;
  if result =? NAME_NOT_FOUND then
    result ← add_camera_metadata_entry p tag a n; mret (result, mkMeta (Some p) lk)
  else if result =? OK then
    result ← update_camera_metadata_entry p index a n; mret (result, mkMeta (Some p) lk)
  else mret (result, mkMeta (Some p) lk).

(** A client of one object: the calls, and the buffers it holds itself.  It
    only gives away buffers it holds, and its data is its own. *)
Inductive meta_call :=
| CallUpdate (tag data dataCount : Z)
| CallClear
| CallRelease
| CallAcquire (b : option Z)
| CallLock
| CallUnlock (b : option Z)
| CallFind (tag : Z).

Definition allowed (m : LegacyCameraMetadata) (held : gset Z) (w : W) (c : meta_call) : Prop :=
  match c with
  | CallAcquire (Some p) => p ∈ held
  | CallUpdate tag data dataCount => data_ok m tag data dataCount w
  | _ => True
  end.

Definition do_call (c : meta_call) (m : LegacyCameraMetadata) (held : gset Z) :
    stM W (LegacyCameraMetadata * gset Z) :=
  match c with
  | CallUpdate tag data dataCount =>
      '(_, m') ← updateImpl m tag data dataCount; mret (m', held)
  | CallClear => m' ← camera_metadata_clear_legacy m; mret (m', held)
  | CallRelease =>
      let '(b, m') := camera_metadata_release_legacy m in
      mret (m', match b with Some p => {[p]} ∪ held | None => held end)
  | CallAcquire b =>
      m' ← camera_metadata_acquire_legacy m b;
      mret (m', match b with
        | Some p => if locked m then held else held ∖ {[p]}
        | None => held end)
  | CallLock => mret ((camera_metadata_get_and_lock_legacy m).2, held)
  | CallUnlock b => mret ((camera_metadata_unlock_legacy m b).2, held)
  | CallFind tag => _ ← camera_metadata_find_legacy m tag; mret (m, held)
  end.

(** A run of allowed calls, from a new object; between them the client may use
    the memory, the buffers apart, as it likes. *)
Inductive client_run (held0 : gset Z) (w0 : W) :
    LegacyCameraMetadata -> gset Z -> W -> Prop :=
| client_new : client_run held0 w0 camera_metadata_ctor_legacy held0 w0
| client_call m held w c m' held' w' :
    client_run held0 w0 m held w -> allowed m held w c ->
    do_call c m held w = Some ((m', held'), w') ->
    client_run held0 w0 m' held' w'
| client_memory m held w w' :
    client_run held0 w0 m held w -> buffers w' = buffers w -> client_run held0 w0 m held w'.

(** Every buffer is the object's, the client's, or one of [rest]. *)
Definition accounted (rest : gset Z) (m : LegacyCameraMetadata) (held : gset Z) (w : W) : Prop :=
  meta_ok m w /\ dom (others m w) = held ∪ rest /\ map_Forall laid_out (others m w).
End Spec.

(** * Theorems *)

Lemma u32_small z : 0 <= z < 2 ^ 32 -> u32 z = z.
Proof. apply Z.mod_small. Qed.

Section Lemmas.
Context {W : Type} `{StatusCodes} `{MetadataLib W} `{!StatusLaws} `{!MetadataLaws W}.

(** Growing the buffer keeps its entries, its tags and every other buffer,
    frees the old one, and never loses the object's own.  Data outside the
    object's buffer is still there after, outside the new one. *)
Lemma resizeIfNeeded_spec m ee ed (w : W) :
  meta_ok m w ->
  exists r m' w', resizeIfNeeded m ee ed w = Some ((r, m'), w') /\
  meta_ok m' w' /\ locked m' = locked m /\ others m' w' = others m w /\
  meta_entries m' w' = meta_entries m w /\ (forall tag, meta_type m' tag w' = meta_type m tag w) /\
  (r = OK -> is_Some (buffer m')) /\
  (forall a n data, bytes_at w a n = Some data -> outside m w a n ->
     bytes_at w' a n = Some data /\ outside m' w' a n).
Proof.
  destruct m as [[p|] lk];
    unfold meta_ok, resizeIfNeeded, others, meta_entries, meta_type, outside, own, laid_out; simpl;
    st_unfold; intros Hok.
  - destruct Hok as (b & Hb & Hlay).
    destruct (counts_spec p b w Hb) as (-> & -> & -> & -> & _). simpl.
    destruct (_ && _).
    { do 3 eexists. split; [done|]. simpl. rw Hb. split_and!; [by exists b|try done..]. }
    destruct (allocate_spec (if b_entry_capacity b <? u32 (Z.of_nat (length (b_entries b)) + ee)
        then u32 (u32 (Z.of_nat (length (b_entries b)) + ee) * 2) else b_entry_capacity b)
      (if b_data_capacity b <? u32 (b_data_count b + ed)
        then u32 (u32 (b_data_count b + ed) * 2) else b_data_capacity b) w) as (r & w1 & -> & Hr).
    destruct r as [q|]; simpl.
    + destruct Hr as (Hq & size & Hq0 & Hsize & Hqlay & Hw1 & Hkeep).
      assert (p <> q) as Hpq by (intros ->; congruence).
      assert (buffers w1 !! p = Some b) as Hb1 by (by rw Hw1 lookup_insert_ne).
      edestruct (append_spec q p) as (res & w2 & b' & -> & Hw2 & Hsz & Happ & Hmem);
        [by intros ->|rw Hw1; apply lookup_insert_eq|exact Hb1|]. simpl in *.
      rw Hw1 insert_insert_eq in Hw2.
      destruct (Z.eqb_spec res OK) as [Hres|Hres]; simpl.
      * destruct (free_spec p b w2) as (w3 & -> & Hw3 & Hfree).
        { by rw Hw2 lookup_insert_ne. }
        do 3 eexists. split; [done|]. simpl. rw Hw3 Hw2.
        rw lookup_delete_ne; [|done]. rw lookup_insert_eq Hb. simpl.
        destruct (Happ Hres) as [-> Hv]. rw Hv; [|done].
        split_and!; [exists b'; split; [done|lia]|done| |done|done|done|].
        { rw delete_delete delete_insert_id; [done|]. done. }
        intros a n data Hd Ha. destruct (Hkeep a n data Hd) as [Hd1 Ha1]. rw Hsz.
        rw (proj1 (Hfree a n) Ha) (Hmem a n Ha1). done.
      * destruct (free_spec q b' w2) as (w3 & -> & Hw3 & Hfree).
        { by rw Hw2 lookup_insert_eq. }
        do 3 eexists. split; [done|]. simpl. rw Hw3 Hw2 delete_insert_id; [|done].
        rw Hb. split_and!; [by exists b|try done..].
        intros a n data Hd Ha. destruct (Hkeep a n data Hd) as [Hd1 Ha1]. rw Hsz in Hfree.
        rw (proj1 (Hfree a n) Ha1) (Hmem a n Ha1). done.
    + destruct Hr as [Hr Hm]. do 3 eexists. split; [done|]. simpl. rw Hr Hb Hm.
      split_and!; [by exists b|done..].
  - destruct (allocate_spec (u32 (ee * 2)) (u32 (ed * 2)) w) as (r & w1 & -> & Hr).
    do 3 eexists. split; [done|]. simpl. destruct r as [q|]; simpl.
    + destruct Hr as (Hq & size & Hq0 & Hsize & Hqlay & -> & Hkeep).
      rw lookup_insert_eq delete_insert_id; [|done]. simpl. split_and!; [eauto|try done..].
      intros a n data Hd _. by apply Hkeep.
    + destruct Hr as [-> ->]. split_and!; try done.
      intros Hno. destruct status_ne as [Hne _]. done.
Qed.

(** A full buffer that can be replaced is freed: what was in it cannot be read
    any more. *)
Lemma resizeIfNeeded_frees p lk b ed a n (w : W) r m' w' :
  buffers w !! p = Some b -> b_entry_capacity b = Z.of_nat (length (b_entries b)) ->
  2 * (b_entry_capacity b + 1) < 2 ^ 32 -> ~ apart a n p (b_size b) ->
  resizeIfNeeded (mkMeta (Some p) lk) 1 ed w = Some ((r, m'), w') ->
  (r = OK -> bytes_at w' a n = None) /\ (r <> OK -> m' = mkMeta (Some p) lk).
Proof.
  intros Hb Hfull Hcap Hin. unfold resizeIfNeeded. simpl. st_unfold.
  destruct (counts_spec p b w Hb) as (-> & -> & -> & -> & _). simpl. rw Hfull.
  rw (u32_small (Z.of_nat (length (b_entries b)) + 1)); [|lia].
  destruct (Z.ltb_spec (Z.of_nat (length (b_entries b))) (Z.of_nat (length (b_entries b)) + 1)); [|lia].
  rw (u32_small ((Z.of_nat (length (b_entries b)) + 1) * 2)); [|lia].
  destruct (Z.eqb_spec ((Z.of_nat (length (b_entries b)) + 1) * 2) (Z.of_nat (length (b_entries b))));
    [lia|]. simpl.
  match goal with |- context [allocate_camera_metadata ?e ?d w] =>
    destruct (allocate_spec e d w) as (r1 & w1 & -> & Hr) end.
  destruct r1 as [q|]; simpl.
  2: { intros [= <- <- <-]. split; [|done]. intros Hno. by destruct status_ne as [Hne _]. }
  destruct Hr as (Hq & size & _ & _ & _ & Hw1 & _).
  assert (p <> q) as Hpq by (intros ->; congruence).
  edestruct (append_spec q p) as (res & w2 & b' & -> & Hw2 & _);
    [by intros ->|rw Hw1; apply lookup_insert_eq|by rw Hw1 lookup_insert_ne|].
  destruct (Z.eqb_spec res OK) as [Hres|Hres]; simpl.
  - destruct (free_spec p b w2) as (w3 & -> & _ & Hfree).
    { by rw Hw2 lookup_insert_ne; [|done]; rw Hw1 lookup_insert_ne. }
    intros [= <- <- <-]. split; [|done]. intros _. by apply Hfree.
  - destruct (free_spec q b' w2) as (w3 & -> & _ & _); [by rw Hw2 lookup_insert_eq|].
    intros [= <- <- <-]. by split.
Qed.

(** Writing through an object's own buffer leaves the others alone. *)
Lemma others_insert p lk b (w w' : W) :
  buffers w' = <[p := b]> (buffers w) -> others (mkMeta (Some p) lk) w' = others (mkMeta (Some p) lk) w.
Proof. unfold others. simpl. intros ->. by rw delete_insert_eq. Qed.

Lemma write_entry_spec p b lk tag a n data (w : W) :
  buffers w !! p = Some b ->
  bytes_at w a (type_size (tag_type (b_vendor b) tag) * n) = Some data ->
  apart a (type_size (tag_type (b_vendor b) tag) * n) p (b_size b) ->
  exists r w', write_entry p lk tag a n w = Some ((r, mkMeta (Some p) lk), w') /\
  (exists b', buffers w' = <[p := b']> (buffers w) /\ b_size b' = b_size b /\
     (r = OK -> updated tag data (b_entries b) (b_entries b')) /\
     (r <> OK -> b_entries b' = b_entries b)).
Proof.
  intros Hb Hd Ha. destruct status_ne as (_ & _ & _ & Hne & _). unfold write_entry. st_unfold.
  destruct (find_spec p b tag w Hb) as (r & i & -> & Hr).
  destruct Hr as [[-> (old & Hi)]|[-> Hno]].
  - destruct (Z.eqb_spec OK NAME_NOT_FOUND); [done|]. rw Z.eqb_refl.
    destruct (update_spec p b i tag old a n data w Hb Hi Hd Ha) as (r & w' & b' & -> & Hw' & Hsz & Hes).
    exists r, w'. split; [done|]. exists b'. do 2 (split; [done|]). split; intros Hr.
    + right. exists i, old. split; [done|]. by rw Hes decide_True.
    + by rw Hes decide_False.
  - rw Z.eqb_refl.
    destruct (add_spec p b tag a n data w Hb Hd Ha) as (r & w' & b' & -> & Hw' & Hsz & Hes).
    exists r, w'. split; [done|]. exists b'. do 2 (split; [done|]). split; intros Hr.
    + left. split; [done|]. by rw Hes decide_True.
    + by rw Hes decide_False.
Qed.

Lemma write_entry_undefined p b lk tag a n (w : W) :
  buffers w !! p = Some b ->
  bytes_at w a (type_size (tag_type (b_vendor b) tag) * n) = None ->
  write_entry p lk tag a n w = None.
Proof.
  intros Hb Hd. destruct status_ne as (_ & _ & _ & Hne & _). unfold write_entry. st_unfold.
  destruct (find_spec p b tag w Hb) as (r & i & -> & [[-> (old & Hi)]|[-> _]]).
  - destruct (Z.eqb_spec OK NAME_NOT_FOUND); [done|]. rw Z.eqb_refl.
    by rw (update_undefined p b i tag old a n w Hb Hi Hd).
  - rw Z.eqb_refl. by rw (add_undefined p b tag a n w Hb Hd).
Qed.

Lemma meta_type_ok m tag (w : W) :
  meta_ok m w ->
  get_local_camera_metadata_tag_type tag (buffer m) w = Some (meta_type m tag w, w).
Proof.
  unfold meta_ok, meta_type, own. destruct m as [[p|] lk]; simpl; [|intros _; apply type_none_spec].
  intros (b & Hb & _). rw Hb. by apply type_spec.
Qed.

(** The guard refuses exactly the addresses after the start of the buffer. *)
Lemma inside_buffer_spec m a (w : W) :
  meta_ok m w -> exists inside : bool, inside_buffer m a w = Some (inside, w) /\
  (inside = true <-> within m w a).
Proof.
  unfold meta_ok, inside_buffer, within. destruct m as [[p|] lk]; simpl; st_unfold.
  - intros (b & Hb & Hlay). destruct (counts_spec p b w Hb) as (_ & _ & _ & _ & ->).
    eexists. split; [done|]. unfold laid_out in Hlay. rw u32_small; [|lia].
    rw andb_true_iff Z.ltb_lt Z.ltb_lt. split; [by exists p, b|].
    intros (p' & b' & [= <-] & Hb' & ?). by simplify_eq.
  - intros _. exists false. split; [done|]. split; [done|]. by intros (p & b & ? & _).
Qed.

(** [updateImpl] up to the call of the library. *)
Lemma updateImpl_unfold m tag a n (w : W) :
  meta_ok m w -> exists inside : bool, (inside = true <-> within m w a) /\
  updateImpl m tag a n w =
    if locked m then Some ((INVALID_OPERATION, m), w)
    else if meta_type m tag w <? 0 then Some ((BAD_VALUE, m), w)
    else if inside then Some ((INVALID_OPERATION, m), w)
    else
      match resizeIfNeeded m 1
        (calculate_camera_metadata_entry_data_size (meta_type m tag w) n) w with
      | Some ((r, m'), w') =>
          if r =? OK then
            match buffer m' with
            | Some p => write_entry p (locked m') tag a n w'
            | None => None
            end
          else Some ((r, m'), w')
      | None => None
      end.
Proof.
  intros Hok. destruct (inside_buffer_spec m a w Hok) as (inside & Hin & Hiff).
  exists inside. split; [done|]. unfold updateImpl, write_entry.
  destruct (locked m); [done|]. st_unfold. rw (meta_type_ok m tag w Hok).
  destruct (_ <? 0); [done|]. rw Hin. destruct inside; [done|].
  destruct (resizeIfNeeded _ _ _ w) as [[[r [[p|] lk]] w']|]; [|by destruct (_ =? _)|done].
  by destruct (r =? OK).
Qed.

Lemma updateImpl_spec m tag a n (w : W) :
  meta_ok m w -> data_ok m tag a n w ->
  exists r m' w', updateImpl m tag a n w = Some ((r, m'), w') /\
  meta_ok m' w' /\ locked m' = locked m /\ others m' w' = others m w /\
  (locked m = true \/ within m w a -> r <> OK /\ m' = m /\ w' = w) /\
  (r = OK -> exists data, bytes_at w a (meta_bytes m tag n w) = Some data /\
     updated tag data (meta_entries m w) (meta_entries m' w')) /\
  (r <> OK -> meta_entries m' w' = meta_entries m w).
Proof.
  intros Hok Hdata. destruct status_ne as (_ & Hne1 & Hne2 & _).
  destruct (updateImpl_unfold m tag a n w Hok) as (inside & Hin & ->).
  unfold data_ok in Hdata. destruct (locked m) eqn:Hlk.
  { do 3 eexists. split; [done|]. by split_and!. }
  destruct (Z.ltb_spec (meta_type m tag w) 0) as [Hty|Hty].
  { do 3 eexists. split; [done|]. by split_and!. }
  destruct inside.
  { do 3 eexists. split; [done|]. by split_and!. }
  destruct Hdata as [[data Hd] Hout]; [done|done| |].
  { intros Hw%Hin. done. }
  destruct (resizeIfNeeded_spec m 1 (calculate_camera_metadata_entry_data_size
    (meta_type m tag w) n) w Hok) as (r & m1 & w1 & -> & Hok1 & Hlk1 & Hoth1 & Hes1 & Hty1 & Hbuf & Hmem).
  assert (~ (false = true \/ within m w a)) as Hno by (intros [|Hw%Hin]; done).
  destruct (Z.eqb_spec r OK) as [Hr|Hr].
  2: { do 3 eexists. split; [done|]. rw Hlk in Hlk1. by split_and!. }
  destruct (Hbuf Hr) as [p Hp]. destruct m1 as [[q|] lk1]; simpl in Hp; [|done].
  injection Hp as ->. pose proof Hok1 as (b & Hb & Hlay). simpl in Hb. simpl.
  destruct (Hmem a _ data Hd Hout) as [Hd1 Hout1]. unfold meta_bytes in Hd1, Hout1.
  rw -Hty1 in Hd1, Hout1. unfold meta_type, outside, own in Hd1, Hout1. simpl in Hd1, Hout1.
  rw Hb in Hd1, Hout1.
  destruct (write_entry_spec p b lk1 tag a n data w1 Hb Hd1 Hout1)
    as (r2 & w2 & -> & b' & Hw2 & Hsz & Hupd & Hsame).
  do 3 eexists. split; [done|]. rw Hlk in Hlk1.
  rw -Hoth1 (others_insert p lk1 b' w1 w2 Hw2) -Hes1. unfold meta_ok, meta_entries, own, laid_out.
  simpl. rw Hw2 lookup_insert_eq Hb. simpl. split_and!; try done.
  - exists b'. by rw Hsz.
  - intros Hr2. exists data. split; [done|]. by apply Hupd.
Qed.

(** Data that starts at the buffer, or before it and reaches into it, passes
    the guard: when the full buffer is replaced the data is gone. *)
Lemma updateImpl_dangling p b tag a n (w : W) r m' w' :
  buffers w !! p = Some b -> laid_out p b ->
  b_entry_capacity b = Z.of_nat (length (b_entries b)) -> 2 * (b_entry_capacity b + 1) < 2 ^ 32 ->
  a <= p -> p < a + meta_bytes (mkMeta (Some p) false) tag n w ->
  updateImpl (mkMeta (Some p) false) tag a n w = Some ((r, m'), w') ->
  r <> OK /\ m' = mkMeta (Some p) false.
Proof.
  intros Hb Hlay Hfull Hcap Ha Hreach. set (m := mkMeta (Some p) false) in *.
  assert (meta_ok m w) as Hok by (by exists b). destruct status_ne as (_ & Hne1 & Hne2 & _).
  destruct (updateImpl_unfold m tag a n w Hok) as (inside & Hin & ->). cbn [locked m].
  destruct (_ <? 0); [by intros [= <- <- <-]|].
  destruct inside; [by intros [= <- <- <-]|].
  destruct (resizeIfNeeded_spec m 1 (calculate_camera_metadata_entry_data_size
    (meta_type m tag w) n) w Hok) as (r1 & m1 & w1 & Hrun & Hok1 & _ & _ & _ & Hty1 & Hbuf & _).
  rw Hrun. destruct (resizeIfNeeded_frees p false b
    (calculate_camera_metadata_entry_data_size (meta_type m tag w) n) a (meta_bytes m tag n w) w r1 m1 w1
    Hb Hfull Hcap) as [Hgone Hsame]; [|exact Hrun|].
  { unfold apart, laid_out in *. lia. }
  destruct (Z.eqb_spec r1 OK) as [Hr|Hr].
  2: { intros [= <- <- <-]. split; [done|]. by apply Hsame. }
  destruct (Hbuf Hr) as [q Hq]. rw Hq. unfold meta_ok in Hok1. rw Hq in Hok1.
  destruct Hok1 as (b1 & Hb1 & _). specialize (Hgone Hr). unfold meta_bytes in Hgone.
  rw -Hty1 in Hgone. unfold meta_type, own in Hgone. rw Hq in Hgone. simpl in Hgone. rw Hb1 in Hgone.
  by rw (write_entry_undefined q b1 (locked m1) tag a n w1 Hb1 Hgone).
Qed.

(** The life cycle calls. *)
Lemma clear_spec m (w : W) :
  meta_ok m w ->
  exists w', camera_metadata_clear_legacy m w =
    Some (mkMeta (if locked m then buffer m else None) (locked m), w') /\
  buffers w' = if locked m then buffers w else others m w.
Proof.
  destruct m as [[p|] []]; unfold camera_metadata_clear_legacy, meta_ok, others; simpl; st_unfold;
    intros Hok; try by eexists.
  destruct Hok as (b & Hb & _). destruct (free_spec p b w Hb) as (w' & -> & Hw' & _). by eexists.
Qed.

Lemma dom_others m (w : W) p :
  meta_ok m w -> buffer m = Some p -> dom (buffers w) = {[p]} ∪ dom (others m w) /\
  p ∉ dom (others m w).
Proof.
  unfold meta_ok, others. intros Hok Hp. rw Hp in Hok |- *. rw dom_delete_L. split; [|set_solver].
  destruct Hok as (b & Hb%elem_of_dom_2 & _). apply set_eq. intros q.
  destruct (decide (q = p)); set_solver.
Qed.

(** All the buffers, the object's included, are laid out. *)
Lemma all_laid_out m (w : W) :
  meta_ok m w -> map_Forall laid_out (others m w) -> map_Forall laid_out (buffers w).
Proof.
  unfold meta_ok, others. destruct (buffer m) as [p|]; [|done]. intros (b & Hb & Hl) Ho q c Hc.
  destruct (decide (q = p)) as [->|Hne]; [by simplify_eq|]. apply (Ho q). by rw lookup_delete_ne.
Qed.

(** What is accounted for depends on the buffers only. *)
Lemma accounted_buffers rest m held (w w' : W) :
  buffers w' = buffers w -> accounted rest m held w -> accounted rest m held w'.
Proof. unfold accounted, meta_ok, others. by intros ->. Qed.

(** Every allowed call has a result and keeps the buffers accounted for. *)
Lemma do_call_spec rest c m held (w : W) :
  accounted rest m held w -> allowed m held w c -> held ## rest ->
  exists m' held' w', do_call c m held w = Some ((m', held'), w') /\
  accounted rest m' held' w' /\ held' ## rest.
Proof.
  intros (Hok & Hdom & Hlay) Hal Hdis.
  destruct c as [tag a n| | |b| |b|tag]; unfold do_call; st_unfold.
  - destruct (updateImpl_spec m tag a n w Hok Hal) as (r & m' & w' & -> & Hok' & _ & Hoth & _).
    do 3 eexists. split; [done|]. split; [|done]. unfold accounted. by rw Hoth.
  - destruct (clear_spec m w Hok) as (w' & -> & Hw'). do 3 eexists. split; [done|].
    split; [|done]. unfold accounted, meta_ok, others in *.
    destruct m as [[p|] []]; simpl in *; by rw Hw'.
  - pose proof (all_laid_out m w Hok Hlay) as Hall. unfold camera_metadata_release_legacy.
    destruct m as [[p|] []] eqn:Hm; simpl;
      (do 3 eexists; split; [done|]); try by split.
    destruct (dom_others m w p) as [Hd Hp]; [by rw Hm|by rw Hm|].
    rw Hm in Hd Hp. rw Hdom in Hd Hp.
    split; [split_and!; [done| |done]|set_solver]. unfold others. simpl. rw Hd. set_solver.
  - unfold camera_metadata_acquire_legacy. destruct (locked m) eqn:Hlk; st_unfold.
    { do 3 eexists. split; [done|]. split; [|by destruct b]. by destruct b. }
    destruct (clear_spec m w Hok) as (w' & -> & Hw'). rw Hlk in Hw' |- *. do 3 eexists.
    split; [done|]. unfold accounted, meta_ok, others at 1 2. simpl. rw Hw'.
    destruct b as [p|]; simpl; [|by split_and!]. simpl in Hal.
    assert (is_Some (others m w !! p)) as [b Hb] by (apply elem_of_dom; set_solver).
    split; [split_and!|set_solver].
    + exists b. split; [done|]. by apply Hlay.
    + rw dom_delete_L Hdom. set_solver.
    + intros q c Hc%lookup_delete_Some. apply (Hlay q). apply Hc.
  - do 3 eexists. split; [done|]. by split.
  - unfold camera_metadata_unlock_legacy. do 3 eexists. split; [done|].
    split; [|done]. destruct (negb (locked m)); [by split|].
    destruct (negb _); by split.
  - unfold camera_metadata_find_legacy. destruct m as [[p|] []] eqn:Hm; simpl; st_unfold;
      try (do 3 eexists; split; [done|]; by split).
    pose proof Hok as (b & Hb & _). simpl in Hb.
    destruct (find_spec p b tag w Hb) as (r & i & -> & _).
    do 3 eexists. split; [done|]. by split.
Qed.

Lemma client_run_accounted held0 (w0 : W) m held w :
  held0 ⊆ dom (buffers w0) -> map_Forall laid_out (buffers w0) -> client_run held0 w0 m held w ->
  accounted (dom (buffers w0) ∖ held0) m held w /\ held ## dom (buffers w0) ∖ held0.
Proof.
  intros Hsub Hlay Hrun.
  induction Hrun as [|m held w c m' held' w' Hrun [IH Hdis] Hal Hc|m held w w' Hrun [IH Hdis] Hb].
  - split; [|set_solver]. split_and!; [done| |done]. unfold others. simpl.
    apply set_eq. intros p. destruct (decide (p ∈ held0)); set_solver.
  - destruct (do_call_spec _ c m held w IH Hal Hdis) as (m2 & held2 & w2 & Hc2 & ? & ?).
    by simplify_eq.
  - split; [|done]. by eapply accounted_buffers.
Qed.
End Lemmas.

(** [update] on an object, with data that can be read and is not the object's
    own.  It always returns; on [OK] the entries of the object are those before
    with the tag's entry set to the bytes the caller's data had when it called,
    or the new entry appended when the tag had none, and [find] then finds the
    tag, with this data when the tags were distinct; on any error the entries
    are unchanged, whatever reallocation took place; the buffers of others are
    not touched; a locked object is refused, and so is data inside its buffer,
    and nothing changes at all. *)
Theorem metadata_update_spec {W} `{StatusLaws} `{MetadataLib W} `{!MetadataLaws W}
    m tag a n (w : W) :
  meta_ok m w -> data_ok m tag a n w ->
  exists r m' w', updateImpl m tag a n w = Some ((r, m'), w') /\
  meta_ok m' w' /\ locked m' = locked m /\ others m' w' = others m w /\
  (locked m = true \/ within m w a -> r <> OK /\ m' = m /\ w' = w) /\
  (r <> OK -> meta_entries m' w' = meta_entries m w) /\
  (r = OK -> exists data, bytes_at w a (meta_bytes m tag n w) = Some data /\
     updated tag data (meta_entries m w) (meta_entries m' w') /\
     exists i found, camera_metadata_find_legacy m' tag w' = Some (Some i, w') /\
       meta_entries m' w' !! i = Some (tag, found) /\
       (NoDup (meta_entries m w).*1 -> found = data)).
Proof.
  intros Hok Hdata. destruct (updateImpl_spec m tag a n w Hok Hdata)
    as (r & m' & w' & Hrun & Hok' & Hlk & Hoth & Hlocked & Hupd & Hsame).
  exists r, m', w'. split_and!; try done. intros Hr.
  destruct (Hupd Hr) as (data & Hd & Hu). exists data. do 2 (split; [done|]).
  destruct status_ne as (_ & Hne & _).
  assert (locked m' = false) as Hun.
  { rw Hlk. apply not_true_is_false. intros Hl. by destruct (Hlocked (or_introl Hl)) as [Hr' _]. }
  assert (exists j, meta_entries m' w' !! j = Some (tag, data)) as [j Hj].
  { destruct Hu as [[_ ->]|(j & old & Hj & ->)].
    - exists (length (meta_entries m w)). by rw list_lookup_middle.
    - exists j. apply list_lookup_insert_eq. by eapply lookup_lt_Some. }
  assert (NoDup (meta_entries m w).*1 -> NoDup (meta_entries m' w').*1) as Hdup.
  { intros Hnd. destruct Hu as [[Hnew ->]|(k & old & Hk & ->)].
    - rw fmap_app. apply NoDup_app. split_and!; [done| |apply NoDup_singleton].
      intros x Hx Heq%list_elem_of_singleton. apply list_elem_of_fmap in Hx as ([t d] & Ht & Hx).
      simpl in *. subst x t. by apply (Hnew d).
    - rw list_fmap_insert. simpl. rw list_insert_id; [done|]. by rw list_lookup_fmap Hk. }
  unfold camera_metadata_find_legacy. rw Hun.
  revert Hj Hdup. generalize (NoDup (meta_entries m w).*1). intros P.
  unfold meta_ok, meta_entries, own in *. intros Hj Hdup.
  destruct (buffer m') as [p|]; [|done]. destruct Hok' as (b & Hb & _).
  simpl in *. rw Hb in Hj Hdup |- *. st_unfold.
  destruct (find_spec p b tag w' Hb) as (r2 & i & -> & [[-> (found & Hi)]|[-> Hno]]).
  - rw Z.eqb_refl. exists i, found. split_and!; [done|done|]. intros Hnd.
    assert (i = j) as ->.
    { eapply (NoDup_lookup _ i j tag (Hdup Hnd)); rw list_lookup_fmap; [by rw Hi|by rw Hj]. }
    by simplify_eq.
  - exfalso. apply (Hno data). by eapply list_elem_of_lookup_2.
Qed.


(** ** A library for the witnesses *)

#[local] Existing Instance errno_codes.
#[local] Existing Instance errno_laws.

(** A memory: the buffers, and the bytes that can be read. *)
Record heap := mkHeap { h_buffers : gmap Z bview; h_bytes : gmap Z Z }.

Definition reading {A} (f : bview -> A) (p : Z) : stM heap A :=
  fun w => (fun b => (f b, w)) <$> h_buffers w !! p.

Definition first_index (tag : Z) (es : list (Z * list Z)) : option nat :=
  fst <$> list_find (fun e => e.1 = tag) es.

Definition heap_bytes (w : heap) (a n : Z) : option (list Z) :=
  mapM (fun x => h_bytes w !! x) (seqZ a n).

(** An address above everything in use. *)
Definition top (w : heap) : Z := 1 + foldr Z.max 0 (elements (dom (h_buffers w) ∪ dom (h_bytes w))).

Definition block (p size : Z) : gmap Z Z := list_to_map ((fun x => (x, 0)) <$> seqZ p size).

#[local] Instance heap_lib : MetadataLib heap := {
  allocate_camera_metadata e d w :=
    let p := top w in
    if p + 64 <? 2 ^ 32 then
      Some (Some p, mkHeap (<[p := mkView [] e 0 d 64 (-1)]> (h_buffers w)) (block p 64 ∪ h_bytes w))
    else Some (None, w);
  free_camera_metadata p w :=
    b ← h_buffers w !! p;
    Some (tt, mkHeap (delete p (h_buffers w))
      (filter (fun x => ~ (p <= x.1 < p + b_size b)) (h_bytes w)));
  get_camera_metadata_entry_count := reading (fun b => Z.of_nat (length (b_entries b)));
  get_camera_metadata_entry_capacity := reading b_entry_capacity;
  get_camera_metadata_data_count := reading b_data_count;
  get_camera_metadata_data_capacity := reading b_data_capacity;
  get_camera_metadata_size := reading b_size;
  append_camera_metadata p q w :=
    b ← h_buffers w !! p; c ← h_buffers w !! q;
    Some (0, mkHeap (<[p := mkView (b_entries b ++ b_entries c) (b_entry_capacity b) (b_data_count b)
                      (b_data_capacity b) (b_size b) (b_vendor c)]> (h_buffers w)) (h_bytes w));
  get_local_camera_metadata_tag_type tag b w :=
    match b with
    | Some p => v ← h_buffers w !! p; Some (1, w)
    | None => Some (1, w)
    end;
  calculate_camera_metadata_entry_data_size type n := n;
  find_camera_metadata_entry p tag w :=
    b ← h_buffers w !! p;
    Some (match first_index tag (b_entries b) with Some i => (0, i) | None => (-2, 0%nat) end, w);
  add_camera_metadata_entry p tag a n w :=
    b ← h_buffers w !! p; data ← heap_bytes w a n;
    Some (0, mkHeap (<[p := mkView (b_entries b ++ [(tag, data)]) (b_entry_capacity b) (b_data_count b)
                      (b_data_capacity b) (b_size b) (b_vendor b)]> (h_buffers w)) (h_bytes w));
  update_camera_metadata_entry p i a n w :=
    b ← h_buffers w !! p; e ← b_entries b !! i; data ← heap_bytes w a n;
    Some (0, mkHeap (<[p := mkView (<[i := (e.1, data)]> (b_entries b)) (b_entry_capacity b)
                      (b_data_count b) (b_data_capacity b) (b_size b) (b_vendor b)]> (h_buffers w))
               (h_bytes w));
  buffers := h_buffers;
  bytes_at := heap_bytes;
  tag_type vendor tag := 1;
  no_vendor := -1;
  type_size type := 1;
}.

Lemma foldr_max_le xs x : x ∈ xs -> x <= foldr Z.max 0 xs.
Proof. induction xs as [|y xs IH]; [set_solver|]. simpl. intros [->|Hx%IH]%elem_of_cons; lia. Qed.

Lemma top_above w x : x ∈ dom (h_buffers w) ∪ dom (h_bytes w) -> x < top w.
Proof. intros Hx%elem_of_elements%foldr_max_le. unfold top. lia. Qed.

Lemma heap_bytes_Some w a n data :
  heap_bytes w a n = Some data -> forall x, a <= x < a + n -> x ∈ dom (h_bytes w).
Proof.
  unfold heap_bytes. intros Hd%mapM_Some_1 x Hx. apply elem_of_dom.
  assert (x ∈ seqZ a n) as [i Hi]%list_elem_of_lookup by (by apply elem_of_seqZ).
  destruct (Forall2_lookup_l _ _ _ _ _ Hd Hi) as (y & _ & Hy). by exists y.
Qed.

(** Reading a range depends on the bytes of the range only. *)
Lemma heap_bytes_ext w w' a n :
  (forall x, a <= x < a + n -> h_bytes w' !! x = h_bytes w !! x) -> heap_bytes w' a n = heap_bytes w a n.
Proof.
  intros Hx. unfold heap_bytes.
  assert (forall x, x ∈ seqZ a n -> h_bytes w' !! x = h_bytes w !! x) as Hin
    by (intros x Hin%elem_of_seqZ; by apply Hx).
  clear Hx. induction (seqZ a n) as [|x l IH]; simpl; [done|].
  rw (Hin x); [|set_solver]. rw IH; [done|]. set_solver.
Qed.

Lemma heap_bytes_None w a n x :
  a <= x < a + n -> h_bytes w !! x = None -> heap_bytes w a n = None.
Proof.
  intros Hx Hn. destruct (heap_bytes w a n) as [data|] eqn:Hd; [|done].
  pose proof (heap_bytes_Some w a n data Hd x Hx) as Hin%elem_of_dom. by rw Hn in Hin; destruct Hin.
Qed.

Lemma block_lookup p size x : ~ (p <= x < p + size) -> block p size !! x = None.
Proof.
  intros Hx. apply not_elem_of_list_to_map. rw -list_fmap_compose. simpl.
  intros (y & -> & Hy%elem_of_seqZ)%list_elem_of_fmap. simpl in Hx. lia.
Qed.

Lemma heap_allocate_spec e d w : exists r w', allocate_camera_metadata e d w = Some (r, w') /\
    match r with
    | None => buffers w' = buffers w /\ bytes_at w' = bytes_at w
    | Some p => buffers w !! p = None /\
        exists size, 0 <= p /\ 0 < size /\ p + size < 2 ^ 32 /\
          buffers w' = <[p := mkView [] e 0 d size no_vendor]> (buffers w) /\
          forall a n data, bytes_at w a n = Some data ->
            bytes_at w' a n = Some data /\ apart a n p size
    end.
Proof.
  simpl. destruct (Z.ltb_spec (top w + 64) (2 ^ 32)) as [Hlt|Hge].
  2: { by exists None, w. }
  do 2 eexists. split; [done|]. simpl. split.
  { apply not_elem_of_dom. intros Hin. pose proof (top_above w (top w)) as Htop.
    ospecialize (Htop _); [set_solver|lia]. }
  exists 64. split_and!; [|done|done|done|].
  { unfold top. assert (0 <= foldr Z.max 0 (elements (dom (h_buffers w) ∪ dom (h_bytes w)))); [|lia].
    generalize (elements (dom (h_buffers w) ∪ dom (h_bytes w))). intros l.
    induction l; simpl; lia. }
  intros a n data Hd.
  assert (forall x, a <= x < a + n -> x < top w) as Habove.
  { intros x Hx. apply top_above. pose proof (heap_bytes_Some w a n data Hd x Hx). set_solver. }
  split.
  - rw -Hd. apply heap_bytes_ext. simpl. intros x Hx. apply lookup_union_r.
    apply block_lookup. specialize (Habove x Hx). lia.
  - unfold apart. destruct (Z.le_gt_cases n 0); [by left|]. do 2 right; left.
    specialize (Habove (a + n - 1)). lia.
Qed.

Lemma heap_free_spec p b w : buffers w !! p = Some b ->
    exists w', free_camera_metadata p w = Some (tt, w') /\ buffers w' = delete p (buffers w) /\
    forall a n, (apart a n p (b_size b) -> bytes_at w' a n = bytes_at w a n) /\
                (~ apart a n p (b_size b) -> bytes_at w' a n = None).
Proof.
  simpl. intros Hb. rw Hb. simpl. eexists. split; [done|]. split; [done|].
  intros a n. unfold apart. split; intros Ha.
  - apply heap_bytes_ext. simpl. intros x Hx. rw map_lookup_filter.
    destruct (h_bytes w !! x) as [v|]; [|done]. simpl. rw option_guard_True; [done|]. simpl. lia.
  - apply (heap_bytes_None _ a n (Z.max a p)); [lia|]. simpl. rw map_lookup_filter.
    destruct (h_bytes w !! Z.max a p) as [v|]; [|done]. simpl. rw option_guard_False; [done|].
    simpl. intros Hno. apply Hno. simpl. lia.
Qed.

#[local] Instance heap_laws : MetadataLaws heap.
Proof.
  constructor; [apply heap_allocate_spec|apply heap_free_spec|..]; simpl; unfold reading.
  - intros p b w Hb. by rw Hb.
  - intros p b tag w Hb. by rw Hb.
  - done.
  - intros p q b c w _ Hb Hc. rw Hb Hc. do 3 eexists. split; [done|]. by split_and!.
  - intros p b tag w Hb. rw Hb. simpl. unfold first_index.
    destruct (list_find _ (b_entries b)) as [[i [t data]]|] eqn:Hf; simpl; (do 2 eexists; split; [done|]).
    + left. split; [done|]. apply list_find_Some in Hf as (Hi & Ht & _). simpl in Ht. subst. by exists data.
    + right. split; [done|]. intros data Hin. apply list_find_None in Hf.
      rw Forall_forall in Hf. by apply (Hf (tag, data)).
  - intros p b tag a n data w Hb Hd _. rw Z.mul_1_l in Hd. rw Hb. simpl. rw Hd.
    do 3 eexists. split; [done|]. done.
  - intros p b i tag old a n data w Hb Hi Hd _. rw Z.mul_1_l in Hd. rw Hb. simpl. rw Hi. simpl. rw Hd.
    do 3 eexists. split; [done|]. done.
  - intros p b tag a n w Hb Hd. rw Z.mul_1_l in Hd. rw Hb. simpl. by rw Hd.
  - intros p b i tag old a n w Hb Hi Hd. rw Z.mul_1_l in Hd. rw Hb. simpl. rw Hi. simpl. by rw Hd.
Qed.

(** Two bytes of the client at 1000. *)
Definition client_bytes : gmap Z Z := <[1000 := 7]> (<[1001 := 8]> ∅).

Lemma metadata_update_spec_witness :
  exists m' w', updateImpl camera_metadata_ctor_legacy 5 1000 2 (mkHeap ∅ client_bytes) =
    Some ((0, m'), w') /\ updated 5 [7; 8] [] (meta_entries m' w').
Proof.
  destruct (metadata_update_spec camera_metadata_ctor_legacy 5 1000 2 (mkHeap ∅ client_bytes))
    as (r & m' & w' & Hrun & _ & _ & _ & _ & _ & Hok).
  - exact I.
  - intros _ _ _. split; [|exact I]. by eexists.
  - assert (r = 0) as ->.
    { apply (f_equal (fmap (fun x => x.1.1))) in Hrun. vm_compute in Hrun. by injection Hrun as <-. }
    exists m', w'. split; [exact Hrun|]. destruct (Hok eq_refl) as (data & Hd & Hu & _).
    vm_compute in Hd. injection Hd as <-. exact Hu.
Defined.

(** A buffer of 64 bytes at 100 with room for no entry. *)
Definition one_buffer : heap := mkHeap {[100 := mkView [] 0 0 0 64 (-1)]} (block 100 64).

(** With the buffer as its own data the update is undefined. *)
Example update_with_itself : updateImpl (mkMeta (Some 100) false) 5 100 2 one_buffer = None.
Proof. vm_compute. reflexivity. Qed.

