(* ===== verification/SensorServer.v ===== *)
(** * The sensor server's Binder interface

    Model of libshims/gui/ISensorServer.cpp: the proxy [BpSensorServer], which
    turns the calls of [ISensorServer] into transactions, and the stub
    [BnSensorServer::onTransact], which turns transactions into calls of the
    service.

    libbinder is not part of the repository.  Class [ParcelLib] has the
    operations on a [Parcel] and [ParcelLaws] what its header promises: values
    are read back in the order and at the types they were written at, and a
    read past the end fails.  Class [Binder] has the rest of the library.  The
    class [ISensorServer] is the interface itself: the service and the proxy
    are instances of it, and SensorManager.v is proved against it. *)
From S2P Require Import Prelude Status.

(** [String16]: UTF-16 code units.  The code only builds one from ASCII
    literals. *)
Abbreviation String16 := (list Z).
Fixpoint to_String16 (s : string) : String16 :=
  match s with
  | EmptyString => []
  | String c s' => Z.of_nat (Ascii.nat_of_ascii c) :: to_String16 s'
  end.

(** What the shim uses of libsensor's class [Sensor] (include/Sensor.h):
    [new_Sensor] is the default constructor. *)
Class SensorClass (Sensor : Type) := {
  new_Sensor : Sensor;
  getType : Sensor -> Z;
  isWakeUpSensor : Sensor -> bool;
}.

(** ** Parcels *)

(** What a parcel can hold. *)
Inductive item (Sensor IBinder : Type) : Type :=
| ItToken (descriptor : String16)
| ItString16 (s : String16)
| ItString8 (s : string)
| ItInt32 (z : Z)
| ItUint32 (z : Z)
| ItSensor (s : Sensor)
| ItBinder (b : option IBinder).
Arguments ItToken {Sensor IBinder}.
Arguments ItString16 {Sensor IBinder}.
Arguments ItString8 {Sensor IBinder}.
Arguments ItInt32 {Sensor IBinder}.
Arguments ItUint32 {Sensor IBinder}.
Arguments ItSensor {Sensor IBinder}.
Arguments ItBinder {Sensor IBinder}.

(** [written]: everything written into a parcel; [unread]: what its cursor
    has not passed; [deliver]: the parcel at the other end of a transaction.
    [read_sensor] is [Parcel::read] of a flattenable: its status, the value
    its argument has afterwards, and the parcel. *)
Class ParcelLib (Sensor IBinder parcel : Type) := {
  Parcel : parcel;
  writeInterfaceToken : String16 -> parcel -> parcel;
  writeString16 : String16 -> parcel -> parcel;
  writeString8 : string -> parcel -> parcel;
  writeInt32 : Z -> parcel -> parcel;
  writeUint32 : Z -> parcel -> parcel;
  write_sensor : Sensor -> parcel -> parcel;
  writeStrongBinder : option IBinder -> parcel -> parcel;
  checkInterface : String16 -> parcel -> bool * parcel;
  readString16 : parcel -> String16 * parcel;
  readString8 : parcel -> string * parcel;
  readInt32 : parcel -> Z * parcel;
  readUint32 : parcel -> Z * parcel;
  read_sensor : Sensor -> parcel -> Z * Sensor * parcel;
  readStrongBinder : parcel -> option IBinder * parcel;
  written : parcel -> list (item Sensor IBinder);
  unread : parcel -> list (item Sensor IBinder);
  deliver : parcel -> parcel;
}.

(** [reads_as f p x rest]: [f] reads [x] from [p] and leaves [rest]. *)
Definition reads_as `{ParcelLib Sensor IBinder parcel} {A} (f : parcel -> A * parcel)
    (p : parcel) (x : A) (rest : list (item Sensor IBinder)) : Prop :=
  exists p', f p = (x, p') /\ unread p' = rest.

Class ParcelLaws (Sensor IBinder parcel : Type) `{StatusCodes}
    `{ParcelLib Sensor IBinder parcel} : Prop := {
  Parcel_new : written Parcel = [] /\ unread Parcel = [];
  writeInterfaceToken_spec d p : written (writeInterfaceToken d p) = written p ++ [ItToken d];
  writeString16_spec s p : written (writeString16 s p) = written p ++ [ItString16 s];
  writeString8_spec s p : written (writeString8 s p) = written p ++ [ItString8 s];
  writeInt32_spec z p : written (writeInt32 z p) = written p ++ [ItInt32 (i32 z)];
  writeUint32_spec z p : written (writeUint32 z p) = written p ++ [ItUint32 (u32 z)];
  write_sensor_spec s p : written (write_sensor s p) = written p ++ [ItSensor s];
  writeStrongBinder_spec b p : written (writeStrongBinder b p) = written p ++ [ItBinder b];
  checkInterface_spec d e p rest :
    unread p = ItToken e :: rest -> reads_as (checkInterface d) p (bool_decide (e = d)) rest;
  readString16_spec s p rest : unread p = ItString16 s :: rest -> reads_as readString16 p s rest;
  readString8_spec s p rest : unread p = ItString8 s :: rest -> reads_as readString8 p s rest;
  readInt32_spec z p rest : unread p = ItInt32 z :: rest -> reads_as readInt32 p z rest;
  readUint32_spec z p rest : unread p = ItUint32 z :: rest -> reads_as readUint32 p z rest;
  read_sensor_spec s s0 p rest :
    unread p = ItSensor s :: rest -> reads_as (read_sensor s0) p (OK, s) rest;
  readStrongBinder_spec b p rest :
    unread p = ItBinder b :: rest -> reads_as readStrongBinder p b rest;
  (** at the end of the data *)
  end_checkInterface d p : unread p = [] -> reads_as (checkInterface d) p false [];
  end_readInt32 p : unread p = [] -> reads_as readInt32 p 0 [];
  end_readUint32 p : unread p = [] -> reads_as readUint32 p 0 [];
  end_read_sensor s0 p : unread p = [] ->
    exists err, err <> OK /\ reads_as (read_sensor s0) p (err, s0) [];
  end_readStrongBinder p : unread p = [] -> reads_as readStrongBinder p None [];
  deliver_spec p : unread (deliver p) = written p;
}.

(** ** The interface *)

(** [Conn] is [sp<ISensorEventConnection>] without the null pointer. *)
Class ISensorServer (Srv W Sensor Conn : Type) := {
  getSensorList : Srv -> String16 -> W -> list Sensor * W;
  getDynamicSensorList : Srv -> String16 -> W -> list Sensor * W;
  createSensorEventConnection : Srv -> string -> Z -> String16 -> W -> option Conn * W;
  isDataInjectionEnabled : Srv -> W -> Z * W;
}.

Definition getInterfaceDescriptor : String16 := to_String16 "android.gui.SensorServer".

(** What the file uses of the rest of libbinder: [transact] is
    [IBinder::transact] (the object, the code, the data, the reply; the flags
    are 0), [as_binder] and [interface_cast] the conversions between a
    connection and its binder object, [BBinder_onTransact] the base class. *)
Class IBinderHeader := { FIRST_CALL_TRANSACTION : Z }.

Class Binder (Srv W Conn IBinder parcel : Type) := {
  transact : IBinder -> Z -> parcel -> parcel -> W -> Z * parcel * W;
  as_binder : Conn -> IBinder;
  interface_cast : IBinder -> Conn;
  BBinder_onTransact : Srv -> Z -> parcel -> parcel -> Z -> W -> Z * parcel * W;
}.

(** [remote()] is the binder object the proxy was made from. *)
Record BpSensorServer (IBinder : Type) := mkBp { remote : IBinder }.
Arguments mkBp {IBinder}.
Arguments remote {IBinder}.

(** The transaction codes. *)
Definition GET_SENSOR_LIST `{IBinderHeader} : Z := FIRST_CALL_TRANSACTION.
Definition CREATE_SENSOR_EVENT_CONNECTION `{IBinderHeader} : Z := GET_SENSOR_LIST + 1.
Definition ENABLE_DATA_INJECTION `{IBinderHeader} : Z := CREATE_SENSOR_EVENT_CONNECTION + 1.
Definition GET_DYNAMIC_SENSOR_LIST `{IBinderHeader} : Z := ENABLE_DATA_INJECTION + 1.

Section Server.
Context {Srv W Sensor Conn IBinder parcel : Type}.
Context `{StatusCodes} `{SensorClass Sensor} `{IBinderHeader} `{!ParcelLib Sensor IBinder parcel}
  `{!Binder Srv W Conn IBinder parcel}.

(** *** The proxy *)

(** [while (n--) { reply.read(s); v.add(s); }]: the status of the read is not
    looked at. *)
Fixpoint read_sensors (n : nat) (reply : parcel) (s : Sensor) (v : list Sensor) : list Sensor :=
  match n with
  | O => v
  | S n =>
      let '(_, s, reply) := read_sensor s reply in
      read_sensors n reply s (v ++ [s])
  end.

(** The end of [getSensorList] and [getDynamicSensorList]. *)
Definition read_sensor_vector (reply : parcel) : list Sensor :=
  let '(n, reply) := readUint32 reply in
  read_sensors (Z.to_nat n) reply new_Sensor [].

Definition Bp_getSensorList (this : BpSensorServer IBinder) (opPackageName : String16) (w : W) :
    list Sensor * W :=
  let data := writeString16 opPackageName (writeInterfaceToken getInterfaceDescriptor Parcel) in
  let '(_, reply, w) := transact (remote this) GET_SENSOR_LIST data Parcel w in
  (read_sensor_vector reply, w).

Definition Bp_getDynamicSensorList (this : BpSensorServer IBinder) (opPackageName : String16) (w : W) :
    list Sensor * W :=
  let data := writeString16 opPackageName (writeInterfaceToken getInterfaceDescriptor Parcel) in
  let '(_, reply, w) := transact (remote this) GET_DYNAMIC_SENSOR_LIST data Parcel w in
  (read_sensor_vector reply, w).

Definition Bp_createSensorEventConnection (this : BpSensorServer IBinder) (packageName : string)
    (mode : Z) (opPackageName : String16) (w : W) : option Conn * W :=
  let data := writeInterfaceToken getInterfaceDescriptor Parcel in
  let data := writeString8 packageName data in
  let data := writeInt32 mode data in
  let data := writeString16 opPackageName data in
  let '(_, reply, w) := transact (remote this) CREATE_SENSOR_EVENT_CONNECTION data Parcel w in
  let '(b, _) := readStrongBinder reply in
  (interface_cast <$> b, w).

Definition Bp_isDataInjectionEnabled (this : BpSensorServer IBinder) (w : W) : Z * W :=
  let data := writeInterfaceToken getInterfaceDescriptor Parcel in
  let '(_, reply, w) := transact (remote this) ENABLE_DATA_INJECTION data Parcel w in
  let '(r, _) := readInt32 reply in
  (r, w).

#[export] Instance BpSensorServer_is_ISensorServer :
    ISensorServer (BpSensorServer IBinder) W Sensor Conn := {
  getSensorList := Bp_getSensorList;
  getDynamicSensorList := Bp_getDynamicSensorList;
  createSensorEventConnection := Bp_createSensorEventConnection;
  isDataInjectionEnabled := Bp_isDataInjectionEnabled;
}.

(** *** The stub *)

Context `{!ISensorServer Srv W Sensor Conn}.

Definition write_sensor_vector (v : list Sensor) (reply : parcel) : parcel :=
  let n := Z.of_nat (length v) in
  foldl (fun reply s => write_sensor s reply) (writeUint32 (u32 n) reply) v.

(** The body of [GET_SENSOR_LIST] and of [GET_DYNAMIC_SENSOR_LIST]; [get] is
    the method that each calls. *)
Definition on_get_list (get : String16 -> W -> list Sensor * W) (data reply : parcel) (w : W) :
    Z * parcel * W :=
  let '(ok, data) := checkInterface getInterfaceDescriptor data in   (* CHECK_INTERFACE *)
  if negb ok then (PERMISSION_DENIED, reply, w)
  else
    let '(opPackageName, _) := readString16 data in
    let '(v, w) := get opPackageName w in
    (NO_ERROR, write_sensor_vector v reply, w).

Definition on_create_connection (this : Srv) (data reply : parcel) (w : W) : Z * parcel * W :=
  let '(ok, data) := checkInterface getInterfaceDescriptor data in
  if negb ok then (PERMISSION_DENIED, reply, w)
  else
    let '(packageName, data) := readString8 data in
    let '(mode, data) := readInt32 data in
    let '(opPackageName, _) := readString16 data in
    let '(connection, w) := createSensorEventConnection this packageName mode opPackageName w in
    (NO_ERROR, writeStrongBinder (as_binder <$> connection) reply, w).

Definition on_data_injection (this : Srv) (data reply : parcel) (w : W) : Z * parcel * W :=
  let '(ok, _) := checkInterface getInterfaceDescriptor data in
  if negb ok then (PERMISSION_DENIED, reply, w)
  else
    let '(ret, w) := isDataInjectionEnabled this w in
    (NO_ERROR, writeInt32 ret reply, w).

Definition onTransact (this : Srv) (code : Z) (data reply : parcel) (flags : Z) (w : W) :
    Z * parcel * W :=
  if code =? GET_SENSOR_LIST then on_get_list (getSensorList this) data reply w
  else if code =? CREATE_SENSOR_EVENT_CONNECTION then on_create_connection this data reply w
  else if code =? ENABLE_DATA_INJECTION then on_data_injection this data reply w
  else if code =? GET_DYNAMIC_SENSOR_LIST then
    on_get_list (getDynamicSensorList this) data reply w
  else BBinder_onTransact this code data reply flags w.
End Server.

(** ** Specification *)

(** The types on the wire. *)
Inductive wire_type :=
| TToken | TString16 | TString8 | TInt32 | TUint32 | TSensor | TBinder.

Definition item_type {Sensor IBinder} (i : item Sensor IBinder) : wire_type :=
  match i with
  | ItToken _ => TToken
  | ItString16 _ => TString16
  | ItString8 _ => TString8
  | ItInt32 _ => TInt32
  | ItUint32 _ => TUint32
  | ItSensor _ => TSensor
  | ItBinder _ => TBinder
  end.

(** The arguments of a transaction, after the token. *)
Definition argument_types `{IBinderHeader} (code : Z) : option (list wire_type) :=
  if code =? GET_SENSOR_LIST then Some [TString16]
  else if code =? CREATE_SENSOR_EVENT_CONNECTION then Some [TString8; TInt32; TString16]
  else if code =? ENABLE_DATA_INJECTION then Some []
  else if code =? GET_DYNAMIC_SENSOR_LIST then Some [TString16]
  else None.

Definition request_ok `{IBinderHeader} {Sensor IBinder} (code : Z)
    (data : list (item Sensor IBinder)) : Prop :=
  exists args, data = ItToken getInterfaceDescriptor :: args /\
    argument_types code = Some (item_type <$> args).

(** What a reply to it holds: a count and as many sensors, a binder, or an
    integer. *)
Definition reply_ok `{IBinderHeader} {Sensor IBinder} (code : Z)
    (reply : list (item Sensor IBinder)) : Prop :=
  if (code =? GET_SENSOR_LIST) || (code =? GET_DYNAMIC_SENSOR_LIST) then
    exists v : list Sensor,
      reply = ItUint32 (u32 (Z.of_nat (length v))) :: (ItSensor <$> v)
  else if code =? CREATE_SENSOR_EVENT_CONNECTION then exists b, reply = [ItBinder b]
  else exists z, reply = [ItInt32 z] /\ in_i32 z.

(** The object at the other end of the binder object [b] is the service [srv]:
    a transaction on [b] is a call of its [onTransact]. *)
Class Transport {Srv W Sensor Conn IBinder parcel} `{StatusCodes} `{IBinderHeader}
    `{!ParcelLib Sensor IBinder parcel} `{!Binder Srv W Conn IBinder parcel}
    `{!ISensorServer Srv W Sensor Conn} (srv : Srv) (b : IBinder) : Prop := {
  transact_spec code data reply w :
    transact b code data reply w =
      (let '(status, r, w') := onTransact srv code (deliver data) reply 0 w in
       (status, deliver r, w'));
  interface_cast_spec c : interface_cast (as_binder c) = c;
}.

(** * Theorems *)

(** Reads the next values of a parcel whose unread part is known. *)
Ltac read_next :=
  match goal with
  | Hp : unread ?p = ItToken _ :: _ |- context [checkInterface ?d ?p] =>
      let p' := fresh "p" in let Hp' := fresh "Hp" in
      destruct (checkInterface_spec d _ p _ Hp) as (p' & -> & Hp')
  | Hp : unread ?p = ItString16 _ :: _ |- context [readString16 ?p] =>
      let p' := fresh "p" in let Hp' := fresh "Hp" in
      destruct (readString16_spec _ p _ Hp) as (p' & -> & Hp')
  | Hp : unread ?p = ItString8 _ :: _ |- context [readString8 ?p] =>
      let p' := fresh "p" in let Hp' := fresh "Hp" in
      destruct (readString8_spec _ p _ Hp) as (p' & -> & Hp')
  | Hp : unread ?p = ItInt32 _ :: _ |- context [readInt32 ?p] =>
      let p' := fresh "p" in let Hp' := fresh "Hp" in
      destruct (readInt32_spec _ p _ Hp) as (p' & -> & Hp')
  | Hp : unread ?p = ItUint32 _ :: _ |- context [readUint32 ?p] =>
      let p' := fresh "p" in let Hp' := fresh "Hp" in
      destruct (readUint32_spec _ p _ Hp) as (p' & -> & Hp')
  | Hp : unread ?p = ItBinder _ :: _ |- context [readStrongBinder ?p] =>
      let p' := fresh "p" in let Hp' := fresh "Hp" in
      destruct (readStrongBinder_spec _ p _ Hp) as (p' & -> & Hp')
  end.

Section Lemmas.
Context {Srv W Sensor Conn IBinder parcel : Type}.
Context `{StatusCodes} `{SensorClass Sensor} `{IBinderHeader} `{!ParcelLib Sensor IBinder parcel}
  `{!Binder Srv W Conn IBinder parcel} `{!ISensorServer Srv W Sensor Conn}
  `{!ParcelLaws Sensor IBinder parcel}.

Lemma read_sensors_prefix n v (p : parcel) s acc rest :
  unread p = (ItSensor <$> v) ++ rest -> (n <= length v)%nat ->
  read_sensors n p s acc = acc ++ take n v.
Proof.
  revert v p s acc. induction n as [|n IH]; intros v p s acc Hp Hn; simpl.
  - by rw app_nil_r.
  - destruct v as [|x v]; simpl in Hn; [lia|]. simpl in Hp.
    destruct (read_sensor_spec x s p _ Hp) as (p' & -> & Hp').
    rw (IH v p' x); [|done|lia]. by rw -app_assoc.
Qed.

(** Reading on past the end repeats the last value. *)
Lemma read_sensors_past_end n (p : parcel) s acc :
  unread p = [] -> read_sensors n p s acc = acc ++ replicate n s.
Proof.
  revert p acc. induction n as [|n IH]; intros p acc Hp; simpl.
  - by rw app_nil_r.
  - destruct (end_read_sensor s p Hp) as (err & _ & p' & -> & Hp').
    rw (IH p'); [|done]. by rw -app_assoc.
Qed.

Lemma read_sensors_short n v (p : parcel) s acc :
  unread p = ItSensor <$> v -> (length v <= n)%nat ->
  read_sensors n p s acc = acc ++ v ++ replicate (n - length v) (default s (last v)).
Proof.
  revert n p s acc. induction v as [|x v IH]; intros n p s acc Hp Hn.
  - simpl. rw Nat.sub_0_r. by apply read_sensors_past_end.
  - rw last_cons. simpl in *. destruct n as [|n]; [lia|]. simpl.
    destruct (read_sensor_spec x s p _ Hp) as (p' & -> & Hp').
    rw (IH n p' x); [|done|lia]. rw -app_assoc. by destruct (last v).
Qed.

Lemma written_sensor_vector v (reply : parcel) :
  written (write_sensor_vector v reply) =
    written reply ++ ItUint32 (u32 (Z.of_nat (length v))) :: (ItSensor <$> v).
Proof.
  assert (forall v p, written (foldl (fun r s => write_sensor s r) p v) =
    written p ++ (ItSensor <$> v)) as Hfold.
  { clear v reply. intros v. induction v as [|x v IH]; intros p; simpl; [by rw app_nil_r|].
    rw IH write_sensor_spec. by rw -app_assoc. }
  unfold write_sensor_vector. rw Hfold writeUint32_spec -app_assoc.
  do 2 f_equal. simpl. do 2 f_equal. unfold u32. by rw Z.mod_mod.
Qed.

(** The handlers, on a request with the right token. *)
Lemma on_get_list_spec get d (data reply : parcel) op rest w :
  unread data = ItToken d :: ItString16 op :: rest ->
  on_get_list get data reply w =
    if decide (d = getInterfaceDescriptor)
    then let '(v, w') := (get op w : list Sensor * W) in (OK, write_sensor_vector v reply, w')
    else (PERMISSION_DENIED, reply, w).
Proof.
  intros Hp. unfold on_get_list. read_next.
  destruct (decide _) as [->|Hd].
  - rw bool_decide_true; [|done]. simpl. read_next. done.
  - by rw bool_decide_false.
Qed.

Lemma on_create_connection_spec (srv : Srv) d (data reply : parcel) pkg mode op rest w :
  unread data = ItToken d :: ItString8 pkg :: ItInt32 mode :: ItString16 op :: rest ->
  on_create_connection srv data reply w =
    if decide (d = getInterfaceDescriptor)
    then let '(c, w') := createSensorEventConnection srv pkg mode op w in
         (OK, writeStrongBinder (as_binder <$> c) reply, w')
    else (PERMISSION_DENIED, reply, w).
Proof.
  intros Hp. unfold on_create_connection. read_next.
  destruct (decide _) as [->|Hd].
  - rw bool_decide_true; [|done]. simpl. do 3 read_next. done.
  - by rw bool_decide_false.
Qed.

Lemma on_data_injection_spec (srv : Srv) d (data reply : parcel) rest w :
  unread data = ItToken d :: rest ->
  on_data_injection srv data reply w =
    if decide (d = getInterfaceDescriptor)
    then let '(r, w') := isDataInjectionEnabled srv w in (OK, writeInt32 r reply, w')
    else (PERMISSION_DENIED, reply, w).
Proof.
  intros Hp. unfold on_data_injection. read_next.
  destruct (decide _) as [->|Hd].
  - by rw bool_decide_true.
  - by rw bool_decide_false.
Qed.

(** The [switch]. *)
Lemma onTransact_switch (srv : Srv) (data reply : parcel) flags w :
  onTransact srv GET_SENSOR_LIST data reply flags w =
    on_get_list (getSensorList srv) data reply w /\
  onTransact srv CREATE_SENSOR_EVENT_CONNECTION data reply flags w =
    on_create_connection srv data reply w /\
  onTransact srv ENABLE_DATA_INJECTION data reply flags w =
    on_data_injection srv data reply w /\
  onTransact srv GET_DYNAMIC_SENSOR_LIST data reply flags w =
    on_get_list (getDynamicSensorList srv) data reply w.
Proof.
  unfold onTransact, GET_DYNAMIC_SENSOR_LIST, ENABLE_DATA_INJECTION,
    CREATE_SENSOR_EVENT_CONNECTION.
  split_and!; bool_cases; try lia; done.
Qed.

(** The vector that the proxy reads of a reply that announces all of [v]. *)
Lemma read_sensor_vector_spec (v : list Sensor) (reply : parcel) :
  unread reply = ItUint32 (u32 (Z.of_nat (length v))) :: (ItSensor <$> v) ->
  read_sensor_vector reply = take (Z.to_nat (u32 (Z.of_nat (length v)))) v.
Proof.
  intros Hp. unfold read_sensor_vector. read_next.
  rw (read_sensors_prefix _ v _ _ _ []); [done|by rw app_nil_r|].
  unfold u32. pose proof (Z.mod_le (Z.of_nat (length v)) 4294967296). lia.
Qed.

(** What the proxies write. *)
Lemma list_request_spec op :
  written (writeString16 op (writeInterfaceToken getInterfaceDescriptor Parcel)) =
    [ItToken getInterfaceDescriptor; ItString16 op].
Proof.
  rw writeString16_spec writeInterfaceToken_spec.
  destruct Parcel_new as [-> _]. done.
Qed.

Lemma connection_request_spec pkg mode op :
  written (writeString16 op (writeInt32 mode (writeString8 pkg
    (writeInterfaceToken getInterfaceDescriptor Parcel)))) =
    [ItToken getInterfaceDescriptor; ItString8 pkg; ItInt32 (i32 mode); ItString16 op].
Proof.
  rw writeString16_spec writeInt32_spec writeString8_spec writeInterfaceToken_spec.
  destruct Parcel_new as [-> _]. done.
Qed.

Lemma token_request_spec :
  written (writeInterfaceToken getInterfaceDescriptor Parcel) =
    [ItToken getInterfaceDescriptor].
Proof. rw writeInterfaceToken_spec. by destruct Parcel_new as [-> _]. Qed.

(** A transaction that delivers a list. *)
Lemma transact_list (srv : Srv) b code get op w :
  Transport srv b ->
  (forall data reply w, onTransact srv code data reply 0 w = on_get_list get data reply w) ->
  (let '(_, reply, w) := transact b code
     (writeString16 op (writeInterfaceToken getInterfaceDescriptor Parcel)) Parcel w in
   (read_sensor_vector reply, w)) =
  (let '(v, w') := get op w in (take (Z.to_nat (u32 (Z.of_nat (length v)))) v, w')).
Proof.
  intros Ht Hcode. rw transact_spec Hcode.
  rw (on_get_list_spec get getInterfaceDescriptor _ _ op []);
    [|by rw deliver_spec list_request_spec].
  destruct (decide _) as [_|Hd]; [|done]. destruct (get op w) as [v w'].
  rw (read_sensor_vector_spec v); [done|].
  rw deliver_spec written_sensor_vector. destruct Parcel_new as [-> _]. done.
Qed.
(** The codes are different. *)
Lemma codes_differ :
  GET_SENSOR_LIST <> CREATE_SENSOR_EVENT_CONNECTION /\ GET_SENSOR_LIST <> ENABLE_DATA_INJECTION /\
  GET_SENSOR_LIST <> GET_DYNAMIC_SENSOR_LIST /\
  CREATE_SENSOR_EVENT_CONNECTION <> ENABLE_DATA_INJECTION /\
  CREATE_SENSOR_EVENT_CONNECTION <> GET_DYNAMIC_SENSOR_LIST /\
  ENABLE_DATA_INJECTION <> GET_DYNAMIC_SENSOR_LIST.
Proof.
  unfold GET_DYNAMIC_SENSOR_LIST, ENABLE_DATA_INJECTION, CREATE_SENSOR_EVENT_CONNECTION.
  split_and!; lia.
Qed.

Lemma on_get_list_typed get (data reply : parcel) op (w : W) :
  unread data = [ItToken getInterfaceDescriptor; ItString16 op] ->
  exists reply' w' v, on_get_list get data reply w = (OK, reply', w') /\
  written reply' =
    written reply ++ ItUint32 (u32 (Z.of_nat (length v))) :: (ItSensor <$> (v : list Sensor)).
Proof.
  intros Hdata. rw (on_get_list_spec get _ _ _ _ _ _ Hdata).
  destruct (decide _) as [_|]; [|done]. destruct (get op w) as [v w'].
  do 3 eexists. split; [done|]. apply written_sensor_vector.
Qed.

(** The stub's half of the typing: a well-typed request has a well-typed
    reply. *)
Lemma onTransact_typed (srv : Srv) code (data reply : parcel) flags w :
  request_ok code (unread data) ->
  exists reply' w' items, onTransact srv code data reply flags w = (OK, reply', w') /\
  written reply' = written reply ++ items /\ reply_ok code items.
Proof.
  intros (args & Hdata & Hargs). unfold argument_types in Hargs.
  pose proof codes_differ as Hd. unfold reply_ok, onTransact.
  destruct (Z.eqb_spec code GET_SENSOR_LIST) as [->|]; [|
    destruct (Z.eqb_spec code CREATE_SENSOR_EVENT_CONNECTION) as [->|]; [|
    destruct (Z.eqb_spec code ENABLE_DATA_INJECTION) as [->|]; [|
    destruct (Z.eqb_spec code GET_DYNAMIC_SENSOR_LIST) as [->|]]]].
  - destruct args as [|[] [|]]; try done.
    destruct (on_get_list_typed (getSensorList srv) data reply _ w Hdata)
      as (reply' & w' & v & -> & Hv). do 3 eexists. split_and!; [done|exact Hv|]. by exists v.
  - destruct args as [|[] [|[] [|[] [|]]]]; try done.
    rw (on_create_connection_spec _ _ _ _ _ _ _ _ _ Hdata). destruct (decide _) as [_|]; [|done].
    destruct (createSensorEventConnection srv _ _ _ w) as [c w'].
    do 3 eexists. split_and!; [done|apply writeStrongBinder_spec|].
    destruct (Z.eqb_spec CREATE_SENSOR_EVENT_CONNECTION GET_DYNAMIC_SENSOR_LIST); [naive_solver|].
    by eexists.
  - destruct args as [|[] ?]; try done.
    rw (on_data_injection_spec _ _ _ _ _ _ Hdata). destruct (decide _) as [_|]; [|done].
    destruct (isDataInjectionEnabled srv w) as [r w'].
    do 3 eexists. split_and!; [done|apply writeInt32_spec|].
    destruct (Z.eqb_spec ENABLE_DATA_INJECTION GET_DYNAMIC_SENSOR_LIST); [naive_solver|].
    eexists. split; [done|]. apply i32_range.
  - destruct args as [|[] [|]]; try done.
    destruct (on_get_list_typed (getDynamicSensorList srv) data reply _ w Hdata)
      as (reply' & w' & v & -> & Hv). do 3 eexists. split_and!; [done|exact Hv|]. by exists v.
  - done.
Qed.
End Lemmas.

(** C14: calls of the proxy are calls of the service.  Through a transport
    that delivers its transactions to the stub of a service, each method of
    [BpSensorServer] returns what the method of the service returns for the
    same arguments, and the service is called exactly once: a list arrives
    whole and in order unless it has 2^32 sensors or more, a connection arrives
    as the same connection (null stays null), and [int]s at their width. *)
Theorem marshalling_transparent {Srv W Sensor Conn IBinder parcel}
    `{StatusCodes} `{SensorClass Sensor} `{IBinderHeader} `{!ParcelLib Sensor IBinder parcel}
    `{!Binder Srv W Conn IBinder parcel} `{!ISensorServer Srv W Sensor Conn}
    `{!ParcelLaws Sensor IBinder parcel} (srv : Srv) (b : IBinder) (Ht : Transport srv b) :
  (forall op w, Bp_getSensorList (mkBp b) op w =
     (let '(v, w') := getSensorList srv op w in
      (take (Z.to_nat (u32 (Z.of_nat (length v)))) v, w'))) /\
  (forall op w, Bp_getDynamicSensorList (mkBp b) op w =
     (let '(v, w') := getDynamicSensorList srv op w in
      (take (Z.to_nat (u32 (Z.of_nat (length v)))) v, w'))) /\
  (forall pkg mode op w, Bp_createSensorEventConnection (mkBp b) pkg mode op w =
     createSensorEventConnection srv pkg (i32 mode) op w) /\
  (forall w, Bp_isDataInjectionEnabled (mkBp b) w =
     (let '(r, w') := isDataInjectionEnabled srv w in (i32 r, w'))).
Proof.
  split_and!.
  - intros op w. apply (transact_list srv); [done|]. intros data reply w'.
    apply (onTransact_switch srv data reply 0 w').
  - intros op w. apply (transact_list srv); [done|]. intros data reply w'.
    apply (onTransact_switch srv data reply 0 w').
  - intros pkg mode op w. unfold Bp_createSensorEventConnection. simpl. rw transact_spec.
    destruct (onTransact_switch srv (deliver (writeString16 op (writeInt32 mode (writeString8 pkg
      (writeInterfaceToken getInterfaceDescriptor Parcel))))) Parcel 0 w) as (_ & -> & _ & _).
    erewrite on_create_connection_spec; [|by rw deliver_spec connection_request_spec].
    destruct (decide _) as [_|Hd]; [|done].
    destruct (createSensorEventConnection srv pkg (i32 mode) op w) as [c w'].
    assert (unread (deliver (writeStrongBinder (as_binder <$> c) Parcel)) =
      [ItBinder (as_binder <$> c)]) as Hp.
    { rw deliver_spec writeStrongBinder_spec. by destruct Parcel_new as [-> _]. }
    read_next. destruct c as [c|]; simpl; [|done]. by rw (interface_cast_spec (srv := srv) (b := b)).
  - intros w. unfold Bp_isDataInjectionEnabled. simpl. rw transact_spec.
    destruct (onTransact_switch srv (deliver (writeInterfaceToken getInterfaceDescriptor Parcel))
      Parcel 0 w) as (_ & _ & -> & _).
    erewrite on_data_injection_spec; [|by rw deliver_spec token_request_spec].
    destruct (decide _) as [_|Hd]; [|done]. destruct (isDataInjectionEnabled srv w) as [r w'].
    assert (unread (deliver (writeInt32 r Parcel)) = [ItInt32 (i32 r)]) as Hp.
    { rw deliver_spec writeInt32_spec. by destruct Parcel_new as [-> _]. }
    read_next. done.
Qed.

(** C32: every transaction is well typed.  Each proxy method sends one request,
    with the token and the argument types of its code; and on any request that
    is well typed the stub answers with [NO_ERROR] and appends to the reply
    exactly the values of that code's reply: a count followed by as many
    sensors (as a 32-bit count can tell), one binder, or one 32-bit integer. *)
Theorem transactions_typed {Srv W Sensor Conn IBinder parcel}
    `{StatusCodes} `{SensorClass Sensor} `{IBinderHeader} `{!ParcelLib Sensor IBinder parcel}
    `{!Binder Srv W Conn IBinder parcel} `{!ISensorServer Srv W Sensor Conn}
    `{!ParcelLaws Sensor IBinder parcel} :
  (forall b op w, exists data, request_ok GET_SENSOR_LIST (written data) /\
     Bp_getSensorList (mkBp b) op w =
       (let '(_, reply, w') := transact b GET_SENSOR_LIST data Parcel w in
        (read_sensor_vector reply, w'))) /\
  (forall b op w, exists data, request_ok GET_DYNAMIC_SENSOR_LIST (written data) /\
     Bp_getDynamicSensorList (mkBp b) op w =
       (let '(_, reply, w') := transact b GET_DYNAMIC_SENSOR_LIST data Parcel w in
        (read_sensor_vector reply, w'))) /\
  (forall b pkg mode op w, exists data,
     request_ok CREATE_SENSOR_EVENT_CONNECTION (written data) /\
     Bp_createSensorEventConnection (mkBp b) pkg mode op w =
       (let '(_, reply, w') := transact b CREATE_SENSOR_EVENT_CONNECTION data Parcel w in
        (interface_cast <$> (readStrongBinder reply).1, w'))) /\
  (forall b w, exists data, request_ok ENABLE_DATA_INJECTION (written data) /\
     Bp_isDataInjectionEnabled (mkBp b) w =
       (let '(_, reply, w') := transact b ENABLE_DATA_INJECTION data Parcel w in
        ((readInt32 reply).1, w'))) /\
  (forall (srv : Srv) code data reply flags w, request_ok code (unread data) ->
     exists reply' w' items, onTransact srv code data reply flags w = (OK, reply', w') /\
     written reply' = written reply ++ items /\ reply_ok code items).
Proof.
  unfold request_ok, argument_types, reply_ok, GET_DYNAMIC_SENSOR_LIST, ENABLE_DATA_INJECTION,
    CREATE_SENSOR_EVENT_CONNECTION, GET_DYNAMIC_SENSOR_LIST.
  split_and!.
  - intros b op w. eexists. split; [|reflexivity]. eexists. split; [apply list_request_spec|].
    by bool_cases.
  - intros b op w. eexists. split; [|reflexivity]. eexists. split; [apply list_request_spec|].
    bool_cases; try lia; done.
  - intros b pkg mode op w. eexists. split; [eexists; split; [apply (connection_request_spec pkg mode op)|]|].
    + bool_cases; try lia; done.
    + unfold Bp_createSensorEventConnection. simpl.
      destruct (transact _ _ _ _ _) as [[st reply] w']. by destruct (readStrongBinder reply).
  - intros b w. eexists. split; [eexists; split; [apply token_request_spec|]|].
    + bool_cases; try lia; done.
    + unfold Bp_isDataInjectionEnabled. simpl.
      destruct (transact _ _ _ _ _) as [[st reply] w']. by destruct (readInt32 reply).
  - apply onTransact_typed.
Qed.

(** What the stub refuses.  A transaction of the interface without the
    right interface token, or with no data at all, is answered with
    [PERMISSION_DENIED]: the service is not called and nothing is written into
    the reply.  A code that is not one of the interface goes to the base
    class, whatever the data. *)
Theorem stub_refuses {Srv W Sensor Conn IBinder parcel}
    `{StatusCodes} `{SensorClass Sensor} `{IBinderHeader} `{!ParcelLib Sensor IBinder parcel}
    `{!Binder Srv W Conn IBinder parcel} `{!ISensorServer Srv W Sensor Conn}
    `{!ParcelLaws Sensor IBinder parcel} (srv : Srv) code (data reply : parcel) flags w :
  (is_Some (argument_types code) ->
   unread data = [] \/
     (exists d rest, unread data = ItToken d :: rest /\ d <> getInterfaceDescriptor) ->
   onTransact srv code data reply flags w = (PERMISSION_DENIED, reply, w)) /\
  (argument_types code = None ->
   onTransact srv code data reply flags w = BBinder_onTransact srv code data reply flags w).
Proof.
  split.
  - intros Hcode Hdata.
    assert (exists p, checkInterface getInterfaceDescriptor data = (false, p)) as [p Hp].
    { destruct Hdata as [Hdata|(d & rest & Hdata & Hd)].
      - destruct (end_checkInterface getInterfaceDescriptor data Hdata) as (p & -> & _). by exists p.
      - destruct (checkInterface_spec getInterfaceDescriptor d data rest Hdata) as (p & -> & _).
        exists p. by rw bool_decide_false. }
    unfold onTransact, on_get_list, on_create_connection, on_data_injection. rw Hp. simpl.
    unfold argument_types in Hcode.
    repeat case_match; try done.
  - unfold argument_types, onTransact. intros Hcode. by repeat case_match.
Qed.

(** C33: what the proxy makes of a failed call.  It looks neither at the
    status of a transaction nor at the status of a read, so: an empty reply,
    which is what a failed transaction leaves, is an empty list, a null
    connection, and data injection disabled; and a reply that ends before the
    announced number of sensors is a list of the announced length, filled up
    with copies of the last sensor that was read, or of [Sensor()]. *)
Theorem proxy_ignores_errors {Srv W Sensor Conn IBinder parcel}
    `{StatusCodes} `{SensorClass Sensor} `{IBinderHeader} `{!ParcelLib Sensor IBinder parcel}
    `{!Binder Srv W Conn IBinder parcel} `{!ParcelLaws Sensor IBinder parcel}
    (b : IBinder) (w w' : W) (reply : parcel)
    (Hreply : forall code data, exists status, transact b code data Parcel w = (status, reply, w')) :
  (unread reply = [] -> forall pkg mode op,
     Bp_getSensorList (mkBp b) op w = ([], w') /\
     Bp_getDynamicSensorList (mkBp b) op w = ([], w') /\
     Bp_createSensorEventConnection (mkBp b) pkg mode op w = (None, w') /\
     Bp_isDataInjectionEnabled (mkBp b) w = (0, w')) /\
  (forall n (v : list Sensor) op, unread reply = ItUint32 n :: (ItSensor <$> v) ->
     Z.of_nat (length v) <= n ->
     let v' := v ++ replicate (Z.to_nat n - length v) (default new_Sensor (last v)) in
     Bp_getSensorList (mkBp b) op w = (v', w') /\
     Bp_getDynamicSensorList (mkBp b) op w = (v', w')).
Proof.
  unfold Bp_getSensorList, Bp_getDynamicSensorList, Bp_createSensorEventConnection,
    Bp_isDataInjectionEnabled, read_sensor_vector. simpl. split.
  - intros Hend pkg mode op.
    destruct (end_readUint32 reply Hend) as (p1 & Hp1 & _).
    destruct (end_readStrongBinder reply Hend) as (p2 & Hp2 & _).
    destruct (end_readInt32 reply Hend) as (p3 & Hp3 & _).
    split_and!;
      match goal with |- context [transact b ?code ?data Parcel w] =>
        destruct (Hreply code data) as [st ->] end; [by rw Hp1|by rw Hp1|by rw Hp2|by rw Hp3].
  - intros n v op Hp Hn. destruct (readUint32_spec n reply _ Hp) as (p1 & Hp1 & Hrest).
    split;
      match goal with |- context [transact b ?code ?data Parcel w] =>
        destruct (Hreply code data) as [st ->] end; rw Hp1;
      (rw (read_sensors_short _ v); [done|done|lia]).
Qed.

(** ** A library for the witnesses

    Parcels as two lists, and one service in the same process. *)
Module Loopback.
(** A sensor is its handle, type and wake-up flag. *)
Definition Sensor : Type := Z * Z * bool.
Definition parcel : Type := list (item Sensor Z) * list (item Sensor Z).
Definition put (i : item Sensor Z) (p : parcel) : parcel := (p.1 ++ [i], p.2).
Definition skip (p : parcel) : parcel := (p.1, tail p.2).

#[export] Existing Instance errno_codes.
#[export] Instance sensor_class : SensorClass Sensor := {
  new_Sensor := (0, 0, false); getType s := s.1.2; isWakeUpSensor s := s.2;
}.

#[export] Instance parcels : ParcelLib Sensor Z parcel := {
  Parcel := ([], []);
  writeInterfaceToken d := put (ItToken d);
  writeString16 s := put (ItString16 s);
  writeString8 s := put (ItString8 s);
  writeInt32 z := put (ItInt32 (i32 z));
  writeUint32 z := put (ItUint32 (u32 z));
  write_sensor s := put (ItSensor s);
  writeStrongBinder b := put (ItBinder b);
  checkInterface d p :=
    match p.2 with ItToken e :: _ => (bool_decide (e = d), skip p) | _ => (false, p) end;
  readString16 p := match p.2 with ItString16 s :: _ => (s, skip p) | _ => ([], p) end;
  readString8 p := match p.2 with ItString8 s :: _ => (s, skip p) | _ => (""%string, p) end;
  readInt32 p := match p.2 with ItInt32 z :: _ => (z, skip p) | _ => (0, p) end;
  readUint32 p := match p.2 with ItUint32 z :: _ => (z, skip p) | _ => (0, p) end;
  read_sensor s0 p := match p.2 with ItSensor s :: _ => (0, s, skip p) | _ => (-61, s0, p) end;
  readStrongBinder p := match p.2 with ItBinder b :: _ => (b, skip p) | _ => (None, p) end;
  written p := p.1;
  unread p := p.2;
  deliver p := ([], p.1);
}.

#[export] Instance parcel_laws : ParcelLaws Sensor Z parcel.
Proof.
  constructor; simpl; try done; unfold reads_as; simpl;
    try (intros *; destruct p as [u r]; simpl; intros ->; by eexists).
  intros s0 [u r]. simpl. intros ->. exists (-61). split; [done|]. by eexists.
Qed.

(** The service: its sensors, its dynamic sensors, and the connections it has
    made, which are numbers. *)
Record service := mkService { sensors : list Sensor; dynamic_sensors : list Sensor }.

#[export] Instance service_is_ISensorServer : ISensorServer service Z Sensor Z := {
  getSensorList srv op w := (sensors srv, w);
  getDynamicSensorList srv op w := (dynamic_sensors srv, w);
  createSensorEventConnection srv pkg mode op w :=
    if bool_decide (op = []) then (None, w) else (Some w, w + 1);
  isDataInjectionEnabled srv w := (1, w);
}.

#[export] Instance header : IBinderHeader := { FIRST_CALL_TRANSACTION := 1 }.

Definition base : Binder service Z Z Z parcel := {|
  transact b code data reply w := (-32, reply, w);
  as_binder c := c;
  interface_cast b := b;
  BBinder_onTransact srv code data reply flags w := (-74, reply, w);
|}.

Definition binder_to (srv : service) : Binder service Z Z Z parcel := {|
  transact b code data reply w :=
    let '(status, r, w') := onTransact (Binder0 := base) srv code (deliver data) reply 0 w in
    (status, deliver r, w');
  as_binder c := c;
  interface_cast b := b;
  BBinder_onTransact srv code data reply flags w := (-74, reply, w);
|}.

Lemma transport srv b : Transport (Binder0 := binder_to srv) srv b.
Proof. by constructor. Qed.

Definition two_sensors : service := mkService [(1, 8, true); (2, 5, false)] [(9, 5, false)].
End Loopback.

Section Witnesses.
Import Loopback.

Lemma marshalling_transparent_witness :
  Bp_getSensorList (Binder0 := binder_to two_sensors) (mkBp 0) (to_String16 "app") 7 =
    ([(1, 8, true); (2, 5, false)], 7) /\
  Bp_createSensorEventConnection (Binder0 := binder_to two_sensors) (mkBp 0) "p" 0 [] 7 =
    (None, 7).
Proof.
  destruct (marshalling_transparent (Binder0 := binder_to two_sensors) two_sensors 0
    (transport two_sensors 0)) as (Hl & _ & Hc & _).
  split; [etransitivity; [apply Hl|] | etransitivity; [apply Hc|]]; vm_compute; reflexivity.
Defined.

Lemma transactions_typed_witness :
  exists reply' w' items,
    onTransact (Binder0 := base) two_sensors ENABLE_DATA_INJECTION
      ([], [ItToken getInterfaceDescriptor]) Parcel 0 3 = (OK, reply', w') /\
    written reply' = written Parcel ++ items /\ reply_ok ENABLE_DATA_INJECTION items.
Proof.
  destruct (transactions_typed (Binder0 := base) (W := Z)) as (_ & _ & _ & _ & Hstub).
  apply (Hstub two_sensors ENABLE_DATA_INJECTION ([], [ItToken getInterfaceDescriptor]) Parcel 0 3).
  exists []. split; reflexivity.
Defined.

Lemma stub_refuses_witness :
  onTransact (Binder0 := base) two_sensors GET_SENSOR_LIST
    ([], [ItToken (to_String16 "other"); ItString16 []]) Parcel 0 3 =
    (PERMISSION_DENIED, Parcel, 3) /\
  onTransact (Binder0 := base) two_sensors 99 Parcel Parcel 0 3 = (-74, Parcel, 3).
Proof.
  destruct (stub_refuses (Binder0 := base) two_sensors GET_SENSOR_LIST
    ([], [ItToken (to_String16 "other"); ItString16 []]) Parcel 0 3) as [Hr _].
  destruct (stub_refuses (Binder0 := base) two_sensors 99 Parcel Parcel 0 3) as [_ Hb].
  split.
  - apply Hr.
    + by eexists.
    + right. do 2 eexists. split; [reflexivity|]. apply (bool_decide_unpack _). vm_compute. reflexivity.
  - etransitivity; [apply Hb|]; reflexivity.
Defined.

(** A binder that answers every transaction with the same reply. *)
Definition answering (reply : parcel) : Binder service Z Z Z parcel := {|
  transact b code data r w := (0, reply, w);
  as_binder c := c;
  interface_cast b := b;
  BBinder_onTransact srv code data reply flags w := (-74, reply, w);
|}.

Lemma proxy_ignores_errors_witness :
  Bp_getSensorList (Binder0 := answering ([], [ItUint32 3; ItSensor (4, 8, true)])) (mkBp 0) [] 7 =
    ([(4, 8, true); (4, 8, true); (4, 8, true)], 7).
Proof.
  destruct (proxy_ignores_errors (Binder0 := answering ([], [ItUint32 3; ItSensor (4, 8, true)]))
    0 7 7 ([], [ItUint32 3; ItSensor (4, 8, true)])) as [_ Hs].
  - intros code data. by exists 0.
  - destruct (Hs 3 [(4, 8, true)] []) as [Hl _]; [reflexivity|simpl; lia|]. exact Hl.
Defined.
End Witnesses.
