(* ===== verification/SensorManager.v ===== *)
(** * The legacy sensor manager

    Model of libshims/gui/SensorManager.cpp: the connection of an instance to
    the sensor service and its re-establishment, the list of sensor pointers it
    hands out, and the calls of clients.  The instances per package are in
    SensorInstances.v.

    Memory is explicit: a [Vector<Sensor>]'s array and the [malloc]ed list of
    [Sensor*] are blocks of a heap whose addresses are not reused, so that a
    pointer that outlives its block is visible.  An operation on an instance is
    a computation on the instance, the heap and the rest of the world; it can
    be stopped by [LOG_ALWAYS_FATAL_IF] ([Fatal]) or have no defined outcome
    ([Undefined]).  Every operation here runs with [mLock] held, except the
    constructor (see SensorManagerThreads.v).

    The service is an [ISensorServer] (SensorServer.v).  libbinder, libsensor
    and the C library are parameters, in the class [SensorEnv]. *)
From S2P Require Import Prelude Status SensorsHal SensorServer.

(** ** Outcomes *)

Inductive result (A : Type) :=
| Done (a : A)
| Fatal
| Undefined.
Arguments Done {A}.
Arguments Fatal {A}.
Arguments Undefined {A}.

(** ** Memory *)

(** [mSensors.array() + i]: the block of the array, and the index. *)
Definition sensor_ptr : Type := Z * Z.

Inductive block (Sensor : Type) :=
| Storage (items : list Sensor)                    (* the array of a Vector *)
| PtrArray (slots : list (option sensor_ptr))      (* malloc; None: not written *)
| Observer.                                        (* a DeathObserver *)
Arguments Storage {Sensor}.
Arguments PtrArray {Sensor}.
Arguments Observer {Sensor}.

(** Addresses below [h_next] have been used. *)
Record heap (Sensor : Type) := mkHeap { h_next : Z; h_blocks : gmap Z (block Sensor) }.
Arguments mkHeap {Sensor}.
Arguments h_next {Sensor}.
Arguments h_blocks {Sensor}.

Definition heap_new {Sensor} (b : block Sensor) (h : heap Sensor) : Z * heap Sensor :=
  (h_next h, mkHeap (h_next h + 1) (<[h_next h := b]> (h_blocks h))).

Definition heap_set {Sensor} (p : Z) (b : block Sensor) (h : heap Sensor) : heap Sensor :=
  mkHeap (h_next h) (<[p := b]> (h_blocks h)).

(** [free]: of the null pointer it does nothing, of an address that is not
    allocated it is undefined. *)
Definition heap_free {Sensor} (p : option Z) (h : heap Sensor) : option (heap Sensor) :=
  match p with
  | None => Some h
  | Some p => match h_blocks h !! p with
      | Some _ => Some (mkHeap (h_next h) (delete p (h_blocks h)))
      | None => None
      end
  end.

(** A [Vector<Sensor>]; [array()] of an empty one is null. *)
Record Vector := mkVector { v_array : option Z; v_size : Z }.
Definition empty_vector : Vector := mkVector None 0.

(** The vector a call returns. *)
Definition new_vector {Sensor} (items : list Sensor) (h : heap Sensor) : Vector * heap Sensor :=
  match items with
  | [] => (empty_vector, h)
  | _ => let '(a, h) := heap_new (Storage items) h in
         (mkVector (Some a) (Z.of_nat (length items)), h)
  end.

(** ** Instances *)

Record SensorManager (Srv : Type) := mkManager {
  mSensorServer : option Srv;
  mSensorList : option Z;
  mSensors : Vector;
  mDeathObserver : option Z;
  mOpPackageName : String16;
}.
Arguments mkManager {Srv}.
Arguments mSensorServer {Srv}.
Arguments mSensorList {Srv}.
Arguments mSensors {Srv}.
Arguments mDeathObserver {Srv}.
Arguments mOpPackageName {Srv}.

(** What the file uses of code outside of the repository.  [getService] gives
    its status and the new value of its out parameter; [linkToDeath] registers
    the observer at an address; [malloc_ok] says whether an allocation of that
    many bytes succeeds. *)
Class SensorEnv (Srv W Conn Queue : Type) := {
  sizeof_pointer : Z;
  malloc_ok : Z -> bool;
  pingBinder : Srv -> W -> Z * W;
  getService : String16 -> option Srv -> W -> Z * option Srv * W;
  linkToDeath : Srv -> Z -> W -> W;
  sleep : Z -> W -> W;
  new_SensorEventQueue : Conn -> W -> Queue * W;
  getPermissionService : W -> option Z * W;   (* getService("permission") *)
  getCallingUid : W -> Z * W;
  getPackagesForUid : Z -> Z -> W -> list String16 * W;
}.

(** The shim is built for a 32-bit and a 64-bit ABI; a [status_t] is 0 or a
    negative error; and a vector of [n] sensors, each larger than a pointer,
    fits into the address space. *)
Class SensorEnvLaws (Srv W Sensor Conn Queue : Type) `{ISensorServer Srv W Sensor Conn}
    `{SensorEnv Srv W Conn Queue} : Prop := {
  pointer_width : sizeof_pointer = 4 \/ sizeof_pointer = 8;
  getService_status name out (w : W) : (getService name out w).1.1 <= 0;
  vector_fits server pkg (w : W) :
    Z.of_nat (length (getSensorList server pkg w).1) * sizeof_pointer < 2 ^ (8 * sizeof_pointer);
}.

Section Manager.
Context {Srv W Sensor Conn Queue : Type}.
Context `{StatusCodes} `{SensorsHeader} `{SensorClass Sensor}
  `{!ISensorServer Srv W Sensor Conn} `{!SensorEnv Srv W Conn Queue}.

(** The state of a member function: [*this], the heap and the world. *)
Record sm_state := mkState {
  this : SensorManager Srv;
  memory : heap Sensor;
  world : W;
}.

Definition M (A : Type) : Type := sm_state -> result (A * sm_state).

#[export] Instance M_ret : MRet M := fun A a st => Done (a, st).
#[export] Instance M_bind : MBind M := fun A B f m st =>
  match m st with Done (a, st') => f a st' | Fatal => Fatal | Undefined => Undefined end.

Definition get_state : M sm_state := fun st => Done (st, st).
Definition or_undefined {A} (o : option A) : M A :=
  fun st => match o with Some a => Done (a, st) | None => Undefined end.
Definition LOG_ALWAYS_FATAL_IF (b : bool) : M unit :=
  fun st => if b then Fatal else Done (tt, st).

(** Assignments to members, and the parts of the state. *)
Definition set_server (s : option Srv) : M unit := fun st =>
  let m := this st in
  Done (tt, mkState (mkManager s (mSensorList m) (mSensors m) (mDeathObserver m)
                       (mOpPackageName m)) (memory st) (world st)).
Definition set_list (l : option Z) : M unit := fun st =>
  let m := this st in
  Done (tt, mkState (mkManager (mSensorServer m) l (mSensors m) (mDeathObserver m)
                       (mOpPackageName m)) (memory st) (world st)).
Definition set_vector (v : Vector) : M unit := fun st =>
  let m := this st in
  Done (tt, mkState (mkManager (mSensorServer m) (mSensorList m) v (mDeathObserver m)
                       (mOpPackageName m)) (memory st) (world st)).
Definition set_observer (o : option Z) : M unit := fun st =>
  let m := this st in
  Done (tt, mkState (mkManager (mSensorServer m) (mSensorList m) (mSensors m) o
                       (mOpPackageName m)) (memory st) (world st)).

(** A call of code outside, an allocation and a release. *)
Definition call {A} (f : W -> A * W) : M A := fun st =>
  let '(a, w) := f (world st) in Done (a, mkState (this st) (memory st) w).
Definition alloc {A} (f : heap Sensor -> A * heap Sensor) : M A := fun st =>
  let '(a, h) := f (memory st) in Done (a, mkState (this st) h (world st)).
Definition free (p : option Z) : M unit := fun st =>
  match heap_free p (memory st) with
  | Some h => Done (tt, mkState (this st) h (world st))
  | None => Undefined
  end.

(** [malloc(count * sizeof(Sensor * ))]: as many slots as fit. *)
Definition malloc_pointers (count : Z) : M (option Z) :=
  let size := (count * sizeof_pointer) mod 2 ^ (8 * sizeof_pointer) in
  if malloc_ok size
  then p ← alloc (heap_new (PtrArray (replicate (Z.to_nat (size / sizeof_pointer)) None)));
       mret (Some p)
  else mret None.

(** [mSensorList[i] = p]. *)
Definition store_slot (i : Z) (p : sensor_ptr) : M unit := fun st =>
  match mSensorList (this st) with
  | Some l => match h_blocks (memory st) !! l with
      | Some (PtrArray slots) =>
          match arr_set slots i (Some p) with
          | Some slots' =>
              Done (tt, mkState (this st) (heap_set l (PtrArray slots') (memory st)) (world st))
          | None => Undefined
          end
      | _ => Undefined
      end
  | None => Undefined
  end.

(** [list[i]] and the sensor that a pointer points to. *)
Definition read_slot (h : heap Sensor) (l : option Z) (i : Z) : option sensor_ptr :=
  l ← l;
  match h_blocks h !! l with Some (PtrArray slots) => mjoin (arr_get slots i) | _ => None end.
Definition read_sensor_at (h : heap Sensor) (p : sensor_ptr) : option Sensor :=
  match h_blocks h !! p.1 with Some (Storage items) => arr_get items p.2 | _ => None end.

(** ** The connection *)

(** [getService(name, &mSensorServer)]. *)
Definition get_service (name : String16) : M Z :=
  st ← get_state;
  '(err, out) ← call (getService name (mSensorServer (this st)));
  set_server out;;
  mret err.

(** The [for] loop, of which [n] iterations are left: the value of the
    [return] in it, or [None] when it is left by [break] or at its end. *)
Fixpoint get_service_loop (name : String16) (n : nat) : M (option Z) :=
  match n with
  | O => mret None
  | S n =>
      err ← get_service name;
      if err =? NAME_NOT_FOUND then
        call (fun w => (tt, sleep 1 w));;
        get_service_loop name n
      else if negb (err =? NO_ERROR) then mret (Some err)
      else mret None
  end.

(** [mDeathObserver = new DeathObserver(...); linkToDeath(mDeathObserver)]. *)
Definition observe_server : M unit :=
  o ← alloc (heap_new Observer);
  st ← get_state;
  free (mDeathObserver (this st));;
  set_observer (Some o);;
  server ← or_undefined (mSensorServer (this st));
  call (fun w => (tt, linkToDeath server o w)).

(** [mSensors = mSensorServer->getSensorList(mOpPackageName)]. *)
Definition fetch_sensors : M unit :=
  st ← get_state;
  server ← or_undefined (mSensorServer (this st));
  items ← call (getSensorList server (mOpPackageName (this st)));
  v ← alloc (new_vector items);
  free (v_array (mSensors (this st)));;
  set_vector v.

(** [for (size_t i = 0; i < count; i++) mSensorList[i] = mSensors.array() + i],
    with [n] iterations left. *)
Fixpoint fill_list (n : nat) (i : Z) : M unit :=
  match n with
  | O => mret tt
  | S n =>
      st ← get_state;
      a ← or_undefined (v_array (mSensors (this st)));
      store_slot i (a, i);;
      fill_list n (i + 1)
  end.

Definition build_list : M unit :=
  st ← get_state;
  let count := v_size (mSensors (this st)) in
  l ← malloc_pointers count;
  set_list l;;
  LOG_ALWAYS_FATAL_IF (bool_decide (l = None));;
  fill_list (Z.to_nat count) 0.

(** The test that a connection has to be made. *)
Definition must_connect : M bool :=
  st ← get_state;
  match mSensorServer (this st) with
  | None => mret true
  | Some server => err ← call (pingBinder server); mret (negb (err =? NO_ERROR))
  end.

Definition sensorservice : String16 := to_String16 "sensorservice".

Definition assertStateLocked : M Z :=
  initSensorManager ← must_connect;
  if initSensorManager : bool then
    r ← get_service_loop sensorservice 60;
    match r with
    | Some err => mret err
    | None =>
        st ← get_state;
        LOG_ALWAYS_FATAL_IF (bool_decide (mSensorServer (this st) = None));;
        observe_server;;
        fetch_sensors;;
        build_list;;
        mret NO_ERROR
    end
  else mret NO_ERROR.

(** The notification of the service's death. *)
Definition sensorManagerDied : M unit :=
  set_server None;;
  st ← get_state;
  free (mSensorList (this st));;
  set_list None;;
  free (v_array (mSensors (this st)));;
  set_vector empty_vector.

(** ** The calls *)

(** The [ssize_t] result and the value stored in [*list], if any. *)
Definition SensorManager_getSensorList : M (Z * option (option Z)) :=
  err ← assertStateLocked;
  if err <? 0 then mret (err, None)
  else
    st ← get_state;
    mret (v_size (mSensors (this st)), Some (mSensorList (this st))).

(** The result and the value assigned to [dynamicSensors], if any. *)
Definition SensorManager_getDynamicSensorList : M (Z * option (list Sensor)) :=
  err ← assertStateLocked;
  if err <? 0 then mret (err, None)
  else
    st ← get_state;
    server ← or_undefined (mSensorServer (this st));
    dynamicSensors ← call (getDynamicSensorList server (mOpPackageName (this st)));
    mret (Z.of_nat (length dynamicSensors), Some dynamicSensors).

Definition wakes_up (type : Z) : bool :=
  (type =? SENSOR_TYPE_PROXIMITY) || (type =? SENSOR_TYPE_SIGNIFICANT_MOTION) ||
  (type =? SENSOR_TYPE_TILT_DETECTOR) || (type =? SENSOR_TYPE_WAKE_GESTURE) ||
  (type =? SENSOR_TYPE_GLANCE_GESTURE) || (type =? SENSOR_TYPE_PICK_UP_GESTURE) ||
  (type =? SENSOR_TYPE_WRIST_TILT_GESTURE).

(** The loop of [getDefaultSensor], with [n] iterations left. *)
Fixpoint find_default (type : Z) (wakeUpSensor : bool) (n : nat) (i : Z) : M (option sensor_ptr) :=
  match n with
  | O => mret None
  | S n =>
      st ← get_state;
      p ← or_undefined (read_slot (memory st) (mSensorList (this st)) i);
      s ← or_undefined (read_sensor_at (memory st) p);
      if (getType s =? type) && Bool.eqb (isWakeUpSensor s) wakeUpSensor then mret (Some p)
      else find_default type wakeUpSensor n (i + 1)
  end.

Definition getDefaultSensor (type : Z) : M (option sensor_ptr) :=
  err ← assertStateLocked;
  if err =? NO_ERROR then
    st ← get_state;
    find_default type (wakes_up type) (Z.to_nat (v_size (mSensors (this st)))) 0
  else mret None.

Definition createEventQueue (packageName : string) (mode : Z) : M (option Queue) :=
  err ← assertStateLocked;
  if err =? NO_ERROR then
    st ← get_state;
    server ← or_undefined (mSensorServer (this st));
    connection ← call (createSensorEventConnection server packageName mode
                         (mOpPackageName (this st)));
    match connection with
    | None => mret None
    | Some connection => queue ← call (new_SensorEventQueue connection); mret (Some queue)
    end
  else mret None.

(** The overload without arguments. *)
Definition createEventQueue_default : M (option Queue) := createEventQueue "" 0.

Definition SensorManager_isDataInjectionEnabled : M bool :=
  err ← assertStateLocked;
  if err =? NO_ERROR then
    st ← get_state;
    server ← or_undefined (mSensorServer (this st));
    r ← call (isDataInjectionEnabled server);
    mret (negb (r =? 0))
  else mret false.

(** [~SensorManager] frees the list; the members' destructors follow. *)
Definition delete_SensorManager : M unit :=
  st ← get_state;
  free (mSensorList (this st));;
  free (v_array (mSensors (this st)));;
  free (mDeathObserver (this st)).

(** The members before the body of a constructor. *)
Definition unconnected (opPackageName : String16) : SensorManager Srv :=
  mkManager None None empty_vector None opPackageName.

(** The constructor: the status is not looked at. *)
Definition new_SensorManager (opPackageName : String16) (h : heap Sensor) (w : W) :
    result sm_state :=
  match assertStateLocked (mkState (unconnected opPackageName) h w) with
  | Done (_, st) => Done st
  | Fatal => Fatal
  | Undefined => Undefined
  end.

(** The constructor without arguments. *)
Definition new_SensorManager_default (h : heap Sensor) (w : W) : result sm_state :=
  new_SensorManager (to_String16 "") h w.

(** The [const] symbol of older blobs, which forwards to the other one. *)
Definition SensorManager_getSensorList_const : M (Z * option (option Z)) :=
  SensorManager_getSensorList.

End Manager.

(** ** Specification: a cache of the service's list *)

Section Spec.
Context {Srv W Sensor Conn Queue : Type}.
Context `{StatusCodes} `{SensorsHeader} `{SensorClass Sensor}
  `{!ISensorServer Srv W Sensor Conn} `{!SensorEnv Srv W Conn Queue}.

(** The service an instance is connected to, and the list it had then. *)
Record cache := mkCache { c_server : option Srv; c_sensors : list Sensor }.

Inductive manager_call :=
| CallGetSensorList
| CallGetDynamicSensorList
| CallGetDefaultSensor (type : Z)
| CallCreateEventQueue (packageName : string) (mode : Z)
| CallIsDataInjectionEnabled
| CallDied.

Inductive answer :=
| AnsError (err : Z)
| AnsSensors (v : list Sensor)
| AnsDefault (s : option Sensor)
| AnsQueue (q : option Queue)
| AnsBool (b : bool)
| AnsNothing.

(** The [n] sensors that a client finds through the list it was given. *)
Fixpoint read_list (h : heap Sensor) (l : option Z) (n : nat) (i : Z) : option (list Sensor) :=
  match n with
  | O => Some []
  | S n =>
      p ← read_slot h l i;
      s ← read_sensor_at h p;
      v ← read_list h l n (i + 1);
      Some (s :: v)
  end.

(** A call whose client looks at once at what the pointers point to. *)
Definition manager_do_call (c : manager_call) : M (Srv := Srv) (W := W) (Sensor := Sensor) answer :=
  match c with
  | CallGetSensorList =>
      '(n, l) ← SensorManager_getSensorList;
      match l with
      | None => mret (AnsError n)
      | Some l =>
          st ← get_state;
          v ← or_undefined (read_list (memory st) l (Z.to_nat n) 0);
          mret (AnsSensors v)
      end
  | CallGetDynamicSensorList =>
      '(n, v) ← SensorManager_getDynamicSensorList;
      mret (match v with None => AnsError n | Some v => AnsSensors v end)
  | CallGetDefaultSensor type =>
      p ← getDefaultSensor type;
      match p with
      | None => mret (AnsDefault None)
      | Some p =>
          st ← get_state;
          s ← or_undefined (read_sensor_at (memory st) p);
          mret (AnsDefault (Some s))
      end
  | CallCreateEventQueue packageName mode =>
      q ← createEventQueue packageName mode; mret (AnsQueue q)
  | CallIsDataInjectionEnabled =>
      b ← SensorManager_isDataInjectionEnabled; mret (AnsBool b)
  | CallDied => sensorManagerDied;; mret AnsNothing
  end.

(** [getService] until it finds the service, fails otherwise, or [n] tries
    have been made: the error, and the server and world afterwards. *)
Fixpoint find_service (n : nat) (server : option Srv) (w : W) : option Z * option Srv * W :=
  match n with
  | O => (None, server, w)
  | S n =>
      let '(err, out, w) := getService sensorservice server w in
      if err =? NAME_NOT_FOUND then find_service n out (sleep 1 w)
      else (if err =? NO_ERROR then None else Some err, out, w)
  end.

(** Connecting to [server]; [o] is the address of the observer. *)
Definition spec_connect (pkg : String16) (o : Z) (server : Srv) (w : W) :
    result (Z * cache * W) :=
  let w := linkToDeath server o w in
  let '(v, w) := getSensorList server pkg w in
  if malloc_ok (Z.of_nat (length v) * sizeof_pointer)
  then Done (NO_ERROR, mkCache (Some server) v, w)
  else Fatal.

(** Nothing happens while the server answers pings. *)
Definition spec_assert (pkg : String16) (o : Z) (c : cache) (w : W) : result (Z * cache * W) :=
  let '(connect, w) := match c_server c with
    | None => (true, w)
    | Some server => let '(err, w) := pingBinder server w in (negb (err =? NO_ERROR), w)
    end in
  if connect : bool then
    let '(r, server, w) := find_service 60 (c_server c) w in
    match r, server with
    | Some err, _ => Done (err, mkCache server (c_sensors c), w)
    | None, None => Fatal
    | None, Some server => spec_connect pkg o server w
    end
  else Done (NO_ERROR, c, w).

(** The first sensor of the type with the wake-up flag its type calls for. *)
Definition default_sensor (type : Z) (v : list Sensor) : option Sensor :=
  snd <$> list_find (fun s => getType s = type /\ isWakeUpSensor s = wakes_up type) v.

(** What a call does once the connection is checked. *)
Definition spec_answer (pkg : String16) (call : manager_call) (err : Z) (c : cache) (w : W) :
    result (answer * cache * W) :=
  match call with
  | CallGetSensorList => Done (if err <? 0 then AnsError err else AnsSensors (c_sensors c), c, w)
  | CallGetDynamicSensorList =>
      if err <? 0 then Done (AnsError err, c, w)
      else match c_server c with
        | Some server =>
            let '(v, w) := getDynamicSensorList server pkg w in Done (AnsSensors v, c, w)
        | None => Undefined
        end
  | CallGetDefaultSensor type =>
      Done (AnsDefault (if err =? NO_ERROR then default_sensor type (c_sensors c) else None), c, w)
  | CallCreateEventQueue packageName mode =>
      if err =? NO_ERROR then
        match c_server c with
        | Some server =>
            let '(conn, w) := createSensorEventConnection server packageName mode pkg w in
            match conn with
            | Some conn => let '(q, w) := new_SensorEventQueue conn w in Done (AnsQueue (Some q), c, w)
            | None => Done (AnsQueue None, c, w)
            end
        | None => Undefined
        end
      else Done (AnsQueue None, c, w)
  | CallIsDataInjectionEnabled =>
      if err =? NO_ERROR then
        match c_server c with
        | Some server => let '(r, w) := isDataInjectionEnabled server w in
            Done (AnsBool (negb (r =? 0)), c, w)
        | None => Undefined
        end
      else Done (AnsBool false, c, w)
  | CallDied => Done (AnsNothing, c, w)
  end.

Definition spec_call (pkg : String16) (o : Z) (call : manager_call) (c : cache) (w : W) :
    result (answer * cache * W) :=
  match call with
  | CallDied => Done (AnsNothing, mkCache None [], w)
  | _ =>
      match spec_assert pkg o c w with
      | Done (err, c, w) => spec_answer pkg call err c w
      | Fatal => Fatal
      | Undefined => Undefined
      end
  end.
End Spec.

(** ** The invariant *)

Section Represents.
Context {Srv W Sensor : Type}.

(** Only addresses below [h_next] are allocated. *)
Definition heap_wf (h : heap Sensor) : Prop := forall p, is_Some (h_blocks h !! p) -> p < h_next h.

(** The vector's array holds [items]. *)
Definition vector_holds (h : heap Sensor) (v : Vector) (items : list Sensor) : Prop :=
  v_size v = Z.of_nat (length items) /\
  match v_array v with
  | Some a => h_blocks h !! a = Some (Storage items)
  | None => items = []
  end.

(** The pointers to the elements of a vector of [n]. *)
Definition pointers (v : Vector) (n : nat) : list (option sensor_ptr) :=
  match v_array v with
  | Some a => (fun i => Some (a, Z.of_nat i)) <$> seq 0 n
  | None => []
  end.

(** The list has a pointer to each element of the vector. *)
Definition list_holds (h : heap Sensor) (l : option Z) (v : Vector) (n : nat) : Prop :=
  match l with
  | Some l => h_blocks h !! l = Some (PtrArray (pointers v n))
  | None => n = 0%nat
  end.

(** The instance is in the state that the cache says, but for its list. *)
Record represents_but_list (st : sm_state (Srv := Srv) (W := W) (Sensor := Sensor)) (c : cache) : Prop := {
  rep_wf : heap_wf (memory st);
  rep_server : mSensorServer (this st) = c_server c;
  rep_vector : vector_holds (memory st) (mSensors (this st)) (c_sensors c);
  rep_observer : match mDeathObserver (this st) with
    | Some o => h_blocks (memory st) !! o = Some Observer
    | None => True
    end;
}.

Record represents (st : sm_state (Srv := Srv) (W := W) (Sensor := Sensor)) (c : cache) : Prop := {
  rep_but_list : represents_but_list st c;
  rep_list : list_holds (memory st) (mSensorList (this st)) (mSensors (this st))
               (length (c_sensors c));
}.

(** The blocks of an instance. *)
Definition owned (m : SensorManager Srv) (p : Z) : Prop :=
  mSensorList m = Some p \/ v_array (mSensors m) = Some p \/ mDeathObserver m = Some p.

(** Of the blocks there were, at most those of [X] have changed. *)
Definition frames (X : Z -> Prop) (h h' : heap Sensor) : Prop :=
  h_next h <= h_next h' /\
  forall p, p < h_next h -> ~ X p -> h_blocks h' !! p = h_blocks h !! p.

(** The instance has changed no blocks but its own and new ones, and has
    taken none over. *)
Definition keeps_to_own (st st' : sm_state (Srv := Srv) (W := W) (Sensor := Sensor)) : Prop :=
  frames (owned (this st)) (memory st) (memory st') /\
  forall p, owned (this st') p -> p < h_next (memory st) -> owned (this st) p.
(** The instance has a new list, array and observer.  The old array and
    observer are gone; the old list is not. *)
Record reconnected (st st' : sm_state (Srv := Srv) (W := W) (Sensor := Sensor)) : Prop := {
  rec_new : forall p, owned (this st') p -> h_next (memory st) <= p;
  rec_array : forall a, v_array (mSensors (this st)) = Some a -> h_blocks (memory st') !! a = None;
  rec_frame : frames (fun p => v_array (mSensors (this st)) = Some p \/
                               mDeathObserver (this st) = Some p) (memory st) (memory st');
}.

(** The memory and the instance's pointers into it are as they were. *)
Definition same_memory (st st' : sm_state (Srv := Srv) (W := W) (Sensor := Sensor)) : Prop :=
  memory st' = memory st /\ mSensorList (this st') = mSensorList (this st) /\
  mSensors (this st') = mSensors (this st) /\ mDeathObserver (this st') = mDeathObserver (this st).
End Represents.

(** * Theorems *)

(** Unfolds the monad and the accessors. *)
Ltac m_unfold :=
  unfold mbind, M_bind, mret, M_ret, get_state, or_undefined, call, alloc, free, set_server,
    set_list, set_vector, set_observer, LOG_ALWAYS_FATAL_IF; simpl.

Section Lemmas.
Context {Srv W Sensor Conn Queue : Type}.
Context `{StatusCodes} `{SensorsHeader} `{SensorClass Sensor}
  `{!ISensorServer Srv W Sensor Conn} `{!SensorEnv Srv W Conn Queue}
  `{!StatusLaws} `{!SensorEnvLaws Srv W Sensor Conn Queue}.

Abbreviation state := (sm_state (Srv := Srv) (W := W) (Sensor := Sensor)).

Lemma heap_fresh (h : heap Sensor) : heap_wf h -> h_blocks h !! h_next h = None.
Proof.
  intros Hwf. destruct (h_blocks h !! h_next h) eqn:E; [|done].
  assert (h_next h < h_next h); [|lia]. apply Hwf. by eexists.
Qed.

Lemma heap_fresh_ne (h : heap Sensor) p b : heap_wf h -> h_blocks h !! p = Some b -> p <> h_next h.
Proof. intros Hwf Hp ->. by rw heap_fresh in Hp. Qed.

Lemma heap_new_wf b (h : heap Sensor) : heap_wf h -> heap_wf (heap_new b h).2.
Proof.
  intros Hwf p. simpl. intros [b' [[<- _]|[Hp Hb]]%lookup_insert_Some]; [lia|].
  assert (p < h_next h); [|lia]. apply Hwf. by eexists.
Qed.

(** [find_service] is what the loop does. *)
Lemma get_service_loop_spec n (st : state) :
  get_service_loop sensorservice n st =
    (let '(r, server, w) := find_service n (mSensorServer (this st)) (world st) in
     Done (r, mkState (mkManager server (mSensorList (this st)) (mSensors (this st))
                         (mDeathObserver (this st)) (mOpPackageName (this st)))
                (memory st) w)).
Proof.
  revert st. induction n as [|n IH]; intros [[srv l v o pkg] h w]; simpl; [done|].
  unfold get_service, mbind, M_bind, call, set_server, mret, M_ret, get_state. simpl.
  destruct (getService sensorservice srv w) as [[err out] w1]. simpl.
  destruct (err =? NAME_NOT_FOUND); simpl.
  - rw IH. simpl. by destruct (find_service n out (sleep 1 w1)) as [[r s] w2].
  - by destruct (err =? NO_ERROR).
Qed.

Lemma length_pointers v n : is_Some (v_array v) -> length (pointers v n) = n.
Proof. intros [a Ha]. unfold pointers. rw Ha. by rw length_fmap length_seq. Qed.

(** What is left of a heap when a block of another kind goes away. *)
Lemma blocks_delete_ne (h : heap Sensor) p q (b b' : block Sensor) :
  h_blocks h !! p = Some b -> h_blocks h !! q = Some b' -> b <> b' ->
  delete q (h_blocks h) !! p = Some b.
Proof. intros Hp Hq Hne. rw lookup_delete_ne; [done|]. intros ->. congruence. Qed.

Lemma blocks_new_ne (h : heap Sensor) p (b b' : block Sensor) :
  heap_wf h -> h_blocks h !! p = Some b -> <[h_next h := b']> (h_blocks h) !! p = Some b.
Proof. intros Hwf Hp. rw lookup_insert_ne; [done|]. intros Heq. symmetry in Heq. by eapply heap_fresh_ne. Qed.

Lemma free_wf (h h' : heap Sensor) p : heap_wf h -> heap_free p h = Some h' -> heap_wf h'.
Proof.
  intros Hwf. unfold heap_free. destruct p as [p|]; [|by intros [= <-]].
  destruct (h_blocks h !! p); [|done]. intros [= <-] q. simpl.
  intros [b' [_ Hb]%lookup_delete_Some]. apply Hwf. by eexists.
Qed.

#[local] Instance keeps_to_own_preorder :
  PreOrder (keeps_to_own (Srv := Srv) (W := W) (Sensor := Sensor)).
Proof.
  split.
  - intros st. split; [split; [lia|done]|done].
  - intros st st1 st2 [[Hn1 Hf1] Ho1] [[Hn2 Hf2] Ho2]. split; [split; [lia|]|].
    + intros p Hp HX. rw Hf2; [by apply Hf1|lia|]. intros Ho. by apply HX, Ho1.
    + intros p Hp Hlt. apply Ho1; [|done]. apply Ho2; [done|lia].
Qed.

Lemma frames_trans (X Y : Z -> Prop) (h h1 h2 : heap Sensor) :
  frames X h h1 -> frames Y h1 h2 -> frames (fun p => X p \/ Y p) h h2.
Proof.
  intros [Hn1 Hf1] [Hn2 Hf2]. split; [lia|]. intros p Hp HX.
  rw Hf2; [apply Hf1; [done|]|lia|]; intros Hx; apply HX; by [left|right].
Qed.

Lemma frames_new b (h : heap Sensor) : frames (fun _ => False) h (heap_new b h).2.
Proof. split; simpl; [lia|]. intros p Hp _. rw lookup_insert_ne; [done|lia]. Qed.

Lemma frames_free p (h h' : heap Sensor) :
  heap_free p h = Some h' -> frames (fun q => p = Some q) h h'.
Proof.
  unfold heap_free. destruct p as [p|]; [|by intros [= <-]].
  destruct (h_blocks h !! p); [|done]. intros [= <-]. split; simpl; [lia|].
  intros q _ Hq. rw lookup_delete_ne; [done|]. congruence.
Qed.

Lemma observe_server_spec (st : state) c server :
  represents st c -> c_server c = Some server ->
  exists st', observe_server st = Done (tt, st') /\ represents st' c /\
  world st' = linkToDeath server (h_next (memory st)) (world st) /\
  mOpPackageName (this st') = mOpPackageName (this st) /\
  mSensorList (this st') = mSensorList (this st) /\ mSensors (this st') = mSensors (this st) /\
  mDeathObserver (this st') = Some (h_next (memory st)) /\
  frames (fun p => mDeathObserver (this st) = Some p) (memory st) (memory st').
Proof.
  destruct st as [[srv l v o pkg] h w]. intros [[Hwf Hsrv [Hsz Hv] Ho] Hl] Hs; simpl in *.
  rw Hs in Hsrv. subst srv. unfold observe_server. m_unfold.
  destruct o as [o|]; simpl.
  - rw (blocks_new_ne h o Observer Observer); [|done|done]. simpl.
    eexists. split; [done|]. split_and!; simpl; try done.
    2: { split; simpl; [lia|]. intros p Hp Hne. rw lookup_delete_ne; [|congruence].
         rw lookup_insert_ne; [done|lia]. }
    assert (o <> h_next h) as Hne by (by eapply heap_fresh_ne).
    assert (forall p b, h_blocks h !! p = Some b -> b <> Observer ->
      delete o (<[h_next h := Observer]> (h_blocks h)) !! p = Some b) as Hkeep.
    { intros p b Hp Hb. rw lookup_delete_ne; [by apply blocks_new_ne|].
      intros ->. congruence. }
    constructor; [constructor|]; simpl.
    + eapply (free_wf (heap_new Observer h).2 _ (Some o)); [by apply heap_new_wf|].
      simpl. by rw lookup_insert_ne; [|done]; rw Ho.
    + done.
    + split; [done|]. destruct (v_array v); [by apply Hkeep|done].
    + by rw lookup_delete_ne; [|done]; rw lookup_insert_eq.
    + unfold list_holds in *. destruct l as [l|]; [by apply Hkeep|done].
  - eexists. split; [done|]. split_and!; simpl; try done.
    2: { destruct (frames_new Observer h) as [Hn Hf]. split; [done|].
         intros p Hp _. apply Hf; [done|]. by intros []. }
    constructor; [constructor|]; simpl.
    + by apply (heap_new_wf Observer).
    + done.
    + split; [done|]. destruct (v_array v); [by apply blocks_new_ne|done].
    + by rw lookup_insert_eq.
    + unfold list_holds in *. destruct l as [l|]; [by apply blocks_new_ne|done].
Qed.

Lemma heap_free_allocated (h : heap Sensor) p :
  match p with Some p => is_Some (h_blocks h !! p) | None => True end ->
  exists h', heap_free p h = Some h' /\
  forall q, h_blocks h' !! q = if decide (Some q = p) then None else h_blocks h !! q.
Proof.
  destruct p as [p|]; simpl.
  - intros [b ->]. eexists. split; [done|]. intros q. simpl.
    destruct (decide _) as [[= ->]|Hne]; [apply lookup_delete_eq|].
    apply lookup_delete_ne. congruence.
  - intros _. by eexists.
Qed.

Lemma new_vector_spec items (h h' : heap Sensor) v :
  heap_wf h -> new_vector items h = (v, h') ->
  heap_wf h' /\ vector_holds h' v items /\
  (forall p b, h_blocks h !! p = Some b -> h_blocks h' !! p = Some b) /\
  (forall a, v_array v = Some a -> h_next h <= a) /\ frames (fun _ => False) h h'.
Proof.
  intros Hwf. unfold new_vector, vector_holds. destruct items as [|x items]; intros [= <- <-].
  - split_and!; try done.
  - split_and!; simpl.
    + by apply (heap_new_wf (Storage (x :: items))).
    + done.
    + by rw lookup_insert_eq.
    + intros p b Hp. by apply blocks_new_ne.
    + intros a [= <-]. lia.
    + apply (frames_new (Storage (x :: items))).
Qed.

Lemma fetch_sensors_spec (st : state) c server :
  represents st c -> c_server c = Some server ->
  let r := getSensorList server (mOpPackageName (this st)) (world st) in
  exists st', fetch_sensors st = Done (tt, st') /\
  represents_but_list st' (mkCache (Some server) r.1) /\ world st' = r.2 /\
  mOpPackageName (this st') = mOpPackageName (this st) /\
  mSensorList (this st') = mSensorList (this st) /\
  mDeathObserver (this st') = mDeathObserver (this st) /\
  (forall a, v_array (mSensors (this st')) = Some a -> h_next (memory st) <= a) /\
  (forall a, v_array (mSensors (this st)) = Some a -> h_blocks (memory st') !! a = None) /\
  frames (fun p => v_array (mSensors (this st)) = Some p) (memory st) (memory st').
Proof.
  destruct st as [[srv l v o pkg] h w]. intros [[Hwf Hsrv [Hsz Hv] Ho] Hl] Hs; simpl in *.
  rw Hs in Hsrv. subst srv. unfold fetch_sensors. m_unfold.
  destruct (getSensorList server pkg w) as [items w1]. simpl.
  destruct (new_vector items h) as [v1 h1] eqn:Hnew.
  destruct (new_vector_spec items h h1 v1 Hwf Hnew) as (Hwf1 & [Hsz1 Hv1] & Hkeep & Hfresh & Hfr). simpl.
  assert (forall a, v_array v = Some a -> h_blocks h1 !! a = Some (Storage (c_sensors c))) as Hold.
  { intros a Ha. rw Ha in Hv. by apply Hkeep. }
  destruct (heap_free_allocated h1 (v_array v)) as (h2 & Hfree & Hh2).
  { destruct (v_array v) as [a|]; [|done]. by rw Hold. }
  rw Hfree. eexists. split; [done|]. simpl. split_and!; try done.
  - constructor; simpl; [by eapply free_wf|done| |].
    + split; [done|]. destruct (v_array v1) as [a1|] eqn:Ha1; [|done]. rw Hh2.
      case_decide as Heq; [|done]. symmetry in Heq. specialize (Hfresh a1 eq_refl).
      rw Heq in Hv. pose proof (Hwf a1). assert (a1 < h_next h); [|lia].
      apply Hwf. by eexists.
    + destruct o as [o|]; [|done]. rw Hh2. case_decide as Heq; [|by apply Hkeep].
      symmetry in Heq. pose proof (Hold _ Heq) as Hc. rw (Hkeep _ _ Ho) in Hc. done.
  - intros a Ha. rw Hh2. by case_decide.
  - pose proof (frames_trans _ _ _ _ _ Hfr (frames_free _ _ _ Hfree)) as [Hn Hf].
    split; [done|]. intros p Hp Hne. apply Hf; [done|]. by intros [?|?].
Qed.

(** Storing the pointers one by one. *)
Lemma fill_list_spec n i (st : state) l slots a :
  mSensorList (this st) = Some l -> h_blocks (memory st) !! l = Some (PtrArray slots) ->
  (n = 0%nat \/ v_array (mSensors (this st)) = Some a) -> (i + n <= length slots)%nat ->
  fill_list n (Z.of_nat i) st =
    Done (tt, mkState (this st)
      (mkHeap (h_next (memory st))
         (<[l := PtrArray (write_at slots i ((fun j => Some (a, Z.of_nat j)) <$> seq i n))]>
            (h_blocks (memory st)))) (world st)).
Proof.
  revert i st slots. induction n as [|n IH]; intros i [m [nx bl] w] slots Hl Hb Hv Hn; simpl in *.
  - m_unfold. by rw insert_id.
  - destruct Hv as [?|Ha]; [done|]. m_unfold. rw Ha. unfold store_slot. simpl. rw Hl Hb.
    rw arr_set_eq; [|lia]. rw Nat2Z.id. simpl.
    replace (Z.of_nat i + 1) with (Z.of_nat (S i)) by lia.
    rw (IH (S i) _ (<[i := Some (a, Z.of_nat i)]> slots)); simpl; [|done| |by right|].
    + by rw insert_insert_eq.
    + apply lookup_insert_eq.
    + rw length_insert. lia.
Qed.

Lemma malloc_size n :
  0 <= n -> n * sizeof_pointer < 2 ^ (8 * sizeof_pointer) ->
  (n * sizeof_pointer) mod 2 ^ (8 * sizeof_pointer) = n * sizeof_pointer /\
  n * sizeof_pointer / sizeof_pointer = n.
Proof.
  intros Hn Hfit. assert (0 < sizeof_pointer) as Hp by (destruct pointer_width; lia).
  split; [apply Z.mod_small; nia|apply Z.div_mul; lia].
Qed.

Lemma build_list_spec (st : state) c :
  represents_but_list st c ->
  Z.of_nat (length (c_sensors c)) * sizeof_pointer < 2 ^ (8 * sizeof_pointer) ->
  if malloc_ok (Z.of_nat (length (c_sensors c)) * sizeof_pointer)
  then exists st', build_list st = Done (tt, st') /\ represents st' c /\
    world st' = world st /\ mOpPackageName (this st') = mOpPackageName (this st) /\
    mSensors (this st') = mSensors (this st) /\
    mDeathObserver (this st') = mDeathObserver (this st) /\
    mSensorList (this st') = Some (h_next (memory st)) /\
    frames (fun _ => False) (memory st) (memory st')
  else build_list st = Fatal.
Proof.
  destruct st as [[srv l v o pkg] h w]. intros [Hwf Hsrv [Hsz Hv] Ho] Hfit; simpl in *.
  unfold build_list, malloc_pointers. m_unfold. rw Hsz.
  destruct (malloc_size (Z.of_nat (length (c_sensors c)))) as [-> ->]; [lia|done|].
  rw Nat2Z.id. destruct (malloc_ok _); simpl; [|done].
  set (l1 := h_next h). set (bl := <[l1 := PtrArray (replicate (length (c_sensors c)) None)]> (h_blocks h)).
  rw (fill_list_spec _ 0 _ l1 (replicate (length (c_sensors c)) None) (default 0 (v_array v)));
    simpl; [|done|by rw lookup_insert_eq| |rw length_replicate; lia].
  2: { destruct (v_array v); [by right|]. left. by rw Hv. }
  eexists. split; [done|]. split_and!; simpl; try done; subst bl.
  2: { split; simpl; [lia|]. intros p Hp _. rw !lookup_insert_ne; [done|lia..]. }
  rw insert_insert_eq write_at_all; [|by rw length_fmap length_seq length_replicate].
  assert (forall p b, h_blocks h !! p = Some b ->
    <[l1 := PtrArray ((fun j => Some (default 0 (v_array v), Z.of_nat j)) <$>
       seq 0 (length (c_sensors c)))]> (h_blocks h) !! p = Some b) as Hkeep
    by (intros p b; by apply blocks_new_ne).
  constructor; [constructor|]; simpl.
  - by apply (heap_new_wf (PtrArray _)).
  - done.
  - split; [done|]. destruct (v_array v); [by apply Hkeep|done].
  - destruct o; [by apply Hkeep|done].
  - rw lookup_insert_eq. unfold pointers. destruct (v_array v); [done|]. by rw Hv.
Qed.

Lemma reconnected_keeps (st st' : state) : reconnected st st' -> keeps_to_own st st'.
Proof.
  intros [Hnew _ [Hn Hf]]. split; [split; [done|]|].
  - intros p Hp HX. apply Hf; [done|]. intros [?|?]; apply HX; unfold owned; tauto.
  - intros p Ho Hp. specialize (Hnew p Ho). lia.
Qed.

Lemma same_memory_keeps (st st' : state) : same_memory st st' -> keeps_to_own st st'.
Proof.
  intros (Hm & Hl & Hv & Ho). unfold keeps_to_own, frames, owned. rw Hm Hl Hv Ho.
  split; [split; [lia|done]|tauto].
Qed.

(** Making the connection. *)
Lemma connect_refines (st : state) c server :
  represents st c -> c_server c = Some server ->
  let pkg := mOpPackageName (this st) in
  match spec_connect pkg (h_next (memory st)) server (world st) with
  | Done (err, c', w') =>
      exists st', (observe_server;; fetch_sensors;; build_list;; mret NO_ERROR) st = Done (err, st') /\
      represents st' c' /\ world st' = w' /\ mOpPackageName (this st') = pkg /\ reconnected st st'
  | Fatal => (observe_server;; fetch_sensors;; build_list;; mret NO_ERROR) st = Fatal
  | Undefined => False
  end.
Proof.
  intros Hrep Hs pkg. unfold spec_connect, mbind, M_bind.
  destruct (observe_server_spec st c server Hrep Hs)
    as (st1 & -> & Hrep1 & Hw1 & Hpkg1 & Hl1 & Hv1 & Ho1 & Hf1).
  destruct (fetch_sensors_spec st1 c server Hrep1 Hs)
    as (st2 & -> & Hrep2 & Hw2 & Hpkg2 & Hl2 & Ho2 & Hnew & Hgone & Hf2).
  rw Hpkg1 in Hpkg2 Hrep2 Hw2. fold pkg in Hrep2, Hw2, Hpkg2. rw Hw1 in Hrep2 Hw2.
  pose proof (vector_fits server pkg (linkToDeath server (h_next (memory st)) (world st))) as Hfit.
  destruct (getSensorList server pkg _) as [v w2]. simpl in *.
  pose proof (build_list_spec st2 _ Hrep2 Hfit) as Hbuild. simpl in Hbuild.
  destruct (malloc_ok _); [|by rw Hbuild].
  destruct Hbuild as (st3 & -> & Hrep3 & Hw3 & Hpkg3 & Hv3 & Ho3 & Hl3 & Hf3).
  exists st3. split_and!; [done|done|congruence|congruence|].
  rw Hv1 in Hgone Hf2.
  pose proof (frames_trans _ _ _ _ _ Hf1 Hf2) as [Hn12 Hf12]. destruct Hf1 as [Hn1 _].
  destruct Hf3 as [Hn3 Hf3]. constructor.
  - intros p. unfold owned. rw Hl3 Hv3 Ho3 Ho2 Ho1. intros [[= <-]|[Hp|[= <-]]]; [lia| |lia].
    specialize (Hnew p Hp). lia.
  - intros a Ha. rw Hf3; [by apply Hgone| |by intros []].
    destruct Hrep as [[Hwf _ [_ Hv] _] _]. rw Ha in Hv.
    assert (a < h_next (memory st)); [|lia]. apply Hwf. by eexists.
  - split; [lia|]. intros p Hp HX. rw Hf3; [|lia|by intros []]. apply Hf12; [done|].
    intros [?|?]; apply HX; tauto.
Qed.

Lemma find_service_status n (server server' : option Srv) (w w' : W) err :
  find_service n server w = (Some err, server', w') -> err < 0.
Proof.
  revert server w. induction n as [|n IH]; intros server w; simpl; [done|].
  pose proof (getService_status sensorservice server w) as Herr.
  destruct (getService sensorservice server w) as [[e out] w1]. simpl in Herr.
  destruct (e =? NAME_NOT_FOUND); [apply IH|].
  pose proof ok_zero. destruct (Z.eqb_spec e NO_ERROR); intros [= <- <- <-]. lia.
Qed.

(** Sixty tries are not to be unfolded. *)
#[local] Arguments get_service_loop : simpl never.
#[local] Arguments find_service : simpl never.

(** The instance after the search for the service. *)
Definition with_server (st : state) (server : option Srv) (w : W) : state :=
  mkState (mkManager server (mSensorList (this st)) (mSensors (this st))
             (mDeathObserver (this st)) (mOpPackageName (this st))) (memory st) w.

Lemma represents_with_server (st : state) c server w :
  represents st c -> represents (with_server st server w) (mkCache server (c_sensors c)).
Proof. intros [[Hwf Hsrv Hv Ho] Hl]. by constructor; [constructor|]. Qed.

(** [assertStateLocked] with the search spelt out. *)
Lemma assertStateLocked_unfold (st : state) :
  assertStateLocked st =
    (let '(connect, w) := match mSensorServer (this st) with
       | None => (true, world st)
       | Some server =>
           let '(err, w) := pingBinder server (world st) in (negb (err =? NO_ERROR), w)
       end in
     if connect : bool then
       let '(r, server, w) := find_service 60 (mSensorServer (this st)) w in
       match r, server with
       | Some err, _ => Done (err, with_server st server w)
       | None, None => Fatal
       | None, Some _ =>
           (observe_server;; fetch_sensors;; build_list;; mret NO_ERROR) (with_server st server w)
       end
     else Done (NO_ERROR, mkState (this st) (memory st) w)).
Proof.
  assert (forall st', get_service_loop sensorservice 60 st' =
    (let '(r, server, w) := find_service 60 (mSensorServer (this st')) (world st') in
     Done (r, with_server st' server w))) as Hloop by (intros st'; apply get_service_loop_spec).
  unfold assertStateLocked, must_connect, mbind, M_bind, get_state, call, mret, M_ret.
  destruct st as [[[server|] l v o pkg] h w]; simpl.
  - destruct (pingBinder server w) as [err w1]. simpl.
    destruct (negb _); [|done]. rw Hloop. simpl.
    destruct (find_service 60 (Some server) w1) as [[[err'|] [s|]] w2]; done.
  - rw Hloop. simpl. destruct (find_service 60 None w) as [[[err'|] [s|]] w2]; done.
Qed.

(** Checking the connection. *)
Lemma assertStateLocked_refines (st : state) c :
  represents st c ->
  let pkg := mOpPackageName (this st) in
  match spec_assert pkg (h_next (memory st)) c (world st) with
  | Done (err, c', w') =>
      exists st', assertStateLocked st = Done (err, st') /\
      represents st' c' /\ world st' = w' /\ mOpPackageName (this st') = pkg /\
      err <= 0 /\ (err = NO_ERROR -> is_Some (c_server c')) /\
      (same_memory st st' \/ reconnected st st')
  | Fatal => assertStateLocked st = Fatal
  | Undefined => False
  end.
Proof.
  intros Hrep pkg. pose proof ok_zero as Hok. rw assertStateLocked_unfold. unfold spec_assert.
  rw (rep_server _ _ (rep_but_list _ _ Hrep)).
  destruct (match c_server c with None => _ | Some _ => _ end) as [connect w1] eqn:Hping.
  destruct connect.
  2: { eexists. split; [done|]. destruct Hrep as [[Hwf Hsrv Hv Ho] Hl].
    split_and!; [by constructor; [constructor|]|done|done|lia| |by left]. intros _.
    destruct (c_server c); [by eexists|done]. }
  destruct (find_service 60 (c_server c) w1) as [[r server] w2] eqn:Hfind.
  pose proof (represents_with_server st c server w2 Hrep) as Hrep2.
  destruct r as [err|].
  { pose proof (find_service_status _ _ _ _ _ _ Hfind). eexists. split; [done|].
    split_and!; try done; [lia| |by left]. intros ->. lia. }
  destruct server as [server|]; [|done].
  pose proof (connect_refines _ _ server Hrep2 eq_refl) as Hc. simpl in Hc. fold pkg in Hc.
  destruct (spec_connect _ _ _ _) as [[[err c'] w3]| |] eqn:Hspec; [|done|done].
  destruct Hc as (st3 & Hrun & Hrep3 & Hw3 & Hpkg3 & [Hrn Hra Hrf]). exists st3. split; [exact Hrun|].
  unfold spec_connect in Hspec. destruct (getSensorList _ _ _) as [v w4].
  destruct (malloc_ok _); [|done]. injection Hspec as <- <- <-. simpl.
  split_and!; try done; [lia|]. right. by constructor.
Qed.

(** ** Reading through the list *)

Lemma list_entry (st : state) c i s :
  represents st c -> c_sensors c !! i = Some s ->
  exists p, read_slot (memory st) (mSensorList (this st)) (Z.of_nat i) = Some p /\
  read_sensor_at (memory st) p = Some s.
Proof.
  intros [[_ _ [Hsz Hv] _] Hl] Hi. pose proof (lookup_lt_Some _ _ _ Hi) as Hlt.
  unfold list_holds, pointers in Hl. destruct (v_array (mSensors (this st))) as [a|] eqn:Ha.
  2: { by rw Hv in Hi. }
  destruct (mSensorList (this st)) as [l|]; [|lia].
  exists (a, Z.of_nat i). unfold read_slot, read_sensor_at. simpl. rw Hl Hv. split.
  - enough (arr_get ((fun j => Some (a, Z.of_nat j)) <$> seq 0 (length (c_sensors c)))
      (Z.of_nat i) = Some (Some (a, Z.of_nat i))) as Hg by (by rw Hg).
    apply arr_get_Some. rw length_fmap length_seq Nat2Z.id list_lookup_fmap.
    rw lookup_seq_lt; [|done]. split; [lia|done].
  - apply arr_get_Some. rw Nat2Z.id. split; [lia|done].
Qed.

Lemma read_list_spec (st : state) c n i :
  represents st c -> (i + n = length (c_sensors c))%nat ->
  read_list (memory st) (mSensorList (this st)) n (Z.of_nat i) = Some (drop i (c_sensors c)).
Proof.
  intros Hrep. revert i. induction n as [|n IH]; intros i Hi; simpl.
  - by rw drop_ge; [|lia].
  - destruct (lookup_lt_is_Some_2 (c_sensors c) i) as [s Hs]; [lia|].
    destruct (list_entry st c i s Hrep Hs) as (p & -> & Hp). simpl. rw Hp. simpl.
    replace (Z.of_nat i + 1) with (Z.of_nat (S i)) by lia.
    rw IH; [|lia]. by rw (drop_S _ s i).
Qed.

Lemma find_default_spec type n i (st : state) c :
  represents st c -> (i + n = length (c_sensors c))%nat ->
  exists p, find_default type (wakes_up type) n (Z.of_nat i) st = Done (p, st) /\
  match p with
  | None => default_sensor type (drop i (c_sensors c)) = None
  | Some p => exists s, read_sensor_at (memory st) p = Some s /\
      default_sensor type (drop i (c_sensors c)) = Some s
  end.
Proof.
  intros Hrep. unfold default_sensor. revert i. induction n as [|n IH]; intros i Hi; simpl.
  - exists None. split; [done|]. by rw drop_ge; [|lia].
  - destruct (lookup_lt_is_Some_2 (c_sensors c) i) as [s Hs]; [lia|].
    destruct (list_entry st c i s Hrep Hs) as (p & Hslot & Hp).
    unfold mbind, M_bind, or_undefined, get_state. simpl. rw Hslot Hp.
    rw (drop_S _ s i); [|done]. cbn [list_find].
    destruct (decide _) as [[Ht Hw]|Hno]; simpl.
    + rw (proj2 (Z.eqb_eq _ _) Ht) Hw. rw eqb_reflx. simpl. exists (Some p). split; [done|]. by exists s.
    + assert ((getType s =? type) && Bool.eqb (isWakeUpSensor s) (wakes_up type) = false) as ->.
      { apply not_true_is_false. intros [Ht Hw]%andb_true_iff. apply Hno.
        split; [by apply Z.eqb_eq|by apply eqb_prop]. }
      replace (Z.of_nat i + 1) with (Z.of_nat (S i)) by lia.
      destruct (IH (S i)) as (p' & Hrun & Hp'); [lia|]. exists p'. split; [exact Hrun|].
      destruct (list_find _ (drop (S i) (c_sensors c))) as [[j s']|]; simpl in *; done.
Qed.

(** ** The death of the service *)

Lemma sensorManagerDied_spec (st : state) c :
  represents st c ->
  exists st', sensorManagerDied st = Done (tt, st') /\ represents st' (mkCache None []) /\
  world st' = world st /\ mOpPackageName (this st') = mOpPackageName (this st) /\
  (forall p, h_blocks (memory st') !! p =
     if decide (Some p = mSensorList (this st) \/ Some p = v_array (mSensors (this st)))
     then None else h_blocks (memory st) !! p) /\ keeps_to_own st st'.
Proof.
  destruct st as [[srv l v o pkg] h w]. intros [[Hwf Hsrv [Hsz Hv] Ho] Hl]; simpl in *.
  unfold sensorManagerDied. m_unfold.
  destruct (heap_free_allocated h l) as (h1 & Hf1 & Hh1).
  { destruct l; [|done]. simpl in Hl. by rw Hl. }
  rw Hf1. simpl.
  destruct (heap_free_allocated h1 (v_array v)) as (h2 & Hf2 & Hh2).
  { destruct (v_array v) as [a|]; [|done]. rw Hh1. case_decide as Heq; [|by rw Hv].
    rw -Heq in Hl. simpl in Hl. congruence. }
  rw Hf2. simpl. eexists. split; [done|]. split_and!; simpl; try done.
  - constructor; [constructor|]; simpl; try done.
    + by eapply free_wf, Hf2; eapply free_wf.
    + destruct o as [o|]; [|done]. rw Hh2 Hh1.
      case_decide as Heq; [rw -Heq in Hv; congruence|].
      case_decide as Heq2; [rw -Heq2 in Hl; simpl in Hl; congruence|done].
  - intros p. rw Hh2 Hh1. repeat case_decide; naive_solver.
  - destruct (frames_trans _ _ _ _ _ (frames_free _ _ _ Hf1) (frames_free _ _ _ Hf2)) as [Hn Hf].
    split; [split; [done|]|].
    + intros p Hp HX. apply Hf; [done|]. intros [?|?]; apply HX; unfold owned; simpl; tauto.
    + intros p. unfold owned. simpl. intros [?|[?|?]]; [done|done|tauto].
Qed.

(** ** The calls *)

Lemma bind_assoc {A B C} (m : M A) (f : A -> M B) (g : B -> M C) (st : state) :
  ((m ≫= f) ≫= g) st = (m ≫= fun x => f x ≫= g) st.
Proof. unfold mbind, M_bind. by destruct (m st) as [[a st']| |]. Qed.

(** A call that checks the connection and then does what [k] says. *)
Lemma call_refines (st : state) c call (f : M answer) (k : Z -> M answer) :
  represents st c ->
  f st = (assertStateLocked ≫= k) st ->
  (forall err c' st', represents st' c' -> mOpPackageName (this st') = mOpPackageName (this st) ->
     err <= 0 -> (err = NO_ERROR -> is_Some (c_server c')) ->
     match spec_answer (mOpPackageName (this st)) call err c' (world st') with
     | Done (ans, c2, w2) => exists st2, k err st' = Done (ans, st2) /\
         represents st2 c2 /\ world st2 = w2 /\
         mOpPackageName (this st2) = mOpPackageName (this st) /\ same_memory st' st2
     | Fatal => k err st' = Fatal
     | Undefined => False
     end) ->
  match (match spec_assert (mOpPackageName (this st)) (h_next (memory st)) c (world st) with
         | Done (err, c, w) => spec_answer (mOpPackageName (this st)) call err c w
         | Fatal => Fatal
         | Undefined => Undefined
         end) with
  | Done (ans, c2, w2) => exists st2, f st = Done (ans, st2) /\
      represents st2 c2 /\ world st2 = w2 /\ mOpPackageName (this st2) = mOpPackageName (this st) /\
      keeps_to_own st st2
  | Fatal => f st = Fatal
  | Undefined => False
  end.
Proof.
  intros Hrep -> Hk. pose proof (assertStateLocked_refines st c Hrep) as Ha. simpl in Ha.
  unfold mbind, M_bind. destruct (spec_assert _ _ _ _) as [[[err c'] w']| |]; [|by rw Ha|done].
  destruct Ha as (st' & -> & Hrep' & <- & Hpkg & Herr & Hs & Hmem).
  assert (keeps_to_own st st') as Hkeep.
  { destruct Hmem; [by apply same_memory_keeps|by apply reconnected_keeps]. }
  specialize (Hk err c' st' Hrep' Hpkg Herr Hs).
  destruct (spec_answer _ _ _ _ _) as [[[ans c2] w2]| |]; [|done|done].
  destruct Hk as (st2 & Hrun & Hrep2 & Hw2 & Hpkg2 & Hsame). exists st2.
  split_and!; try done. etransitivity; [exact Hkeep|]. by apply same_memory_keeps.
Qed.

(** A call of the service leaves the instance alone. *)
Lemma represents_world (st : state) c (w : W) :
  represents st c -> represents (mkState (this st) (memory st) w) c.
Proof. intros [[Hwf Hsrv Hv Ho] Hl]. by constructor; [constructor|]. Qed.

(** ** The search for the service *)

(** The out parameter and the world after [k] tries that found nothing, each
    followed by a second's sleep. *)
Definition after_tries (k : nat) (server : option Srv) (w : W) : option Srv * W :=
  Nat.iter k (fun '(server, w) =>
    let '(_, out, w) := getService sensorservice server w in (out, sleep 1 w)) (server, w).

Definition try_status (k : nat) (server : option Srv) (w : W) : Z :=
  let '(server, w) := after_tries k server w in (getService sensorservice server w).1.1.

Lemma find_service_after k n server w :
  (k <= n)%nat -> (forall j, (j < k)%nat -> try_status j server w = NAME_NOT_FOUND) ->
  find_service n server w =
    (let '(server, w) := after_tries k server w in find_service (n - k) server w).
Proof.
  induction k as [|k IH]; intros Hk Hmiss; simpl.
  - by rw Nat.sub_0_r.
  - rw IH; [|lia|intros j Hj; apply Hmiss; lia].
    specialize (Hmiss k (Nat.lt_succ_diag_r k)). unfold try_status in Hmiss.
    unfold after_tries in *. destruct (Nat.iter k _ _) as [server1 w1].
    replace (n - k)%nat with (S (n - S k)) by lia. unfold find_service at 1. fold find_service.
    destruct (getService sensorservice server1 w1) as [[err out] w2]. simpl in Hmiss.
    subst err. by rw Z.eqb_refl.
Qed.

(** ** Pointers that outlive their blocks *)

Lemma list_blocks (st : state) c l n :
  represents st c -> mSensorList (this st) = Some l -> length (c_sensors c) = S n ->
  exists a, v_array (mSensors (this st)) = Some a /\
  h_blocks (memory st) !! a = Some (Storage (c_sensors c)) /\
  h_blocks (memory st) !! l = Some (PtrArray (pointers (mSensors (this st)) (S n))).
Proof.
  intros [[_ _ [_ Hv] _] Hlist] Hl Hlen. rw Hl Hlen in Hlist.
  destruct (v_array (mSensors (this st))) as [a|]; [by exists a|]. by rw Hv in Hlen.
Qed.

Lemma list_dangles (h : heap Sensor) l v a n :
  h_blocks h !! l = Some (PtrArray (pointers v (S n))) -> v_array v = Some a ->
  h_blocks h !! a = None -> read_list h (Some l) (S n) 0 = None.
Proof.
  intros Hl Ha Hgone. unfold read_list, read_slot. simpl. rw Hl. unfold pointers. rw Ha. simpl.
  unfold read_sensor_at. simpl. by rw Hgone.
Qed.

(** What becomes of the old list when the connection is made anew. *)
Lemma reconnected_old_list (st st' : state) c l n :
  represents st c -> mSensorList (this st) = Some l -> length (c_sensors c) = S n ->
  reconnected st st' ->
  ~ owned (this st') l /\ h_blocks (memory st') !! l = h_blocks (memory st) !! l /\
  read_list (memory st') (Some l) (S n) 0 = None.
Proof.
  intros Hrep Hl Hlen [Hnew Harr [Hn Hf]].
  destruct (list_blocks st c l n Hrep Hl Hlen) as (a & Ha & Hba & Hbl).
  assert (l < h_next (memory st)) as Hlt.
  { apply (rep_wf _ _ (rep_but_list _ _ Hrep)). by eexists. }
  assert (h_blocks (memory st') !! l = h_blocks (memory st) !! l) as Hsame.
  { apply Hf; [done|]. intros [Hx|Hx]; [congruence|].
    pose proof (rep_observer _ _ (rep_but_list _ _ Hrep)) as Ho. rw Hx in Ho. congruence. }
  split_and!; [intros Ho; specialize (Hnew l Ho); lia|done|].
  eapply list_dangles; [by rw Hsame|exact Ha|by apply Harr].
Qed.
End Lemmas.

#[global] Arguments get_service_loop : simpl never.
#[global] Arguments find_service : simpl never.

(** C13: an instance is a cache of the service's list.  In a state where the
    instance holds the list of [c], every call does what the specification says
    of [c]: it checks the connection and, if there is none or the service does
    not answer a ping, looks the service up at most 60 times and takes its list
    anew; then it answers from the list or from the service.  A client that
    follows the pointers it is given finds exactly the sensors the specification
    names, and [getDefaultSensor] the first one of the type with the wake-up
    flag its type calls for.  The call ends in a state that holds the list of
    the new cache, having changed no block of memory but the instance's own and
    new ones, or is fatal where the specification says so, and never does
    anything undefined. *)
Theorem manager_refines_cache {Srv W Sensor Conn Queue}
    `{StatusCodes} `{SensorsHeader} `{SensorClass Sensor}
    `{!ISensorServer Srv W Sensor Conn} `{!SensorEnv Srv W Conn Queue}
    `{!StatusLaws} `{!SensorEnvLaws Srv W Sensor Conn Queue}
    (call : manager_call) (st : sm_state) (c : cache) (Hrep : represents st c) :
  let pkg := mOpPackageName (this st) in
  match spec_call pkg (h_next (memory st)) call c (world st) with
  | Done (ans, c', w') => exists st', manager_do_call call st = Done (ans, st') /\
      represents st' c' /\ world st' = w' /\ mOpPackageName (this st') = pkg /\
      keeps_to_own st st'
  | Fatal => manager_do_call call st = Fatal
  | Undefined => False
  end.
Proof.
  intros pkg. pose proof ok_zero as Hok.
  destruct call; unfold spec_call, manager_do_call, SensorManager_getSensorList,
    SensorManager_getDynamicSensorList, getDefaultSensor, createEventQueue,
    SensorManager_isDataInjectionEnabled.
  - apply (call_refines st c CallGetSensorList _ _ Hrep (bind_assoc _ _ _ _)).
    intros err c' st' Hrep' Hpkg Herr Hs. simpl.
    destruct (err <? 0); m_unfold; [by exists st'|].
    destruct (rep_vector _ _ (rep_but_list _ _ Hrep')) as [-> _]. rw Nat2Z.id.
    rw (read_list_spec st' c' _ 0 Hrep'); [|done]. by exists st'.
  - apply (call_refines st c CallGetDynamicSensorList _ _ Hrep (bind_assoc _ _ _ _)).
    intros err c' st' Hrep' Hpkg Herr Hs. simpl.
    destruct (Z.ltb_spec err 0); m_unfold; [by exists st'|].
    rw (rep_server _ _ (rep_but_list _ _ Hrep')) Hpkg.
    destruct Hs as [server ->]; [lia|]. simpl.
    destruct (getDynamicSensorList server _ _) as [v w']. eexists. split; [done|].
    split_and!; [by apply represents_world|done..].
  - apply (call_refines st c (CallGetDefaultSensor type) _ _ Hrep (bind_assoc _ _ _ _)).
    intros err c' st' Hrep' Hpkg Herr Hs. simpl.
    destruct (err =? NO_ERROR); m_unfold; [|by exists st'].
    destruct (rep_vector _ _ (rep_but_list _ _ Hrep')) as [-> _]. rw Nat2Z.id.
    destruct (find_default_spec type (length (c_sensors c')) 0 st' c' Hrep' eq_refl)
      as (p & Hrun & Hp). change (Z.of_nat 0) with 0 in Hrun. rw Hrun.
    destruct p as [p|]; [|by rw Hp; exists st'].
    destruct Hp as (s & Hread & Hs'). rw Hread Hs'. by exists st'.
  - apply (call_refines st c (CallCreateEventQueue packageName mode) _ _ Hrep (bind_assoc _ _ _ _)).
    intros err c' st' Hrep' Hpkg Herr Hs. simpl.
    destruct (Z.eqb_spec err NO_ERROR); m_unfold; [|by exists st'].
    rw (rep_server _ _ (rep_but_list _ _ Hrep')) Hpkg. destruct Hs as [server ->]; [done|]. simpl.
    destruct (createSensorEventConnection server _ _ _ _) as [[conn|] w']; simpl;
      [destruct (new_SensorEventQueue conn w') as [q w'']|]; eexists; (split; [done|]);
      (split_and!; [by apply represents_world|done..]).
  - apply (call_refines st c CallIsDataInjectionEnabled _ _ Hrep (bind_assoc _ _ _ _)).
    intros err c' st' Hrep' Hpkg Herr Hs. simpl.
    destruct (Z.eqb_spec err NO_ERROR); m_unfold; [|by exists st'].
    rw (rep_server _ _ (rep_but_list _ _ Hrep')). destruct Hs as [server ->]; [done|]. simpl.
    destruct (isDataInjectionEnabled server _) as [r w']. eexists. split; [done|].
    split_and!; [by apply represents_world|done..].
  - destruct (sensorManagerDied_spec st c Hrep) as (st' & Hrun & Hrep' & Hw & Hpkg & _ & Hown).
    unfold mbind, M_bind. rw Hrun. by exists st'.
Qed.

(** The search for the service is bounded.  When a connection has to be
    made and the first [k] tries answer [NAME_NOT_FOUND], there have been [k]
    sleeps of a second; after 60 such tries the process is aborted (unless the
    last try left a server); otherwise the next answer decides: another error is
    returned with the instance as it was, and success continues with the
    connection, or aborts if the server is null all the same. *)
Theorem service_search_bounded {Srv W Sensor Conn Queue}
    `{StatusCodes} `{SensorClass Sensor}
    `{!ISensorServer Srv W Sensor Conn} `{!SensorEnv Srv W Conn Queue}
    (st : sm_state) (w1 : W) (k : nat)
    (Hconnect : must_connect st = Done (true, mkState (this st) (memory st) w1))
    (Hmiss : forall j, (j < k)%nat ->
       try_status j (mSensorServer (this st)) w1 = NAME_NOT_FOUND) :
  let '(server, w) := after_tries k (mSensorServer (this st)) w1 in
  (k = 60%nat -> server = None -> assertStateLocked st = Fatal) /\
  (forall err out w', (k < 60)%nat -> getService sensorservice server w = (err, out, w') ->
     err <> NAME_NOT_FOUND ->
     assertStateLocked st =
       (if err =? NO_ERROR then
          match out with
          | None => Fatal
          | Some _ =>
              (observe_server;; fetch_sensors;; build_list;; mret NO_ERROR) (with_server st out w')
          end
        else Done (err, with_server st out w'))).
Proof.
  assert (assertStateLocked st =
    (let '(r, server, w) := find_service 60 (mSensorServer (this st)) w1 in
     match r, server with
     | Some err, _ => Done (err, with_server st server w)
     | None, None => Fatal
     | None, Some _ =>
         (observe_server;; fetch_sensors;; build_list;; mret NO_ERROR) (with_server st server w)
     end)) as Hrun.
  { rw assertStateLocked_unfold. unfold must_connect, mbind, M_bind, call, get_state in Hconnect.
    destruct (mSensorServer (this st)) as [server|].
    - destruct (pingBinder server (world st)) as [err w2]. injection Hconnect as Hc <-.
      by rw Hc.
    - injection Hconnect as Hw. apply (f_equal world) in Hw. simpl in Hw. by rw Hw. }
  destruct (after_tries k _ w1) as [server w] eqn:Hafter. split.
  - intros -> ->. rw Hrun (find_service_after 60); [|lia|done]. by rw Hafter.
  - intros err out w' Hk Hget Herr. rw Hrun (find_service_after k); [|lia|done]. rw Hafter.
    destruct (60 - k)%nat as [|n] eqn:Hn; [lia|]. unfold find_service at 1. rw Hget.
    destruct (Z.eqb_spec err NAME_NOT_FOUND); [done|].
    by destruct (err =? NO_ERROR); [destruct out|].
Qed.

(** C17: how long a list is good for.  As long as the instance keeps its
    connection, the list that [getSensorList] returned leads to the sensors it
    led to.  When the connection is made anew, or the service's death is
    handled, every pointer in it dangles, although the client was never told:
    on a death the list itself is freed too, and on a new connection it is not
    freed, nor will any later call of the instance, which no longer owns it,
    free it. *)
Theorem returned_list_lifetime {Srv W Sensor Conn Queue}
    `{StatusCodes} `{SensorsHeader} `{SensorClass Sensor}
    `{!ISensorServer Srv W Sensor Conn} `{!SensorEnv Srv W Conn Queue}
    `{!StatusLaws} `{!SensorEnvLaws Srv W Sensor Conn Queue}
    (st : sm_state) (c : cache) l (Hrep : represents st c)
    (Hl : mSensorList (this st) = Some l) (Hne : c_sensors c <> []) :
  let read h := read_list h (Some l) (length (c_sensors c)) 0 in
  read (memory st) = Some (c_sensors c) /\
  (forall err st', assertStateLocked st = Done (err, st') ->
     (mSensorList (this st') = Some l /\ read (memory st') = Some (c_sensors c)) \/
     (mSensorList (this st') <> Some l /\ read (memory st') = None /\
      forall st2, keeps_to_own st' st2 ->
        h_blocks (memory st2) !! l = h_blocks (memory st) !! l /\ ~ owned (this st2) l)) /\
  (forall st', sensorManagerDied st = Done (tt, st') ->
     h_blocks (memory st') !! l = None /\ read (memory st') = None /\
     forall a, v_array (mSensors (this st)) = Some a -> h_blocks (memory st') !! a = None).
Proof.
  intros read. assert (read (memory st) = Some (c_sensors c)) as Hread.
  { unfold read. rw -Hl. apply (read_list_spec st c _ 0 Hrep eq_refl). }
  destruct (length (c_sensors c)) as [|n] eqn:Hlen; [by apply length_zero_iff_nil in Hlen|].
  split; [exact Hread|]. split.
  - intros err st' Hrun. pose proof (assertStateLocked_refines st c Hrep) as Hassert. simpl in Hassert.
    destruct (spec_assert _ _ _ _) as [[[err' c'] w']| |]; [|congruence|done].
    destruct Hassert as (st'' & Hrun' & _ & _ & _ & _ & _ & Hmem).
    rw Hrun in Hrun'. injection Hrun' as <- <-.
    destruct Hmem as [(Hm & Hl' & _)|Hrec]; [left; by rw Hl' Hm|right].
    destruct (reconnected_old_list st st' c l n Hrep Hl Hlen Hrec) as (Hnot & Hsame & Hgone).
    split_and!; [intros Hx; apply Hnot; by left|done|]. intros st2 [[Hn2 Hf2] Ho2].
    assert (l < h_next (memory st')) as Hlt.
    { destruct Hrec as [_ _ [Hn _]]. assert (l < h_next (memory st)); [|lia].
      destruct (list_blocks st c l n Hrep Hl Hlen) as (a & _ & _ & Hbl).
      apply (rep_wf _ _ (rep_but_list _ _ Hrep)). by eexists. }
    split; [by rw Hf2|]. intros Ho. by apply Hnot, Ho2.
  - intros st' Hrun. destruct (sensorManagerDied_spec st c Hrep)
      as (st'' & Hrun' & _ & _ & _ & Hgone & _).
    rw Hrun in Hrun'. injection Hrun' as <-.
    assert (h_blocks (memory st') !! l = None) as Hl0.
    { rw Hgone. by case_decide as Hx; [|destruct Hx; left]. }
    split_and!; [done| |].
    + unfold read, read_list, read_slot. simpl. by rw Hl0.
    + intros a Ha. rw Hgone. case_decide as Hx; [done|]. destruct Hx. right. by rw Ha.
Qed.

(** ** An environment for the witnesses

    One service, which the service manager finds when the clock of the world
    is not negative, and which answers pings then. *)
Module OneService.
Import Loopback.
#[export] Existing Instance errno_laws.
#[export] Existing Instance android9_sensors_h.

Inductive the_service := TheService.

#[export] Instance the_service_is_ISensorServer : ISensorServer the_service Z Sensor Z := {
  getSensorList srv op w := (sensors two_sensors, w);
  getDynamicSensorList srv op w := (dynamic_sensors two_sensors, w);
  createSensorEventConnection srv pkg mode op w := (Some w, w);
  isDataInjectionEnabled srv w := (1, w);
}.

#[export] Instance environment : SensorEnv the_service Z Z Z := {
  sizeof_pointer := 4;
  malloc_ok size := size <? 1000;
  pingBinder srv w := (if w <? 0 then -32 else 0, w);
  getService name out w := if w <? 0 then (-2, None, w) else (0, Some TheService, w);
  linkToDeath srv o w := w;
  sleep n w := w + n;
  new_SensorEventQueue c w := (c, w);
  getPermissionService w := (Some 1, w);
  getCallingUid w := (1000, w);
  getPackagesForUid b uid w := ([to_String16 "app"], w);
}.

#[export] Instance environment_laws : SensorEnvLaws the_service Z Sensor Z Z.
Proof.
  constructor; [by left| |].
  - intros name out w. simpl. by destruct (w <? 0).
  - intros server pkg w. simpl. lia.
Qed.

Definition start (w : Z) : sm_state (Srv := the_service) (Sensor := Sensor) :=
  mkState (unconnected (to_String16 "app")) (mkHeap 0 ∅) w.

Lemma start_represents w : represents (start w) (mkCache None []).
Proof. constructor; [constructor|]; try done. by intros p [b Hp]. Qed.

(** The instance after its connection, at a time [w]. *)
Definition connected (w : Z) : sm_state (Srv := the_service) :=
  mkState
    (mkManager (Some TheService) (Some 2) (mkVector (Some 1) 2) (Some 0) (to_String16 "app"))
    (mkHeap 3 (<[2 := PtrArray [Some (1, 0); Some (1, 1)]]>
              (<[1 := Storage (sensors two_sensors)]> (<[0 := Observer]> ∅)))) w.

Lemma connected_represents w :
  represents (connected w) (mkCache (Some TheService) (sensors two_sensors)).
Proof.
  constructor; [constructor|]; try done. intros p [b Hp]. simpl in *.
  apply lookup_insert_Some in Hp as [[<- _]|[_ Hp]]; [lia|].
  apply lookup_insert_Some in Hp as [[<- _]|[_ Hp]]; [lia|].
  apply lookup_insert_Some in Hp as [[<- _]|[_ Hp]]; [lia|]. by rw lookup_empty in Hp.
Qed.
End OneService.

Section Witnesses.
Import Loopback OneService.

Lemma manager_refines_cache_witness :
  exists st', manager_do_call (CallGetDefaultSensor 8) (start 5) =
    Done (AnsDefault (Some (1, 8, true)), st') /\
  represents st' (mkCache (Some TheService) (sensors two_sensors)).
Proof.
  destruct (manager_refines_cache (CallGetDefaultSensor 8) (start 5) (mkCache None [])
    (start_represents 5)) as (st' & Hrun & Hrep & _).
  exists st'. split; [exact Hrun|exact Hrep].
Defined.

Lemma service_search_bounded_witness :
  assertStateLocked (start (-100)) = Fatal /\
  exists st', assertStateLocked (start (-3)) = Done (0, st') /\ world st' = 0.
Proof.
  split.
  - destruct (service_search_bounded (start (-100)) (-100) 60) as [Hfatal _].
    + reflexivity.
    + intros j Hj. do 60 (destruct j as [|j]; [reflexivity|]). lia.
    + apply Hfatal; reflexivity.
  - destruct (service_search_bounded (start (-3)) (-3) 3) as [_ Hfound].
    + reflexivity.
    + intros j Hj. do 3 (destruct j as [|j]; [reflexivity|]). lia.
    + eexists. split; [etransitivity; [apply (Hfound 0 (Some TheService) 0)|]|].
      * lia.
      * reflexivity.
      * discriminate.
      * vm_compute. reflexivity.
      * reflexivity.
Defined.

Lemma returned_list_lifetime_witness :
  exists st', sensorManagerDied (connected 5) = Done (tt, st') /\
  h_blocks (memory st') !! 2 = None.
Proof.
  destruct (returned_list_lifetime (Conn := Z) (Queue := Z) (connected 5) _ 2 (connected_represents 5) eq_refl)
    as (_ & _ & Hdied); [discriminate|].
  assert (exists st', sensorManagerDied (connected 5) = Done (tt, st')) as [st' Hrun]
    by (eexists; vm_compute; reflexivity).
  exists st'. split; [exact Hrun|]. exact (proj1 (Hdied st' Hrun)).
Defined.
End Witnesses.
