(* ===== verification/SensorInstances.v ===== *)
(** * The sensor managers of a process

    Model of [SensorManager::getInstanceForPackage] and [getInstance]
    (libshims/gui/SensorManager.cpp): the map from package names to instances,
    which only grows.  [sLock] is held during a call, so a call is one step.

    The file also composes the pieces of the shim: an instance whose service
    is a proxy (SensorServer.v) hands out the list of the service at the other
    end. *)
From S2P Require Import Prelude Status SensorsHal SensorServer SensorManager.

Section Instances.
Context {Srv W Sensor Conn Queue : Type}.
Context `{StatusCodes} `{SensorsHeader} `{SensorClass Sensor}
  `{!ISensorServer Srv W Sensor Conn} `{!SensorEnv Srv W Conn Queue}.

(** [sPackageInstances], and the instances by their number. *)
Record process := mkProcess {
  sPackageInstances : gmap String16 nat;
  instances : list (SensorManager Srv);
  p_memory : heap Sensor;
  p_world : W;
}.

(** [std::map::insert] keeps the value of a key that is there. *)
Definition map_insert (k : String16) (v : nat) (m : gmap String16 nat) : gmap String16 nat :=
  match m !! k with Some _ => m | None => <[k := v]> m end.

(** The package name that an instance is made for. *)
Definition find_package (packageName : String16) (w : W) : String16 * W :=
  if bool_decide (packageName = []) then
    let '(binder, w) := getPermissionService w in
    match binder with
    | Some binder =>
        let '(uid, w) := getCallingUid w in
        let '(packages, w) := getPackagesForUid binder uid w in
        match packages with p :: _ => (p, w) | [] => (packageName, w) end
    | None => (packageName, w)
    end
  else (packageName, w).

Definition getInstanceForPackage (packageName : String16) (p : process) : result (nat * process) :=
  match sPackageInstances p !! packageName with
  | Some sensorManager => Done (sensorManager, p)
  | None =>
      let '(opPackageName, w) := find_package packageName (p_world p) in
      match new_SensorManager opPackageName (p_memory p) w with
      | Done st =>
          let sensorManager := length (instances p) in
          let m := sPackageInstances p in
          let m := if bool_decide (packageName = []) then map_insert [] sensorManager m else m in
          let m := map_insert opPackageName sensorManager m in
          Done (sensorManager,
                mkProcess m (instances p ++ [this st]) (memory st) (world st))
      | Fatal => Fatal
      | Undefined => Undefined
      end
  end.

Definition getInstance (p : process) : result (nat * process) :=
  getInstanceForPackage (to_String16 "MtkCam/SensorListener") p.
End Instances.

(** ** The invariant *)

(** The instances hold their lists, own different blocks, and are registered
    under the package name they were made for (or under the empty name). *)
Record process_ok {Srv W Sensor} (p : process (Srv := Srv) (W := W) (Sensor := Sensor)) : Prop := {
  ok_map k id : sPackageInstances p !! k = Some id ->
    exists m, instances p !! id = Some m /\ (k <> [] -> mOpPackageName m = k);
  ok_heap : heap_wf (p_memory p);
  ok_instances id m : instances p !! id = Some m ->
    exists c, represents (mkState m (p_memory p) (p_world p)) c;
  ok_owned id1 id2 m1 m2 q : instances p !! id1 = Some m1 -> instances p !! id2 = Some m2 ->
    owned m1 q -> owned m2 q -> id1 = id2;
}.

(** * Theorems *)

Section Lemmas.
Context {Srv W Sensor Conn Queue : Type}.
Context `{StatusCodes} `{SensorsHeader} `{SensorClass Sensor}
  `{!ISensorServer Srv W Sensor Conn} `{!SensorEnv Srv W Conn Queue}
  `{!StatusLaws} `{!SensorEnvLaws Srv W Sensor Conn Queue}.

Lemma owned_below (m : SensorManager Srv) (h : heap Sensor) (w : W) c p :
  represents (mkState m h w) c -> owned m p -> p < h_next h.
Proof.
  intros [[Hwf _ [_ Hv] Ho] Hl]; simpl in *. intros [Hp|[Hp|Hp]]; apply Hwf.
  - rw Hp in Hl. simpl in Hl. by rw Hl.
  - rw Hp in Hv. by rw Hv.
  - rw Hp in Ho. by rw Ho.
Qed.

(** What happens to the blocks of others leaves an instance alone. *)
Lemma represents_frame (m : SensorManager Srv) (h h' : heap Sensor) (w w' : W) c X :
  represents (mkState m h w) c -> heap_wf h' -> frames X h h' ->
  (forall p, owned m p -> ~ X p) -> represents (mkState m h' w') c.
Proof.
  intros Hrep Hwf' [_ Hf] HX.
  assert (forall p, owned m p -> h_blocks h' !! p = h_blocks h !! p) as Hsame.
  { intros p Hp. apply Hf; [|by apply HX]. by eapply owned_below. }
  destruct Hrep as [[Hwf Hs [Hsz Hv] Ho] Hl]; simpl in *.
  constructor; [constructor|]; simpl; [done|done| | |].
  - split; [done|]. destruct (v_array (mSensors m)) eqn:E; [|done].
    rw Hsame; [done|]. right. by left.
  - destruct (mDeathObserver m) eqn:E; [|done]. rw Hsame; [done|]. right. by right.
  - unfold list_holds in *. destruct (mSensorList m) eqn:E; [|done]. rw Hsame; [done|]. by left.
Qed.

(** A new instance has blocks of its own. *)
Lemma new_SensorManager_spec pkg (h : heap Sensor) (w : W) :
  heap_wf h ->
  match new_SensorManager (Srv := Srv) (Conn := Conn) (Queue := Queue) pkg h w with
  | Done st => (exists c, represents st c) /\ mOpPackageName (this st) = pkg /\
      frames (fun _ => False) h (memory st) /\ (forall p, owned (this st) p -> h_next h <= p)
  | Fatal => True
  | Undefined => False
  end.
Proof.
  intros Hwf. unfold new_SensorManager.
  assert (represents (mkState (unconnected (Srv := Srv) pkg) h w) (mkCache None [])) as Hrep
    by (by constructor; [constructor|]).
  pose proof (assertStateLocked_refines _ _ Hrep) as Ha. simpl in Ha.
  destruct (spec_assert _ _ _ _) as [[[err c'] w']| |]; [|by rw Ha|done].
  destruct Ha as (st & -> & Hrep' & _ & Hpkg & _ & _ & Hmem).
  split_and!; [by exists c'|done| |].
  - destruct Hmem as [(-> & _)|[_ _ [Hn Hf]]]; [simpl; split; [lia|done]|]. split; [done|].
    intros p Hp _. apply Hf; [done|]. by intros [?|?].
  - destruct Hmem as [(_ & Hl & Hv & Ho)|[Hnew _ _]]; [|exact Hnew].
    intros p. unfold owned. rw Hl Hv Ho. simpl. intros [?|[?|?]]; done.
Qed.

(** [std::map::insert]. *)
Lemma lookup_map_insert (k : String16) (v : nat) (m : gmap String16 nat) j :
  map_insert k v m !! j =
    if decide (j = k) then Some (default v (m !! k)) else m !! j.
Proof.
  unfold map_insert. case_decide as Hj; [subst|].
  - destruct (m !! k) eqn:E; [done|]. by rw lookup_insert_eq.
  - destruct (m !! k); [done|]. by rw lookup_insert_ne.
Qed.

(** The map after a new instance is registered. *)
Lemma registered (m : gmap String16 nat) pkg op id :
  m !! pkg = None -> (pkg <> [] -> op = pkg) ->
  let m' := map_insert op id
    (if bool_decide (pkg = []) then map_insert [] id m else m) in
  m' !! pkg = Some id /\ (forall k i, m !! k = Some i -> m' !! k = Some i) /\
  (forall k i, m' !! k = Some i -> m !! k = Some i \/ (i = id /\ (k = [] \/ k = op))).
Proof.
  intros Hm Hop. case_bool_decide as Hpkg; simpl.
  - subst pkg. clear Hop. split_and!.
    + rw !lookup_map_insert. repeat case_decide; subst; simpl; by rw ?Hm.
    + intros k i Hk. rw !lookup_map_insert.
      destruct (decide (k = [])) as [->|Hne]; [congruence|].
      destruct (decide (k = op)) as [<-|]; [|done].
      by destruct (decide (k = [])); [|rw Hk].
    + intros k i. rw !lookup_map_insert. destruct (decide (k = op)) as [->|Hk].
      * destruct (decide (op = [])); simpl; [rw Hm; intros [= <-]; tauto|].
        destruct (m !! op); intros [= <-]; tauto.
      * destruct (decide (k = [])) as [->|]; [rw Hm; intros [= <-]; tauto|tauto].
  - rw (Hop Hpkg). clear Hop op. split_and!.
    + rw lookup_map_insert. case_decide; [|done]. by rw Hm.
    + intros k i Hk. rw lookup_map_insert. case_decide; [|done]. subst. congruence.
    + intros k i. rw lookup_map_insert. case_decide; [|by left]. subst. rw Hm. naive_solver.
Qed.

Lemma find_package_nonempty pkg (w : W) : pkg <> [] -> find_package pkg w = (pkg, w).
Proof. intros Hp. unfold find_package. by rw bool_decide_false. Qed.

(** While the service answers, [getSensorList] leads to the cached list. *)
Lemma cached_list (st : sm_state (Srv := Srv) (W := W) (Sensor := Sensor)) c server :
  represents st c -> c_server c = Some server -> (pingBinder server (world st)).1 = OK ->
  exists st', manager_do_call CallGetSensorList st = Done (AnsSensors (c_sensors c), st') /\
  represents st' c.
Proof.
  intros Hrep Hs Hping. pose proof (assertStateLocked_refines st c Hrep) as Ha. simpl in Ha.
  unfold spec_assert in Ha. rw Hs in Ha. destruct (pingBinder server (world st)) as [err w'].
  simpl in Hping. subst err. rw Z.eqb_refl in Ha. simpl in Ha.
  destruct Ha as (st' & Hrun & Hrep' & _). exists st'. split; [|done].
  unfold manager_do_call, SensorManager_getSensorList. m_unfold. rw Hrun.
  pose proof ok_zero as Hok. destruct (Z.ltb_spec OK 0); [lia|]. simpl.
  destruct (rep_vector _ _ (rep_but_list _ _ Hrep')) as [-> _]. rw Nat2Z.id.
  by rw (read_list_spec st' c _ 0 Hrep').
Qed.
End Lemmas.

(** C15: one instance per package.  In a process whose instances hold their
    lists and own different memory, [getInstanceForPackage] keeps all that and
    returns the instance registered under the name, now and for ever: nothing
    that was registered is registered anew or changed, and a name that is
    registered gets its instance without any effect.  For a new name exactly
    one instance is made.  The only other outcome is an abort, for a new name
    whose service cannot be found. *)
Theorem getInstanceForPackage_spec {Srv W Sensor Conn Queue}
    `{StatusCodes} `{SensorsHeader} `{SensorClass Sensor}
    `{!ISensorServer Srv W Sensor Conn} `{!SensorEnv Srv W Conn Queue}
    `{!StatusLaws} `{!SensorEnvLaws Srv W Sensor Conn Queue}
    (pkg : String16) (p : process) (Hok : process_ok p) :
  match getInstanceForPackage pkg p with
  | Done (id, p') =>
      process_ok p' /\ sPackageInstances p' !! pkg = Some id /\
      (forall k i, sPackageInstances p !! k = Some i -> sPackageInstances p' !! k = Some i) /\
      (exists new, instances p' = instances p ++ new /\
         if decide (is_Some (sPackageInstances p !! pkg)) then p' = p
         else id = length (instances p) /\ length new = 1%nat)
  | Fatal => sPackageInstances p !! pkg = None
  | Undefined => False
  end.
Proof.
  unfold getInstanceForPackage. destruct (sPackageInstances p !! pkg) as [id|] eqn:Hpkg.
  { split_and!; [done|done|done|]. exists []. by rw app_nil_r. }
  destruct (find_package pkg (p_world p)) as [op w] eqn:Hop.
  destruct Hok as [Hmap Hheap Hinst Howned].
  pose proof (new_SensorManager_spec op (p_memory p) w Hheap) as Hnew.
  destruct (new_SensorManager op (p_memory p) w) as [st| |]; [|done|done].
  destruct Hnew as ([c Hrep] & Hname & Hframe & Hfresh).
  destruct (registered (sPackageInstances p) pkg op (length (instances p)) Hpkg) as (Hreg & Hkeep & Hreg').
  { intros Hne. rw find_package_nonempty in Hop; [by injection Hop|done]. }
  split_and!; [|done|done|].
  2: { exists [this st]. split; [done|]. case_decide as Hsome; [by destruct Hsome|done]. }
  assert (forall id m q, instances p !! id = Some m -> owned m q -> q < h_next (p_memory p)) as Hbelow.
  { intros i m q Hm Hq. destruct (Hinst i m Hm) as [c' Hc]. by eapply owned_below. }
  constructor; simpl.
  - intros k i Hk. destruct (Hreg' k i Hk) as [Hold|[-> Hk']].
    + destruct (Hmap k i Hold) as (m & Hm & Hn). exists m. split; [by apply lookup_app_l_Some|done].
    + exists (this st). split; [by rw list_lookup_middle|].
      intros Hne. destruct Hk' as [Hk'| ->]; [done|exact Hname].
  - apply (rep_wf _ _ (rep_but_list _ _ Hrep)).
  - intros i m [Hm|[_ Hm]]%lookup_app_Some.
    + destruct (Hinst i m Hm) as [c' Hc]. exists c'. eapply represents_frame; [exact Hc| |exact Hframe|by intros ? _ []].
      apply (rep_wf _ _ (rep_but_list _ _ Hrep)).
    + apply list_lookup_singleton_Some in Hm as [_ <-]. exists c. by destruct st.
  - intros i1 i2 m1 m2 q [Hm1|[Hi1 Hm1]]%lookup_app_Some [Hm2|[Hi2 Hm2]]%lookup_app_Some Hq1 Hq2.
    + by eapply Howned.
    + apply list_lookup_singleton_Some in Hm2 as [_ <-].
      specialize (Hbelow _ _ _ Hm1 Hq1). specialize (Hfresh _ Hq2). lia.
    + apply list_lookup_singleton_Some in Hm1 as [_ <-].
      specialize (Hbelow _ _ _ Hm2 Hq2). specialize (Hfresh _ Hq1). lia.
    + apply list_lookup_singleton_Some in Hm1 as [? _].
      apply list_lookup_singleton_Some in Hm2 as [? _]. lia.
Qed.

(** C16: from the service to the client.  Let the service manager give out a
    proxy for the binder object of the service [srv].  A new instance then
    holds the list that [srv] returned for its package while it was being
    constructed, after the instance had registered for its death; and as long as
    the service answers pings, a client that follows the pointers of
    [getSensorList] finds exactly that list, however often it asks. *)
Theorem remote_list_delivered {Srv W Sensor Conn Queue IBinder parcel}
    `{StatusCodes} `{SensorsHeader} `{SensorClass Sensor} `{IBinderHeader}
    `{!ParcelLib Sensor IBinder parcel} `{!Binder Srv W Conn IBinder parcel}
    `{!ISensorServer Srv W Sensor Conn} `{!SensorEnv (BpSensorServer IBinder) W Conn Queue}
    `{!StatusLaws} `{!ParcelLaws Sensor IBinder parcel}
    `{!SensorEnvLaws (BpSensorServer IBinder) W Sensor Conn Queue}
    (srv : Srv) (b : IBinder) (Ht : Transport srv b)
    (pkg : String16) (h : heap Sensor) (w w1 w2 : W) (v : list Sensor)
    (Hh : heap_wf h)
    (Hfound : find_service 60 None w = (None, Some (mkBp b), w1))
    (Hlist : getSensorList srv pkg (linkToDeath (mkBp b) (h_next h) w1) = (v, w2))
    (Hlen : Z.of_nat (length v) < 2 ^ 32)
    (Hmalloc : malloc_ok (Z.of_nat (length v) * sizeof_pointer) = true)
    (Hping : forall w, (pingBinder (mkBp b) w).1 = OK) :
  exists st, new_SensorManager pkg h w = Done st /\ world st = w2 /\
  forall n, exists st', Nat.iter n (fun r => match r with
      | Done (_, st) => manager_do_call CallGetSensorList st | r => r end)
      (Done (AnsSensors v, st)) = Done (AnsSensors v, st').
Proof.
  assert (getSensorList (mkBp b) pkg (linkToDeath (mkBp b) (h_next h) w1) = (v, w2)) as Hremote.
  { etransitivity; [apply (transact_list srv b _ (getSensorList srv) pkg _ Ht)|].
    - intros data reply w'. apply (onTransact_switch srv data reply 0 w').
    - rw Hlist. unfold u32. rw Z.mod_small; [|lia]. rw Nat2Z.id. by rw take_ge. }
  assert (represents (mkState (unconnected (Srv := BpSensorServer IBinder) pkg) h w)
    (mkCache None [])) as Hrep by (by constructor; [constructor|]).
  pose proof (assertStateLocked_refines _ _ Hrep) as Ha. simpl in Ha.
  unfold spec_assert, spec_connect in Ha. simpl in Ha, Hremote.
  rw Hfound Hremote Hmalloc in Ha.
  destruct Ha as (st & Hrun & Hrep' & Hw & _). exists st.
  split; [unfold new_SensorManager; by rw Hrun|]. split; [done|].
  intros n. assert (exists st', Nat.iter n (fun r => match r with
      | Done (_, st) => manager_do_call CallGetSensorList st | r => r end)
      (Done (AnsSensors v, st)) = Done (AnsSensors v, st') /\
      represents st' (mkCache (Some (mkBp b)) v)) as (st' & ? & _); [|by exists st'].
  induction n as [|n (st' & IH & Hrepn)]; [by exists st|]. simpl. rw IH.
  apply (cached_list st' _ (mkBp b) Hrepn eq_refl). apply Hping.
Qed.

Section Witnesses.
Import Loopback OneService.

Definition new_process (w : Z) : process (Srv := the_service) (Sensor := Sensor) :=
  mkProcess ∅ [] (mkHeap 0 ∅) w.

Lemma new_process_ok w : process_ok (new_process w).
Proof.
  constructor; simpl.
  - intros k id Hk. by rw lookup_empty in Hk.
  - by intros p [b Hp].
  - intros id m Hm. by rw lookup_nil in Hm.
  - intros i1 i2 m1 m2 q Hm. by rw lookup_nil in Hm.
Qed.

(** A caller without a package name gets the instance of its UID's package. *)
Lemma getInstanceForPackage_spec_witness :
  exists id p', getInstanceForPackage [] (new_process 5) = Done (id, p') /\ process_ok p' /\
  sPackageInstances p' !! [] = Some id.
Proof.
  pose proof (getInstanceForPackage_spec [] (new_process 5) (new_process_ok 5)) as Hspec.
  destruct (getInstanceForPackage [] (new_process 5)) as [[id p']| |] eqn:Hrun.
  - destruct Hspec as (Hok & Hget & _). exists id, p'. split; [reflexivity|]. by split.
  - vm_compute in Hrun. discriminate.
  - destruct Hspec.
Defined.

(** A service manager that gives out proxies for the binder object 7. *)
#[local] Instance remote_binder : Binder service Z Z Z parcel := binder_to two_sensors.
#[local] Instance remote_environment : SensorEnv (BpSensorServer Z) Z Z Z := {
  sizeof_pointer := 4;
  malloc_ok size := size <? 1000;
  pingBinder srv w := (0, w);
  getService name out w := (0, Some (mkBp 7), w);
  linkToDeath srv o w := w;
  sleep n w := w + n;
  new_SensorEventQueue c w := (c, w);
  getPermissionService w := (None, w);
  getCallingUid w := (1000, w);
  getPackagesForUid b uid w := ([], w);
}.

#[local] Instance remote_environment_laws : SensorEnvLaws (BpSensorServer Z) Z Sensor Z Z.
Proof. constructor; [by left|done|]. intros [b] pkg w. vm_compute. reflexivity. Qed.

Lemma remote_list_delivered_witness :
  exists st, new_SensorManager (Srv := BpSensorServer Z) (to_String16 "app") (mkHeap 0 ∅) 3 =
    Done st /\ world st = 3.
Proof.
  destruct (remote_list_delivered two_sensors 7 (transport two_sensors 7) (to_String16 "app")
    (mkHeap 0 ∅) 3 3 3 (sensors two_sensors)) as (st & Hnew & Hw & _).
  - by intros p [b Hp].
  - reflexivity.
  - reflexivity.
  - reflexivity.
  - reflexivity.
  - reflexivity.
  - exists st. split; [exact Hnew|exact Hw].
Defined.
End Witnesses.
