(* ===== verification/SensorManagerThreads.v ===== *)
(** * A death notification during the construction of a sensor manager

    Every call of a [SensorManager] and the death notification take [mLock],
    so they are the atomic computations of SensorManager.v.  The constructors
    call [assertStateLocked] without the lock ("it's not needed during
    construction"), but that function registers the instance for the
    notification, which a thread of libbinder may then deliver.

    This file is [assertStateLocked] from the point where it has found the
    service, in three steps, with the notification between them: enabled when
    the observer is registered and [mLock] is free. *)
From S2P Require Import Prelude Status SensorsHal SensorServer SensorManager.

(** Where the thread is: about to register, to fetch the sensors, to build
    the list, or done. *)
Inductive connect_pc := CObserve | CFetch | CBuild | CReturned.

Inductive connect_state (St : Type) :=
| Running (pc : connect_pc) (st : St)
| Aborted
| Crashed.
Arguments Running {St}.
Arguments Aborted {St}.
Arguments Crashed {St}.

Inductive connect_label := LConnect | LDied.

Section Steps.
Context {Srv W Sensor Conn Queue : Type}.
Context `{StatusCodes} `{SensorsHeader} `{SensorClass Sensor}
  `{!ISensorServer Srv W Sensor Conn} `{!SensorEnv Srv W Conn Queue}.

Abbreviation state := (sm_state (Srv := Srv) (W := W) (Sensor := Sensor)).

(** The next step of the thread. *)
Definition connect_next (pc : connect_pc) : M (Srv := Srv) (W := W) (Sensor := Sensor) connect_pc :=
  match pc with
  | CObserve => observe_server;; mret CFetch
  | CFetch => fetch_sensors;; mret CBuild
  | CBuild => build_list;; mret CReturned
  | CReturned => mret CReturned
  end.

Definition outcome_state (r : result (connect_pc * state)) : connect_state state :=
  match r with
  | Done (pc, st) => Running pc st
  | Fatal => Aborted
  | Undefined => Crashed
  end.

(** [locked]: the thread holds [mLock]. *)
Inductive connect_step (locked : bool) :
    connect_state state -> connect_label -> connect_state state -> Prop :=
| c_thread pc st :
    pc <> CReturned ->
    connect_step locked (Running pc st) LConnect (outcome_state (connect_next pc st))
| c_died pc st o :
    locked = false -> pc <> CObserve -> mDeathObserver (this st) = Some o ->
    connect_step locked (Running pc st) LDied
      (outcome_state ((sensorManagerDied;; mret pc) st)).
End Steps.

(** * Theorems *)

Section Lemmas.
Context {Srv W Sensor Conn Queue : Type}.
Context `{StatusCodes} `{SensorsHeader} `{SensorClass Sensor}
  `{!ISensorServer Srv W Sensor Conn} `{!SensorEnv Srv W Conn Queue}
  `{!StatusLaws} `{!SensorEnvLaws Srv W Sensor Conn Queue}.

Abbreviation state := (sm_state (Srv := Srv) (W := W) (Sensor := Sensor)).

(** What holds of the thread at each point when nobody interferes. *)
Definition connecting (server : Srv) (s : connect_state state) : Prop :=
  match s with
  | Running CObserve st | Running CFetch st =>
      exists c, represents st c /\ c_server c = Some server
  | Running CBuild st =>
      exists v, represents_but_list st (mkCache (Some server) v) /\
      Z.of_nat (length v) * sizeof_pointer < 2 ^ (8 * sizeof_pointer)
  | Running CReturned st => exists v, represents st (mkCache (Some server) v)
  | Aborted => True
  | Crashed => False
  end.

Lemma connecting_step server s l s' :
  connecting server s -> connect_step true s l s' -> connecting server s'.
Proof.
  intros Hinv Hstep. destruct Hstep as [pc st Hpc|pc st o Hlocked]; [|done].
  unfold outcome_state, connect_next, mbind, M_bind. destruct pc; simpl in Hinv; [| | |done].
  - destruct Hinv as (c & Hrep & Hs).
    destruct (observe_server_spec st c server Hrep Hs) as (st' & -> & Hrep' & _). by exists c.
  - destruct Hinv as (c & Hrep & Hs).
    destruct (fetch_sensors_spec st c server Hrep Hs) as (st' & -> & Hrep' & _).
    eexists. split; [exact Hrep'|]. apply vector_fits.
  - destruct Hinv as (v & Hrep & Hfit). pose proof (build_list_spec st _ Hrep Hfit) as Hb.
    destruct (malloc_ok _); [|by rw Hb]. destruct Hb as (st' & -> & Hrep' & _). by exists v.
Qed.
End Lemmas.

(** C18: why the constructor needs the lock.  With [mLock] held, a thread that
    has found the service and connects never crashes, whatever it was
    connected to before, and if it returns, the instance has the service's list.
    Without the lock, as in the constructors, every connection that can be made
    has an execution that crashes: the notification arrives after the observer
    is registered, clears [mSensorServer], and the next line calls a method
    of the null pointer. *)
Theorem constructor_needs_lock {Srv W Sensor Conn Queue}
    `{StatusCodes} `{SensorsHeader} `{SensorClass Sensor}
    `{!ISensorServer Srv W Sensor Conn} `{!SensorEnv Srv W Conn Queue}
    `{!StatusLaws} `{!SensorEnvLaws Srv W Sensor Conn Queue}
    (st : sm_state) (c : cache) (server : Srv)
    (Hrep : represents st c) (Hs : c_server c = Some server) :
  (forall tr s, run (connect_step true) (Running CObserve st) tr s ->
     s <> Crashed /\
     forall st', s = Running CReturned st' -> exists v, represents st' (mkCache (Some server) v)) /\
  run (connect_step false) (Running CObserve st) [LConnect; LDied; LConnect] Crashed.
Proof.
  split.
  - intros tr s Hrun. assert (connecting server s) as Hinv.
    { revert tr s Hrun. apply (run_invariant _ (fun _ => connecting server)); [by exists c|].
      intros _ s l s'. apply connecting_step. }
    destruct s as [[] st'| |]; split; try done; intros st2 [= <-]; exact Hinv.
  - destruct (observe_server_spec st c server Hrep Hs)
      as (st1 & Hrun1 & Hrep1 & _ & _ & _ & _ & Ho & _).
    destruct (sensorManagerDied_spec st1 c Hrep1) as (st2 & Hrun2 & Hrep2 & _).
    apply run_cons with (Running CFetch st1).
    { replace (Running CFetch st1) with (outcome_state (connect_next CObserve st)); [by constructor|].
      unfold outcome_state, connect_next, mbind, M_bind. by rw Hrun1. }
    apply run_cons with (Running CFetch st2).
    { replace (Running CFetch st2) with (outcome_state ((sensorManagerDied;; mret CFetch) st1));
        [by eapply c_died|]. unfold outcome_state, mbind, M_bind. by rw Hrun2. }
    apply run_one. replace Crashed with (outcome_state (connect_next CFetch st2)); [by constructor|].
    pose proof (rep_server _ _ (rep_but_list _ _ Hrep2)) as Hnull.
    unfold outcome_state, connect_next, fetch_sensors. m_unfold. by rw Hnull.
Qed.

Section Witnesses.
Import Loopback OneService.

(** An instance that has just found the service. *)
Definition found : sm_state (Srv := the_service) (Sensor := Sensor) :=
  with_server (start 5) (Some TheService) 5.

Lemma constructor_needs_lock_witness :
  run (connect_step (Conn := Z) (Queue := Z) false) (Running CObserve found)
    [LConnect; LDied; LConnect] Crashed.
Proof.
  apply (constructor_needs_lock found (mkCache (Some TheService) []) TheService); [|reflexivity].
  apply (represents_with_server (start 5) (mkCache None [])), start_represents.
Defined.
End Witnesses.
