(* ===== verification/LegacyShims.v ===== *)
(** * The small shims and the module loader

    Models of libshims/gui/Fence.cpp, libshims/gui/GraphicBufferMapper.cpp,
    libshims/gui/GraphicBuffer.cpp, libshims/libshim_log.cpp and dlopener/dlopen.c.

    The kernel's [close], the gralloc module, libui's constructors and the
    dynamic loader are parameters.  camera_legacy.c only defines a variable, so
    that the linker keeps a symbol. *)
From S2P Require Import Prelude.

(** ** Fence.cpp *)

Module Fence.
(** The [int]s in memory by address, the open descriptors, and the calls of
    [close] so far. *)
Record fence_state := mkFence {
  ints : gmap Z Z;
  open_fds : gset Z;
  closed : list Z;
}.

Definition sizeof_int32 : Z := 4.

(** [close]; of a descriptor that is not open it fails and does nothing. *)
Definition close (fd : Z) : stM fence_state unit := fun s =>
  Some (tt, mkFence (ints s) (open_fds s ∖ {[fd]}) (closed s ++ [fd])).

Definition load (p : Z) : stM fence_state Z := fun s => (fun z => (z, s)) <$> ints s !! p.

Definition store (p z : Z) : stM fence_state unit := fun s =>
  match ints s !! p with
  | Some _ => Some (tt, mkFence (<[p := z]> (ints s)) (open_fds s) (closed s))
  | None => None
  end.

Definition mozart_legacy_fence_destructor (fence : Z) : stM fence_state unit :=
  let fd := fence + sizeof_int32 in
  v ← load fd;
  if 0 <=? v then
    v ← load fd;
    close v;;
    store fd (-1)
  else mret tt.

(** [n] runs of the destructor. *)
Fixpoint destroy_times (n : nat) (fence : Z) : stM fence_state unit :=
  match n with
  | O => mret tt
  | S n => mozart_legacy_fence_destructor fence;; destroy_times n fence
  end.

Lemma destroyed_is_inert n fence s :
  ints s !! (fence + sizeof_int32) = Some (-1) -> destroy_times n fence s = Some (tt, s).
Proof.
  intros Hfd. induction n as [|n IH]; simpl; [done|].
  unfold mozart_legacy_fence_destructor, load. st_unfold. rw Hfd. simpl. exact IH.
Qed.

(** The descriptor of a fence is closed once, however often the destructor
    runs; one that is negative is left alone; no other memory is touched. *)
Theorem fence_closed_once n fence fd s :
  ints s !! (fence + sizeof_int32) = Some fd ->
  destroy_times (S n) fence s =
    Some (tt, if 0 <=? fd
              then mkFence (<[fence + sizeof_int32 := -1]> (ints s)) (open_fds s ∖ {[fd]})
                     (closed s ++ [fd])
              else s).
Proof.
  intros Hfd. simpl. unfold mozart_legacy_fence_destructor, load, close, store. st_unfold.
  rw Hfd. simpl. destruct (Z.leb_spec 0 fd) as [Hge|Hlt].
  - rw Hfd. simpl. rw Hfd. rw destroyed_is_inert; [done|]. simpl. by rw lookup_insert_eq.
  - revert s Hfd. induction n as [|n IH]; intros s Hfd; [done|]. simpl.
    unfold mozart_legacy_fence_destructor, load. st_unfold. rw Hfd. simpl.
    destruct (Z.leb_spec 0 fd); [lia|]. by apply IH.
Qed.
End Fence.

(** ** GraphicBuffer.cpp *)

Module GraphicBuffer.
(** The two constructors of libui that the shim calls, with their arguments in
    libui's order; the first argument is where the object is made. *)
Inductive constructor_call :=
| NewSized (buffer width height format usage : Z) (requestorName : string)
| NewWrapped (buffer width height format layerCount usage stride handle : Z)
    (keepOwnership : bool).

Section Constructors.
Context {W : Type} (construct : constructor_call -> W -> W).

(** [PixelFormat] is [int32_t], so the cast changes nothing. *)
Definition graphic_buffer_ctor_size_legacy (buffer width height format usage : Z) (w : W) : W :=
  construct (NewSized buffer width height format usage "mozart-camera") w.

(** Android 6 passed no layer count. *)
Definition graphic_buffer_ctor_handle_legacy (buffer width height format usage stride handle : Z)
    (keep_ownership : bool) (w : W) : W :=
  construct (NewWrapped buffer width height format 1 usage stride handle keep_ownership) w.
End Constructors.
End GraphicBuffer.

(** ** libshim_log.cpp *)

Definition __android_janklog_print : Z := 0.

(** ** GraphicBufferMapper.cpp *)

Module GraphicBufferMapper.
Section Mapper.
Context {W : Type}.

(** [gralloc_module_t]: its address and the callbacks; a null one is [None]. *)
Record gralloc_module_t := mkGralloc {
  module_address : Z;
  registerBuffer : option (Z -> Z -> W -> Z * W);
  unregisterBuffer : option (Z -> Z -> W -> Z * W);
}.

(** [hw_get_module]: its status and what it stores in [module] (null before
    the call). *)
Variable hw_get_module : string -> W -> Z * option gralloc_module_t * W.
Variable GRALLOC_HARDWARE_MODULE_ID : string.

Definition get_gralloc_module (w : W) : option gralloc_module_t * W :=
  let '(status, module, w) := hw_get_module GRALLOC_HARDWARE_MODULE_ID w in
  if negb (status =? 0) then (None, w) else (module, w).

Definition graphic_buffer_mapper_register_legacy (handle : Z) (w : W) : Z * W :=
  let '(module, w) := get_gralloc_module w in
  match module with
  | None => (- ENODEV, w)
  | Some module =>
      match registerBuffer module with
      | None => (- ENODEV, w)
      | Some f => f (module_address module) handle w
      end
  end.

Definition graphic_buffer_mapper_unregister_legacy (handle : Z) (w : W) : Z * W :=
  let '(module, w) := get_gralloc_module w in
  match module with
  | None => (- ENODEV, w)
  | Some module =>
      match unregisterBuffer module with
      | None => (- ENODEV, w)
      | Some f => f (module_address module) handle w
      end
  end.

(** Without a module, or without the callback, the answer is [-ENODEV] and
    nothing but the lookup has happened. *)
Theorem mapper_no_device handle (w : W) :
  (let '(status, module, w') := hw_get_module GRALLOC_HARDWARE_MODULE_ID w in
   status <> 0 \/ module = None ->
   graphic_buffer_mapper_register_legacy handle w = (- ENODEV, w') /\
   graphic_buffer_mapper_unregister_legacy handle w = (- ENODEV, w')) /\
  (forall m w', hw_get_module GRALLOC_HARDWARE_MODULE_ID w = (0, Some m, w') ->
   graphic_buffer_mapper_register_legacy handle w =
     match registerBuffer m with
     | Some f => f (module_address m) handle w' | None => (- ENODEV, w') end /\
   graphic_buffer_mapper_unregister_legacy handle w =
     match unregisterBuffer m with
     | Some f => f (module_address m) handle w' | None => (- ENODEV, w') end).
Proof.
  unfold graphic_buffer_mapper_register_legacy, graphic_buffer_mapper_unregister_legacy,
    get_gralloc_module. split.
  - destruct (hw_get_module _ w) as [[status module] w']. intros Hno.
    destruct (Z.eqb_spec status 0) as [->|]; simpl; [|done]. by destruct Hno as [Hs | ->].
  - intros m w' ->. simpl. by destruct (registerBuffer m), (unregisterBuffer m).
Qed.
End Mapper.
End GraphicBufferMapper.

(** ** dlopen.c *)

Module Dlopener.
Section Main.
Context {W : Type}.
(** [dlopen] with [RTLD_NOW]: the handle, [None] when it fails. *)
Variable dlopen : string -> W -> option Z * W.

(** The text goes to the standard output and is left out. *)
Definition main (argv : list string) (w : W) : Z * W :=
  let status := - EINVAL in
  if (Z.of_nat (length argv) <=? 1) then (status, w)
  else
    let path := default ""%string (argv !! 1%nat) in
    let '(handle, w) := dlopen path w in
    match handle with
    | None => (- EINVAL, w)
    | Some _ => (status, w)
    end.

(** The loader opens exactly the module it is asked for, and reports failure
    whether or not that succeeds: [status] is never set to 0. *)
Theorem dlopener_always_fails argv w :
  (main argv w).1 = - EINVAL /\
  (main argv w).2 = match argv with _ :: path :: _ => (dlopen path w).2 | _ => w end.
Proof.
  unfold main. destruct argv as [|a [|path argv]]; simpl; [done|done|].
  destruct (Z.leb_spec (Z.of_nat (S (S (length argv)))) 1); [lia|].
  by destruct (dlopen path w) as [[h|] w'].
Qed.
End Main.
End Dlopener.
