(* ===== verification/AudioFrames.v ===== *)
(** * Frame sizes of audio streams

    Model of the inline functions of include/hardware/audio.h: the frame size
    of a stream, of an output and of an input stream, and the opening and
    closing of the device.  Of [struct audio_stream] only the two function
    pointers they call are here; they are calls into the audio HAL, computations
    on its state [W].

    The functions of system/audio.h are parameters (class [AudioSystem]);
    [AudioSystemLaws] says what its comments do: a channel mask is at most 32
    bits, its two top bits are its representation, and the number of channels is
    the number of the other bits. *)
From S2P Require Import Prelude.

(** [popcount] of utils: the bits of a 32-bit word. *)
Definition popcount (x : Z) : Z :=
  Z.of_nat (length (filter (fun i => Z.testbit x i = true) (Z.of_nat <$> seq 0 32))).

Class AudioSystem := {
  audio_has_proportional_frames : Z -> bool;
  audio_bytes_per_sample : Z -> Z;
  audio_channel_count_from_out_mask : Z -> Z;
  audio_channel_count_from_in_mask : Z -> Z;
  size_bits : Z;   (* the bits of a size_t *)
}.

(** [audio_channel_mask_get_bits] and the representation. *)
Definition mask_bits (mask : Z) : Z := Z.land mask 1073741823.
Definition is_position_mask (mask : Z) : Prop := Z.shiftr mask 30 = 0.

Class AudioSystemLaws `{AudioSystem} : Prop := {
  size_width : size_bits = 32 \/ size_bits = 64;
  sample_size format : 0 <= audio_bytes_per_sample format <= 8;
  out_count mask : is_position_mask mask ->
    audio_channel_count_from_out_mask mask = popcount (mask_bits mask);
  in_count mask : is_position_mask mask ->
    audio_channel_count_from_in_mask mask = popcount (mask_bits mask);
}.

Section Frames.
Context {W : Type} `{AudioSystem}.

Record audio_stream := mkStream {
  get_format : W -> Z * W;
  get_channels : W -> Z * W;
}.

(** [struct audio_stream_out], [struct audio_stream_in]: the first member. *)
Record audio_stream_out := mkOut { out_common : audio_stream }.
Record audio_stream_in := mkIn { in_common : audio_stream }.

Definition size_t (z : Z) : Z := z mod 2 ^ size_bits.

Definition audio_stream_frame_size (s : audio_stream) (w : W) : Z * W :=
  let '(format, w) := get_format s w in
  if audio_has_proportional_frames format then
    let chan_samp_sz := size_t (audio_bytes_per_sample format) in
    let '(mask, w) := get_channels s w in
    (size_t (popcount mask * chan_samp_sz), w)
  else (1, w).

Definition audio_stream_out_frame_size (s : audio_stream_out) (w : W) : Z * W :=
  let '(format, w) := get_format (out_common s) w in
  if audio_has_proportional_frames format then
    let chan_samp_sz := size_t (audio_bytes_per_sample format) in
    let '(mask, w) := get_channels (out_common s) w in
    (size_t (audio_channel_count_from_out_mask mask * chan_samp_sz), w)
  else (1, w).

Definition audio_stream_in_frame_size (s : audio_stream_in) (w : W) : Z * W :=
  let '(format, w) := get_format (in_common s) w in
  if audio_has_proportional_frames format then
    let chan_samp_sz := size_t (audio_bytes_per_sample format) in
    let '(mask, w) := get_channels (in_common s) w in
    (size_t (audio_channel_count_from_in_mask mask * chan_samp_sz), w)
  else (1, w).
End Frames.

Section Device.
Context {W Device : Type}.
(** [module->methods->open] and [device->common.close]. *)
Variable open : string -> W -> Z * option Device * W.
Variable close : Device -> W -> Z * W.

Definition AUDIO_HARDWARE_INTERFACE : string := "audio_hw_if".

Definition audio_hw_device_open (w : W) : Z * option Device * W :=
  open AUDIO_HARDWARE_INTERFACE w.
Definition audio_hw_device_close (device : Device) (w : W) : Z * W := close device w.
End Device.

(** * Theorems *)

Section Lemmas.
Context `{AudioSystemLaws}.

Lemma popcount_range x : 0 <= popcount x <= 32.
Proof.
  unfold popcount. pose proof (length_filter (fun i => Z.testbit x i = true) (Z.of_nat <$> seq 0 32)).
  rw length_fmap length_seq in H1. lia.
Qed.

(** A position mask has only its bits. *)
Lemma position_mask_bits mask : 0 <= mask < 2 ^ 32 -> is_position_mask mask -> mask_bits mask = mask.
Proof.
  unfold is_position_mask, mask_bits. intros Hm Hp.
  rw Z.shiftr_div_pow2 in Hp; [|lia]. change 1073741823 with (Z.ones 30).
  rw Z.land_ones; [|lia]. apply Z.mod_small.
  pose proof (Z.div_mod mask (2 ^ 30)) as Hd. pose proof (Z.mod_pos_bound mask (2 ^ 30)). lia.
Qed.

Lemma size_t_small z : 0 <= z < 2 ^ 32 -> size_t z = z.
Proof.
  intros Hz. unfold size_t. apply Z.mod_small. destruct size_width as [-> | ->]; lia.
Qed.
End Lemmas.

(** Frame sizes.  For a format without proportional frames a frame is one
    byte; otherwise it is exactly the number of channels times the bytes of a
    sample, with no overflow, on both ABIs, as long as there are at most 2^28
    channels.  The deprecated function agrees with the other two when the stream
    reports a positional mask, and counts the representation bits as channels
    when it does not. *)
Theorem frame_sizes {W} `{AudioSystemLaws} (s : audio_stream (W := W)) (w : W) :
  let '(format, w1) := get_format s w in
  let '(mask, w2) := get_channels s w1 in
  0 <= mask < 2 ^ 32 ->
  0 <= audio_channel_count_from_out_mask mask < 2 ^ 28 ->
  0 <= audio_channel_count_from_in_mask mask < 2 ^ 28 ->
  if audio_has_proportional_frames format then
    audio_stream_out_frame_size (mkOut s) w =
      (audio_channel_count_from_out_mask mask * audio_bytes_per_sample format, w2) /\
    audio_stream_in_frame_size (mkIn s) w =
      (audio_channel_count_from_in_mask mask * audio_bytes_per_sample format, w2) /\
    audio_stream_frame_size s w = (popcount mask * audio_bytes_per_sample format, w2) /\
    (is_position_mask mask ->
     audio_stream_frame_size s w = audio_stream_out_frame_size (mkOut s) w /\
     audio_stream_frame_size s w = audio_stream_in_frame_size (mkIn s) w)
  else
    audio_stream_frame_size s w = (1, w1) /\ audio_stream_out_frame_size (mkOut s) w = (1, w1) /\
    audio_stream_in_frame_size (mkIn s) w = (1, w1).
Proof.
  unfold audio_stream_frame_size, audio_stream_out_frame_size, audio_stream_in_frame_size. simpl.
  destruct (get_format s w) as [format w1]. destruct (get_channels s w1) as [mask w2].
  intros Hmask Hout Hin. destruct (audio_has_proportional_frames format); [|done].
  pose proof (sample_size format) as Hsz. pose proof (popcount_range mask) as Hpop.
  rw (size_t_small (audio_bytes_per_sample format)); [|lia].
  rw !size_t_small; [|nia..]. split_and!; try done. intros Hpos.
  rw out_count; [|done]. rw in_count; [|done]. by rw position_mask_bits.
Qed.
